(* ===== verification/_CoqProject ===== *)
-Q . S2P
Prelude.v
CppStd.v
CppString.v
Prog.v
Domain.v
Contracts.v
ProcfsParsers.v
Float.v
SystemMetricsParser.v
OsCalls.v
ProcFsProvider.v
SocketInodeResolver.v
InetDiagCodec.v
NetlinkSocketProvider.v
LinuxSignalProvider.v
Sim.v
ServiceService.v
ProcessService.v
PortService.v
PortServiceProofs.v
PortServiceTheorems.v
ResourceResolver.v
LogService.v
MetricsService.v
FindService.v
InspectService.v
DashboardService.v
DashboardWorker.v
DoctorService.v
SystemdJournalProvider.v
JournalSpec.v
SystemdServiceProvider.v
LinuxAdapters.v
JsonSerializer.v
CliText.v
CliApp.v
CliOptions.v
CliAppTheorems.v
CliFollow.v
InterruptGuard.v
Tui.v
TuiScreen.v
TaskWorker.v
TuiRun.v
TuiFrame.v
Handles.v
Main.v
