(* ===== verification/Prelude.v ===== *)
(** * LX: a verification library for the LX Linux resource manager

LX ([lx]) inspects the processes, sockets, systemd services and journal of a Linux
host and carries out a few guarded actions on them: it signals processes, frees ports,
starts and stops services.  This library translates the C++ program under [src/] into
Rocq, file by file, and proves what makes it correct.

** How the program is built, and where each part is

A command of the user goes down through four layers:

- [main] and the command line ([src/main.cpp], [src/cli/], [src/tui/]);
- the application services ([src/application/]), pure control flow over
- the provider interfaces ([include/lx/contracts/]), implemented by
- the Linux adapters ([src/linux/]): procfs, sock_diag sockets, process handles, and
  systemd's bus and journal.

The model has the same layers.  A function of the program that talks to its
environment is a value of [Prog.prog E A], a tree of calls of a signature [E]; an
adapter implements the calls of the layer above by programs over its own calls
([Prog.interp]); nothing is assumed of the answers of a call unless a theorem says so.

  Prelude                  byte strings, orders, lists, automation
  CppStd, CppString        what the code uses of the C++ library: sort, unique,
                           includes, find, substr, from_chars, to_string, >>
  Float                    binary64 arithmetic on SpecFloat
  Prog                     programs, traces, runs, invariants of calls, interpretation
  Domain                   include/lx/domain/: data, Error, Result, Observation
  Contracts                include/lx/contracts/: the calls [provE] of the providers

  ServiceService           src/application/ServiceService.cpp
  ProcessService           src/application/ProcessService.cpp
  PortService              src/application/PortService.cpp, with PortServiceProofs (lemmas)
                           and PortServiceTheorems (what it guarantees)
  ResourceResolver, LogService, MetricsService (and StatusService), FindService,
  InspectService, DashboardService, DoctorService
                           the files of these names in src/application/
  DashboardWorker          src/application/DashboardWorker.cpp: two threads as a
                           labelled transition system
  Sim                      a simulated machine, for the examples only

  OsCalls                  the calls of the kernel and the C library
  ProcfsParsers, SystemMetricsParser, ProcFsProvider, SocketInodeResolver
                           src/linux/procfs/
  InetDiagCodec, NetlinkSocketProvider
                           src/linux/netlink/
  LinuxSignalProvider      src/linux/process/
  SystemdJournalProvider, JournalSpec
                           src/linux/systemd/: the journal adapter; the abstract
                           journal it refines
  SystemdServiceProvider   src/linux/systemd/: the bus adapter, and the two providers of
                           a build without systemd
  Handles                  the owning classes PidFd, SdBusConnection, SdBusMessage,
                           SdJournal, JournalCursor as objects that are moved
  LinuxAdapters            every provider call on its adapter

  JsonSerializer           src/cli/JsonSerializer.cpp
  CliText, CliApp          src/cli/CliApp.cpp: texts and prompts; commands
  CliOptions               src/cli/CliApp.cpp: the options [run] declares to its parser
  CliAppTheorems           what the command line guarantees
  CliFollow                [lx log --follow] on the journal adapter
  InterruptGuard           src/cli/CliApp.cpp: SIGINT while following
  Tui, TuiScreen, TaskWorker, TuiRun, TuiFrame
                           src/tui/FtxuiTuiRunner.cpp: tasks and event handler; screen;
                           the thread of the tasks as a labelled transition system;
                           the threads of a session; what [run] builds around it and
                           how it is left
  Main                     src/main.cpp: the whole program over the calls of the system

A definition keeps the name of the function it translates; records carry the fields of
the struct with a prefix; a member function is a definition with its object's state
as an argument.  [Result] is a sum; the early returns of the code are [<-?] and
[match].  Integers are [Z] in the range of their C++ type, with the wrap-around or the
[mod] written out where the code can leave it; where the code would reach undefined
behaviour the definition returns [None] or makes a call that has no answer.

** What is proved

End to end.  [Main.main_changes_with_consent]: in every run of the program, every
signal the kernel accepts and every job systemd is asked for belongs to the command
that was given, to its target, and comes after an accepted prompt where the command
asks; no signal goes to init, to the program itself or to a process group.
[LinuxAdapters.release_on_linux] and [managed_stop_on_linux] say the same of freeing
a port: only owners of the port as it was shown to the user are signalled.

Command line.  [CliOptions]: the checks declared for the options are those the services
need of the values.  [CliAppTheorems]: no change without consent, one JSON document per
command, no silent failure.  [CliFollow]: following prints a gapless stretch of the
journal.  [InterruptGuard]: SIGINT ends following within one entry, and its disposition
is restored on every path.  [JsonSerializer]: documents are read back; the value of a secret option is
hidden.  [CliText]: texts shown of the journal hold no control character.

Terminal interface.  [Tui]: no access out of range in any reachable state; an action
is performed on what was selected when its key was pressed, after the confirmations it
asks for.  [TuiScreen]: what is confirmed is on the screen.  [TuiRun]: in a session of
interleaved threads, the effects on the system are those of confirmations, each once,
down to the kernel and systemd.  [TaskWorker]: every accepted task is answered once and in
order, no wake-up is lost, its destructor ends.  [TuiFrame]: whatever throws, the threads are joined
before the screen they post to is closed.

Services.  [PortServiceTheorems]: plans are well formed, releasing signals only what
was planned, an escalation stays within the plan, a managed service is stopped only
when the plan still holds, the waiting ends.  [ProcessService]: PID 1, the program itself
and invalid PIDs are never signalled; listings are exact.  The other files: functional
correctness of name normalisation, resolution, search, inspection, log queries, metrics.

Adapters.  Parsers: what a process writes into its own record cannot be taken for
another field; dumps of the kernel are read back.  Owners of sockets and sockets are
reported exactly; a signal is sent at most once; waiting ends and its answers are
sound; queries of the journal are selections of its entries.  [Handles]: every resource
is released exactly once.  [DashboardWorker]: stopping ends and loses no wake-up.

** Bounds and fuel

Parsers recurse on the bytes that are left; where the recursion is not structural the
fuel is the length of the input and a lemma shows that it is enough
([CppString.words_unfold], [InetDiagCodec.parse_loop_fuel]).  Loops the code leaves
unbounded (retries after an interrupted call, datagrams of a dump, entries of a journal,
messages of a bus reply) take a number of rounds: a run that uses it up makes a call
without an answer ([Forever], [NeverEnds], [BusForever], [JournalForever]), so that
theorems about finished runs hold for every number of rounds.  The wait of
[stopManagedService] returns [None] without fuel; [stopManagedService_terminates]
shows that 121 turns are enough for its grace period of 3000 ms with sleeps of 25 ms,
on a clock that advances by what is slept.

** Parameters

What the code calls outside of [src/] is a parameter: the option parser CLI11 (from
arguments to [Options] or a failure; [CliOptions.OptionParser] says what a successful
parse means for what was declared), the text of a JSON document and of formatted numbers (nlohmann::json,
fmt), [system_category] messages, get_time, mktime and localtime_r, inet_ntop, the order
of unordered containers ([HashOrder]) and of equal elements under [std::sort]
([SocketSort]), the search input of FTXUI.  Each has its documented law as a class or a
named hypothesis, with an instance that the examples run on.  Structures of the kernel
are bytes in little-endian order.

** What is not modelled, and why

How CLI11 takes arguments apart, and its help texts; the event loop of FTXUI and how
elements look on a terminal; allocation failures and other exceptions of
the C++ library apart from those the code meets on data ([Uncaught]); the memory of bus
messages and errors; memory ordering below the critical sections of a mutex; tests,
benchmarks, build scripts, packages and shell completions, which hold no logic of the
program. *)

From stdpp Require Export base tactics list gmap strings sorting.
From Stdlib Require Export ZArith Lia.
From Stdlib Require Import Ascii String.

#[global] Open Scope Z_scope.

(** ** Byte strings

A [std::string] (or [std::string_view]) of the code is a sequence of bytes;
we use lists of [ascii], whose eight bits are the eight bits of a [char]. *)

Abbreviation str := (list ascii).

Definition lit (s : string) : str := list_ascii_of_string s.
Arguments lit : simpl never.

Declare Scope lx_scope.
Delimit Scope lx_scope with lx.
Notation "$ s" := (lit s%string) (at level 1, s at level 0, format "$ s") : lx_scope.
#[global] Open Scope lx_scope.

(** The unsigned value of a byte, [static_cast<unsigned char>(c)]. *)
Definition byte (c : ascii) : Z := Z.of_N (N_of_ascii c).
Definition chr (n : Z) : ascii := ascii_of_N (Z.to_N n).

Lemma byte_bound c : 0 <= byte c < 256.
Proof. unfold byte. destruct c as [[] [] [] [] [] [] [] []]; vm_compute; split; congruence. Qed.

Lemma chr_byte c : chr (byte c) = c.
Proof. unfold chr, byte. rewrite N2Z.id. apply ascii_N_embedding. Qed.

#[global] Instance byte_inj : Inj (=) (=) byte.
Proof. intros a b H. rewrite <- (chr_byte a), H. apply chr_byte. Qed.

Lemma byte_chr n : 0 <= n < 256 -> byte (chr n) = n.
Proof.
  intros H. unfold byte, chr. rewrite N_ascii_embedding; lia.
Qed.

(** ** Lists *)

Lemma sublist_omap {A B} (f : A -> option B) l1 l2 : sublist l1 l2 -> sublist (omap f l1) (omap f l2).
Proof.
  induction 1 as [|x l1 l2 _ IH|x l1 l2 _ IH]; cbn; [done|by destruct (f x); [constructor|]|].
  destruct (f x); [by constructor|done].
Qed.

(** ** Automation *)

Create HintDb lx.
#[export] Hint Resolve byte_bound : lx.

(** Case analysis on the boolean tests of the code, keeping the arithmetic
facts they decide. *)
Ltac bool_facts :=
  repeat match goal with
  | H : _ && _ = true |- _ => apply andb_true_iff in H as [? ?]
  | H : _ || _ = false |- _ => apply orb_false_iff in H as [? ?]
  | H : _ && _ = false |- _ => apply andb_false_iff in H
  | H : _ || _ = true |- _ => apply orb_true_iff in H
  | H : negb _ = true |- _ => apply negb_true_iff in H
  | H : negb _ = false |- _ => apply negb_false_iff in H
  | H : bool_decide _ = true |- _ => apply bool_decide_eq_true_1 in H
  | H : bool_decide _ = false |- _ => apply bool_decide_eq_false_1 in H
  | H : (_ <? _)%Z = true |- _ => apply Z.ltb_lt in H
  | H : (_ <? _)%Z = false |- _ => apply Z.ltb_ge in H
  | H : (_ <=? _)%Z = true |- _ => apply Z.leb_le in H
  | H : (_ <=? _)%Z = false |- _ => apply Z.leb_gt in H
  | H : (_ =? _)%Z = true |- _ => apply Z.eqb_eq in H
  | H : (_ =? _)%Z = false |- _ => apply Z.eqb_neq in H
  end.

(** Split every [match] of the goal, discharging absurd cases. *)
Ltac split_matches := repeat (case_match; simplify_eq/=; try done).

(** ** Three-way comparison

The code sorts vectors and compares tuples with the lexicographic [operator<]
of the standard library.  [Cmp] is that comparison, [CmpLaws] its laws. *)

Class Cmp (A : Type) := cmp : A -> A -> comparison.
#[global] Hint Mode Cmp ! : typeclass_instances.

Class CmpLaws (A : Type) `{!Cmp A} : Prop := {
  cmp_eq_iff (x y : A) : cmp x y = Eq <-> x = y;
  cmp_opp (x y : A) : cmp y x = CompOpp (cmp x y);
  cmp_lt_trans (x y z : A) : cmp x y = Lt -> cmp y z = Lt -> cmp x z = Lt;
}.

Definition cmp_ltb {A} `{!Cmp A} (x y : A) : bool :=
  match cmp x y with Lt => true | _ => false end.
Definition cmp_leb {A} `{!Cmp A} (x y : A) : bool :=
  match cmp x y with Gt => false | _ => true end.

#[export] Instance Z_cmp : Cmp Z := Z.compare.
#[export] Instance Z_cmp_laws : CmpLaws Z.
Proof.
  split; unfold cmp, Z_cmp.
  - apply Z.compare_eq_iff.
  - intros. rewrite Z.compare_antisym. done.
  - intros x y z; rewrite !Z.compare_lt_iff; lia.
Qed.

(** A comparison inherited from an injective code, as for the enumerations. *)
Section CmpVia.
Context {A B} `{!Cmp B, !CmpLaws B} (f : A -> B) `{!Inj (=) (=) f}.
Definition cmp_via : Cmp A := fun x y => cmp (f x) (f y).
Lemma cmp_via_laws : @CmpLaws A cmp_via.
Proof.
  split; unfold cmp, cmp_via.
  - intros x y. rewrite cmp_eq_iff. split; [apply (inj f) | by intros ->].
  - intros. apply cmp_opp.
  - intros x y z. apply cmp_lt_trans.
Qed.
End CmpVia.

#[export] Instance ascii_cmp : Cmp ascii := cmp_via byte.
#[export] Instance ascii_cmp_laws : CmpLaws ascii := cmp_via_laws byte.

#[export] Instance pair_cmp {A B} `{!Cmp A, !Cmp B} : Cmp (A * B) := fun x y =>
  match cmp x.1 y.1 with Eq => cmp x.2 y.2 | c => c end.

#[export] Instance pair_cmp_laws {A B} `{!Cmp A, !Cmp B, !CmpLaws A, !CmpLaws B} :
  CmpLaws (A * B).
Proof.
  split.
  - intros [a b] [a' b']. unfold cmp at 1, pair_cmp; cbn.
    destruct (cmp a a') eqn:E.
    + apply cmp_eq_iff in E as ->. rewrite cmp_eq_iff. naive_solver.
    + split; [done|]. intros [= -> ->]. by rewrite (proj2 (cmp_eq_iff a' a') eq_refl) in E.
    + split; [done|]. intros [= -> ->]. by rewrite (proj2 (cmp_eq_iff a' a') eq_refl) in E.
  - intros [a b] [a' b']. unfold cmp at 1 2, pair_cmp; cbn.
    rewrite (cmp_opp a a'). destruct (cmp a a'); simpl; [apply cmp_opp | done..].
  - intros [a b] [a' b'] [a'' b'']. unfold cmp, pair_cmp; cbn.
    destruct (cmp a a') eqn:E; [apply cmp_eq_iff in E as -> | | done].
    + destruct (cmp a' a''); [apply cmp_lt_trans | done..].
    + intros _. destruct (cmp a' a'') eqn:E'; [apply cmp_eq_iff in E' as <- | | done].
      * by rewrite E.
      * intros _. by rewrite (cmp_lt_trans a a' a'').
Qed.

Fixpoint list_compare {A} `{!Cmp A} (l k : list A) : comparison :=
  match l, k with
  | [], [] => Eq
  | [], _ => Lt
  | _, [] => Gt
  | x :: l', y :: k' => match cmp x y with Eq => list_compare l' k' | c => c end
  end.
#[export] Instance list_cmp {A} `{!Cmp A} : Cmp (list A) := list_compare.

#[export] Instance list_cmp_laws {A} `{!Cmp A, !CmpLaws A} : CmpLaws (list A).
Proof.
  split; unfold cmp, list_cmp.
  - induction x as [|a l IH]; intros [|b k]; simpl; try done.
    destruct (cmp a b) eqn:E.
    + apply cmp_eq_iff in E as ->. rewrite IH. naive_solver.
    + split; [done|]. intros [= -> ->]. by rewrite (proj2 (cmp_eq_iff b b) eq_refl) in E.
    + split; [done|]. intros [= -> ->]. by rewrite (proj2 (cmp_eq_iff b b) eq_refl) in E.
  - induction x as [|a l IH]; intros [|b k]; simpl; try done.
    rewrite (cmp_opp a b). by destruct (cmp a b); simpl.
  - induction x as [|a l IH]; intros [|b k] [|c m]; simpl; try done.
    destruct (cmp a b) eqn:E; [apply cmp_eq_iff in E as -> | | done].
    + destruct (cmp b c); [apply IH | done..].
    + intros _. destruct (cmp b c) eqn:E'; [apply cmp_eq_iff in E' as <- | | done].
      * by rewrite E.
      * intros _. by rewrite (cmp_lt_trans a b c).
Qed.

Section CmpFacts.
Context {A} `{!Cmp A, !CmpLaws A}.
Implicit Types x y z : A.

Lemma cmp_refl x : cmp x x = Eq.
Proof. by apply cmp_eq_iff. Qed.

Lemma cmp_leb_ltb x y : cmp_leb x y = negb (cmp_ltb y x).
Proof. unfold cmp_leb, cmp_ltb. rewrite (cmp_opp x y). by destruct (cmp x y). Qed.

#[export] Instance cmp_leb_preorder : PreOrder (fun x y => cmp_leb x y = true).
Proof.
  split.
  - intros x. unfold cmp_leb. by rewrite cmp_refl.
  - intros x y z. unfold cmp_leb. destruct (cmp x y) eqn:E; [|destruct (cmp y z) eqn:E'|done].
    + apply cmp_eq_iff in E as ->. done.
    + apply cmp_eq_iff in E' as <-. by rewrite E.
    + by rewrite (cmp_lt_trans x y z).
    + done.
Qed.

Lemma cmp_leb_antisym x y : cmp_leb x y = true -> cmp_leb y x = true -> x = y.
Proof.
  unfold cmp_leb. rewrite (cmp_opp x y). destruct (cmp x y) eqn:E; try done.
  by intros _ _; apply cmp_eq_iff.
Qed.

Lemma cmp_leb_total x y : cmp_leb x y = true \/ cmp_leb y x = true.
Proof. unfold cmp_leb. rewrite (cmp_opp x y). destruct (cmp x y); auto. Qed.
End CmpFacts.
