(* ===== verification/CppStd.v ===== *)
(** * The parts of the C++ standard library the code relies on

[<algorithm>] on vectors ([sort], [stable_sort], [unique], [includes],
[find_if]), [std::set] as its sorted sequence of elements, searching and
slicing of strings, [<charconv>] and the classification of characters in the
"C" locale (the program never calls [setlocale]).  Each is an executable
definition with the lemmas the components share. *)

From S2P Require Import Prelude.
From Stdlib Require Import Ascii.

(** ** [<algorithm>] *)

Section Sorting.
Context {A : Type} (le : A -> A -> bool).

(** [std::stable_sort] with [le x y] for [!(y < x)].  [std::sort] is the same
function whenever elements that compare equal are equal. *)
Fixpoint insert_by (x : A) (l : list A) : list A :=
  match l with
  | [] => [x]
  | y :: l' => if le x y then x :: l else y :: insert_by x l'
  end.

Definition stable_sort (l : list A) : list A := foldr insert_by [] l.

Lemma insert_by_perm x l : insert_by x l ≡ₚ x :: l.
Proof.
  induction l as [|y l IH]; simpl; [done|]. case_match; [done|].
  rewrite IH. apply Permutation_swap.
Qed.

Lemma stable_sort_perm l : stable_sort l ≡ₚ l.
Proof. induction l as [|x l IH]; simpl; [done|]. by rewrite insert_by_perm, IH. Qed.

Lemma elem_of_stable_sort x l : x ∈ stable_sort l <-> x ∈ l.
Proof. by rewrite stable_sort_perm. Qed.

Lemma length_stable_sort l : length (stable_sort l) = length l.
Proof. by rewrite stable_sort_perm. Qed.

Hypothesis le_pre : PreOrder (fun x y => le x y = true).
Hypothesis le_total : forall x y, le x y = true \/ le y x = true.

Lemma insert_by_sorted x l :
  StronglySorted (fun x y => le x y = true) l ->
  StronglySorted (fun x y => le x y = true) (insert_by x l).
Proof.
  induction 1 as [|y l Hl IH Hy]; simpl; [repeat constructor|].
  destruct (le x y) eqn:E.
  - constructor; [by constructor|]. constructor; [done|].
    eapply Forall_impl; [exact Hy|]. intros z Hz. exact (@PreOrder_Transitive _ _ le_pre x y z E Hz).
  - constructor; [done|]. rewrite insert_by_perm. constructor; [|done].
    destruct (le_total x y); congruence.
Qed.

Lemma stable_sort_sorted l : StronglySorted (fun x y => le x y = true) (stable_sort l).
Proof. induction l; simpl; [constructor | by apply insert_by_sorted]. Qed.

(** Stability: elements that compare equal keep their order. *)
Lemma insert_by_filter (P : A -> Prop) `{!forall x, Decision (P x)} x l :
  (forall y z, P y -> P z -> le y z = true) ->
  filter P (insert_by x l) = filter P (x :: l).
Proof.
  intros HP. induction l as [|y l IH]; simpl; [done|]. destruct (le x y) eqn:E; [done|].
  rewrite filter_cons, IH, !filter_cons.
  destruct (decide (P x)), (decide (P y)); try done.
  rewrite HP in E by done. done.
Qed.

Lemma stable_sort_stable (P : A -> Prop) `{!forall x, Decision (P x)} l :
  (forall y z, P y -> P z -> le y z = true) ->
  filter P (stable_sort l) = filter P l.
Proof.
  intros HP. induction l as [|x l IH]; simpl; [done|].
  rewrite insert_by_filter by done. rewrite !filter_cons, IH. done.
Qed.
End Sorting.

(** Sorting by the library's [operator<]. *)
Definition sort {A} `{!Cmp A} : list A -> list A := stable_sort cmp_leb.

Section SortFacts.
Context {A} `{!Cmp A, !CmpLaws A}.
Implicit Types l k : list A.

Lemma sort_perm l : sort l ≡ₚ l.
Proof. apply stable_sort_perm. Qed.

Lemma sort_sorted l : StronglySorted (fun x y => cmp_leb x y = true) (sort l).
Proof. apply stable_sort_sorted; [apply _ | apply cmp_leb_total]. Qed.

(** Two vectors have the same sorted sequence exactly when one is a
permutation of the other. *)
Lemma sort_eq_iff l k : sort l = sort k <-> l ≡ₚ k.
Proof.
  split.
  - intros E. by rewrite <- (sort_perm l), E, sort_perm.
  - intros P.
    assert (AntiSymm (=) (fun x y : A => cmp_leb x y = true)).
    { intros x y. apply cmp_leb_antisym. }
    eapply (StronglySorted_unique (fun x y : A => cmp_leb x y = true));
      [apply sort_sorted | apply sort_sorted |].
    by rewrite !sort_perm.
Qed.
End SortFacts.

(** [std::unique] followed by [erase]: of each run of equal elements the first
is kept. *)
Section Unique.
Context {A} `{!EqDecision A}.
Fixpoint unique_from (prev : A) (l : list A) : list A :=
  match l with
  | [] => []
  | y :: l' => if decide (y = prev) then unique_from prev l' else y :: unique_from y l'
  end.
Definition unique (l : list A) : list A :=
  match l with [] => [] | x :: l' => x :: unique_from x l' end.

Lemma elem_of_unique_from p l x : x ∈ p :: unique_from p l <-> x ∈ p :: l.
Proof.
  revert p; induction l as [|y l IH]; intros p; simpl; [done|].
  destruct (decide (y = p)) as [->|]; [rewrite IH; set_solver|].
  rewrite elem_of_cons, IH. set_solver.
Qed.
Lemma elem_of_unique l x : x ∈ unique l <-> x ∈ l.
Proof. destruct l; [done|]. apply elem_of_unique_from. Qed.
End Unique.

(** Strictly increasing sequences: what [std::set] iterates and what
[sort]/[unique]/[erase] leaves. *)
Abbreviation strictly_sorted := (StronglySorted (fun x y => cmp x y = Lt)).

Section StrictlySorted.
Context {A} `{!Cmp A, !CmpLaws A, !EqDecision A}.
Implicit Types l s : list A.

Lemma cmp_leb_neq_lt (x y : A) : cmp_leb x y = true -> x <> y -> cmp x y = Lt.
Proof.
  unfold cmp_leb. destruct (cmp x y) eqn:E; [|done|done].
  by apply cmp_eq_iff in E.
Qed.

Lemma unique_from_sorted p l :
  StronglySorted (fun x y => cmp_leb x y = true) (p :: l) ->
  strictly_sorted (p :: unique_from p l).
Proof.
  revert p. induction l as [|y l IH]; intros p Hs; simpl; [repeat constructor|].
  apply StronglySorted_cons in Hs as [Hp Hs].
  apply Forall_cons in Hp as [Hpy Hpl].
  destruct (decide (y = p)) as [->|Hne]; [by apply IH|].
  specialize (IH y Hs). constructor; [done|].
  assert (cmp p y = Lt) as Hlt by (apply cmp_leb_neq_lt; congruence).
  constructor; [done|]. apply StronglySorted_cons in IH as [IH _].
  eapply Forall_impl; [exact IH|]. intros z Hz. by apply (cmp_lt_trans p y z).
Qed.

Lemma unique_sorted l :
  StronglySorted (fun x y => cmp_leb x y = true) l -> strictly_sorted (unique l).
Proof. destruct l; [constructor|]. apply unique_from_sorted. Qed.

(** [std::sort], [std::unique], [erase]. *)
Definition sort_unique (l : list A) : list A := unique (sort l).

Lemma sort_unique_sorted l : strictly_sorted (sort_unique l).
Proof. apply unique_sorted, sort_sorted. Qed.
Lemma elem_of_sort_unique l x : x ∈ sort_unique l <-> x ∈ l.
Proof. unfold sort_unique. by rewrite elem_of_unique, sort_perm. Qed.

Lemma strictly_sorted_NoDup l : strictly_sorted l -> NoDup l.
Proof.
  induction 1 as [|x l Hs IH Hx]; constructor; [|done].
  intros Hin. rewrite Forall_forall in Hx. specialize (Hx x Hin).
  by rewrite cmp_refl in Hx.
Qed.

Lemma strictly_sorted_unique l k :
  strictly_sorted l -> strictly_sorted k -> (forall x, x ∈ l <-> x ∈ k) -> l = k.
Proof.
  intros Hl Hk Heq.
  assert (l ≡ₚ k) as P by (apply NoDup_Permutation; auto using strictly_sorted_NoDup).
  eapply (StronglySorted_unique_strong (fun x y : A => cmp x y = Lt)); [|done..].
  intros x y _ _ H1 H2. rewrite (cmp_opp x y), H1 in H2. done.
Qed.

(** [std::set<A>::insert] on the sorted sequence of the set. *)
Fixpoint set_insert (x : A) (s : list A) : list A :=
  match s with
  | [] => [x]
  | y :: s' =>
      match cmp x y with
      | Lt => x :: s
      | Eq => s
      | Gt => y :: set_insert x s'
      end
  end.

Lemma elem_of_set_insert x y s : y ∈ set_insert x s <-> y = x \/ y ∈ s.
Proof.
  induction s as [|z s IH]; simpl; [set_solver|].
  destruct (cmp x z) eqn:E; [|set_solver..].
  apply cmp_eq_iff in E as ->. set_solver.
Qed.

Lemma set_insert_sorted x s : strictly_sorted s -> strictly_sorted (set_insert x s).
Proof.
  induction 1 as [|z s Hs IH Hz]; simpl; [repeat constructor|].
  destruct (cmp x z) eqn:E; [by constructor| |].
  - constructor; [by constructor|]. constructor; [done|].
    eapply Forall_impl; [exact Hz|]. intros w Hw. by apply (cmp_lt_trans x z w).
  - constructor; [done|]. apply Forall_forall. intros w Hw.
    apply elem_of_set_insert in Hw as [->|Hw].
    + by rewrite (cmp_opp x z), E.
    + by rewrite Forall_forall in Hz; apply Hz.
Qed.
End StrictlySorted.

(** [std::includes] on two ranges. *)
Fixpoint includes {A} `{!Cmp A} (l1 l2 : list A) : bool :=
  match l1, l2 with
  | _, [] => true
  | [], _ :: _ => false
  | x :: l1', y :: l2' =>
      match cmp y x with
      | Lt => false
      | Gt => includes l1' l2
      | Eq => includes l1' l2'
      end
  end.

(** On strictly increasing ranges it decides inclusion. *)
Lemma includes_spec {A} `{!Cmp A, !CmpLaws A} (l1 l2 : list A) :
  strictly_sorted l1 -> strictly_sorted l2 -> includes l1 l2 = true <-> l2 ⊆ l1.
Proof.
  intros H1. revert l2. induction H1 as [|x l1 H1 IH Hx]; intros l2 H2.
  - destruct l2; simpl; split; try done. intros Hsub.
    specialize (Hsub a). set_solver.
  - destruct l2 as [|y l2]; simpl; [split; [set_solver|done]|].
    pose proof H2 as H2'. apply StronglySorted_cons in H2 as [Hy H2].
    rewrite Forall_forall in Hx, Hy. destruct (cmp y x) eqn:E.
    + apply cmp_eq_iff in E as ->. rewrite IH by done. split; [set_solver|].
      intros Hsub z Hz. assert (Hin : z ∈ x :: l1) by set_solver. apply elem_of_cons in Hin as [->|Hin]; [|done].
      specialize (Hy x Hz). by rewrite cmp_refl in Hy.
    + split; [done|]. intros Hsub. assert (Hin : y ∈ x :: l1) by set_solver.
      apply elem_of_cons in Hin as [->|Hin].
      * by rewrite cmp_refl in E.
      * specialize (Hx y Hin). rewrite (cmp_opp x y), Hx in E. done.
    + rewrite IH by done. split; [set_solver|]. intros Hsub z Hz.
      specialize (Hsub z Hz). apply elem_of_cons in Hsub as [->|Hsub]; [|done].
      apply elem_of_cons in Hz as [->|Hz]; [by rewrite cmp_refl in E|].
      specialize (Hy x Hz). congruence.
Qed.

(** [std::find_if]: the first element that satisfies the predicate. *)
Definition find_if {A} (p : A -> bool) (l : list A) : option A := List.find p l.

Lemma find_if_Some {A} (p : A -> bool) l x : find_if p l = Some x -> x ∈ l /\ p x = true.
Proof. intros H. apply List.find_some in H as [H ?]. by rewrite list_elem_of_In. Qed.

Lemma find_if_None {A} (p : A -> bool) l x : find_if p l = None -> x ∈ l -> p x = false.
Proof. intros H Hx. eapply List.find_none; [exact H|]. by rewrite <- list_elem_of_In. Qed.

Lemma find_if_is_Some {A} (p : A -> bool) l :
  is_Some (find_if p l) <-> exists x, x ∈ l /\ p x = true.
Proof.
  split.
  - intros [x Hx]. exists x. by apply find_if_Some.
  - intros (x & Hx & Hp). destruct (find_if p l) eqn:E; [done|].
    rewrite (find_if_None p l x) in Hp by done. done.
Qed.

Lemma existsb_elem_of {A} (p : A -> bool) l :
  existsb p l = true <-> exists x, x ∈ l /\ p x = true.
Proof.
  rewrite existsb_exists. split; intros (x & H & ?); exists x; [by rewrite list_elem_of_In|].
  by rewrite <- list_elem_of_In.
Qed.

Lemma forallb_elem_of {A} (p : A -> bool) l :
  forallb p l = true <-> forall x, x ∈ l -> p x = true.
Proof. rewrite forallb_forall. by setoid_rewrite list_elem_of_In. Qed.
