(* ===== verification/CppString.v ===== *)
(** * Strings, characters and numbers of the C++ standard library

Searching and slicing ([find], [rfind], [substr], [find_first_of]), reading of
whitespace-separated tokens, classification in the "C" locale,
[std::from_chars] and [std::to_string], with the facts the parsers need:
a decimal that is printed is read back, and [from_chars] accepts exactly the
decimal texts of the integers in range. *)

From S2P Require Import Prelude CppStd.
From Stdlib Require Import Ascii.

(** ** Widths *)

Definition UINT8_MAX : Z := 2 ^ 8 - 1.
Definition UINT16_MAX : Z := 2 ^ 16 - 1.
Definition UINT32_MAX : Z := 2 ^ 32 - 1.
Definition UINT64_MAX : Z := 2 ^ 64 - 1.
Definition INT64_MAX : Z := 2 ^ 63 - 1.
Definition INT64_MIN : Z := - 2 ^ 63.
(** [pid_t] and [int] have 32 bits. *)
Definition PID_MAX : Z := 2 ^ 31 - 1.
Definition INT_MAX : Z := 2 ^ 31 - 1.
Definition INT_MIN : Z := - 2 ^ 31.

(** A 64-bit signed result, unless it overflows. *)
Definition int64 (n : Z) : option Z :=
  if (INT64_MIN <=? n) && (n <=? INT64_MAX) then Some n else None.

Lemma int64_Some n m : int64 n = Some m <-> m = n /\ INT64_MIN <= n <= INT64_MAX.
Proof. unfold int64. destruct (_ && _) eqn:E; bool_facts; naive_solver lia. Qed.
Lemma int64_None n : int64 n = None <-> ~ (INT64_MIN <= n <= INT64_MAX).
Proof. unfold int64. destruct (_ && _) eqn:E; bool_facts; naive_solver lia. Qed.

(** ** Searching *)

(** [s.find(c)] and [find_first_of]/[find_first_not_of]: the least index whose
character satisfies [p]; [None] is [npos]. *)
Fixpoint find_index (p : ascii -> bool) (s : str) : option nat :=
  match s with
  | [] => None
  | c :: s' => if p c then Some O else S <$> find_index p s'
  end.

Definition is_char (c d : ascii) : bool := bool_decide (d = c).
Definition one_of (cs : str) (d : ascii) : bool := bool_decide (d ∈ cs).

Definition find_char (c : ascii) (s : str) : option nat := find_index (is_char c) s.
(** [s.find(c, pos)] *)
Definition find_char_from (c : ascii) (s : str) (pos : nat) : option nat :=
  (fun i => (pos + i)%nat) <$> find_char c (drop pos s).

(** [s.substr(pos, n)] for [pos <= s.size()]. *)
Definition substr (s : str) (pos n : nat) : str := take n (drop pos s).

Definition starts_with (p s : str) : bool := bool_decide (take (length p) s = p).
Definition ends_with (p s : str) : bool :=
  (length p <=? length s)%nat && bool_decide (drop (length s - length p) s = p).

(** [s.find(needle)] and [s.rfind(needle)] for a string [needle]. *)
Fixpoint find_sub (needle s : str) : option nat :=
  if starts_with needle s then Some O
  else match s with [] => None | _ :: s' => S <$> find_sub needle s' end.
Fixpoint rfind_sub (needle s : str) : option nat :=
  match s with
  | [] => if starts_with needle [] then Some O else None
  | _ :: s' =>
      match rfind_sub needle s' with
      | Some i => Some (S i)
      | None => if starts_with needle s then Some O else None
      end
  end.

Definition take_while (p : ascii -> bool) (s : str) : str :=
  match find_index (fun c => negb (p c)) s with Some i => take i s | None => s end.
Definition drop_while (p : ascii -> bool) (s : str) : str :=
  match find_index (fun c => negb (p c)) s with Some i => drop i s | None => [] end.

(** What a function that takes [s.c_str()] sees: the bytes before the first NUL. *)
Definition c_str (s : str) : str := take_while (fun c => negb (is_char (chr 0) c)) s.

Lemma find_index_Some p s i :
  find_index p s = Some i <->
  exists s1 c s2, s = s1 ++ c :: s2 /\ length s1 = i /\ p c = true /\
    forall d, d ∈ s1 -> p d = false.
Proof.
  revert i. induction s as [|a s IH]; intros i; simpl.
  - split; [done|]. intros (s1 & c & s2 & H & _). by destruct s1.
  - destruct (p a) eqn:E.
    + split.
      * intros [= <-]. exists [], a, s. set_solver.
      * intros (s1 & c & s2 & H & Hl & _ & Hn). destruct s1 as [|b s1]; [by subst|].
        simplify_eq/=. rewrite (Hn b) in E by set_solver. done.
    + rewrite fmap_Some. setoid_rewrite IH. split.
      * intros (j & (s1 & c & s2 & -> & <- & Hc & Hn) & ->).
        exists (a :: s1), c, s2. split_and!; try done. intros d. set_solver.
      * intros (s1 & c & s2 & H & Hl & Hc & Hn).
        destruct s1 as [|b s1]; simplify_eq/=; [congruence|].
        exists (length s1). split; [|done]. exists s1, c, s2. set_solver.
Qed.

Lemma find_index_None p s : find_index p s = None <-> forall c, c ∈ s -> p c = false.
Proof.
  induction s as [|a s IH]; simpl; [set_solver|].
  destruct (p a) eqn:E.
  - split; [done|]. intros H. rewrite H in E; [done|set_solver].
  - rewrite fmap_None, IH. set_solver.
Qed.

Lemma find_index_app p s1 c s2 :
  (forall d, d ∈ s1 -> p d = false) -> p c = true ->
  find_index p (s1 ++ c :: s2) = Some (length s1).
Proof. intros. apply find_index_Some. eauto 10. Qed.

Lemma find_index_lt p s i : find_index p s = Some i -> (i < length s)%nat.
Proof. intros (s1 & c & s2 & -> & <- & _)%find_index_Some. rewrite length_app; simpl; lia. Qed.

Lemma is_char_true c d : is_char c d = true <-> d = c.
Proof. unfold is_char. by rewrite bool_decide_eq_true. Qed.
Lemma is_char_false c d : is_char c d = false <-> d <> c.
Proof. unfold is_char. by rewrite bool_decide_eq_false. Qed.

Lemma find_char_app c s1 s2 : c ∉ s1 -> find_char c (s1 ++ c :: s2) = Some (length s1).
Proof.
  intros H. apply find_index_app; [|by apply is_char_true].
  intros d Hd. apply is_char_false. by intros ->.
Qed.
Lemma find_char_None c s : find_char c s = None <-> c ∉ s.
Proof.
  unfold find_char. rewrite find_index_None. setoid_rewrite is_char_false. set_solver.
Qed.
Lemma find_char_Some c s i :
  find_char c s = Some i <-> exists s1 s2, s = s1 ++ c :: s2 /\ length s1 = i /\ c ∉ s1.
Proof.
  unfold find_char. rewrite find_index_Some. setoid_rewrite is_char_true.
  setoid_rewrite is_char_false. split.
  - intros (s1 & d & s2 & -> & ? & -> & Hn). exists s1, s2. split_and!; try done.
    intros Hc. by apply (Hn c).
  - intros (s1 & s2 & -> & ? & Hn). exists s1, c, s2. split_and!; try done. by intros d Hd ->.
Qed.

Lemma starts_with_app p s : starts_with p (p ++ s) = true.
Proof. unfold starts_with. by rewrite take_app_length, bool_decide_eq_true. Qed.
Lemma starts_with_true p s : starts_with p s = true <-> exists k, s = p ++ k.
Proof.
  split; [|intros [k ->]; apply starts_with_app].
  unfold starts_with. rewrite bool_decide_eq_true. intros H.
  exists (drop (length p) s). by rewrite <- H at 1; rewrite take_drop.
Qed.
Lemma ends_with_true p s : ends_with p s = true <-> exists k, s = k ++ p.
Proof.
  unfold ends_with. rewrite andb_true_iff, bool_decide_eq_true, Nat.leb_le. split.
  - intros [_ H]. exists (take (length s - length p) s). by rewrite <- H at 2; rewrite take_drop.
  - intros [k ->]. rewrite length_app. split; [lia|].
    replace (length k + length p - length p)%nat with (length k) by lia. apply drop_app_length.
Qed.

(** [find] fails exactly when no position matches. *)
Lemma find_sub_is_Some needle s :
  is_Some (find_sub needle s) <-> exists s1 s2, s = s1 ++ needle ++ s2.
Proof.
  induction s as [|c s IH]; simpl.
  - destruct (starts_with needle []) eqn:E.
    + apply starts_with_true in E as [k ?]. split; [|done]. intros _. by exists [], k.
    + split; [by intros [? ?]|]. intros (s1 & s2 & H).
      symmetry in H. apply app_nil in H as [_ H]. apply app_nil in H as [-> _]. done.
  - destruct (starts_with needle (c :: s)) eqn:E.
    + apply starts_with_true in E as [k ->]. split; [|done]. intros _. by exists [], k.
    + rewrite fmap_is_Some, IH. split.
      * intros (s1 & s2 & ->). by exists (c :: s1), s2.
      * intros (s1 & s2 & H). destruct s1 as [|d s1]; simplify_eq/=; [|eauto].
        rewrite H, starts_with_app in E. done.
Qed.

(** The last occurrence of a two-character needle whose first character does
not occur in what follows. *)
Lemma rfind_sub_app needle s1 s2 :
  needle <> [] ->
  (forall t1 t2, drop 1 (needle ++ s2) = t1 ++ t2 -> starts_with needle t2 = false) ->
  rfind_sub needle (s1 ++ needle ++ s2) = Some (length s1).
Proof.
  intros Hne Hlast. induction s1 as [|c s1 IH]; simpl; [|by rewrite IH].
  assert (Hnone : forall t1 t, drop 1 (needle ++ s2) = t1 ++ t -> rfind_sub needle t = None).
  { intros t1 t. revert t1. induction t as [|d t IHt]; intros t1 Ht.
    - simpl. by rewrite (Hlast t1 []).
    - simpl. rewrite (IHt (t1 ++ [d])) by (rewrite Ht, <- app_assoc; done).
      by rewrite (Hlast t1 (d :: t)). }
  destruct needle as [|n needle]; [done|]. simpl in *.
  rewrite (Hnone []) by done. change (n :: needle ++ s2) with ((n :: needle) ++ s2).
  by rewrite starts_with_app.
Qed.

(** ** Characters in the "C" locale *)

Definition in_range (lo hi : Z) (c : ascii) : bool := (lo <=? byte c) && (byte c <=? hi).
Definition is_digit : ascii -> bool := in_range 48 57.
Definition is_upper : ascii -> bool := in_range 65 90.
Definition is_lower : ascii -> bool := in_range 97 122.
Definition isalnum (c : ascii) : bool := is_digit c || is_upper c || is_lower c.
(** [std::isspace]: space, \t, \n, \v, \f, \r. *)
Definition isspace (c : ascii) : bool := (byte c =? 32) || in_range 9 13 c.
Definition tolower (c : ascii) : ascii := if is_upper c then chr (byte c + 32) else c.
Definition to_lower (s : str) : str := tolower <$> s.

Lemma tolower_idemp c : tolower (tolower c) = tolower c.
Proof.
  unfold tolower, is_upper, in_range. pose proof (byte_bound c).
  destruct ((65 <=? byte c) && (byte c <=? 90)) eqn:E; [|by rewrite E].
  apply andb_true_iff in E as [?%Z.leb_le ?%Z.leb_le].
  rewrite byte_chr by lia.
  replace ((65 <=? byte c + 32) && (byte c + 32 <=? 90)) with false; [done|].
  symmetry. apply andb_false_iff. right. apply Z.leb_gt. lia.
Qed.

Lemma to_lower_idemp s : to_lower (to_lower s) = to_lower s.
Proof. unfold to_lower. rewrite <- list_fmap_compose. apply list_fmap_ext. intros; apply tolower_idemp. Qed.

(** ** [<charconv>] *)

Definition digit_value (c : ascii) : Z := byte c - 48.
Definition dec_value (s : str) : Z := foldl (fun acc c => 10 * acc + digit_value c) 0 s.

Inductive errc := errc_ok | invalid_argument | result_out_of_range.

(** [ptr] is an offset from [first]; [value] is the value of the variable passed
by reference, left alone on an error. *)
Record from_chars_result := FromChars { fc_ptr : nat; fc_ec : errc; fc_value : Z }.

(** [std::from_chars(first, last, value)] in base ten for an unsigned type with
greatest value [max] and [value] holding [init]. *)
Definition from_chars_unsigned (max : Z) (text : str) (init : Z) : from_chars_result :=
  let digits := take_while is_digit text in
  match digits with
  | [] => FromChars 0 invalid_argument init
  | _ =>
      if dec_value digits <=? max then FromChars (length digits) errc_ok (dec_value digits)
      else FromChars (length digits) result_out_of_range init
  end.

(** The same for a signed type with range [min .. max]: a minus sign is
recognised, a plus sign is not. *)
Definition from_chars_signed (min max : Z) (text : str) (init : Z) : from_chars_result :=
  let '(negative, body) :=
    match text with
    | c :: rest => if bool_decide (c = "-"%char) then (true, rest) else (false, text)
    | [] => (false, [])
    end in
  let sign := if negative : bool then 1%nat else O in
  let digits := take_while is_digit body in
  match digits with
  | [] => FromChars 0 invalid_argument init
  | _ =>
      let v := if negative then - dec_value digits else dec_value digits in
      if (min <=? v) && (v <=? max) then FromChars (sign + length digits) errc_ok v
      else FromChars (sign + length digits) result_out_of_range init
  end.

(** [parsed.ec == std::errc{} && parsed.ptr == text.data() + text.size()] *)
Definition parsed_whole (r : from_chars_result) (text : str) : bool :=
  match fc_ec r with errc_ok => (fc_ptr r =? length text)%nat | _ => false end.

(** The decimal texts a full parse accepts. *)
Definition is_decimal (text : str) : Prop := text <> [] /\ forall c, c ∈ text -> is_digit c = true.

Lemma take_while_all p s : (forall c, c ∈ s -> p c = true) -> take_while p s = s.
Proof.
  intros H. unfold take_while. destruct (find_index _ s) eqn:E; [|done].
  apply find_index_Some in E as (s1 & c & s2 & -> & _ & Hc & _).
  rewrite H in Hc; [done|set_solver].
Qed.

Lemma take_while_prefix p s : exists k, s = take_while p s ++ k.
Proof.
  unfold take_while. destruct (find_index _ s) eqn:E; [|by exists []; rewrite app_nil_r].
  exists (drop n s). by rewrite take_drop.
Qed.

Lemma take_while_sat p s c : c ∈ take_while p s -> p c = true.
Proof.
  unfold take_while. destruct (find_index _ s) eqn:E.
  - apply find_index_Some in E as (s1 & d & s2 & -> & <- & _ & Hn).
    rewrite take_app_length. intros Hc. specialize (Hn c Hc). by destruct (p c).
  - intros Hc. rewrite find_index_None in E. specialize (E c Hc). by destruct (p c).
Qed.

Lemma take_while_length_whole p s : length (take_while p s) = length s -> take_while p s = s.
Proof.
  intros H. destruct (take_while_prefix p s) as [k Hk].
  assert (k = []) as ->; [|by rewrite app_nil_r in Hk].
  apply length_zero_iff_nil. apply (f_equal length) in Hk. rewrite length_app in Hk. lia.
Qed.

Lemma dec_value_app s1 s2 :
  dec_value (s1 ++ s2) = dec_value s1 * 10 ^ Z.of_nat (length s2) + dec_value s2.
Proof.
  unfold dec_value. rewrite foldl_app. generalize (foldl (fun acc c => 10 * acc + digit_value c) 0 s1).
  induction s2 as [|c s2 IH] using rev_ind; intros z; [simpl; lia|].
  rewrite !foldl_app, IH. simpl. rewrite length_app, Nat2Z.inj_add, Z.pow_add_r by lia. simpl. lia.
Qed.

Lemma is_digit_value c : is_digit c = true -> 0 <= digit_value c <= 9.
Proof.
  unfold is_digit, in_range, digit_value. rewrite andb_true_iff, !Z.leb_le. lia.
Qed.

Lemma dec_value_nonneg s : (forall c, c ∈ s -> is_digit c = true) -> 0 <= dec_value s.
Proof.
  induction s as [|c s IH] using rev_ind; intros H; [done|].
  rewrite dec_value_app. pose proof (is_digit_value c (H c ltac:(set_solver))).
  assert (0 <= dec_value s) by (apply IH; set_solver).
  unfold dec_value at 2. simpl. lia.
Qed.

(** A full parse succeeds exactly on the decimal texts of numbers in range, and
stores the number. *)
Lemma from_chars_unsigned_whole max text init :
  parsed_whole (from_chars_unsigned max text init) text = true <->
  is_decimal text /\ dec_value text <= max.
Proof.
  unfold from_chars_unsigned, parsed_whole, is_decimal. split.
  - destruct (take_while is_digit text) eqn:E; [done|]. rewrite <- E.
    destruct (dec_value (take_while is_digit text) <=? max) eqn:Hm; [|done].
    simpl. intros Hl%Nat.eqb_eq. apply take_while_length_whole in Hl.
    split; [split|].
    + intros ->. by rewrite Hl in E.
    + intros c Hc. rewrite <- Hl in Hc. by apply take_while_sat in Hc.
    + apply Z.leb_le. by rewrite Hl in Hm.
  - intros [[Hne Hd] Hm]. rewrite take_while_all by done.
    destruct text as [|c text]; [done|]. rewrite (proj2 (Z.leb_le _ _) Hm). simpl.
    by rewrite Nat.eqb_refl.
Qed.

Lemma from_chars_unsigned_value max text init :
  parsed_whole (from_chars_unsigned max text init) text = true ->
  fc_value (from_chars_unsigned max text init) = dec_value text.
Proof.
  intros H. pose proof H as H'. apply from_chars_unsigned_whole in H' as [[Hne Hd] Hm].
  unfold from_chars_unsigned. rewrite take_while_all by done.
  destruct text; [done|]. by rewrite (proj2 (Z.leb_le _ _) Hm).
Qed.

Lemma from_chars_unsigned_range max text init :
  parsed_whole (from_chars_unsigned max text init) text = true ->
  0 <= fc_value (from_chars_unsigned max text init) <= max.
Proof.
  intros H. rewrite (from_chars_unsigned_value _ _ _ H).
  apply from_chars_unsigned_whole in H as [[_ Hd] ?]. split; [by apply dec_value_nonneg|done].
Qed.

(** ** [std::to_string] *)

Fixpoint digits_of (fuel : nat) (n : Z) (acc : str) : str :=
  match fuel with
  | O => acc
  | S fuel' =>
      let acc' := chr (48 + n mod 10) :: acc in
      if n / 10 =? 0 then acc' else digits_of fuel' (n / 10) acc'
  end.

(** [2^64] has twenty decimal digits; the fuel below grows with the number and
is always enough ([to_string_value]). *)
Definition to_string (n : Z) : str :=
  if n <? 0 then "-"%char :: digits_of (S (Z.to_nat (Z.log2 (- n)))) (- n) []
  else digits_of (S (Z.to_nat (Z.log2 n))) n [].

Lemma digits_of_spec fuel n acc :
  0 <= n -> n < 2 ^ Z.of_nat fuel ->
  (fuel <> O) ->
  exists ds, digits_of fuel n acc = ds ++ acc /\ is_decimal ds /\ dec_value ds = n.
Proof.
  revert n acc. induction fuel as [|fuel IH]; intros n acc Hn Hlt Hf; [done|]. simpl.
  assert (Hm : 0 <= n mod 10 < 10) by (apply Z.mod_pos_bound; lia).
  assert (Hd : is_digit (chr (48 + n mod 10)) = true).
  { unfold is_digit, in_range. rewrite byte_chr by lia. rewrite andb_true_iff, !Z.leb_le. lia. }
  assert (Hv : digit_value (chr (48 + n mod 10)) = n mod 10).
  { unfold digit_value. rewrite byte_chr; lia. }
  pose proof (Z.div_mod n 10 ltac:(lia)) as Hdm.
  destruct (n / 10 =? 0) eqn:E.
  - apply Z.eqb_eq in E. exists [chr (48 + n mod 10)]. split; [done|]. split.
    + split; [done|]. by intros c ->%list_elem_of_singleton.
    + unfold dec_value. simpl. rewrite Hv. lia.
  - apply Z.eqb_neq in E.
    assert (0 <= n / 10) by (apply Z.div_pos; lia).
    assert (fuel <> O). { intros ->. simpl in Hlt. change (2 ^ 1) with 2 in Hlt.
      apply E. apply Z.div_small. lia. }
    destruct (IH (n / 10) (chr (48 + n mod 10) :: acc)) as (ds & -> & [Hne Hds] & Hval); [done| |done|].
    { rewrite Nat2Z.inj_succ, Z.pow_succ_r in Hlt by lia. lia. }
    exists (ds ++ [chr (48 + n mod 10)]). rewrite <- app_assoc. split; [done|]. split.
    + split; [by destruct ds|]. intros c [Hc|Hc%list_elem_of_singleton]%elem_of_app; [by apply Hds|by subst].
    + rewrite dec_value_app, Hval. unfold dec_value. simpl. rewrite Hv. lia.
Qed.

Lemma to_string_spec n :
  0 <= n -> is_decimal (to_string n) /\ dec_value (to_string n) = n.
Proof.
  intros Hn. unfold to_string. rewrite (proj2 (Z.ltb_ge n 0)) by done.
  destruct (digits_of_spec (S (Z.to_nat (Z.log2 n))) n []) as (ds & -> & Hd & Hv); [done| |done|].
  - rewrite Nat2Z.inj_succ, Z2Nat.id by apply Z.log2_nonneg.
    destruct (Z.eq_dec n 0) as [->|]; [done|]. apply Z.log2_spec. lia.
  - by rewrite app_nil_r.
Qed.

Lemma to_string_digits n c : 0 <= n -> c ∈ to_string n -> is_digit c = true.
Proof. intros Hn. by destruct (to_string_spec n Hn) as [[_ H] _]; apply H. Qed.

(** Printing then reading gives the number back. *)
Lemma from_chars_to_string max n init :
  0 <= n <= max ->
  parsed_whole (from_chars_unsigned max (to_string n) init) (to_string n) = true /\
  fc_value (from_chars_unsigned max (to_string n) init) = n.
Proof.
  intros [Hn Hm]. destruct (to_string_spec n Hn) as [Hd Hv].
  assert (H : parsed_whole (from_chars_unsigned max (to_string n) init) (to_string n) = true).
  { apply from_chars_unsigned_whole. rewrite Hv. done. }
  split; [done|]. by rewrite from_chars_unsigned_value.
Qed.

(** ** Tokens

[next_token sep s]: the first maximal run of characters that are not separators
and what follows it: [find_first_not_of] then [find_first_of], and also
[stream >> token] with [sep] the white space of the locale. *)
Definition next_token (sep : ascii -> bool) (s : str) : option (str * str) :=
  match find_index (fun c => negb (sep c)) s with
  | None => None
  | Some begin =>
      let tail := drop begin s in
      match find_index sep tail with
      | None => Some (tail, [])
      | Some stop => Some (take stop tail, drop stop tail)
      end
  end.

Fixpoint tokens (fuel : nat) (sep : ascii -> bool) (s : str) : list str :=
  match fuel with
  | O => []
  | S fuel' =>
      match next_token sep s with
      | None => []
      | Some (token, rest) => token :: tokens fuel' sep rest
      end
  end.
(** Every token consumes a character: this fuel is enough ([words_unfold]). *)
Definition words (sep : ascii -> bool) (s : str) : list str := tokens (S (length s)) sep s.

Lemma next_token_shorter sep s token rest :
  next_token sep s = Some (token, rest) -> (length rest < length s)%nat.
Proof.
  unfold next_token. destruct (find_index _ s) as [b|] eqn:Eb; [|done].
  pose proof (find_index_lt _ _ _ Eb).
  destruct (find_index sep (drop b s)) as [e|] eqn:Ee; intros [= <- <-]; [|simpl; lia].
  rewrite !length_drop. apply find_index_Some in Ee as (s1 & c & s2 & E & <- & Hc & _).
  apply find_index_Some in Eb as (t1 & d & t2 & -> & <- & Hd & _).
  rewrite drop_app_length in E. destruct s1; simplify_eq/=; [by rewrite Hc in Hd|lia].
Qed.

Lemma tokens_fuel sep s f1 f2 :
  (length s < f1)%nat -> (length s < f2)%nat -> tokens f1 sep s = tokens f2 sep s.
Proof.
  revert s f2. induction f1 as [|f1 IH]; intros s [|f2] H1 H2; [lia..|]. simpl.
  destruct (next_token sep s) as [[t r]|] eqn:E; [|done]. f_equal.
  apply next_token_shorter in E. apply IH; lia.
Qed.

Lemma words_unfold sep s :
  words sep s =
  match next_token sep s with None => [] | Some (token, rest) => token :: words sep rest end.
Proof.
  unfold words. simpl. destruct (next_token sep s) as [[t r]|] eqn:E; [|done]. f_equal.
  apply next_token_shorter in E.
  change (tokens (length s) sep r = tokens (S (length r)) sep r). apply tokens_fuel; lia.
Qed.

(** A word of a separator: nonempty and without separators. *)
Definition word_of (sep : ascii -> bool) (w : str) : Prop :=
  w <> [] /\ forall c, c ∈ w -> sep c = false.

Lemma find_index_skip p s1 s2 :
  (forall c, c ∈ s1 -> p c = false) ->
  find_index p (s1 ++ s2) = (fun i => (length s1 + i)%nat) <$> find_index p s2.
Proof.
  induction s1 as [|c s1 IH]; intros H; simpl.
  - by destruct (find_index p s2).
  - rewrite H by set_solver. rewrite IH by set_solver. by destruct (find_index p s2).
Qed.

(** Leading separators are skipped; the token ends at the next separator. *)
Lemma next_token_word sep seps w rest :
  (forall c, c ∈ seps -> sep c = true) -> word_of sep w ->
  match rest with [] => True | c :: _ => sep c = true end ->
  next_token sep (seps ++ w ++ rest) = Some (w, rest).
Proof.
  intros Hs [Hne Hw] Hr. unfold next_token.
  rewrite find_index_skip by (intros c Hc; by rewrite Hs).
  destruct w as [|c w]; [done|]. simpl. rewrite (Hw c) by set_solver. simpl.
  rewrite Nat.add_0_r, drop_app_length. change (c :: w ++ rest) with ((c :: w) ++ rest).
  rewrite find_index_skip by done.
  destruct rest as [|d rest]; simpl; [by rewrite app_nil_r|].
  rewrite Hr. simpl. rewrite Nat.add_0_r, take_app_length, drop_app_length. done.
Qed.

Lemma next_token_none sep s : (forall c, c ∈ s -> sep c = true) -> next_token sep s = None.
Proof.
  intros H. unfold next_token. rewrite (proj2 (find_index_None _ _)); [done|].
  intros c Hc. by rewrite H.
Qed.

Lemma next_token_is_word sep s w rest :
  next_token sep s = Some (w, rest) -> word_of sep w.
Proof.
  unfold next_token. destruct (find_index _ s) as [b|] eqn:Eb; [|done].
  apply find_index_Some in Eb as (s1 & c & s2 & -> & <- & Hc & _). rewrite drop_app_length.
  simpl. assert (Hc' : sep c = false) by (by destruct (sep c)). rewrite Hc'.
  destruct (find_index sep s2) as [e|] eqn:Ee; intros [= <- <-]; (split; [done|]).
  - apply find_index_Some in Ee as (t1 & d & t2 & -> & <- & _ & Hn). simpl.
    rewrite take_app_length. set_solver.
  - rewrite find_index_None in Ee. set_solver.
Qed.

(** Words, each preceded by one separator, and separators at the end. *)
Definition spaced (sep : ascii) (ws : list str) : str := concat (map (cons sep) ws).

Lemma words_spaced sep c ws tail :
  sep c = true -> Forall (word_of sep) ws -> (forall d, d ∈ tail -> sep d = true) ->
  words sep (spaced c ws ++ tail) = ws.
Proof.
  intros Hc Hws Ht. induction Hws as [|w ws Hw Hws IH]; rewrite words_unfold; simpl.
  - by rewrite next_token_none.
  - unfold spaced; simpl. fold (spaced c ws).
    change (c :: (w ++ spaced c ws) ++ tail) with ([c] ++ ((w ++ spaced c ws) ++ tail)).
    rewrite <- app_assoc, next_token_word; [by rewrite IH| |done|].
    + by intros d ->%list_elem_of_singleton.
    + destruct ws; simpl; [|done]. destruct tail; [done|]. apply Ht. set_solver.
Qed.

(** [s.remove_suffix(1)] while the last character satisfies [p]. *)
Definition drop_last_while (p : ascii -> bool) (s : str) : str :=
  reverse (drop_while p (reverse s)).

Lemma drop_while_skip p s1 c s2 :
  (forall d, d ∈ s1 -> p d = true) -> p c = false -> drop_while p (s1 ++ c :: s2) = c :: s2.
Proof.
  intros H Hc. unfold drop_while. rewrite find_index_skip by (intros d Hd; by rewrite H).
  simpl. rewrite Hc. simpl. by rewrite Nat.add_0_r, drop_app_length.
Qed.

Lemma drop_last_while_app p s c s2 :
  p c = false -> (forall d, d ∈ s2 -> p d = true) -> drop_last_while p ((s ++ [c]) ++ s2) = s ++ [c].
Proof.
  intros Hc H. unfold drop_last_while. rewrite reverse_app, reverse_app. simpl.
  rewrite drop_while_skip; [|by intros d; rewrite elem_of_reverse; apply H|done].
  change (c :: reverse s) with (reverse [c] ++ reverse s).
  by rewrite <- reverse_app, reverse_involutive.
Qed.

(** A signed full parse reads back what [to_string] printed of a number that is
not negative. *)
Lemma from_chars_signed_to_string min max n init :
  min <= 0 -> 0 <= n <= max ->
  parsed_whole (from_chars_signed min max (to_string n) init) (to_string n) = true /\
  fc_value (from_chars_signed min max (to_string n) init) = n.
Proof.
  intros Hmin [Hn Hm]. destruct (to_string_spec n Hn) as [[Hne Hd] Hv].
  unfold from_chars_signed. destruct (to_string n) as [|c rest] eqn:E; [done|].
  assert (c <> "-"%char).
  { intros ->. specialize (Hd "-"%char ltac:(set_solver)). done. }
  rewrite bool_decide_eq_false_2 by done. rewrite take_while_all by done.
  cbv beta iota zeta. rewrite Hv, (proj2 (Z.leb_le min n)), (proj2 (Z.leb_le n max)) by lia.
  unfold parsed_whole. simpl. by rewrite Nat.eqb_refl.
Qed.

Lemma from_chars_signed_range min max text init :
  parsed_whole (from_chars_signed min max text init) text = true ->
  min <= fc_value (from_chars_signed min max text init) <= max.
Proof.
  unfold from_chars_signed, parsed_whole.
  destruct (match text with [] => _ | c :: rest => _ end) as [negative body].
  destruct (take_while is_digit body) as [|c ds]; [done|].
  destruct ((min <=? _) && (_ <=? max)) eqn:E; [|done]. intros _. simpl. bool_facts. lia.
Qed.
