(* ===== verification/Prog.v ===== *)
(** * Programs that call their environment

The services of LX are pure control flow around calls of the environment: the
provider interfaces of [include/lx/contracts/], the clocks, the sleeping.  A
[prog E A] is such a computation: it returns, or performs a call of the
signature [E] and goes on with the answer.  [runs t tr a] says that [t] can
return [a] when the environment behaves as the trace [tr], the sequence of its
calls with their answers; a theorem over all runs holds whatever the
environment answers.  [run] executes a program against a handler. *)

From S2P Require Import Prelude.
From Stdlib Require Import Setoid Morphisms.

Inductive prog (E : Type -> Type) (A : Type) : Type :=
| Ret (a : A)
| Vis {X : Type} (e : E X) (k : X -> prog E A).
Arguments Ret {E A} a.
Arguments Vis {E A X} e k.

(** A call with its answer. *)
Inductive event (E : Type -> Type) : Type :=
| Ev {X : Type} (e : E X) (x : X).
Arguments Ev {E X} e x.

Notation trace E := (list (event E)).

Fixpoint runs {E A} (t : prog E A) (tr : trace E) (a : A) : Prop :=
  match t with
  | Ret b => tr = [] /\ a = b
  | Vis e k => exists x tr', tr = Ev e x :: tr' /\ runs (k x) tr' a
  end.

Definition trigger {E X} (e : E X) : prog E X := Vis e Ret.

Fixpoint bind {E A B} (t : prog E A) (f : A -> prog E B) : prog E B :=
  match t with
  | Ret a => f a
  | Vis e k => Vis e (fun x => bind (k x) f)
  end.

Declare Scope prog_scope.
Delimit Scope prog_scope with prog.
Notation "x <- t ;; k" := (bind t (fun x => k))
  (at level 100, t at next level, right associativity) : prog_scope.
Notation "t ;; k" := (bind t (fun _ => k))
  (at level 100, right associativity) : prog_scope.
#[global] Open Scope prog_scope.

Section Runs.
Context {E : Type -> Type}.

Lemma runs_ret {A} (a b : A) (tr : trace E) : runs (Ret a) tr b <-> tr = [] /\ b = a.
Proof. done. Qed.

Lemma runs_trigger {X} (e : E X) tr (x : X) : runs (trigger e) tr x <-> tr = [Ev e x].
Proof.
  split.
  - intros (y & tr' & -> & -> & ->). done.
  - intros ->. exists x, []. done.
Qed.

Lemma runs_bind {A B} (t : prog E A) (f : A -> prog E B) tr b :
  runs (bind t f) tr b <->
  exists tr1 a tr2, tr = tr1 ++ tr2 /\ runs t tr1 a /\ runs (f a) tr2 b.
Proof.
  revert tr. induction t as [a|X e k IH]; intros tr; simpl.
  - split.
    + intros H. by exists [], a, tr.
    + by intros (tr1 & a' & tr2 & -> & [-> ->] & H).
  - split.
    + intros (x & tr' & -> & (tr1 & a & tr2 & -> & H1 & H2)%IH).
      exists (Ev e x :: tr1), a, tr2. eauto 10.
    + intros (tr1 & a & tr2 & -> & (x & tr' & -> & H1) & H2).
      exists x, (tr' ++ tr2). split; [done|]. apply IH. eauto 10.
Qed.

(** Programs with the same runs. *)
Definition prog_eq {A} (t u : prog E A) : Prop := forall tr a, runs t tr a <-> runs u tr a.

#[export] Instance prog_eq_equivalence {A} : Equivalence (@prog_eq A).
Proof.
  split; unfold prog_eq; [done | by intros t u H tr a; rewrite H |].
  intros t u v H1 H2 tr a. by rewrite H1, H2.
Qed.

#[export] Instance runs_proper {A} : Proper (prog_eq ==> (=) ==> (=) ==> iff) (@runs E A).
Proof. intros t u H tr ? <- a ? <-. apply H. Qed.

#[export] Instance bind_proper {A B} :
  Proper (prog_eq ==> pointwise_relation A prog_eq ==> prog_eq) (@bind E A B).
Proof.
  intros t u H f g Hfg tr b. rewrite !runs_bind.
  split; intros (tr1 & a & tr2 & ? & ? & ?); exists tr1, a, tr2; split_and!; try done.
  - by apply H.
  - by apply Hfg.
  - by apply H.
  - by apply Hfg.
Qed.

Lemma bind_ret_l {A B} (a : A) (f : A -> prog E B) : prog_eq (bind (Ret a) f) (f a).
Proof. done. Qed.
Lemma bind_ret_r {A} (t : prog E A) : prog_eq (bind t Ret) t.
Proof.
  intros tr a. rewrite runs_bind. split.
  - intros (tr1 & b & tr2 & -> & H & -> & ->). by rewrite app_nil_r.
  - intros H. exists tr, a, []. by rewrite app_nil_r.
Qed.
Lemma bind_bind {A B C} (t : prog E A) (f : A -> prog E B) (g : B -> prog E C) :
  prog_eq (bind (bind t f) g) (bind t (fun a => bind (f a) g)).
Proof.
  intros tr c. rewrite !runs_bind. setoid_rewrite runs_bind. split.
  - intros (? & b & tr3 & -> & (tr1 & a & tr2 & -> & ? & ?) & ?).
    exists tr1, a, (tr2 ++ tr3). rewrite <- app_assoc. split_and!; eauto 10.
  - intros (tr1 & a & ? & -> & ? & (tr2 & b & tr3 & -> & ? & ?)).
    exists (tr1 ++ tr2), b, tr3. rewrite app_assoc. split_and!; eauto 10.
Qed.

(** ** Execution against a handler of the calls *)
Section Handler.
Context {S : Type} (h : forall X, E X -> S -> X * S).

Fixpoint run {A} (t : prog E A) (s : S) : A * trace E * S :=
  match t with
  | Ret a => (a, [], s)
  | Vis e k =>
    let '(x, s1) := h _ e s in
    let '(a, tr, s2) := run (k x) s1 in
    (a, Ev e x :: tr, s2)
  end.

Lemma run_runs {A} (t : prog E A) s : runs t (run t s).1.2 (run t s).1.1.
Proof.
  revert s. induction t as [a|X e k IH]; intros s; simpl; [done|].
  destruct (h X e s) as [x s1]. specialize (IH x s1).
  destruct (run (k x) s1) as [[a tr] s2]. simpl in *. eauto.
Qed.
End Handler.

(** Execution against a handler that may leave calls unanswered. *)
Section Partial.
Context {S : Type} (h : forall X, E X -> S -> option (X * S)).

Fixpoint exec {A} (t : prog E A) (s : S) : option (A * trace E * S) :=
  match t with
  | Ret a => Some (a, [], s)
  | Vis e k =>
      match h _ e s with
      | None => None
      | Some (x, s1) =>
          match exec (k x) s1 with
          | None => None
          | Some (a, tr, s2) => Some (a, Ev e x :: tr, s2)
          end
      end
  end.

Lemma exec_runs {A} (t : prog E A) s a tr s' : exec t s = Some (a, tr, s') -> runs t tr a.
Proof.
  revert s tr. induction t as [b|X e k IH]; intros s tr; simpl.
  - by intros [= <- <- _].
  - destruct (h X e s) as [[x s1]|]; [|done]. destruct (exec (k x) s1) as [[[b tr'] s2]|] eqn:E'; [|done].
    intros [= <- <- <-]. apply IH in E'. eauto.
Qed.
End Partial.

(** Every program has a run in every environment that answers its calls. *)
Lemma runs_total {A} (t : prog E A) (h : forall X, E X -> X) : exists tr a, runs t tr a.
Proof. eexists _, _. apply (run_runs (fun X e (s : unit) => (h X e, s)) t tt). Qed.

(** ** Invariants of the calls

[calls_ok P t]: every call [t] makes, in every run, satisfies [P]. *)
Fixpoint calls_ok (P : forall X, E X -> Prop) {A} (t : prog E A) : Prop :=
  match t with
  | Ret _ => True
  | Vis e k => P _ e /\ forall x, calls_ok P (k x)
  end.

Definition ev_ok (P : forall X, E X -> Prop) (ev : event E) : Prop :=
  match ev with Ev e _ => P _ e end.

Lemma calls_ok_runs P {A} (t : prog E A) tr a :
  calls_ok P t -> runs t tr a -> Forall (ev_ok P) tr.
Proof.
  revert tr. induction t as [b|X e k IH]; intros tr; simpl.
  - intros _ [-> _]. constructor.
  - intros [He Hk] (x & tr' & -> & H). constructor; [done|]. by apply (IH x).
Qed.

Lemma calls_ok_bind P {A B} (t : prog E A) (f : A -> prog E B) :
  calls_ok P t -> (forall a, calls_ok P (f a)) -> calls_ok P (bind t f).
Proof. induction t as [a|X e k IH]; simpl; [auto|]. intros [He Hk] Hf. split; auto. Qed.

Lemma calls_ok_mono (P Q : forall X, E X -> Prop) {A} (t : prog E A) :
  (forall X (e : E X), P X e -> Q X e) -> calls_ok P t -> calls_ok Q t.
Proof. intros HPQ. induction t as [a|X e k IH]; simpl; [auto|]. intros [He Hk]. split; auto. Qed.
End Runs.
Arguments calls_ok {E} P {A} t : simpl nomatch.

Create HintDb calls.
#[export] Hint Resolve calls_ok_bind : calls.

(** [calls_after P h t]: every call [t] makes after the calls of [h], also in a run
that does not come to an end, satisfies [P] of the calls before it. *)
Section CallsAfter.
Context {E : Type -> Type} (P : trace E -> forall X, E X -> Prop).

Fixpoint calls_after (h : trace E) {A} (t : prog E A) : Prop :=
  match t with
  | Ret _ => True
  | Vis e k => P h _ e /\ forall x, calls_after (h ++ [Ev e x]) (k x)
  end.

Lemma calls_after_bind {A B} h (t : prog E A) (f : A -> prog E B) :
  calls_after h t -> (forall tr a, runs t tr a -> calls_after (h ++ tr) (f a)) -> calls_after h (bind t f).
Proof.
  revert h. induction t as [a|X e k IH]; intros h; simpl.
  - intros _ H. specialize (H [] a). rewrite app_nil_r in H. by apply H.
  - intros [He Hk] Hf. split; [done|]. intros x. apply IH; [done|].
    intros tr a Hr. rewrite <- app_assoc. apply Hf. eauto.
Qed.

Lemma calls_ok_after {A} (Q : forall X, E X -> Prop) h (t : prog E A) :
  (forall h X (e : E X), Q X e -> P h X e) -> calls_ok Q t -> calls_after h t.
Proof.
  intros HQ. revert h. induction t as [a|X e k IH]; intros h; simpl; [done|].
  intros [He Hk]. split; [by apply HQ|]. intros x. apply IH, Hk.
Qed.

Lemma calls_after_runs {A} h (t : prog E A) tr a before ev after :
  calls_after h t -> runs t tr a -> tr = before ++ ev :: after -> ev_ok (P (h ++ before)) ev.
Proof.
  revert h tr before. induction t as [b|X e k IH]; intros h tr before; simpl.
  - intros _ [-> _] Heq. by destruct before.
  - intros [He Hk] (x & tr' & -> & Hr) Heq. destruct before as [|ev' before].
    + injection Heq as <- _. by rewrite app_nil_r.
    + injection Heq as <- Heq. rewrite cons_middle, app_assoc. by eapply IH.
Qed.
End CallsAfter.

(** ** Postconditions

[ensures Q t]: every run of [t] returns a value that satisfies [Q]. *)
Section Ensures.
Context {E : Type -> Type}.

Definition ensures {A} (Q : A -> Prop) (t : prog E A) : Prop :=
  forall tr a, runs t tr a -> Q a.

Lemma ensures_ret {A} (Q : A -> Prop) a : Q a -> ensures Q (Ret a).
Proof. by intros H tr b [_ ->]. Qed.

Lemma ensures_bind {A B} (R : A -> Prop) (Q : B -> Prop) (t : prog E A) (f : A -> prog E B) :
  ensures R t -> (forall a, R a -> ensures Q (f a)) -> ensures Q (bind t f).
Proof. intros Ht Hf tr b (t1 & a & t2 & -> & H1 & H2)%runs_bind. eapply Hf; eauto. Qed.

Lemma ensures_any {A B} (Q : B -> Prop) (t : prog E A) (f : A -> prog E B) :
  (forall a, ensures Q (f a)) -> ensures Q (bind t f).
Proof. intros Hf. eapply (ensures_bind (fun _ => True)); [done|auto]. Qed.

Lemma ensures_mono {A} (R Q : A -> Prop) (t : prog E A) :
  (forall a, R a -> Q a) -> ensures R t -> ensures Q t.
Proof. intros HRQ H tr a Hr. eauto. Qed.
End Ensures.

(** ** Where a program stands

[waits_at P t tr]: after the calls of [tr] the next call of [t] satisfies [P]. *)
Section WaitsAt.
Context {E : Type -> Type} (P : forall X, E X -> Prop).

Fixpoint waits_at {A} (t : prog E A) (tr : trace E) : Prop :=
  match t with
  | Ret _ => False
  | Vis e k => (tr = [] /\ P _ e) \/ exists x tr', tr = Ev e x :: tr' /\ waits_at (k x) tr'
  end.

Lemma waits_at_bind {A B} (t : prog E A) (f : A -> prog E B) tr :
  waits_at (bind t f) tr <->
  waits_at t tr \/ exists tr1 a tr2, tr = tr1 ++ tr2 /\ runs t tr1 a /\ waits_at (f a) tr2.
Proof.
  revert tr. induction t as [a|X e k IH]; intros tr; simpl.
  - split.
    + intros H. right. by exists [], a, tr.
    + intros [[]|(tr1 & a' & tr2 & -> & [-> ->] & H)]. done.
  - split.
    + intros [H|(x & tr' & -> & [H|(tr1 & a & tr2 & -> & H1 & H2)]%IH)].
      * auto.
      * left. right. eauto.
      * right. exists (Ev e x :: tr1), a, tr2. eauto 10.
    + intros [[H|(x & tr' & -> & H)]|(tr1 & a & tr2 & -> & (x & tr' & -> & H1) & H2)].
      * auto.
      * right. exists x, tr'. split; [done|]. apply IH. auto.
      * right. exists x, (tr' ++ tr2). split; [done|]. apply IH. right. eauto 10.
Qed.
End WaitsAt.

(** ** A state that follows the calls

[tracks s t Q]: from the state [s], which every call with its answer moves by [next],
each call of [t] is allowed in the state it finds, and [Q] holds of the last one. *)
Section Tracks.
Context {E : Type -> Type} {S : Type}.
Variables (next : S -> event E -> S) (ok : S -> forall X, E X -> Prop).

Fixpoint tracks (s : S) {A} (t : prog E A) (Q : S -> A -> Prop) : Prop :=
  match t with
  | Ret a => Q s a
  | Vis e k => ok s _ e /\ forall x, tracks (next s (Ev e x)) (k x) Q
  end.

Lemma tracks_mono {A} s (t : prog E A) (Q R : S -> A -> Prop) :
  tracks s t Q -> (forall s' a, Q s' a -> R s' a) -> tracks s t R.
Proof. revert s. induction t as [a|X e k IH]; intros s; cbn; [auto|]. intros [He Hk] H. split; auto. Qed.

Lemma tracks_bind {A B} s (t : prog E A) (f : A -> prog E B) Q :
  tracks s t (fun s' a => tracks s' (f a) Q) -> tracks s (bind t f) Q.
Proof. revert s. induction t as [a|X e k IH]; intros s; cbn; [done|]. intros [He Hk]. auto. Qed.

(** Calls that are always allowed and leave the state alone. *)
Lemma tracks_ok {A} (P : forall X, E X -> Prop) s (t : prog E A) :
  (forall X (e : E X), P X e -> ok s X e /\ forall x, next s (Ev e x) = s) ->
  calls_ok P t -> tracks s t (fun s' _ => s' = s).
Proof.
  intros HP. induction t as [a|X e k IH]; cbn; [done|]. intros [He Hk].
  destruct (HP X e He) as [Hok Hn]. split; [done|]. intros x. rewrite Hn. auto.
Qed.

Lemma tracks_runs {A} s (t : prog E A) tr a Q : tracks s t Q -> runs t tr a -> Q (foldl next s tr) a.
Proof.
  revert s tr. induction t as [b|X e k IH]; intros s tr; cbn; [by intros H [-> ->]|].
  intros [_ Hk] (x & tr' & -> & Hr). exact (IH x _ tr' (Hk x) Hr).
Qed.

Lemma tracks_allowed {A} s (t : prog E A) tr before ev after a Q :
  tracks s t Q -> runs t tr a -> tr = before ++ ev :: after -> ev_ok (ok (foldl next s before)) ev.
Proof.
  revert s tr before. induction t as [b|X e k IH]; intros s tr before; cbn.
  - intros _ [-> _] Heq. by destruct before.
  - intros [He Hk] (x & tr' & -> & Hr) Heq. destruct before as [|ev' before].
    + by injection Heq as <- _.
    + injection Heq as <- Heq. exact (IH x _ tr' before (Hk x) Hr Heq).
Qed.
End Tracks.

(** ** Implementing calls by programs of a lower layer *)

Section Interp.
Context {E F : Type -> Type} (h : forall X, E X -> prog F X).

Fixpoint interp {A} (t : prog E A) : prog F A :=
  match t with
  | Ret a => Ret a
  | Vis e k => bind (h _ e) (fun x => interp (k x))
  end.

(** A state of the lower calls that moves as the state of the upper calls does. *)
Lemma tracks_interp {S} nextE okE nextF okF (s : S) {A} (t : prog E A) Q :
  (forall s X (e : E X), okE s X e -> tracks nextF okF s (h X e) (fun s' x => s' = nextE s (Ev e x))) ->
  tracks nextE okE s t Q -> tracks nextF okF s (interp t) Q.
Proof.
  intros Hh. revert s. induction t as [a|X e k IH]; intros s; cbn; [done|]. intros [He Hk].
  apply tracks_bind. eapply tracks_mono; [by apply Hh|]. intros s' x ->. auto.
Qed.

(** The lower trace realises the upper one, call by call. *)
Inductive realizes : trace E -> trace F -> Prop :=
| realizes_nil : realizes [] []
| realizes_cons X (e : E X) x trE trF1 trF2 :
  runs (h X e) trF1 x -> realizes trE trF2 ->
  realizes (Ev e x :: trE) (trF1 ++ trF2).

Lemma runs_interp {A} (t : prog E A) trF a :
  runs (interp t) trF a -> exists trE, runs t trE a /\ realizes trE trF.
Proof.
  revert trF. induction t as [b|X e k IH]; intros trF; simpl.
  - intros [-> ->]. exists []. split; [done|constructor].
  - rewrite runs_bind. intros (tr1 & x & tr2 & -> & H1 & (trE & H2 & H3)%IH).
    exists (Ev e x :: trE). split; [eauto|]. by constructor.
Qed.

(** An answer guaranteed by every run of the implementation is an answer the
client may rely on. *)
Lemma realizes_answers (P : event E -> Prop) trE trF :
  (forall X (e : E X) tr x, runs (h X e) tr x -> P (Ev e x)) ->
  realizes trE trF -> Forall P trE.
Proof. intros HP. induction 1; constructor; eauto. Qed.

(** What is seen of a lower trace was done by one of the upper calls. *)
Lemma realizes_locate {T} (obs : trace F -> list T) :
  (forall y, y ∈ obs [] -> False) ->
  (forall X (e : E X) x tr trE trF y, runs (h X e) tr x -> realizes trE trF ->
   y ∈ obs (tr ++ trF) -> y ∈ obs tr \/ y ∈ obs trF) ->
  forall trE trF y, realizes trE trF -> y ∈ obs trF ->
  exists before X (e : E X) x after trF1 tr trF2,
    trE = before ++ Ev e x :: after /\ trF = trF1 ++ tr ++ trF2 /\
    realizes before trF1 /\ runs (h X e) tr x /\ y ∈ obs tr.
Proof.
  intros Hnil Hstep trE trF y. induction 1 as [|X e x trE tr1 tr2 Hr Hre IH]; intros Hy.
  - by apply Hnil in Hy.
  - destruct (Hstep _ _ _ _ _ _ _ Hr Hre Hy) as [Hy1|Hy2].
    + exists [], X, e, x, trE, [], tr1, tr2. split_and!; [done..|constructor|done|done].
    + destruct (IH Hy2) as (before & Y & e' & x' & after & t1 & tr & t2 & -> & -> & H1 & H2 & H3).
      exists (Ev e x :: before), Y, e', x', after, (tr1 ++ t1), tr, t2.
      rewrite <- app_assoc. split_and!; [done..|by constructor|done|done].
Qed.
End Interp.

(** Two layers of implementations are one. *)
Lemma runs_interp_interp {E F G A} (g : forall X, E X -> prog F X) (h : forall X, F X -> prog G X) (t : prog E A) tr a :
  runs (interp h (interp g t)) tr a <-> runs (interp (fun X e => interp h (g X e)) t) tr a.
Proof.
  assert (Hb : forall B C (u : prog F B) (k : B -> prog F C) tr c,
    runs (interp h (bind u k)) tr c <-> runs (bind (interp h u) (fun b => interp h (k b))) tr c).
  { intros B C u k. induction u as [b|X e k' IH]; intros t' c; simpl; [done|].
    rewrite bind_bind, !runs_bind. by setoid_rewrite IH. }
  revert tr. induction t as [b|X e k IH]; intros tr; simpl; [done|].
  rewrite Hb, !runs_bind. by setoid_rewrite IH.
Qed.

(** ** Calls as calls of a wider signature *)

Section Lift.
Context {E F : Type -> Type} (inj : forall X, E X -> F X).

Definition lift {A} (t : prog E A) : prog F A := interp (fun X e => trigger (inj X e)) t.
Definition lift_event (ev : event E) : event F := match ev with Ev e x => Ev (inj _ e) x end.

Lemma runs_lift {A} (t : prog E A) tr a :
  runs (lift t) tr a -> exists tr0, runs t tr0 a /\ tr = map lift_event tr0.
Proof.
  intros (tr0 & Hr & Hre)%runs_interp. exists tr0. split; [done|]. clear Hr.
  induction Hre as [|X e x trE trF1 trF2 H _ ->]; [done|].
  apply runs_trigger in H as ->. done.
Qed.

Lemma calls_ok_lift (P : forall X, F X -> Prop) {A} (t : prog E A) :
  calls_ok (fun X e => P X (inj X e)) t -> calls_ok P (lift t).
Proof. induction t as [a|X e k IH]; simpl; [done|]. intros [He Hk]. split; auto. Qed.

Lemma calls_after_lift (P : trace F -> forall X, F X -> Prop) h (Q : forall X, E X -> Prop) {A} (t : prog E A) :
  (forall tr X (e : E X), Q X e -> P (h ++ map lift_event tr) X (inj X e)) ->
  calls_ok Q t -> calls_after P h (lift t).
Proof.
  intros HQ. assert (H : forall tr, calls_ok Q t -> calls_after P (h ++ map lift_event tr) (lift t)).
  { induction t as [a|X e k IH]; intros tr; simpl; [done|]. intros [He Hk]. split; [by apply HQ|].
    intros x. specialize (IH x (tr ++ [Ev e x]) (Hk x)). by rewrite map_app, app_assoc in IH. }
  specialize (H []). by rewrite app_nil_r in H.
Qed.
End Lift.

Lemma calls_ok_True {E A} (P : forall X, E X -> Prop) (t : prog E A) :
  (forall X (e : E X), P X e) -> calls_ok P t.
Proof. intros HP. induction t as [a|X e k IH]; simpl; auto. Qed.

Lemma calls_ok_interp {E F A} (h : forall X, E X -> prog F X) (P : forall X, F X -> Prop) (t : prog E A) :
  (forall X (e : E X), calls_ok P (h X e)) -> calls_ok P (interp h t).
Proof. intros H. induction t as [a|X e k IH]; simpl; [done|]. by apply calls_ok_bind. Qed.

(** ** Inverting a run

[inv_runs] decomposes every hypothesis [runs t tr a] along the structure of
[t]: binds, returns and calls. *)
Ltac inv_runs :=
  repeat match goal with
  | H : runs (Ret _) _ _ |- _ => apply runs_ret in H as [-> ->] || (apply runs_ret in H as [? ?])
  | H : runs (trigger _) _ _ |- _ => apply runs_trigger in H as ->
  | H : runs (bind _ _) _ _ |- _ =>
      let tr1 := fresh "tr" in let x := fresh "x" in let tr2 := fresh "tr" in
      let H1 := fresh "Hr" in let H2 := fresh "Hr" in
      apply runs_bind in H as (tr1 & x & tr2 & -> & H1 & H2)
  end.
