(* ===== verification/Domain.v ===== *)
(** * The domain model ([include/lx/domain/])

Error codes, errors and warnings, [Result] and [Observation], and the data the
services exchange.  Integers are [Z] with the width of their C++ type (the
bounds appear where the code checks or relies on them); [double] is IEEE 754
binary64 as specified by [SpecFloat]; durations and time points are the tick
counts of their clocks. *)

From S2P Require Import Prelude CppStd CppString Prog.
From Stdlib Require Import Ascii SpecFloat.

(** ** Errors, results, observations *)

Inductive ErrorCode :=
| InvalidArgument | NotFound | PermissionDenied | Unsupported | Unavailable
| IoError | ProtocolError | ParseError | OperationFailed | Timeout | Conflict
| Interrupted.
#[export] Instance ErrorCode_eq_dec : EqDecision ErrorCode.
Proof. solve_decision. Defined.

Record Error := mkError {
  err_code : ErrorCode;
  err_message : str;
  err_systemError : Z;
  err_component : str;
  err_operation : str;
}.
#[export] Instance Error_eq_dec : EqDecision Error.
Proof. solve_decision. Defined.

Record Warning := mkWarning {
  warn_code : ErrorCode;
  warn_message : str;
  warn_systemError : Z;
  warn_component : str;
  warn_operation : str;
}.
#[export] Instance Warning_eq_dec : EqDecision Warning.
Proof. solve_decision. Defined.

Definition warningFrom (error : Error) : Warning :=
  mkWarning (err_code error) (err_message error) (err_systemError error)
    (err_component error) (err_operation error).

(** [Result<T>]: a variant of a value and an error. *)
Inductive Result (A : Type) : Type :=
| Success (value : A)
| Failure (error : Error).
Arguments Success {A} value.
Arguments Failure {A} error.

Definition hasValue {A} (r : Result A) : bool :=
  match r with Success _ => true | Failure _ => false end.

Record Observation (A : Type) := Observed { obs_value : A; obs_warnings : list Warning }.
Arguments Observed {A} obs_value obs_warnings.
Arguments obs_value {A} _.
Arguments obs_warnings {A} _.

(** [if (!r) return failure(r.error());] for a pure [r]... *)
Notation "'let?' x := r 'in' k" :=
  (match r with Failure error => Failure error | Success x => k end)
  (at level 10, x name, r at level 100, k at level 200).

(** ... and for a call. *)
Definition bindR {E A B} (t : prog E (Result A)) (f : A -> prog E (Result B)) :
  prog E (Result B) :=
  r <- t ;; match r with Failure error => Ret (Failure error) | Success a => f a end.
Notation "x <-? t ;; k" := (bindR t (fun x => k))
  (at level 100, t at next level, right associativity) : prog_scope.

Lemma runs_bindR {E A B} (t : prog E (Result A)) (f : A -> prog E (Result B)) tr r :
  runs (bindR t f) tr r <->
  (exists error, runs t tr (Failure error) /\ r = Failure error) \/
  (exists tr1 a tr2, tr = tr1 ++ tr2 /\ runs t tr1 (Success a) /\ runs (f a) tr2 r).
Proof.
  unfold bindR. rewrite runs_bind. split.
  - intros (tr1 & [a|error] & tr2 & -> & H1 & H2).
    + right. eauto 10.
    + left. apply runs_ret in H2 as [-> ->]. rewrite app_nil_r. eauto.
  - intros [(error & H & ->)|(tr1 & a & tr2 & -> & H1 & H2)].
    + exists tr, (Failure error), []. by rewrite app_nil_r.
    + exists tr1, (Success a), tr2. done.
Qed.

Lemma calls_ok_bindR {E A B} P (t : prog E (Result A)) (f : A -> prog E (Result B)) :
  calls_ok P t -> (forall a, calls_ok P (f a)) -> calls_ok P (bindR t f).
Proof. intros Ht Hf. apply calls_ok_bind; [done|]. by intros [a|e]; simpl. Qed.
#[export] Hint Resolve calls_ok_bindR : calls.

(** ** Sockets and ports *)

Inductive TransportProtocol := Tcp | Udp.
#[export] Instance TransportProtocol_eq_dec : EqDecision TransportProtocol.
Proof. solve_decision. Defined.
Inductive AddressFamily := IPv4 | IPv6.
#[export] Instance AddressFamily_eq_dec : EqDecision AddressFamily.
Proof. solve_decision. Defined.

(** Enumerators compare by their underlying values. *)
Definition protocol_index (p : TransportProtocol) : Z := match p with Tcp => 0 | Udp => 1 end.
Definition family_index (f : AddressFamily) : Z := match f with IPv4 => 0 | IPv6 => 1 end.
#[export] Instance protocol_index_inj : Inj (=) (=) protocol_index.
Proof. by intros [] []. Qed.
#[export] Instance family_index_inj : Inj (=) (=) family_index.
Proof. by intros [] []. Qed.
#[export] Instance TransportProtocol_cmp : Cmp TransportProtocol := cmp_via protocol_index.
#[export] Instance TransportProtocol_cmp_laws : CmpLaws TransportProtocol := cmp_via_laws _.
#[export] Instance AddressFamily_cmp : Cmp AddressFamily := cmp_via family_index.
#[export] Instance AddressFamily_cmp_laws : CmpLaws AddressFamily := cmp_via_laws _.

Record Endpoint := mkEndpoint { ep_address : str; ep_port : Z }.
#[export] Instance Endpoint_eq_dec : EqDecision Endpoint.
Proof. solve_decision. Defined.

Record SocketInfo := mkSocketInfo {
  si_protocol : TransportProtocol;
  si_family : AddressFamily;
  si_local : Endpoint;
  si_remote : option Endpoint;
  si_state : str;
  si_uid : Z;
  si_inode : Z;
  si_ownerPids : list Z;
}.
#[export] Instance SocketInfo_eq_dec : EqDecision SocketInfo.
Proof. solve_decision. Defined.

Definition set_ownerPids (pids : list Z) (s : SocketInfo) : SocketInfo :=
  mkSocketInfo (si_protocol s) (si_family s) (si_local s) (si_remote s) (si_state s)
    (si_uid s) (si_inode s) pids.

Record SocketQuery := mkSocketQuery {
  sq_localPort : option Z;
  sq_protocol : option TransportProtocol;
  sq_listeningOnly : bool;
}.
(** [SocketQuery query;] *)
Definition default_SocketQuery : SocketQuery := mkSocketQuery None None true.

(** [std::unordered_map<std::uint64_t, std::vector<pid_t>>] *)
Abbreviation SocketOwnership := (gmap Z (list Z)).

(** ** Processes, signals *)

Abbreviation double := spec_float.

Record ProcessInfo := mkProcessInfo {
  pi_pid : Z;
  pi_ppid : Z;
  pi_name : str;
  pi_state : str;
  pi_uid : Z;
  pi_gid : Z;
  pi_user : str;
  pi_executable : option str;
  pi_cwd : option str;
  pi_argv : list str;
  pi_rssBytes : Z;
  pi_threads : Z;
  pi_cpuPercent : option double;
  pi_systemdUnit : option str;
}.

Definition set_systemdUnit (unit : option str) (p : ProcessInfo) : ProcessInfo :=
  mkProcessInfo (pi_pid p) (pi_ppid p) (pi_name p) (pi_state p) (pi_uid p) (pi_gid p)
    (pi_user p) (pi_executable p) (pi_cwd p) (pi_argv p) (pi_rssBytes p) (pi_threads p)
    (pi_cpuPercent p) unit.
Definition set_cpuPercent (cpu : option double) (p : ProcessInfo) : ProcessInfo :=
  mkProcessInfo (pi_pid p) (pi_ppid p) (pi_name p) (pi_state p) (pi_uid p) (pi_gid p)
    (pi_user p) (pi_executable p) (pi_cwd p) (pi_argv p) (pi_rssBytes p) (pi_threads p)
    cpu (pi_systemdUnit p).

Record ProcessQuery := mkProcessQuery {
  pq_name : option str;
  pq_user : option str;
  pq_systemdUnit : option str;
}.
Definition default_ProcessQuery : ProcessQuery := mkProcessQuery None None None.

Record PortInfo := mkPortInfo { port_socket : SocketInfo; port_owners : list ProcessInfo }.

Inductive ProcessSignal := Terminate | Kill.
#[export] Instance ProcessSignal_eq_dec : EqDecision ProcessSignal.
Proof. solve_decision. Defined.
Inductive SignalMechanism := ByPidFd | ByKill.
#[export] Instance SignalMechanism_eq_dec : EqDecision SignalMechanism.
Proof. solve_decision. Defined.

Record SignalDelivery := mkSignalDelivery {
  sd_pid : Z; sd_signal : ProcessSignal; sd_mechanism : SignalMechanism }.
Record SignalCapabilities := mkSignalCapabilities {
  signalingAvailable : bool; pidFdAvailable : bool }.

(** ** Port release *)

Record PortReleasePlan := mkPortReleasePlan {
  plan_localPort : Z;
  plan_ports : list PortInfo;
  plan_ownerPids : list Z;
  plan_recommendedUnit : option str;
}.

Record PortReleaseResult := mkPortReleaseResult {
  rel_released : bool;
  rel_deliveries : list SignalDelivery;
  rel_remaining : option PortReleasePlan;
}.

(** ** Services, journal *)

Record ServiceInfo := mkServiceInfo {
  svc_unitName : str;
  svc_description : str;
  svc_loadState : str;
  svc_activeState : str;
  svc_subState : str;
  svc_unitFileState : str;
  svc_mainPid : option Z;
  svc_activeEnterTimestampUsec : Z;
}.
#[export] Instance ServiceInfo_eq_dec : EqDecision ServiceInfo.
Proof. solve_decision. Defined.

Record JournalEntry := mkJournalEntry {
  je_timestamp : Z;           (* nanoseconds of the system clock *)
  je_cursor : str;
  je_systemdUnit : option str;
  je_pid : option Z;
  je_command : option str;
  je_message : str;
  je_priority : option Z;
}.
#[export] Instance JournalEntry_eq_dec : EqDecision JournalEntry.
Proof. solve_decision. Defined.

Record LogQuery := mkLogQuery {
  lq_unit : option str;
  lq_pid : option Z;
  lq_since : option Z;        (* nanoseconds of the system clock *)
  lq_limit : Z;
  lq_follow : bool;
}.
(** [LogQuery query;] *)
Definition default_LogQuery : LogQuery := mkLogQuery None None None 50 false.

(** ** Resources *)

Inductive ResourceTarget :=
| PortTarget (port : Z)
| ProcessTarget (pid : Z)
| ServiceTarget (unit : str).
#[export] Instance ResourceTarget_eq_dec : EqDecision ResourceTarget.
Proof. solve_decision. Defined.

Record ResourceGraph := mkResourceGraph {
  rg_root : ResourceTarget;
  rg_ports : list PortInfo;
  rg_processes : list ProcessInfo;
  rg_services : list ServiceInfo;
  rg_recentLogs : list JournalEntry;
  rg_warnings : list Warning;
}.

Record FindResult := mkFindResult {
  fr_services : list ServiceInfo;
  fr_processes : list ProcessInfo;
  fr_ports : list PortInfo;
  fr_executables : list str;
  fr_warnings : list Warning;
}.

(** ** Metrics, dashboard, doctor *)

Record CpuTimes := mkCpuTimes { totalTicks : Z; idleTicks : Z }.

Record SystemMetricsSample := mkSystemMetricsSample {
  sms_cpu : CpuTimes;
  sms_memoryTotalBytes : Z;
  sms_memoryAvailableBytes : Z;
  sms_uptime : Z;             (* milliseconds *)
  sms_logicalCpuCount : Z;
  sms_hostname : str;
}.

Record ProcessCpuSample := mkProcessCpuSample {
  pcs_pid : Z; pcs_startTimeTicks : Z; pcs_cpuTimeTicks : Z }.

Record MetricsSnapshot := mkMetricsSnapshot {
  ms_system : SystemMetricsSample; ms_processes : list ProcessCpuSample }.

Record HostStatus := mkHostStatus {
  hs_hostname : str;
  hs_cpuPercent : option double;
  hs_memoryTotalBytes : Z;
  hs_memoryUsedBytes : Z;
  hs_uptime : Z;
}.
Definition default_HostStatus : HostStatus := mkHostStatus [] None 0 0 0.

Record MetricsView := mkMetricsView {
  mv_host : HostStatus; mv_processCpuPercent : gmap Z double }.

Record DashboardSnapshot := mkDashboardSnapshot {
  ds_host : HostStatus;
  ds_processes : list ProcessInfo;
  ds_ports : list PortInfo;
  ds_services : list ServiceInfo;
  ds_hostStale : bool;
  ds_processesStale : bool;
  ds_portsStale : bool;
  ds_servicesStale : bool;
  ds_warnings : list Warning;
  ds_capturedAt : Z;
}.
Definition default_DashboardSnapshot : DashboardSnapshot :=
  mkDashboardSnapshot default_HostStatus [] [] [] false false false false [] 0.

Inductive CapabilityStatus := Available | CapUnavailable | NotImplemented.
#[export] Instance CapabilityStatus_eq_dec : EqDecision CapabilityStatus.
Proof. solve_decision. Defined.
Record CapabilityCheck := mkCapabilityCheck {
  cap_name : str; cap_status : CapabilityStatus; cap_detail : str }.
Record DoctorReport := mkDoctorReport { checks : list CapabilityCheck }.
