(* ===== verification/Contracts.v ===== *)
(** * The provider interfaces ([include/lx/contracts/]) as a signature of calls

One constructor per virtual member function of the provider interfaces, plus
the clocks, sleeping and [getpid] the services use directly.  A service is a
program over [provE]; an adapter is a program over the calls of its operating
system interface that implements some of these. *)

From S2P Require Import Prelude CppStd CppString Prog Domain.

Variant provE : Type -> Type :=
(* ISocketProvider *)
| SocketProvider_query (query : SocketQuery) : provE (Result (Observation (list SocketInfo)))
(* ISocketOwnerResolver *)
| OwnerResolver_resolve (inodes : list Z) : provE (Result (Observation SocketOwnership))
(* IProcessProvider *)
| ProcessProvider_get (pid : Z) : provE (Result (Observation ProcessInfo))
| ProcessProvider_list : provE (Result (Observation (list ProcessInfo)))
(* ISignalProvider *)
| SignalProvider_send (pid : Z) (signal : ProcessSignal) : provE (Result SignalDelivery)
| SignalProvider_waitForExit (pid timeout : Z) : provE (Result bool)
| SignalProvider_capabilities : provE SignalCapabilities
(* IServiceProvider *)
| ServiceProvider_probe : provE (Result unit)
| ServiceProvider_list : provE (Result (Observation (list ServiceInfo)))
| ServiceProvider_get (unit : str) : provE (Result (Observation ServiceInfo))
| ServiceProvider_unitByPid (pid : Z) : provE (Result (option str))
| ServiceProvider_start (unit : str) : provE (Result Datatypes.unit)
| ServiceProvider_stop (unit : str) : provE (Result Datatypes.unit)
| ServiceProvider_restart (unit : str) : provE (Result Datatypes.unit)
(* IJournalProvider *)
| JournalProvider_probe : provE (Result unit)
| JournalProvider_query (query : LogQuery) : provE (Result (Observation (list JournalEntry)))
| JournalProvider_follow (query : LogQuery) : provE (Result unit)
(* ISystemMetricsProvider, IProcessMetricsProvider *)
| SystemMetrics_sample : provE (Result SystemMetricsSample)
| ProcessMetrics_sample : provE (Result (list ProcessCpuSample))
(* std::chrono clocks (nanoseconds), std::this_thread::sleep_for (milliseconds) *)
| SteadyClock_now : provE Z
| SystemClock_now : provE Z
| SleepFor (milliseconds : Z) : provE unit
| GetPid : provE Z.

(** The calls that change the system: signals and service jobs. *)
Definition is_mutation {X} (e : provE X) : bool :=
  match e with
  | SignalProvider_send _ _ | ServiceProvider_start _ | ServiceProvider_stop _
  | ServiceProvider_restart _ => true
  | _ => false
  end.
Definition quiet (X : Type) (e : provE X) : Prop := is_mutation e = false.
(** Calls that neither change the system nor sleep. *)
Definition read_only (X : Type) (e : provE X) : Prop :=
  match e with SleepFor _ => False | _ => quiet X e end.

Definition signal_of (ev : event provE) : option (Z * ProcessSignal) :=
  match ev with
  | Ev e _ => match e with SignalProvider_send pid s => Some (pid, s) | _ => None end
  end.
(** The signals of a run, in order. *)
Definition signals (tr : trace provE) : list (Z * ProcessSignal) := omap signal_of tr.

Inductive service_job := StartJob (unit : str) | StopJob (unit : str) | RestartJob (unit : str).
Definition job_of (ev : event provE) : option service_job :=
  match ev with
  | Ev e _ =>
      match e with
      | ServiceProvider_start u => Some (StartJob u)
      | ServiceProvider_stop u => Some (StopJob u)
      | ServiceProvider_restart u => Some (RestartJob u)
      | _ => None
      end
  end.
(** The service jobs a run submits, in order. *)
Definition jobs (tr : trace provE) : list service_job := omap job_of tr.

Lemma signals_app tr1 tr2 : signals (tr1 ++ tr2) = signals tr1 ++ signals tr2.
Proof. apply omap_app. Qed.
Lemma jobs_app tr1 tr2 : jobs (tr1 ++ tr2) = jobs tr1 ++ jobs tr2.
Proof. apply omap_app. Qed.

Lemma signals_cons ev tr : signals (ev :: tr) = option_list (signal_of ev) ++ signals tr.
Proof. unfold signals. simpl. by destruct (signal_of ev). Qed.
Lemma jobs_cons ev tr : jobs (ev :: tr) = option_list (job_of ev) ++ jobs tr.
Proof. unfold jobs. simpl. by destruct (job_of ev). Qed.

Create Rewrite HintDb trace.
#[export] Hint Rewrite signals_app jobs_app signals_cons jobs_cons : trace.

Lemma quiet_trace tr : Forall (ev_ok quiet) tr -> signals tr = [] /\ jobs tr = [].
Proof.
  induction 1 as [|[X e x] tr He _ [IH1 IH2]]; [done|].
  unfold ev_ok, quiet in He. autorewrite with trace. rewrite IH1, IH2.
  by destruct e.
Qed.

Lemma read_only_quiet X (e : provE X) : read_only X e -> quiet X e.
Proof. by destruct e. Qed.

(** A program that makes no mutating call sends no signal and submits no job. *)
Lemma quiet_runs {A} (t : prog provE A) tr a :
  calls_ok quiet t -> runs t tr a -> signals tr = [] /\ jobs tr = [].
Proof. intros Hc Hr. eapply quiet_trace, calls_ok_runs; done. Qed.
Lemma read_only_calls_quiet {A} (t : prog provE A) : calls_ok read_only t -> calls_ok quiet t.
Proof. apply calls_ok_mono, read_only_quiet. Qed.
Lemma read_only_runs {A} (t : prog provE A) tr a :
  calls_ok read_only t -> runs t tr a -> signals tr = [] /\ jobs tr = [].
Proof. intros Hc. apply quiet_runs, read_only_calls_quiet, Hc. Qed.
#[export] Hint Resolve read_only_calls_quiet : calls.

(** The iteration order of [std::unordered_set<pid_t>] is unspecified: a
parameter of the definitions that iterate over one. *)
Class HashOrder := {
  iter_order : gset Z -> list Z;
  iter_order_perm (s : gset Z) : iter_order s ≡ₚ elements s;
}.

(** Any enumeration of the elements will do, for instance stdpp's. *)
Definition elements_order : HashOrder :=
  {| iter_order := elements; iter_order_perm s := Permutation_refl (elements s) |}.

Lemma elem_of_iter_order `{HashOrder} (s : gset Z) x : x ∈ iter_order s <-> x ∈ s.
Proof. by rewrite iter_order_perm, elem_of_elements. Qed.

(** ** What the socket adapters promise

Sockets are reported without owners, and the owner resolver reports, for each
inode, a strictly increasing list of PIDs.  [PortService] relies on the order:
it compares owner lists with [std::includes]. *)
Definition owners_sorted (ev : event provE) : Prop :=
  match ev with
  | Ev e x =>
      match e in provE X return X -> Prop with
      | SocketProvider_query _ => fun r =>
          forall o, r = Success o -> Forall (fun s => si_ownerPids s = []) (obs_value o)
      | OwnerResolver_resolve _ => fun r =>
          forall o, r = Success o -> map_Forall (fun _ pids => strictly_sorted pids) (obs_value o)
      | _ => fun _ => True
      end x
  end.

(** The promise as a check of a trace. *)
Fixpoint strictly_sortedb (l : list Z) : bool :=
  match l with [] => true | x :: l' => forallb (Z.ltb x) l' && strictly_sortedb l' end.
Definition owners_sortedb (ev : event provE) : bool :=
  match ev with
  | Ev e x =>
      match e in provE X return X -> bool with
      | SocketProvider_query _ => fun r =>
          match r with
          | Success o => forallb (fun s => bool_decide (si_ownerPids s = [])) (obs_value o)
          | Failure _ => true
          end
      | OwnerResolver_resolve _ => fun r =>
          match r with
          | Success o => forallb (fun e => strictly_sortedb e.2) (map_to_list (obs_value o))
          | Failure _ => true
          end
      | _ => fun _ => true
      end x
  end.

Lemma strictly_sortedb_spec l : strictly_sortedb l = true -> strictly_sorted l.
Proof.
  induction l as [|x l IH]; simpl; [constructor|]. intros [Hx Hl]%andb_true_iff.
  constructor; [auto|]. apply Forall_forall. intros y Hy. rewrite forallb_elem_of in Hx.
  specialize (Hx y Hy). bool_facts. by apply Z.compare_lt_iff.
Qed.

Lemma owners_sortedb_spec tr : forallb owners_sortedb tr = true -> Forall owners_sorted tr.
Proof.
  intros H. rewrite forallb_elem_of in H. apply Forall_forall. intros [X e x] Hin.
  specialize (H _ Hin). clear Hin. destruct e; simpl in *; try done; intros o ->.
  - rewrite forallb_elem_of in H. apply Forall_forall. intros s Hs. specialize (H s Hs). by bool_facts.
  - rewrite forallb_elem_of in H. intros k l Hk. apply strictly_sortedb_spec, (H (k, l)).
    by apply elem_of_map_to_list.
Qed.

(** An implementation [h] of the provider calls that keeps this promise. *)
Class SocketContract {F} (h : forall X, provE X -> prog F X) : Prop :=
  socket_contract X (e : provE X) tr x : runs (h X e) tr x -> owners_sorted (Ev e x).

(** A client of such an implementation sees only traces with sorted owners. *)
Lemma contract_answers {F} (h : forall X, provE X -> prog F X) `{!SocketContract h} trE trF :
  realizes h trE trF -> Forall owners_sorted trE.
Proof. apply realizes_answers, socket_contract. Qed.

(** ** Clocks

[std::chrono::steady_clock] never goes back and [sleep_for] blocks for at
least the given time: the documented behaviour of both, as a property of a
trace that starts when the clock reads at least [lower]. *)
Fixpoint clock_ok (lower : Z) (tr : trace provE) : Prop :=
  match tr with
  | [] => True
  | Ev e x :: tr' =>
      match e in provE X return X -> Prop with
      | SteadyClock_now => fun now => lower <= now /\ clock_ok now tr'
      | SleepFor ms => fun _ => clock_ok (lower + ms * 1000000) tr'
      | _ => fun _ => clock_ok lower tr'
      end x
  end.

Lemma clock_ok_app lower tr1 tr2 :
  Forall (ev_ok read_only) tr1 ->
  clock_ok lower (tr1 ++ tr2) -> exists lower', lower <= lower' /\ clock_ok lower' tr2.
Proof.
  intros H. revert lower. induction H as [|[X e x] tr He _ IH]; intros lower; simpl.
  - intros Hc. exists lower. split; [lia|done].
  - destruct e; simpl; try apply IH.
    + intros [Hle (l' & ? & ?)%IH]. exists l'. split; [lia|done].
    + done.
Qed.
