(* ===== verification/ProcfsParsers.v ===== *)
(** * Parsers of process records ([src/linux/procfs/])

[parseCmdline], [parseStat] and [parseProcessCpuStat], [parseStatus] and
[parseSocketFdTarget].  The contents are arbitrary bytes: a process chooses its
name and its arguments, so the theorems say that what a process puts there
cannot be mistaken for another field. *)

From S2P Require Import Prelude CppStd CppString Prog Domain.
From Stdlib Require Import Ascii.

Definition NUL : ascii := chr 0.
Definition TAB : ascii := chr 9.
Definition LF : ascii := chr 10.
Definition CR : ascii := chr 13.
Definition SP : ascii := " "%char.

(** ** CmdlineParser.cpp *)

(** [contents.substr(begin)] is the argument of the loop. *)
Fixpoint cmdline_loop (fuel : nat) (rest : str) : list str :=
  match fuel, rest with
  | O, _ | _, [] => []
  | S fuel', _ =>
      match find_char NUL rest with
      | None => [rest]
      | Some stop => take stop rest :: cmdline_loop fuel' (drop (S stop) rest)
      end
  end.
(** Every iteration moves past a character. *)
Definition parseCmdline (contents : str) : list str := cmdline_loop (length contents) contents.

(** ** StatParser.cpp *)

Record StatRecord := mkStatRecord {
  st_pid : Z; st_name : str; st_state : ascii; st_ppid : Z }.
#[export] Instance StatRecord_eq_dec : EqDecision StatRecord.
Proof. solve_decision. Defined.

Definition stat_failure (message : str) : Error :=
  mkError ParseError message 0 $"procfs-stat" $"parse".

Definition parsePid (text : str) : option Z :=
  let parsed := from_chars_signed INT_MIN PID_MAX text (-1) in
  if parsed_whole parsed text && (0 <=? fc_value parsed) then Some (fc_value parsed) else None.

Definition parseCounter (text : str) : option Z :=
  let parsed := from_chars_unsigned UINT64_MAX text 0 in
  if parsed_whole parsed text then Some (fc_value parsed) else None.

Definition field_end (contents : str) (begin : nat) : nat :=
  match find_char_from SP contents begin with
  | Some stop => stop
  | None => default (length contents) (find_char_from LF contents begin)
  end.

Definition parseStat (contents : str) : Result StatRecord :=
  match find_char "("%char contents, rfind_sub $") " contents with
  | Some opening, Some closing =>
      if (opening =? 0)%nat || (closing <=? opening)%nat || (length contents <? closing + 4)%nat
      then Failure (stat_failure $"Malformed process stat record")
      else
        let pidText := drop_last_while (is_char SP) (substr contents 0 opening) in
        match parsePid pidText with
        | None => Failure (stat_failure $"Invalid PID in process stat record")
        | Some pid =>
            let name := substr contents (opening + 1) (closing - opening - 1) in
            let state := nth (closing + 2) contents NUL in
            let ppidBegin := (closing + 4)%nat in
            let ppidEnd := field_end contents ppidBegin in
            match parsePid (substr contents ppidBegin (ppidEnd - ppidBegin)) with
            | None => Failure (stat_failure $"Invalid PPID in process stat record")
            | Some ppid => Success (mkStatRecord pid name state ppid)
            end
        end
  | _, _ => Failure (stat_failure $"Malformed process stat record")
  end.

Definition stat_separator : ascii -> bool := one_of [SP; TAB; CR; LF].

Definition parseProcessCpuStat (contents : str) : Result ProcessCpuSample :=
  let? basic := parseStat contents in
  let closing := default O (rfind_sub $") " contents) in
  let tail := drop (closing + 4) contents in
  let fields := words stat_separator tail in
  if (length fields <=? 18)%nat then Failure (stat_failure $"Incomplete process CPU stat record")
  else
    match parseCounter (nth 10 fields []), parseCounter (nth 11 fields []),
          parseCounter (nth 18 fields []) with
    | Some user, Some system, Some start =>
        if UINT64_MAX - user <? system then
          Failure (stat_failure $"Invalid process CPU stat counters")
        else Success (mkProcessCpuSample (st_pid basic) start (user + system))
    | _, _, _ => Failure (stat_failure $"Invalid process CPU stat counters")
    end.

(** ** StatusParser.cpp *)

Record StatusRecord := mkStatusRecord {
  su_uid : Z; su_gid : Z; su_threads : Z; su_rssBytes : Z }.
#[export] Instance StatusRecord_eq_dec : EqDecision StatusRecord.
Proof. solve_decision. Defined.

Definition status_failure (message : str) : Error :=
  mkError ParseError message 0 $"procfs-status" $"parse".

Definition firstToken (value : str) : str :=
  match find_index (fun c => negb (one_of [SP; TAB] c)) value with
  | None => []
  | Some begin =>
      let value := drop begin value in
      match find_index (one_of [SP; TAB; CR]) value with
      | None => value
      | Some stop => take stop value
      end
  end.

(** [parseUnsigned<T>] with [max] the greatest value of [T]. *)
Definition parseUnsigned (max : Z) (text : str) : option Z :=
  let parsed := from_chars_unsigned max text 0 in
  if negb (bool_decide (text = [])) && parsed_whole parsed text
  then Some (fc_value parsed) else None.

(** The local variables of the loop. *)
Record status_state := mkStatusState {
  ss_record : StatusRecord; hasUid : bool; hasGid : bool; hasThreads : bool }.

Definition status_field (key token : str) (s : status_state) : Result status_state :=
  let r := ss_record s in
  if bool_decide (key = $"Uid") then
    match parseUnsigned UINT32_MAX token with
    | None => Failure (status_failure $"Invalid Uid field")
    | Some v => Success (mkStatusState
        (mkStatusRecord v (su_gid r) (su_threads r) (su_rssBytes r)) true (hasGid s) (hasThreads s))
    end
  else if bool_decide (key = $"Gid") then
    match parseUnsigned UINT32_MAX token with
    | None => Failure (status_failure $"Invalid Gid field")
    | Some v => Success (mkStatusState
        (mkStatusRecord (su_uid r) v (su_threads r) (su_rssBytes r)) (hasUid s) true (hasThreads s))
    end
  else if bool_decide (key = $"Threads") then
    match parseUnsigned UINT32_MAX token with
    | None => Failure (status_failure $"Invalid Threads field")
    | Some v => Success (mkStatusState
        (mkStatusRecord (su_uid r) (su_gid r) v (su_rssBytes r)) (hasUid s) (hasGid s) true)
    end
  else if bool_decide (key = $"VmRSS") then
    match parseUnsigned UINT64_MAX token with
    | None => Failure (status_failure $"Invalid VmRSS field")
    | Some kib =>
        if UINT64_MAX / 1024 <? kib then Failure (status_failure $"Invalid VmRSS field")
        else Success (mkStatusState
          (mkStatusRecord (su_uid r) (su_gid r) (su_threads r) (kib * 1024))
          (hasUid s) (hasGid s) (hasThreads s))
    end
  else Success s.

Definition status_line (line : str) (s : status_state) : Result status_state :=
  match find_char ":"%char line with
  | None => Success s
  | Some colon => status_field (take colon line) (firstToken (drop (colon + 1) line)) s
  end.

(** [contents.substr(position)] is the argument of the loop. *)
Fixpoint status_loop (fuel : nat) (rest : str) (s : status_state) : Result status_state :=
  match fuel, rest with
  | O, _ | _, [] => Success s
  | S fuel', _ =>
      let stop := default (length rest) (find_char LF rest) in
      let? s' := status_line (take stop rest) s in
      status_loop fuel' (drop (stop + 1) rest) s'
  end.

Definition parseStatus (contents : str) : Result StatusRecord :=
  let? s := status_loop (length contents) contents
              (mkStatusState (mkStatusRecord 0 0 0 0) false false false) in
  if negb (hasUid s) || negb (hasGid s) || negb (hasThreads s) then
    Failure (status_failure $"Required process status field is missing")
  else Success (ss_record s).

(** ** SocketFdTarget.cpp *)

Definition fd_failure (message : str) : Error :=
  mkError ParseError message 0 $"socket-fd-target" $"parse".

Definition socket_prefix : str := $"socket:[".

Definition parseSocketFdTarget (target : str) : Result (option Z) :=
  let prefix := socket_prefix in
  if negb (starts_with prefix target) then Success None
  else if (length target <=? length prefix + 1)%nat ||
          negb (bool_decide (last target = Some "]"%char)) then
    Failure (fd_failure $"Malformed socket file descriptor target")
  else
    let digits := substr target (length prefix) (length target - length prefix - 1) in
    let parsed := from_chars_unsigned UINT64_MAX digits 0 in
    if negb (parsed_whole parsed digits) then Failure (fd_failure $"Invalid socket inode")
    else Success (Some (fc_value parsed)).

(** ** Facts about the command line *)

Definition terminated (args : list str) : str := concat (map (fun a => a ++ [NUL]) args).

Lemma drop_1_app_length (s1 s2 : str) c : drop (S (length s1)) (s1 ++ c :: s2) = s2.
Proof. induction s1; simpl; [by rewrite drop_0|done]. Qed.

Lemma cmdline_loop_terminated fuel args tail :
  Forall (fun a => NUL ∉ a) args -> NUL ∉ tail ->
  (length (terminated args ++ tail) <= fuel)%nat ->
  cmdline_loop fuel (terminated args ++ tail) =
  args ++ (if bool_decide (tail = []) then [] else [tail]).
Proof.
  intros Ha Ht. revert fuel. induction Ha as [|a args Ha _ IH]; intros fuel Hf; simpl in *.
  - case_bool_decide as Hn; subst; simpl.
    + by destruct fuel.
    + destruct tail as [|c tail]; [done|]. destruct fuel; [simpl in Hf; lia|].
      unfold cmdline_loop; fold cmdline_loop. by rewrite (proj2 (find_char_None _ _)).
  - unfold terminated in *; simpl in *. fold (terminated args) in *.
    replace (((a ++ [NUL]) ++ terminated args) ++ tail)
      with (a ++ NUL :: (terminated args ++ tail)) in * by (rewrite <- !app_assoc; done).
    destruct fuel as [|fuel]; [rewrite length_app in Hf; simpl in Hf; lia|].
    transitivity (match find_char NUL (a ++ NUL :: terminated args ++ tail) with
      | None => [a ++ NUL :: terminated args ++ tail]
      | Some stop => take stop (a ++ NUL :: terminated args ++ tail) ::
          cmdline_loop fuel (drop (S stop) (a ++ NUL :: terminated args ++ tail)) end).
    { by destruct a. }
    rewrite find_char_app by done. rewrite take_app_length, drop_1_app_length.
    rewrite IH; [done|]. rewrite length_app in Hf; simpl in Hf. lia.
Qed.

(** Every byte string is arguments that end in NUL and an unterminated rest. *)
Lemma terminated_split s :
  exists args tail, s = terminated args ++ tail /\ Forall (fun a => NUL ∉ a) args /\ NUL ∉ tail.
Proof.
  induction s as [|c s (args & tail & -> & Ha & Ht)].
  - exists [], []. split_and!; [done|constructor|set_solver].
  - destruct (decide (c = NUL)) as [->|Hc].
    + exists ([] :: args), tail. split_and!; [done| |done]. constructor; [set_solver|done].
    + destruct Ha as [|a args Ha Has].
      * exists [], (c :: tail). split_and!; [done|constructor|set_solver].
      * exists ((c :: a) :: args), tail. split_and!; [done| |done].
        constructor; [set_solver|done].
Qed.

(** ** Facts about the stat record *)

(** The line the kernel prints: the name between parentheses, as it is, and the
other fields separated by single spaces. *)
Definition stat_line (pid : Z) (name : str) (state : ascii) (ppid : Z) (fields : list str) : str :=
  to_string pid ++ $" (" ++ name ++ $") " ++ [state; SP] ++ to_string ppid ++
  spaced SP fields ++ [LF].

Lemma starts_with_missing c needle s : c ∉ s -> starts_with (c :: needle) s = false.
Proof.
  intros H. destruct (starts_with (c :: needle) s) eqn:E; [|done].
  apply starts_with_true in E as [k ->]. set_solver.
Qed.

Lemma rfind_closing s1 s2 : ")"%char ∉ s2 -> rfind_sub $") " (s1 ++ $") " ++ s2) = Some (length s1).
Proof.
  intros H. apply rfind_sub_app; [done|]. intros t1 t2 E. apply starts_with_missing.
  change (SP :: s2 = t1 ++ t2) in E. intros Hin.
  assert (Hin' : ")"%char ∈ SP :: s2) by (rewrite E; set_solver).
  apply elem_of_cons in Hin' as [|]; [done|]. done.
Qed.

Lemma parsePid_to_string n : 0 <= n <= PID_MAX -> parsePid (to_string n) = Some n.
Proof.
  intros H. unfold parsePid.
  destruct (from_chars_signed_to_string INT_MIN PID_MAX n (-1)) as [-> ->]; [done..|].
  by rewrite (proj2 (Z.leb_le 0 n)) by lia.
Qed.

Lemma parseCounter_to_string n : 0 <= n <= UINT64_MAX -> parseCounter (to_string n) = Some n.
Proof.
  intros H. unfold parseCounter. by destruct (from_chars_to_string UINT64_MAX n 0) as [-> ->].
Qed.

Lemma digits_without n c : 0 <= n -> is_digit c = false -> c ∉ to_string n.
Proof. intros Hn Hc Hin. by rewrite (to_string_digits n c Hn Hin) in Hc. Qed.

Ltac no_digit H := exfalso; revert H; apply digits_without; [lia|done].

Lemma to_string_last n : 0 <= n -> exists s c, to_string n = s ++ [c] /\ is_digit c = true.
Proof.
  intros Hn. destruct (to_string_spec n Hn) as [[Hne Hd] _].
  destruct (exists_last Hne) as (s & c & E). exists s, c. split; [done|].
  apply Hd. rewrite E. set_solver.
Qed.

Lemma to_string_word n : 0 <= n -> word_of stat_separator (to_string n).
Proof.
  intros Hn. destruct (to_string_spec n Hn) as [[Hne Hd] _]. split; [done|].
  intros c Hc. specialize (Hd c Hc). unfold stat_separator, one_of.
  apply bool_decide_eq_false. intros H. repeat apply elem_of_cons in H as [->|H]; try done.
  set_solver.
Qed.

Lemma find_char_from_app (c : ascii) (s1 s2 s3 : str) :
  c ∉ s2 -> find_char_from c (s1 ++ s2 ++ c :: s3) (length s1) = Some (length s1 + length s2)%nat.
Proof. intros H. unfold find_char_from. by rewrite drop_app_length, find_char_app. Qed.

Lemma find_char_from_none (c : ascii) (s1 s2 : str) :
  c ∉ s2 -> find_char_from c (s1 ++ s2) (length s1) = None.
Proof. intros H. unfold find_char_from. by rewrite drop_app_length, (proj2 (find_char_None _ _)). Qed.

Section StatLine.
Context (pid ppid : Z) (name : str) (state : ascii) (fields : list str).
Hypothesis pid_range : 0 <= pid <= PID_MAX.
Hypothesis ppid_range : 0 <= ppid <= PID_MAX.
Hypothesis state_char : state <> ")"%char.
Hypothesis fields_words : Forall (word_of stat_separator) fields.
Hypothesis fields_plain : Forall (fun w => ")"%char ∉ w) fields.

Let before := to_string pid ++ $" (" ++ name.
Let after := [state; SP] ++ to_string ppid ++ spaced SP fields ++ [LF].
Let line := stat_line pid name state ppid fields.

Lemma line_split : line = before ++ $") " ++ after.
Proof. unfold line, before, after, stat_line. by rewrite <- !app_assoc. Qed.

Lemma spaced_without c : c <> SP -> Forall (fun w => c ∉ w) fields -> c ∉ spaced SP fields.
Proof.
  intros Hc H Hin. apply list_elem_of_In, in_concat in Hin as (l & Hl & Hin%list_elem_of_In).
  apply in_map_iff in Hl as (w & <- & Hw%list_elem_of_In).
  rewrite Forall_forall in H. specialize (H w Hw). set_solver.
Qed.

Lemma line_closing : rfind_sub $") " line = Some (length before).
Proof.
  rewrite line_split. apply rfind_closing. unfold after. intros Hin.
  apply elem_of_app in Hin as [Hin|Hin].
  { apply elem_of_cons in Hin as [?|Hin]; [congruence|].
    apply list_elem_of_singleton in Hin. done. }
  apply elem_of_app in Hin as [Hin|Hin]; [no_digit Hin|].
  apply elem_of_app in Hin as [Hin|Hin]; [by apply spaced_without in Hin|].
  by apply list_elem_of_singleton in Hin.
Qed.

Lemma line_opening : find_char "("%char line = Some (S (length (to_string pid))).
Proof.
  unfold line, stat_line.
  change ($" (" ++ name ++ ?x) with ([SP] ++ "("%char :: (name ++ x)).
  rewrite app_assoc, find_char_app.
  - rewrite length_app. simpl. f_equal. lia.
  - intros [H|H]%elem_of_app; [no_digit H|].
    by apply list_elem_of_singleton in H.
Qed.

Lemma drop_closing : drop (length before + 4) line = to_string ppid ++ spaced SP fields ++ [LF].
Proof.
  rewrite line_split, <- drop_drop, drop_app_length. reflexivity.
Qed.

Lemma line_ppid :
  substr line (length before + 4) (field_end line (length before + 4) - (length before + 4)) =
  to_string ppid.
Proof.
  set (front := before ++ $") " ++ [state; SP]).
  assert (Hlen : (length before + 4)%nat = length front).
  { unfold front. rewrite !length_app. simpl. lia. }
  assert (Hline : line = front ++ to_string ppid ++ spaced SP fields ++ [LF]).
  { rewrite line_split. unfold front, after. by rewrite <- !app_assoc. }
  assert (Hend : field_end line (length before + 4) = (length front + length (to_string ppid))%nat).
  { rewrite Hlen, Hline. unfold field_end. destruct fields as [|w ws].
    - unfold spaced. simpl. rewrite find_char_from_none.
      + rewrite find_char_from_app; [done|]. by apply digits_without; [lia|].
      + intros [H|H]%elem_of_app; [no_digit H|].
        by apply list_elem_of_singleton in H.
    - unfold spaced. simpl. rewrite find_char_from_app; [done|]. by apply digits_without; [lia|]. }
  unfold substr. rewrite Hend, Hlen, Hline, drop_app_length.
  replace (length front + length (to_string ppid) - length front)%nat
    with (length (to_string ppid)) by lia.
  by rewrite take_app_length.
Qed.

Lemma parseStat_line : parseStat line = Success (mkStatRecord pid name state ppid).
Proof.
  unfold parseStat. rewrite line_opening, line_closing.
  assert (Hb : length before = (length (to_string pid) + 2 + length name)%nat).
  { unfold before. rewrite !length_app. simpl. lia. }
  assert (Hl : (length before + 4 <= length line)%nat).
  { rewrite line_split. unfold after. rewrite !length_app. simpl. lia. }
  rewrite (proj2 (Nat.leb_gt _ _)) by lia.
  rewrite (proj2 (Nat.ltb_ge _ _)) by lia. cbv beta iota zeta. cbn [Nat.eqb orb].
  assert (Hpid : drop_last_while (is_char SP) (substr line 0 (S (length (to_string pid)))) =
    to_string pid).
  { unfold substr, line, stat_line. rewrite drop_0.
    change ($" (" ++ name ++ ?x) with ([SP] ++ ("("%char :: name ++ x)). rewrite app_assoc.
    replace (S (length (to_string pid))) with (length (to_string pid ++ [SP]))
      by (rewrite length_app; simpl; lia).
    rewrite take_app_length. destruct (to_string_last pid) as (s & c & -> & Hc); [lia|].
    apply drop_last_while_app; [|by intros d ->%list_elem_of_singleton].
    apply is_char_false. by intros ->. }
  rewrite Hpid, parsePid_to_string by done. rewrite line_ppid, parsePid_to_string by done.
  do 2 f_equal.
  - unfold substr. replace (S (length (to_string pid)) + 1)%nat
      with (length (to_string pid ++ $" (")) by (rewrite length_app; simpl; lia).
    unfold line, stat_line. rewrite app_assoc, drop_app_length.
    replace (length before - S (length (to_string pid)) - 1)%nat with (length name) by lia.
    by rewrite take_app_length.
  - rewrite line_split. rewrite app_nth2_plus. reflexivity.
Qed.

(** The counters: the fields of the line after the name, the parent first. *)
Lemma parseProcessCpuStat_line user system start :
  0 <= user <= UINT64_MAX -> 0 <= system <= UINT64_MAX -> 0 <= start <= UINT64_MAX ->
  fields !! 9%nat = Some (to_string user) -> fields !! 10%nat = Some (to_string system) ->
  fields !! 17%nat = Some (to_string start) ->
  parseProcessCpuStat line =
  if UINT64_MAX <? user + system then Failure (stat_failure $"Invalid process CPU stat counters")
  else Success (mkProcessCpuSample pid start (user + system)).
Proof.
  intros Hu Hs Ht E1 E2 E3. unfold parseProcessCpuStat.
  rewrite parseStat_line, line_closing. cbv beta iota zeta delta [default from_option id].
  rewrite drop_closing, words_unfold.
  rewrite <- (app_nil_l (to_string ppid ++ _)), next_token_word;
    [|set_solver|apply to_string_word; lia|by destruct fields].
  rewrite words_spaced; [|done|done|by intros d ->%list_elem_of_singleton].
  rewrite (proj2 (Nat.leb_gt _ _)) by (apply lookup_lt_Some in E3; simpl; lia).
  assert (Hnth : forall n w, fields !! n = Some w -> nth (S n) (to_string ppid :: fields) [] = w).
  { intros n w H. simpl. by apply nth_lookup_Some with (d := []) in H. }
  rewrite (Hnth 9%nat _ E1), (Hnth 10%nat _ E2), (Hnth 17%nat _ E3).
  rewrite !parseCounter_to_string by done.
  destruct (Z.ltb_spec (UINT64_MAX - user) system), (Z.ltb_spec UINT64_MAX (user + system));
    [done|lia|lia|done].
Qed.
End StatLine.

(** ** Facts about the status record *)

Abbreviation field := (prod str str).

(** The file: lines [key:value]. *)
Definition field_line (f : field) : str := f.1 ++ ":"%char :: f.2 ++ [LF].
Definition status_text (fields : list field) : str := concat (map field_line fields).
Definition field_ok (f : field) : Prop := ":"%char ∉ f.1 /\ LF ∉ f.1 /\ LF ∉ f.2.

(** The greatest number each field the parser reads may hold. *)
Definition field_max (key : str) : option Z :=
  if bool_decide (key = $"Uid") || bool_decide (key = $"Gid") || bool_decide (key = $"Threads")
  then Some UINT32_MAX
  else if bool_decide (key = $"VmRSS") then Some (UINT64_MAX / 1024) else None.

Fixpoint last_value (key : str) (fields : list field) : option str :=
  match fields with
  | [] => None
  | f :: fs =>
      match last_value key fs with
      | Some v => Some v
      | None => if bool_decide (f.1 = key) then Some f.2 else None
      end
  end.
Definition last_number (key : str) (fields : list field) : option Z :=
  (fun v => dec_value (firstToken v)) <$> last_value key fields.

Definition field_valid (f : field) : Prop :=
  forall max, field_max f.1 = Some max ->
    is_decimal (firstToken f.2) /\ dec_value (firstToken f.2) <= max.

Fixpoint status_fold (fields : list field) (s : status_state) : Result status_state :=
  match fields with
  | [] => Success s
  | f :: fs => let? s' := status_field f.1 (firstToken f.2) s in status_fold fs s'
  end.

Lemma status_line_field f s :
  field_ok f -> status_line (f.1 ++ ":"%char :: f.2) s = status_field f.1 (firstToken f.2) s.
Proof.
  intros (H1 & _ & _). unfold status_line. rewrite find_char_app by done.
  rewrite take_app_length. replace (length f.1 + 1)%nat with (S (length f.1)) by lia.
  by rewrite drop_1_app_length.
Qed.

Lemma status_loop_text fuel fields s :
  Forall field_ok fields -> (length (status_text fields) <= fuel)%nat ->
  status_loop fuel (status_text fields) s = status_fold fields s.
Proof.
  intros Hok. revert fuel s. induction Hok as [|f fields Hf _ IH]; intros fuel s Hl.
  - by destruct fuel.
  - unfold status_text in *; simpl in *. fold (status_text fields) in *.
    assert (E : field_line f ++ status_text fields =
      (f.1 ++ ":"%char :: f.2) ++ LF :: status_text fields).
    { unfold field_line. by rewrite <- !app_assoc, <- !app_comm_cons, <- app_assoc. }
    rewrite E in *. rewrite length_app in Hl. simpl in Hl.
    destruct fuel as [|fuel]; [lia|].
    assert (Hlf : LF ∉ f.1 ++ ":"%char :: f.2).
    { destruct Hf as (_ & H1 & H2). intros [H|H]%elem_of_app; [done|].
      by apply elem_of_cons in H as [?|H]. }
    transitivity (let? s' := status_line (f.1 ++ ":"%char :: f.2) s in
                  status_loop fuel (status_text fields) s').
    + set (line := f.1 ++ ":"%char :: f.2) in *.
      assert (Hne : line <> []) by (unfold line; by destruct f.1).
      destruct line as [|c l] eqn:El; [done|].
      change (status_loop (S fuel) ((c :: l) ++ LF :: status_text fields) s)
        with (let stop := default (length ((c :: l) ++ LF :: status_text fields))
                            (find_char LF ((c :: l) ++ LF :: status_text fields)) in
              let? s' := status_line (take stop ((c :: l) ++ LF :: status_text fields)) s in
              status_loop fuel (drop (stop + 1) ((c :: l) ++ LF :: status_text fields)) s').
      rewrite find_char_app by done. cbv beta iota zeta delta [default from_option id].
      rewrite take_app_length. rewrite (Nat.add_comm _ 1).
      by rewrite (drop_1_app_length (c :: l)).
    + rewrite status_line_field by done. case_match; [|done]. apply IH. lia.
Qed.

Lemma parseUnsigned_Some max text n :
  parseUnsigned max text = Some n <-> (is_decimal text /\ dec_value text <= max) /\ dec_value text = n.
Proof.
  unfold parseUnsigned. split.
  - intros H. destruct (negb _ && _) eqn:E; [|done]. injection H as <-. bool_facts.
    rewrite from_chars_unsigned_value by done. by apply from_chars_unsigned_whole in H0.
  - intros [[Hd Hm] <-]. rewrite bool_decide_eq_false_2 by apply Hd. simpl.
    assert (H : parsed_whole (from_chars_unsigned max text 0) text = true)
      by (by apply from_chars_unsigned_whole).
    by rewrite H, from_chars_unsigned_value.
Qed.

Lemma parseUnsigned_None max text n :
  parseUnsigned max text = None -> is_decimal text -> dec_value text = n -> max < n.
Proof.
  intros H Hd Hn. destruct (Z.leb_spec n max) as [Hle|]; [|done].
  rewrite (proj2 (parseUnsigned_Some max text n)) in H by (subst; done). done.
Qed.

Definition set_number (key : str) (n : Z) (s : status_state) : status_state :=
  let r := ss_record s in
  if bool_decide (key = $"Uid") then
    mkStatusState (mkStatusRecord n (su_gid r) (su_threads r) (su_rssBytes r))
      true (hasGid s) (hasThreads s)
  else if bool_decide (key = $"Gid") then
    mkStatusState (mkStatusRecord (su_uid r) n (su_threads r) (su_rssBytes r))
      (hasUid s) true (hasThreads s)
  else if bool_decide (key = $"Threads") then
    mkStatusState (mkStatusRecord (su_uid r) (su_gid r) n (su_rssBytes r))
      (hasUid s) (hasGid s) true
  else if bool_decide (key = $"VmRSS") then
    mkStatusState (mkStatusRecord (su_uid r) (su_gid r) (su_threads r) (n * 1024))
      (hasUid s) (hasGid s) (hasThreads s)
  else s.

Lemma status_field_spec key token s :
  (forall max, field_max key = Some max -> is_decimal token /\ dec_value token <= max) /\
    status_field key token s = Success (set_number key (dec_value token) s) \/
  ~ (forall max, field_max key = Some max -> is_decimal token /\ dec_value token <= max) /\
    exists error, status_field key token s = Failure error.
Proof.
  unfold status_field, field_max, set_number.
  destruct (bool_decide (key = $"Uid")); [|destruct (bool_decide (key = $"Gid"));
    [|destruct (bool_decide (key = $"Threads")); [|destruct (bool_decide (key = $"VmRSS"))]]];
    cbn [orb].
  1-3: destruct (parseUnsigned UINT32_MAX token) as [n|] eqn:E;
    [left; apply parseUnsigned_Some in E as [E <-]; split; [by intros ? [= <-]|done]
    |right; split; [|by eauto]; intros H; specialize (H _ eq_refl);
     rewrite (proj2 (parseUnsigned_Some _ _ _) (conj H eq_refl)) in E; done].
  - destruct (parseUnsigned UINT64_MAX token) as [n|] eqn:E.
    + apply parseUnsigned_Some in E as [[Hd Hm] <-].
      destruct (Z.ltb_spec (UINT64_MAX / 1024) (dec_value token)).
      * right. split; [|by eauto]. intros H'. specialize (H' _ eq_refl) as [_ H']. lia.
      * left. split; [by intros ? [= <-]|done].
    + right. split; [|by eauto]. intros H. specialize (H _ eq_refl) as [Hd Hm].
      assert (UINT64_MAX / 1024 <= UINT64_MAX) by done.
      pose proof (parseUnsigned_None _ _ _ E Hd eq_refl). lia.
  - left. by split.
Qed.

Definition number_or (d : Z) (key : str) (fields : list field) : Z :=
  default d (last_number key fields).

(** The state after the lines: for each field its last line counts. *)
Definition status_after (fields : list field) (s : status_state) : status_state :=
  let r := ss_record s in
  let has key := bool_decide (is_Some (last_value key fields)) in
  mkStatusState
    (mkStatusRecord (number_or (su_uid r) $"Uid" fields) (number_or (su_gid r) $"Gid" fields)
       (number_or (su_threads r) $"Threads" fields)
       (default (su_rssBytes r) ((fun n => n * 1024) <$> last_number $"VmRSS" fields)))
    (has $"Uid" || hasUid s) (has $"Gid" || hasGid s) (has $"Threads" || hasThreads s).

Lemma last_value_cons key f fs :
  last_value key (f :: fs) =
  match last_value key fs with
  | Some v => Some v | None => if bool_decide (f.1 = key) then Some f.2 else None end.
Proof. done. Qed.

Lemma status_after_cons f fs s :
  status_after (f :: fs) s = status_after fs (set_number f.1 (dec_value (firstToken f.2)) s).
Proof.
  unfold status_after, number_or, last_number, set_number. rewrite !last_value_cons.
  destruct f as [k v]; cbn [fst snd].
  destruct (decide (k = $"Uid")) as [->|N1];
    [|destruct (decide (k = $"Gid")) as [->|N2];
      [|destruct (decide (k = $"Threads")) as [->|N3];
        [|destruct (decide (k = $"VmRSS")) as [->|N4]]]].
  5: rewrite !(bool_decide_eq_false_2 _ N1), !(bool_decide_eq_false_2 _ N2),
      !(bool_decide_eq_false_2 _ N3), !(bool_decide_eq_false_2 _ N4).
  all: destruct (last_value $"Uid" fs), (last_value $"Gid" fs), (last_value $"Threads" fs),
    (last_value $"VmRSS" fs); reflexivity.
Qed.

Lemma status_fold_spec fields s :
  Forall field_valid fields /\ status_fold fields s = Success (status_after fields s) \/
  ~ Forall field_valid fields /\ exists error, status_fold fields s = Failure error.
Proof.
  revert s. induction fields as [|f fs IH]; intros s.
  - left. split; [done|]. by destruct s as [[] ? ? ?].
  - destruct (status_field_spec f.1 (firstToken f.2) s) as [[Hv E]|[Hv [error E]]].
    + simpl. rewrite E, status_after_cons.
      destruct (IH (set_number f.1 (dec_value (firstToken f.2)) s)) as [[H1 H2]|[H1 H2]].
      * left. by split; [constructor|].
      * right. split; [|done]. by intros [_ ?]%Forall_cons.
    + right. split; [by intros [? _]%Forall_cons|]. simpl. rewrite E. eauto.
Qed.

(** ** Facts about socket links *)

Lemma socket_target_split target :
  starts_with socket_prefix target = true ->
  (length target <=? length socket_prefix + 1)%nat = false ->
  last target = Some "]"%char ->
  exists digits, digits <> [] /\ target = socket_prefix ++ digits ++ $"]" /\
    substr target (length socket_prefix) (length target - length socket_prefix - 1) = digits.
Proof.
  intros [k ->]%starts_with_true Hl Hlast. apply Nat.leb_gt in Hl. rewrite length_app in Hl.
  destruct k as [|d k _] using rev_ind; [simpl in Hl; lia|].
  rewrite app_assoc, last_snoc in Hlast. injection Hlast as ->.
  rewrite length_app in Hl. simpl in Hl. exists k.
  split; [destruct k; [simpl in Hl; lia|done]|]. split; [done|].
  unfold substr. rewrite drop_app_length, !length_app. change (length [_]) with 1%nat.
  replace (length socket_prefix + (length k + 1) - length socket_prefix - 1)%nat
    with (length k) by lia.
  by rewrite take_app_length.
Qed.

Lemma socket_target_join digits :
  let target := socket_prefix ++ digits ++ $"]" in
  starts_with socket_prefix target = true /\ last target = Some "]"%char /\
  substr target (length socket_prefix) (length target - length socket_prefix - 1) = digits /\
  length target = (length digits + 9)%nat.
Proof.
  cbv zeta. split_and!.
  - apply starts_with_app.
  - rewrite app_assoc. apply last_snoc.
  - unfold substr. rewrite drop_app_length, !length_app. change (length $"]") with 1%nat.
    replace (length socket_prefix + (length digits + 1) - length socket_prefix - 1)%nat
      with (length digits) by lia.
    by rewrite take_app_length.
  - rewrite !length_app. simpl. lia.
Qed.

(** ** Properties *)

(** [parseCmdline] loses nothing and invents nothing: the arguments of a
process are read back one by one, whatever bytes other than NUL they contain
(spaces, newlines, empty arguments), a last argument without terminator is kept,
and every content is read as exactly the arguments that terminate in it. *)
Theorem parseCmdline_roundtrip args tail :
  Forall (fun a => NUL ∉ a) args -> NUL ∉ tail ->
  parseCmdline (terminated args ++ tail) =
    args ++ (if bool_decide (tail = []) then [] else [tail]) /\
  forall contents, exists args' tail', contents = terminated args' ++ tail' /\
    parseCmdline contents = args' ++ (if bool_decide (tail' = []) then [] else [tail']).
Proof.
  intros Ha Ht. split; [by apply cmdline_loop_terminated|]. intros contents.
  destruct (terminated_split contents) as (args' & tail' & -> & Ha' & Ht').
  exists args', tail'. split; [done|]. by apply cmdline_loop_terminated.
Qed.

Lemma parseCmdline_roundtrip_witness :
  parseCmdline (terminated [$"sh"; $"-c"; []; $"echo a"] ++ $"tail") =
  [$"sh"; $"-c"; []; $"echo a"; $"tail"].
Proof.
  apply (parseCmdline_roundtrip [$"sh"; $"-c"; []; $"echo a"] $"tail").
  - apply (bool_decide_unpack _). vm_compute. exact I.
  - apply (bool_decide_unpack _). vm_compute. exact I.
Defined.

(** C35. A process cannot forge its stat record: from the line the kernel prints,
[parseStat] reads the PID, the name, the state and the parent PID whatever bytes
the name contains (parentheses, spaces, digits), and [parseProcessCpuStat] reads
the PID, the start time and the sum of the user and system ticks (fields 14, 15
and 22 of proc(5)), refusing a sum that does not fit in 64 bits. *)
Theorem stat_unforgeable pid name state ppid fields user system start :
  0 <= pid <= PID_MAX -> 0 <= ppid <= PID_MAX -> state <> ")"%char ->
  Forall (word_of stat_separator) fields -> Forall (fun w => ")"%char ∉ w) fields ->
  fields !! 9%nat = Some (to_string user) -> fields !! 10%nat = Some (to_string system) ->
  fields !! 17%nat = Some (to_string start) ->
  0 <= user <= UINT64_MAX -> 0 <= system <= UINT64_MAX -> 0 <= start <= UINT64_MAX ->
  let line := stat_line pid name state ppid fields in
  parseStat line = Success (mkStatRecord pid name state ppid) /\
  (user + system <= UINT64_MAX ->
    parseProcessCpuStat line = Success (mkProcessCpuSample pid start (user + system))) /\
  (UINT64_MAX < user + system -> hasValue (parseProcessCpuStat line) = false).
Proof.
  intros Hp Hpp Hs Hw Hc E1 E2 E3 Hu Hsy Hst. cbv zeta.
  split; [by apply parseStat_line|].
  rewrite (parseProcessCpuStat_line pid ppid name state fields Hp Hpp Hs Hw Hc user system start) by done.
  split; intros H.
  - by rewrite (proj2 (Z.ltb_ge _ _) H).
  - by rewrite (proj2 (Z.ltb_lt _ _) H).
Qed.

(** A process that calls itself [x) R 1 (y]. *)
Lemma stat_unforgeable_witness :
  let fields := map to_string [7; 7; 34; 7; 0; 0; 0; 0; 0; 150; 50; 0; 0; 20; 0; 1; 0; 900] in
  let line := stat_line 42 $"x) R 1 (y" "S"%char 7 fields in
  parseStat line = Success (mkStatRecord 42 $"x) R 1 (y" "S"%char 7) /\
  parseProcessCpuStat line = Success (mkProcessCpuSample 42 900 200).
Proof.
  cbv zeta.
  destruct (stat_unforgeable 42 $"x) R 1 (y" "S"%char 7
    (map to_string [7; 7; 34; 7; 0; 0; 0; 0; 0; 150; 50; 0; 0; 20; 0; 1; 0; 900]) 150 50 900)
    as (H1 & H2 & _); [..|split; [exact H1|apply H2; vm_compute; congruence]].
  4: repeat (constructor; [by apply to_string_word|]); constructor.
  4: repeat (constructor; [by apply digits_without|]); constructor.
  all: vm_compute; try split; congruence.
Defined.

(** [parseStatus] is exact on a status file of [key:value] lines: it succeeds
exactly when every Uid, Gid, Threads and VmRSS line holds a decimal number of
its width as first token and the first three are present; the record then holds
these numbers (of the last such line, the resident set in bytes, zero when a
kernel thread has none); no other line matters. *)
Theorem parseStatus_exact fields r :
  Forall field_ok fields ->
  parseStatus (status_text fields) = Success r <->
  Forall field_valid fields /\
  last_number $"Uid" fields = Some (su_uid r) /\
  last_number $"Gid" fields = Some (su_gid r) /\
  last_number $"Threads" fields = Some (su_threads r) /\
  su_rssBytes r = default 0 ((fun n => n * 1024) <$> last_number $"VmRSS" fields).
Proof.
  intros Hok. unfold parseStatus. rewrite status_loop_text by done.
  set (s0 := mkStatusState _ _ _ _).
  destruct (status_fold_spec fields s0) as [[Hv ->]|[Hv [error ->]]]; [|split; [done|tauto]].
  unfold status_after, number_or, last_number. simpl.
  destruct (last_value $"Uid" fields) as [u|], (last_value $"Gid" fields) as [g|],
    (last_value $"Threads" fields) as [t|]; simpl; try (split; [done|]; intros (_ & H1 & H2 & H3 & _); done).
  split; [by intros [= <-]|]. intros (_ & [= H1] & [= H2] & [= H3] & H4).
  destruct r; simpl in *. by subst.
Qed.

Lemma parseStatus_exact_witness :
  parseStatus (status_text [($"Name", $"x: Uid"); ($"Uid", [TAB] ++ $"1000" ++ [TAB] ++ $"0");
    ($"Gid", [TAB] ++ $"100"); ($"VmRSS", $"  20 kB"); ($"Threads", $" 3")]) =
  Success (mkStatusRecord 1000 100 3 20480).
Proof.
  apply parseStatus_exact.
  - repeat (constructor; [unfold field_ok; split_and!; apply (bool_decide_unpack _); vm_compute; exact I|]).
    constructor.
  - split_and!; try (vm_compute; reflexivity).
    assert (Hd : forall f n, field_max f.1 = None \/ (firstToken f.2 = to_string n /\ 0 <= n <= 1000)
                             -> field_valid f).
    { intros [k v] n [H|[H Hn]] max Hm; [congruence|]. rewrite H.
      destruct (to_string_spec n) as [Hd ->]; [lia|]. split; [done|].
      assert (1000 <= max); [|lia]. unfold field_max in Hm. repeat case_match; by simplify_eq. }
    assert (Hr : forall f n, firstToken f.2 = to_string n -> (0 <=? n) && (n <=? 1000) = true ->
                             field_valid f) by (intros f n E Hn; bool_facts; eapply Hd; eauto).
    apply Forall_cons; split; [apply (Hd _ 0); by left|].
    apply Forall_cons; split; [apply (Hr _ 1000); vm_compute; reflexivity|].
    apply Forall_cons; split; [apply (Hr _ 100); vm_compute; reflexivity|].
    apply Forall_cons; split; [apply (Hr _ 20); vm_compute; reflexivity|].
    apply Forall_cons; split; [apply (Hr _ 3); vm_compute; reflexivity|constructor].
Defined.

(** [parseSocketFdTarget] accepts exactly the links [socket:[N]] with [N] a
decimal inode of 64 bits, and returns [N]; a link without that prefix is no
socket and no error; any other link is a parse error. *)
Theorem parseSocketFdTarget_exact target :
  (forall n, parseSocketFdTarget target = Success (Some n) <->
    exists digits, target = socket_prefix ++ digits ++ $"]" /\
      is_decimal digits /\ dec_value digits = n /\ n <= UINT64_MAX) /\
  (parseSocketFdTarget target = Success None <-> starts_with socket_prefix target = false) /\
  (forall n, 0 <= n <= UINT64_MAX ->
    parseSocketFdTarget (socket_prefix ++ to_string n ++ $"]") = Success (Some n)).
Proof.
  assert (Hfwd : forall digits, is_decimal digits -> dec_value digits <= UINT64_MAX ->
    parseSocketFdTarget (socket_prefix ++ digits ++ $"]") = Success (Some (dec_value digits))).
  { intros digits Hd Hm. destruct (socket_target_join digits) as (E1 & E2 & E3 & E4).
    unfold parseSocketFdTarget. rewrite E1, E3. cbv zeta. rewrite E4, E2.
    rewrite (proj2 (Nat.leb_gt _ _)), bool_decide_eq_true_2; [|done|].
    - assert (Hw : parsed_whole (from_chars_unsigned UINT64_MAX digits 0) digits = true)
        by (by apply from_chars_unsigned_whole).
      simpl. rewrite Hw. simpl. by rewrite from_chars_unsigned_value.
    - destruct Hd as [Hne _]. destruct digits; [done|]. simpl. lia. }
  split_and!.
  - intros n. split; [|by intros (digits & -> & Hd & <- & Hm); apply Hfwd].
    unfold parseSocketFdTarget. destruct (starts_with _ _) eqn:E1; [|done]. cbn [negb]. cbv zeta.
    destruct (_ || _) eqn:E2; [done|]. apply orb_false_iff in E2 as [E2 E3].
    apply negb_false_iff, bool_decide_eq_true in E3.
    destruct (socket_target_split target) as (digits & Hne & Ht & Hs); [done..|].
    rewrite !Hs.
    destruct (parsed_whole (from_chars_unsigned UINT64_MAX digits 0) digits) eqn:E4; [|done].
    simpl. intros [= <-].
    exists digits. rewrite from_chars_unsigned_value by done.
    apply from_chars_unsigned_whole in E4 as [? ?]. done.
  - unfold parseSocketFdTarget. destruct (starts_with _ _) eqn:E1; simpl; [|done].
    split; [|done]. by repeat case_match.
  - intros n Hn. destruct (to_string_spec n) as [Hd Hv]; [lia|].
    rewrite Hfwd; [by rewrite Hv|done|lia].
Qed.
