(* ===== verification/Float.v ===== *)
(** * Binary64 arithmetic

The [double] computations of the code on [SpecFloat] with 53 bits of precision:
conversion of unsigned integers, products and quotients, [std::clamp], and the
facts that keep them away from NaN, infinities and negative numbers. *)

From S2P Require Import Prelude CppStd CppString Domain.
From Stdlib Require Import SpecFloat.

Definition prec : Z := 53.
Definition emax : Z := 1024.

(** [static_cast<double>(n)] for an integer [n], rounded to nearest even. *)
Definition of_Z (n : Z) : double := binary_normalize prec emax n 0 false.
Definition fmul : double -> double -> double := SFmul prec emax.
Definition fdiv : double -> double -> double := SFdiv prec emax.

(** [std::clamp(v, lo, hi)] *)
Definition clamp (v lo hi : double) : double :=
  if SFltb v lo then lo else if SFltb hi v then hi else v.

(** [lo <= v <= hi], which no NaN satisfies. *)
Definition within (lo hi v : double) : bool := SFleb lo v && SFleb v hi.

(** Numbers that are not negative: neither NaN nor of negative sign. *)
Definition num (x : double) : Prop :=
  match x with
  | S754_nan => False
  | S754_zero s | S754_infinity s | S754_finite s _ _ => s = false
  end.

(** Positive finite numbers of exponent at least [L] below [2 ^ B]. *)
Definition fin (L B : Z) (x : double) : Prop :=
  exists m e, x = S754_finite false m e /\ L <= e /\ Zdigits2 (Zpos m) + e <= B.

(** ** Digits and shifts *)

Lemma digits2_bounds p : 2 ^ (Zdigits2 (Zpos p) - 1) <= Zpos p < 2 ^ Zdigits2 (Zpos p).
Proof.
  induction p as [p IH|p IH|]; simpl in *; [..|done].
  all: rewrite Pos2Z.inj_succ; unfold Z.succ.
  all: replace (Zpos (digits2_pos p) + 1 - 1) with (Zpos (digits2_pos p) - 1 + 1) by lia.
  all: rewrite !Z.pow_add_r by lia; lia.
Qed.

Lemma digits2_pos_ge p : 1 <= Zdigits2 (Zpos p).
Proof. simpl. lia. Qed.

Lemma digits2_le p k : Zpos p < 2 ^ k -> Zdigits2 (Zpos p) <= k.
Proof.
  intros H. pose proof (digits2_bounds p) as [Hl _].
  destruct (Z.le_gt_cases (Zdigits2 (Zpos p)) k) as [|Hgt]; [done|].
  destruct (Z.le_gt_cases 0 k).
  - assert (2 ^ k <= 2 ^ (Zdigits2 (Zpos p) - 1)) by (apply Z.pow_le_mono_r; lia). lia.
  - rewrite Z.pow_neg_r in H by done. lia.
Qed.

Lemma shr_1_m mrs : 0 <= shr_m mrs -> shr_m (shr_1 mrs) = shr_m mrs / 2.
Proof.
  destruct mrs as [m r s]. simpl. destruct m as [|[p|p|]|p]; simpl; intros H; try done; [|].
  - apply Z.div_unique with 1; lia.
  - apply Z.div_unique with 0; lia.
Qed.

Lemma iter_shr_m p mrs : 0 <= shr_m mrs -> shr_m (iter_pos shr_1 p mrs) = shr_m mrs / 2 ^ Zpos p.
Proof.
  assert (Hdiv : forall m p, m / 2 ^ Zpos p / 2 ^ Zpos p = m / 2 ^ Zpos p~0).
  { intros m q. rewrite Z.div_div by lia. rewrite <- Z.pow_add_r by lia. f_equal. f_equal. lia. }
  assert (Hpos : forall m q, 0 <= m -> 0 <= m / 2 ^ Zpos q) by (intros; apply Z.div_pos; lia).
  revert mrs. induction p as [p IH|p IH|]; intros mrs Hm; simpl.
  - assert (H1 : 0 <= shr_m (shr_1 mrs)) by (rewrite shr_1_m by done; apply Z.div_pos; lia).
    assert (H2 : 0 <= shr_m (iter_pos shr_1 p (shr_1 mrs))) by (rewrite IH by done; auto).
    rewrite IH, IH, Hdiv, shr_1_m by done. rewrite Z.div_div by lia. by f_equal.
  - assert (H2 : 0 <= shr_m (iter_pos shr_1 p mrs)) by (rewrite IH by done; auto).
    by rewrite IH, IH, Hdiv by done.
  - by rewrite shr_1_m.
Qed.

Lemma shr_of_loc m l : shr_m (shr_record_of_loc m l) = m.
Proof. by destruct l as [|[]]. Qed.

Lemma shr_spec mrs e n :
  0 <= shr_m mrs ->
  shr_m (fst (shr mrs e n)) = shr_m mrs / 2 ^ Z.max n 0 /\ snd (shr mrs e n) = e + Z.max n 0.
Proof.
  intros Hm. unfold shr. destruct n as [|p|p]; simpl.
  - rewrite Z.div_1_r. lia.
  - by rewrite iter_shr_m.
  - rewrite Z.div_1_r. lia.
Qed.

Lemma round_ne_bounds m l : 0 <= m -> m <= round_nearest_even m l <= m + 1.
Proof. intros H. unfold round_nearest_even. destruct l as [|[]]; [lia|case_match; lia|lia..]. Qed.

(** ** Rounding *)

Lemma fexp_eq e : fexp prec emax e = Z.max (e - 53) (-1074).
Proof. reflexivity. Qed.

(** Rounding a mantissa that is not negative gives no NaN. *)
Lemma round_num m e l : 0 <= m -> num (binary_round_aux prec emax false m e l).
Proof.
  intros Hm. unfold binary_round_aux, shr_fexp.
  pose proof (shr_spec (shr_record_of_loc m l) e (fexp prec emax (Zdigits2 m + e) - e)) as H1.
  rewrite shr_of_loc in H1. destruct (H1 Hm) as [H1m _]. clear H1.
  destruct (shr (shr_record_of_loc m l) _ _) as [mrs' e'] eqn:E1. simpl in H1m.
  assert (0 <= shr_m mrs') by (rewrite H1m; apply Z.div_pos; [done|apply Z.pow_pos_nonneg; lia]).
  set (m2 := round_nearest_even _ _).
  assert (0 <= m2) by (subst m2; pose proof (round_ne_bounds (shr_m mrs') (loc_of_shr_record mrs')); lia).
  pose proof (shr_spec (shr_record_of_loc m2 loc_Exact) e' (fexp prec emax (Zdigits2 m2 + e') - e')) as H2.
  rewrite shr_of_loc in H2. destruct (H2 ltac:(done)) as [H2m _]. clear H2.
  destruct (shr (shr_record_of_loc m2 _) _ _) as [mrs'' e'']. simpl in H2m.
  assert (0 <= shr_m mrs'') by (rewrite H2m; apply Z.div_pos; [done|apply Z.pow_pos_nonneg; lia]).
  destruct (shr_m mrs''); simpl; [done|by case_match|lia].
Qed.

(** One normalisation step keeps a positive mantissa positive. *)
Lemma shr_fexp_fin m e l L B :
  0 < m -> L <= e -> -1074 <= L -> Zdigits2 m + e <= B ->
  let '(mrs, e') := shr_fexp prec emax m e l in
  0 < shr_m mrs /\ L <= e' /\ Zdigits2 (shr_m mrs) + e' <= B /\
  shr_m mrs < 2 ^ (B - e').
Proof.
  intros Hm HL HL' HB. unfold shr_fexp. rewrite fexp_eq.
  destruct m as [|p|p]; [lia| |lia].
  pose proof (digits2_bounds p) as [Hlo Hhi]. pose proof (digits2_pos_ge p) as Hd.
  set (d := Zdigits2 (Zpos p)) in *.
  pose proof (shr_spec (shr_record_of_loc (Zpos p) l) e (Z.max (d + e - 53) (-1074) - e)) as H1.
  rewrite shr_of_loc in H1. destruct (H1 ltac:(lia)) as [H1m H1e]. clear H1.
  destruct (shr _ _ _) as [mrs e']. simpl in H1m, H1e.
  set (n := Z.max (Z.max (d + e - 53) (-1074) - e) 0) in *.
  assert (Hn : 0 <= n <= d - 1) by lia.
  assert (H2n : 0 < 2 ^ n) by (apply Z.pow_pos_nonneg; lia).
  assert (Hpos : 0 < shr_m mrs).
  { rewrite H1m. apply Z.div_str_pos. split; [done|].
    transitivity (2 ^ (d - 1)); [|done]. apply Z.pow_le_mono_r; lia. }
  assert (Hlt : shr_m mrs < 2 ^ (d - n)).
  { rewrite H1m. apply Z.div_lt_upper_bound; [done|]. rewrite <- Z.pow_add_r by lia.
    by replace (n + (d - n)) with d by lia. }
  split_and!; [done|lia| |].
  - destruct (shr_m mrs) as [|q|q]; [lia| |lia]. apply digits2_le in Hlt. lia.
  - eapply Z.lt_le_trans; [exact Hlt|]. apply Z.pow_le_mono_r; lia.
Qed.

Lemma round_fin m e l L B :
  0 < m -> L <= e -> -1074 <= L -> Zdigits2 m + e <= B -> B <= 900 ->
  fin L (B + 1) (binary_round_aux prec emax false m e l).
Proof.
  intros Hm HL HL' HB HB'. unfold binary_round_aux.
  pose proof (shr_fexp_fin m e l L B Hm HL HL' HB) as H1.
  destruct (shr_fexp prec emax m e l) as [mrs e']. destruct H1 as (H1p & H1L & H1d & H1m).
  set (m2 := round_nearest_even _ _).
  assert (Hm2 : shr_m mrs <= m2 <= shr_m mrs + 1) by (apply round_ne_bounds; lia).
  assert (Hd2 : Zdigits2 m2 + e' <= B + 1).
  { destruct m2 as [|q|q]; [lia| |lia]. enough (Zdigits2 (Zpos q) <= B + 1 - e') by lia.
    apply digits2_le. destruct (Z.le_gt_cases 0 (B - e')).
    - replace (B + 1 - e') with (B - e' + 1) by lia. rewrite Z.pow_add_r by lia. lia.
    - rewrite Z.pow_neg_r in H1m by done. lia. }
  pose proof (shr_fexp_fin m2 e' loc_Exact L (B + 1) ltac:(lia) H1L HL' Hd2) as H2.
  destruct (shr_fexp prec emax m2 e' loc_Exact) as [mrs2 e2]. destruct H2 as (H2p & H2L & H2d & _).
  destruct (shr_m mrs2) as [|q|q]; [lia| |lia].
  pose proof (digits2_pos_ge q).
  destruct (Z.leb_spec e2 (emax - prec)) as [|Hgt]; [|change (emax - prec) with 971 in Hgt; lia].
  by exists q, e2.
Qed.

(** ** Conversion, product, quotient *)

Lemma shift_xO d p : Zpos (Pos.iter xO p d) = Zpos p * 2 ^ Zpos d.
Proof.
  revert p. induction d as [|d IH] using Pos.peano_ind; intros p; [simpl; lia|].
  rewrite Pos.iter_succ, Pos2Z.inj_succ, Z.pow_succ_r by lia.
  change (Zpos (xO (Pos.iter xO p d))) with (2 * Zpos (Pos.iter xO p d)). rewrite IH. lia.
Qed.

Lemma of_Z_fin n k : 0 < n < 2 ^ k -> k <= 64 -> fin (-52) (k + 1) (of_Z n).
Proof.
  intros [Hn Hk] Hk'. unfold of_Z. destruct n as [|p|p]; [lia| |lia]. simpl.
  pose proof (digits2_le p k Hk) as Hd. pose proof (digits2_pos_ge p) as Hd1.
  unfold binary_round, shl_align. rewrite fexp_eq, !Z.add_0_r, Z.sub_0_r.
  change (Zpos (digits2_pos p)) with (Zdigits2 (Zpos p)). set (d := Zdigits2 (Zpos p)) in *.
  replace (Z.max (d - 53) (-1074)) with (d - 53) by lia.
  destruct (d - 53) as [|q|q] eqn:E.
  - apply round_fin; [done|lia|lia|fold d; lia|lia].
  - apply round_fin; [done|lia|lia|fold d; lia|lia].
  - apply round_fin; [done|lia|lia| |lia].
    enough (Zdigits2 (Zpos (Pos.iter xO p q)) <= d + Zpos q) by lia.
    apply digits2_le. rewrite shift_xO, Z.pow_add_r by lia.
    pose proof (digits2_bounds p) as [_ Hhi]. fold d in Hhi.
    apply Z.mul_lt_mono_pos_r; [apply Z.pow_pos_nonneg; lia|done].
Qed.

Lemma fmul_fin L1 B1 L2 B2 x y :
  fin L1 B1 x -> fin L2 B2 y -> -1074 <= L1 + L2 -> B1 + B2 <= 900 ->
  fin (L1 + L2) (B1 + B2 + 1) (fmul x y).
Proof.
  intros (m1 & e1 & -> & HL1 & HB1) (m2 & e2 & -> & HL2 & HB2) HL HB. simpl.
  apply round_fin; [done|lia|done| |done].
  enough (Zdigits2 (Zpos (m1 * m2)) <= Zdigits2 (Zpos m1) + Zdigits2 (Zpos m2)) by lia.
  apply digits2_le. pose proof (digits2_bounds m1). pose proof (digits2_bounds m2).
  pose proof (digits2_pos_ge m1). pose proof (digits2_pos_ge m2).
  rewrite Z.pow_add_r by lia. rewrite Pos2Z.inj_mul. nia.
Qed.

Lemma fdiv_num L1 B1 L2 B2 x y :
  (x = S754_zero false \/ fin L1 B1 x) -> fin L2 B2 y -> num (fdiv x y).
Proof.
  intros [->|(m1 & e1 & -> & _)] (m2 & e2 & -> & _); [done|]. simpl.
  destruct (SFdiv_core_binary prec emax (Zpos m1) e1 (Zpos m2) e2) as [[q e] l] eqn:E.
  apply round_num. unfold SFdiv_core_binary in E.
  destruct (Z.div_eucl _ (Zpos m2)) as [q' r] eqn:Eq. injection E as <- _ _.
  pose proof (f_equal fst Eq) as Hq. simpl in Hq. change (fst (Z.div_eucl ?a ?b)) with (a / b) in Hq.
  rewrite <- Hq. apply Z.div_pos; [|lia].
  case_match; [lia| |lia]. apply Z.shiftl_nonneg. lia.
Qed.

(** ** Clamping *)

Lemma SFcompare_antisym x y : SFcompare y x = CompOpp <$> SFcompare x y.
Proof.
  assert (Hp : forall p q, Pos.compare_cont Eq q p = CompOpp (Pos.compare_cont Eq p q)).
  { intros p q. change (Pos.compare q p = CompOpp (Pos.compare p q)). by rewrite Pos.compare_antisym. }
  destruct x as [[]|[]| |[] m1 e1], y as [[]|[]| |[] m2 e2]; simpl; try done.
  - rewrite Z.compare_antisym. destruct (e1 ?= e2); simpl; [by rewrite (Hp m1 m2)|done..].
  - rewrite Z.compare_antisym. destruct (e1 ?= e2); simpl; [by rewrite (Hp m1 m2)|done..].
Qed.

Lemma num_compare x y : num x -> num y -> is_Some (SFcompare x y).
Proof. destruct x as [[]|[]| |[]], y as [[]|[]| |[]]; simpl; done. Qed.

Lemma num_le_refl x : num x -> SFleb x x = true.
Proof.
  destruct x as [[]|[]| |[] m e]; simpl; try done. intros _. unfold SFleb. simpl.
  rewrite Z.compare_refl. change (Pos.compare_cont Eq m m) with (Pos.compare m m).
  by rewrite Pos.compare_refl.
Qed.

Lemma num_ltb_leb x y : num x -> num y -> SFltb y x = false -> SFleb x y = true.
Proof.
  intros Hx Hy. unfold SFltb, SFleb. rewrite (SFcompare_antisym x y).
  destruct (num_compare x y Hx Hy) as [c ->]. by destruct c.
Qed.

Lemma clamp_within v hi :
  num v -> num hi -> within (S754_zero false) hi (clamp v (S754_zero false) hi) = true.
Proof.
  intros Hv Hh. unfold clamp, within.
  assert (H0 : forall x, num x -> SFleb (S754_zero false) x = true).
  { intros [[]|[]| |[] m e]; done. }
  destruct (SFltb v (S754_zero false)) eqn:E1; [by rewrite !H0|].
  destruct (SFltb hi v) eqn:E2; rewrite H0 by done; simpl.
  - by apply num_le_refl.
  - by apply num_ltb_leb.
Qed.

Lemma fin_num L B x : fin L B x -> num x.
Proof. by intros (m & e & -> & _). Qed.
