(* ===== verification/SystemMetricsParser.v ===== *)
(** * Parsers of the system metrics ([src/linux/procfs/SystemMetricsParser.cpp])

The processor row of [/proc/stat], [/proc/meminfo], [/proc/uptime] and the
number of processors.  [std::istringstream >> token] skips white space and takes
the longest run of other characters. *)

From S2P Require Import Prelude CppStd CppString Prog Domain Float ProcfsParsers.
From Stdlib Require Import Ascii SpecFloat.

Definition failure (message : str) : Error :=
  mkError ParseError message 0 $"procfs-metrics" $"parse".

Definition parse_u64 (text : str) : option Z :=
  let parsed := from_chars_unsigned UINT64_MAX text 0 in
  if parsed_whole parsed text then Some (fc_value parsed) else None.

Definition checkedAdd (sum value : Z) : option Z :=
  if UINT64_MAX - sum <? value then None else Some (sum + value).

(** ** parseCpuTimes *)

(** The loop [while (line >> token)], with [index] and [result]. *)
Fixpoint cpu_loop (row : list str) (index : nat) (result : CpuTimes) : Result (nat * CpuTimes) :=
  match row with
  | [] => Success (index, result)
  | token :: row' =>
      match parse_u64 token with
      | None => Failure (failure $"Invalid CPU counter in /proc/stat")
      | Some value =>
          match checkedAdd (totalTicks result) value with
          | None => Failure (failure $"Invalid CPU counter in /proc/stat")
          | Some total =>
              if (index =? 3)%nat || (index =? 4)%nat then
                match checkedAdd (idleTicks result) value with
                | None => Failure (failure $"CPU idle counter overflow in /proc/stat")
                | Some idle => cpu_loop row' (S index) (mkCpuTimes total idle)
                end
              else cpu_loop row' (S index) (mkCpuTimes total (idleTicks result))
          end
      end
  end.

Definition first_line (contents : str) : str :=
  match find_char LF contents with None => contents | Some stop => take stop contents end.

Definition parseCpuTimes (contents : str) : Result CpuTimes :=
  let tokens := words isspace (first_line contents) in
  if negb (bool_decide (default [] (head tokens) = $"cpu")) then
    Failure (failure $"Missing aggregate CPU row in /proc/stat")
  else
    let? r := cpu_loop (List.tl tokens) 0 (mkCpuTimes 0 0) in
    if (fst r <? 4)%nat then Failure (failure $"Incomplete aggregate CPU row in /proc/stat")
    else Success (snd r).

(** ** parseMemoryInfo *)

Record MemoryRecord := mkMemoryRecord { totalBytes : Z; availableBytes : Z }.
#[export] Instance MemoryRecord_eq_dec : EqDecision MemoryRecord.
Proof. solve_decision. Defined.

(** [std::getline(input, ignored)]: what is left after the next newline. *)
Definition skip_line (input : str) : str :=
  match find_char LF input with None => [] | Some stop => drop (stop + 1) input end.

Definition read_three (input : str) : option (str * str * str * str) :=
  match next_token isspace input with
  | None => None
  | Some (key, input) =>
      match next_token isspace input with
      | None => None
      | Some (valueText, input) =>
          match next_token isspace input with
          | None => None
          | Some (unit, input) => Some (key, valueText, unit, input)
          end
      end
  end.

Record memory_state := mkMemoryState {
  mem_record : MemoryRecord; hasTotal : bool; hasAvailable : bool }.

Definition memory_value (unit valueText : str) : Result Z :=
  match parse_u64 valueText with
  | Some kibibytes =>
      if negb (bool_decide (unit = $"kB")) || (UINT64_MAX / 1024 <? kibibytes) then
        Failure (failure $"Invalid memory value in /proc/meminfo")
      else Success (kibibytes * 1024)
  | None => Failure (failure $"Invalid memory value in /proc/meminfo")
  end.

Definition memory_line (key valueText unit : str) (s : memory_state) : Result memory_state :=
  let? bytes := memory_value unit valueText in
  if bool_decide (key = $"MemTotal:") then
    Success (mkMemoryState (mkMemoryRecord bytes (availableBytes (mem_record s))) true (hasAvailable s))
  else
    Success (mkMemoryState (mkMemoryRecord (totalBytes (mem_record s)) bytes) (hasTotal s) true).

Fixpoint memory_loop (fuel : nat) (input : str) (s : memory_state) : Result memory_state :=
  match fuel with
  | O => Success s
  | S fuel' =>
      match read_three input with
      | None => Success s
      | Some (key, valueText, unit, input') =>
          if negb (bool_decide (key = $"MemTotal:")) && negb (bool_decide (key = $"MemAvailable:"))
          then memory_loop fuel' (skip_line input') s
          else let? s' := memory_line key valueText unit s in memory_loop fuel' input' s'
      end
  end.

Definition parseMemoryInfo (contents : str) : Result MemoryRecord :=
  let? s := memory_loop (S (length contents)) contents
              (mkMemoryState (mkMemoryRecord 0 0) false false) in
  let r := mem_record s in
  if negb (hasTotal s) || negb (hasAvailable s) || (totalBytes r <? availableBytes r) then
    Failure (failure $"Missing or inconsistent memory fields")
  else Success r.

(** ** countLogicalCpus *)

Definition cpu_line (line : str) : bool :=
  match line with
  | c :: p :: u :: d :: _ => bool_decide ([c; p; u] = $"cpu") && is_digit d
  | _ => false
  end.

Fixpoint cpus_loop (fuel : nat) (rest : str) (count : Z) : Z :=
  match fuel, rest with
  | O, _ | _, [] => count
  | S fuel', _ =>
      let line := first_line rest in
      let count := if cpu_line line then (count + 1) mod 2 ^ 32 else count in
      match find_char LF rest with
      | None => count
      | Some stop => cpus_loop fuel' (drop (stop + 1) rest) count
      end
  end.

Definition countLogicalCpus (contents : str) : Z :=
  let count := cpus_loop (length contents) contents 0 in
  if count =? 0 then 1 else count.

(** ** parseUptime

[std::from_chars] on a [double], general format: an optional minus sign, digits
with an optional fraction, an optional exponent, or an infinity or NaN; the
value nearest to the decimal.  A decimal that rounds to infinity, or to zero
although it is not zero, is out of range. *)

(** The double nearest to [m / d]. *)
Definition of_ratio (m d : positive) : double :=
  let '(q, e, l) := SFdiv_core_binary prec emax (Zpos m) 0 (Zpos d) 0 in
  binary_round_aux prec emax false q e l.

Definition of_decimal (mantissa exponent10 : Z) : double :=
  match mantissa with
  | Zpos m =>
      match exponent10 with
      | Zpos k => of_Z (Zpos m * 10 ^ Zpos k)
      | Z0 => of_Z (Zpos m)
      | Zneg k => of_ratio m (Pos.pow 10 k)
      end
  | _ => S754_zero false
  end.

Record decimal := mkDecimal { dec_mantissa : Z; dec_exponent : Z; dec_length : nat }.

(** The longest prefix that is a decimal: digits, a point, digits. *)
Definition read_mantissa (text : str) : option decimal :=
  let whole := take_while is_digit text in
  let rest := drop (length whole) text in
  let fraction :=
    match rest with
    | c :: rest' => if bool_decide (c = "."%char) then Some (take_while is_digit rest') else None
    | [] => None
    end in
  match whole, fraction with
  | [], (None | Some []) => None
  | _, None => Some (mkDecimal (dec_value whole) 0 (length whole))
  | _, Some f =>
      Some (mkDecimal (dec_value (whole ++ f)) (- Z.of_nat (length f)) (length whole + 1 + length f))
  end.

(** The optional exponent that follows, with the characters it takes. *)
Definition read_exponent (text : str) : Z * nat :=
  match text with
  | c :: rest =>
      if bool_decide (c = "e"%char) || bool_decide (c = "E"%char) then
        let '(sign, signed, body) :=
          match rest with
          | s :: rest' =>
              if bool_decide (s = "-"%char) then (-1, 1%nat, rest')
              else if bool_decide (s = "+"%char) then (1, 1%nat, rest') else (1, O, rest)
          | [] => (1, O, [])
          end in
        match take_while is_digit body with
        | [] => (0, O)
        | ds => (sign * dec_value ds, (1 + signed + length ds)%nat)
        end
      else (0, O)
  | [] => (0, O)
  end.

(** [parsed.ec == std::errc{} && parsed.ptr == end && std::isfinite(seconds)]
with the value: infinities and NaNs are not finite. *)
Definition parse_double (text : str) : option double :=
  let '(negative, body) :=
    match text with
    | c :: rest => if bool_decide (c = "-"%char) then (true, rest) else (false, text)
    | [] => (false, [])
    end in
  match read_mantissa body with
  | None => None
  | Some d =>
      let '(e, n) := read_exponent (drop (dec_length d) body) in
      if negb (dec_length d + n =? length body)%nat then None
      else
        match of_decimal (dec_mantissa d) (dec_exponent d + e) with
        | S754_finite _ m e => Some (S754_finite negative m e)
        | S754_zero _ =>
            if dec_mantissa d =? 0 then Some (S754_zero negative) else None
        | S754_infinity _ | S754_nan => None
        end
  end.

(** [static_cast<std::int64_t>(v)]: truncation towards zero; [None] when the
result does not fit, which is undefined behaviour. *)
Definition to_int64 (v : double) : option Z :=
  match v with
  | S754_zero _ => Some 0
  | S754_finite s m e =>
      let n := Z.shiftl (Zpos m) e in
      let n := if s : bool then - n else n in
      if (INT64_MIN <=? n) && (n <=? INT64_MAX) then Some n else None
  | _ => None
  end.

Definition first_token (contents : str) : str :=
  match find_index (one_of [SP; TAB; CR; LF]) contents with
  | None => contents
  | Some firstEnd => take firstEnd contents
  end.

(** [None] is undefined behaviour. *)
Definition parseUptime (contents : str) : option (Result Z) :=
  let invalid := Some (Failure (failure $"Invalid uptime in /proc/uptime")) in
  let token := first_token contents in
  if bool_decide (token = []) then invalid
  else
    match parse_double token with
    | None => invalid
    | Some seconds =>
        if SFltb seconds (S754_zero false) ||
           SFltb (fdiv (of_Z INT64_MAX) (of_Z 1000)) seconds
        then invalid
        else Success <$> to_int64 (fmul seconds (of_Z 1000))
    end.

Example uptime_examples :
  parseUptime $"12345.67 999.00" = Some (Success 12345670) /\
  parseUptime $"0.00 0.00" = Some (Success 0) /\
  parseUptime $"-1 2" = Some (Failure (failure $"Invalid uptime in /proc/uptime")) /\
  parseUptime $"1e3" = Some (Success 1000000) /\
  parseUptime $"12x" = Some (Failure (failure $"Invalid uptime in /proc/uptime")).
Proof. vm_compute. done. Qed.

(** ** Facts about the processor row *)

Definition dec_sum (ws : list str) : Z := foldr (fun w acc => dec_value w + acc) 0 ws.

(** Idle and waiting for input and output are columns 3 and 4 of the row. *)
Fixpoint idle_from (index : nat) (row : list str) : Z :=
  match row with
  | [] => 0
  | w :: row' =>
      (if (index =? 3)%nat || (index =? 4)%nat then dec_value w else 0) + idle_from (S index) row'
  end.

Lemma idle_from_late index row : (5 <= index)%nat -> idle_from index row = 0.
Proof.
  revert index. induction row as [|w row IH]; intros index H; simpl; [done|].
  rewrite IH by lia. by destruct index as [|[|[|[|[|]]]]]; try lia.
Qed.

Lemma idle_from_columns row : idle_from 0 row = dec_sum (take 2 (drop 3 row)).
Proof.
  destruct row as [|a [|b [|c [|d [|e row]]]]]; try done.
  transitivity (0 + (0 + (0 + (dec_value d + (dec_value e + idle_from 5 row))))); [done|].
  rewrite idle_from_late by lia. simpl. lia.
Qed.

Lemma parse_u64_Some text v :
  parse_u64 text = Some v <-> (is_decimal text /\ dec_value text <= UINT64_MAX) /\ dec_value text = v.
Proof.
  unfold parse_u64. split.
  - destruct (parsed_whole _ text) eqn:E; [|done]. intros [= <-].
    rewrite from_chars_unsigned_value by done. by apply from_chars_unsigned_whole in E.
  - intros [H <-]. assert (E : parsed_whole (from_chars_unsigned UINT64_MAX text 0) text = true)
      by (by apply from_chars_unsigned_whole).
    by rewrite E, from_chars_unsigned_value.
Qed.

Lemma parse_u64_None text :
  parse_u64 text = None -> is_decimal text -> UINT64_MAX < dec_value text.
Proof.
  intros H Hd. destruct (Z.leb_spec (dec_value text) UINT64_MAX) as [Hle|]; [|done].
  by rewrite (proj2 (parse_u64_Some text _) (conj (conj Hd Hle) eq_refl)) in H.
Qed.

Lemma decimals_nonneg ws : Forall is_decimal ws -> 0 <= dec_sum ws.
Proof.
  induction 1 as [|w ws [_ Hw] _ IH]; simpl; [done|]. pose proof (dec_value_nonneg w Hw). lia.
Qed.

(** The loop adds the columns up, or one of them is no counter or the sum does
not fit. *)
Lemma cpu_loop_spec row index total idle :
  0 <= idle <= total -> total <= UINT64_MAX ->
  Forall is_decimal row /\ total + dec_sum row <= UINT64_MAX /\
    cpu_loop row index (mkCpuTimes total idle) =
    Success ((index + length row)%nat, mkCpuTimes (total + dec_sum row) (idle + idle_from index row)) \/
  ~ (Forall is_decimal row /\ total + dec_sum row <= UINT64_MAX) /\
    cpu_loop row index (mkCpuTimes total idle) =
    Failure (failure $"Invalid CPU counter in /proc/stat").
Proof.
  revert index total idle. induction row as [|w row IH]; intros index total idle Hi Ht.
  - left. simpl. rewrite !Z.add_0_r, Nat.add_0_r. split_and!; [constructor|done|done].
  - cbn [cpu_loop dec_sum foldr idle_from length]. fold (dec_sum row).
    destruct (parse_u64 w) as [v|] eqn:Ew.
    + apply parse_u64_Some in Ew as [[Hd Hm] <-]. pose proof (dec_value_nonneg w (proj2 Hd)).
      unfold checkedAdd. cbn [totalTicks idleTicks].
      destruct (Z.ltb_spec (UINT64_MAX - total) (dec_value w)) as [Hlt|Hle].
      * right. split; [|done]. intros [[_ Hr]%Forall_cons Hs].
        apply decimals_nonneg in Hr. lia.
      * set (col := if (index =? 3)%nat || (index =? 4)%nat then dec_value w else 0).
        assert (Hstep : (if (index =? 3)%nat || (index =? 4)%nat
          then match (if UINT64_MAX - idle <? dec_value w then None else Some (idle + dec_value w)) with
               | None => Failure (failure $"CPU idle counter overflow in /proc/stat")
               | Some idle' => cpu_loop row (S index) (mkCpuTimes (total + dec_value w) idle')
               end
          else cpu_loop row (S index) (mkCpuTimes (total + dec_value w) idle)) =
          cpu_loop row (S index) (mkCpuTimes (total + dec_value w) (idle + col))).
        { unfold col. destruct (_ || _); [|by rewrite Z.add_0_r].
          by rewrite (proj2 (Z.ltb_ge _ _)) by lia. }
        rewrite Hstep. assert (0 <= col <= dec_value w) by (unfold col; destruct (_ || _); lia).
        destruct (IH (S index) (total + dec_value w) (idle + col)) as [(H1 & H2 & ->)|[H1 ->]];
          [lia|lia| |].
        -- left. split; [by constructor|]. split; [lia|]. do 2 f_equal; [lia|]. f_equal; lia.
        -- right. split; [|done]. intros [[_ Hr]%Forall_cons Hs]. apply H1. split; [done|lia].
    + right. split; [|done]. intros [[Hd Hr]%Forall_cons Hs].
      apply parse_u64_None in Ew; [|done]. apply decimals_nonneg in Hr. lia.
Qed.

Lemma dec_sum_app a b : dec_sum (a ++ b) = dec_sum a + dec_sum b.
Proof. induction a as [|w a IH]; simpl; lia. Qed.

Lemma idle_columns_bound row :
  Forall is_decimal row -> 0 <= dec_sum (take 2 (drop 3 row)) <= dec_sum row.
Proof.
  intros H. rewrite <- (take_drop 3 row) in H at 1.
  rewrite <- (take_drop 2 (drop 3 row)) in H. apply Forall_app in H as [H1 H].
  apply Forall_app in H as [H2 H3]. apply decimals_nonneg in H1, H2, H3.
  assert (Hsum : dec_sum row = dec_sum (take 3 row) +
    (dec_sum (take 2 (drop 3 row)) + dec_sum (drop 2 (drop 3 row))))
    by (rewrite <- !dec_sum_app, !take_drop; done).
  lia.
Qed.

Lemma parseCpuTimes_spec contents t :
  parseCpuTimes contents = Success t <->
  exists row, words isspace (first_line contents) = $"cpu" :: row /\
    (4 <= length row)%nat /\ Forall is_decimal row /\ dec_sum row <= UINT64_MAX /\
    t = mkCpuTimes (dec_sum row) (dec_sum (take 2 (drop 3 row))).
Proof.
  unfold parseCpuTimes. destruct (words isspace _) as [|label row] eqn:E.
  { split; [done|]. by intros (? & ? & _). }
  cbn [head default from_option id List.tl].
  case_bool_decide as Hl; cbn [negb]; [subst label|split; [done|by intros (? & [= ?] & _)]].
  destruct (cpu_loop_spec row 0 0 0) as [(H1 & H2 & ->)|[H1 ->]]; [done|done| |].
  - cbn [fst snd]. rewrite idle_from_columns. destruct (Nat.ltb_spec (0 + length row) 4).
    + split; [done|]. intros (row' & [= <-] & H3 & _). lia.
    + split.
      * intros [= <-]. exists row. split_and!; done || lia.
      * intros (row' & [= <-] & _ & _ & _ & ->). done.
  - split; [done|]. intros (row' & [= <-] & _ & H3 & H4 & _). destruct H1. by rewrite Z.add_0_l.
Qed.

Lemma parseCpuTimes_idle contents t :
  parseCpuTimes contents = Success t -> 0 <= idleTicks t <= totalTicks t.
Proof. intros (row & _ & _ & Hd & _ & ->)%parseCpuTimes_spec. by apply idle_columns_bound. Qed.

(** ** Facts about the memory table *)

(** A line as the kernel prints it: the key with its colon, spaces, the number,
the unit. *)
Record memory_row := mkMemoryRow { row_key : str; row_pad : nat; row_value : str }.
Definition row_text (r : memory_row) : str :=
  row_key r ++ repeat SP (S (row_pad r)) ++ row_value r ++ $" kB" ++ [LF].
Definition memory_text (rows : list memory_row) : str := concat (map row_text rows).
Definition row_ok (r : memory_row) : Prop :=
  word_of isspace (row_key r) /\ word_of isspace (row_value r).
Definition row_field (r : memory_row) : field := (row_key r, row_value r).

Definition relevant (key : str) : bool :=
  bool_decide (key = $"MemTotal:") || bool_decide (key = $"MemAvailable:").
Definition row_valid (r : memory_row) : Prop :=
  relevant (row_key r) = true ->
  is_decimal (row_value r) /\ dec_value (row_value r) <= UINT64_MAX / 1024.

Lemma repeat_space n c : c ∈ repeat SP n -> isspace c = true.
Proof. induction n; simpl; [set_solver|]. intros [->|?]%elem_of_cons; [done|auto]. Qed.

Lemma read_three_row pre r rest :
  (forall c, c ∈ pre -> isspace c = true) -> row_ok r ->
  read_three (pre ++ row_text r ++ rest) = Some (row_key r, row_value r, $"kB", LF :: rest).
Proof.
  intros Hp [Hk Hv]. unfold read_three, row_text.
  rewrite <- !app_assoc.
  rewrite next_token_word by (done || by destruct pre).
  change (repeat SP (S (row_pad r)) ++ ?x) with (repeat SP (S (row_pad r)) ++ x).
  rewrite next_token_word; [|apply repeat_space|done|done].
  change ($" kB" ++ [LF] ++ rest) with ([SP] ++ $"kB" ++ (LF :: rest)).
  rewrite next_token_word; [done| | |done].
  - by intros c ->%list_elem_of_singleton.
  - split; [done|]. intros c Hc. repeat apply elem_of_cons in Hc as [->|Hc]; try done.
    by apply elem_of_nil in Hc.
Qed.

Definition memory_step (r : memory_row) (s : memory_state) : Result memory_state :=
  if relevant (row_key r) then memory_line (row_key r) (row_value r) $"kB" s else Success s.
Fixpoint memory_fold (rows : list memory_row) (s : memory_state) : Result memory_state :=
  match rows with
  | [] => Success s
  | r :: rows' => let? s' := memory_step r s in memory_fold rows' s'
  end.

Lemma memory_loop_text fuel pre rows s :
  Forall row_ok rows -> pre = [] \/ pre = [LF] ->
  (length (memory_text rows) < fuel)%nat ->
  memory_loop fuel (pre ++ memory_text rows) s = memory_fold rows s.
Proof.
  intros Hok Hpre. assert (Hsp : forall c, c ∈ pre -> isspace c = true).
  { destruct Hpre as [->| ->]; [set_solver|]. by intros c ->%list_elem_of_singleton. }
  clear Hpre. revert fuel pre s Hsp. induction Hok as [|r rows Hr _ IH]; intros fuel pre s Hsp Hf.
  - destruct fuel; [done|]. simpl. unfold read_three.
    rewrite next_token_none; [done|]. by rewrite app_nil_r.
  - unfold memory_text in *; simpl in *. fold (memory_text rows) in *.
    destruct fuel as [|fuel]; [lia|]. cbn [memory_loop memory_fold].
    rewrite read_three_row by done. rewrite length_app in Hf.
    assert (Hl : (length (memory_text rows) < fuel)%nat).
    { unfold row_text in Hf. rewrite !length_app in Hf. simpl in Hf. lia. }
    unfold memory_step, relevant.
    destruct (bool_decide (row_key r = $"MemTotal:")), (bool_decide (row_key r = $"MemAvailable:"));
      cbn [negb andb orb].
    4: { unfold skip_line. simpl. rewrite drop_0. by apply (IH fuel []); [set_solver|]. }
    all: destruct (memory_line _ _ _ s); [|done]; change (LF :: memory_text rows) with
           ([LF] ++ memory_text rows);
         (apply IH; [by intros c ->%list_elem_of_singleton|done]).
Qed.

Definition kib (key : str) (rows : list memory_row) : option Z :=
  dec_value <$> last_value key (map row_field rows).

Definition memory_after (rows : list memory_row) (s : memory_state) : memory_state :=
  let bytes key d := default d ((fun n => n * 1024) <$> kib key rows) in
  let has key := bool_decide (is_Some (kib key rows)) in
  mkMemoryState
    (mkMemoryRecord (bytes $"MemTotal:" (totalBytes (mem_record s)))
                    (bytes $"MemAvailable:" (availableBytes (mem_record s))))
    (has $"MemTotal:" || hasTotal s) (has $"MemAvailable:" || hasAvailable s).

Lemma memory_value_spec text :
  (is_decimal text /\ dec_value text <= UINT64_MAX / 1024) /\
    memory_value $"kB" text = Success (dec_value text * 1024) \/
  ~ (is_decimal text /\ dec_value text <= UINT64_MAX / 1024) /\
    exists error, memory_value $"kB" text = Failure error.
Proof.
  unfold memory_value. assert (UINT64_MAX / 1024 <= UINT64_MAX) by done.
  destruct (parse_u64 text) as [v|] eqn:E.
  - apply parse_u64_Some in E as [[Hd _] <-]. rewrite bool_decide_eq_true_2 by done.
    cbn [negb orb]. destruct (Z.ltb_spec (UINT64_MAX / 1024) (dec_value text)).
    + right. split; [lia|eauto].
    + left. done.
  - right. split; [|eauto]. intros [Hd Hm]. apply parse_u64_None in E; [lia|done].
Qed.

Definition row_after (r : memory_row) (s : memory_state) : memory_state :=
  let bytes := dec_value (row_value r) * 1024 in
  if bool_decide (row_key r = $"MemTotal:") then
    mkMemoryState (mkMemoryRecord bytes (availableBytes (mem_record s))) true (hasAvailable s)
  else if bool_decide (row_key r = $"MemAvailable:") then
    mkMemoryState (mkMemoryRecord (totalBytes (mem_record s)) bytes) (hasTotal s) true
  else s.

Lemma memory_after_cons r rows s : memory_after (r :: rows) s = memory_after rows (row_after r s).
Proof.
  unfold memory_after, kib, row_after. cbn [map]. rewrite !last_value_cons.
  destruct r as [k pad v]; cbn [row_field row_key row_value fst snd].
  destruct (decide (k = $"MemTotal:")) as [->|N1];
    [|destruct (decide (k = $"MemAvailable:")) as [->|N2]].
  3: rewrite !(bool_decide_eq_false_2 _ N1), !(bool_decide_eq_false_2 _ N2).
  all: destruct (last_value $"MemTotal:" (map row_field rows)),
    (last_value $"MemAvailable:" (map row_field rows)); reflexivity.
Qed.

Lemma memory_step_spec r s :
  row_valid r /\ memory_step r s = Success (row_after r s) \/
  ~ row_valid r /\ exists error, memory_step r s = Failure error.
Proof.
  unfold row_valid, memory_step, memory_line, row_after, relevant.
  destruct (memory_value_spec (row_value r)) as [[Hv ->]|[Hv [error ->]]];
    destruct (bool_decide (row_key r = $"MemTotal:")), (bool_decide (row_key r = $"MemAvailable:"));
    cbn [orb]; try (left; by split); right; (split; [tauto|eauto]).
Qed.

Lemma memory_fold_spec rows s :
  Forall row_valid rows /\ memory_fold rows s = Success (memory_after rows s) \/
  ~ Forall row_valid rows /\ exists error, memory_fold rows s = Failure error.
Proof.
  revert s. induction rows as [|r rows IH]; intros s.
  - left. split; [done|]. by destruct s as [[] ? ?].
  - rewrite memory_after_cons. cbn [memory_fold].
    destruct (memory_step_spec r s) as [[Hv ->]|[Hv [error ->]]].
    + destruct (IH (row_after r s)) as [[H1 H2]|[H1 H2]].
      * left. by split; [constructor|].
      * right. split; [|done]. by intros [_ ?]%Forall_cons.
    + right. split; [by intros [? _]%Forall_cons|eauto].
Qed.

(** Whatever the table contains, the numbers are those of 64-bit counters. *)
Definition memory_range (s : memory_state) : Prop :=
  0 <= totalBytes (mem_record s) <= UINT64_MAX /\ 0 <= availableBytes (mem_record s) <= UINT64_MAX.

Lemma memory_value_range unit text n : memory_value unit text = Success n -> 0 <= n <= UINT64_MAX.
Proof.
  unfold memory_value. destruct (parse_u64 text) as [v|] eqn:E; [|done].
  apply parse_u64_Some in E as [[Hd _] <-]. pose proof (dec_value_nonneg text (proj2 Hd)).
  destruct (negb _ || _) eqn:E; [done|]. intros [= <-]. bool_facts.
  change (UINT64_MAX / 1024) with 18014398509481983 in *.
  change UINT64_MAX with 18446744073709551615. lia.
Qed.

Lemma memory_loop_range fuel input s s' :
  memory_range s -> memory_loop fuel input s = Success s' -> memory_range s'.
Proof.
  revert input s. induction fuel as [|fuel IH]; intros input s Hs; cbn [memory_loop].
  - by intros [= <-].
  - destruct (read_three input) as [[[[key v] unit] rest]|]; [|by intros [= <-]].
    destruct (negb _ && negb _); [by apply IH|]. unfold memory_line.
    destruct (memory_value unit v) as [n|] eqn:E; [|done]. apply memory_value_range in E.
    destruct Hs. destruct (bool_decide _); apply IH; by split.
Qed.

Lemma parseMemoryInfo_range contents r :
  parseMemoryInfo contents = Success r -> 0 <= availableBytes r <= totalBytes r /\ totalBytes r <= UINT64_MAX.
Proof.
  unfold parseMemoryInfo. destruct (memory_loop _ _ _) as [s|] eqn:E; [|done].
  apply memory_loop_range in E; [|by vm_compute].
  destruct (_ || _) eqn:E'; [done|]. intros [= <-]. destruct E. bool_facts. lia.
Qed.

Lemma countLogicalCpus_range contents : 1 <= countLogicalCpus contents < 2 ^ 32.
Proof.
  assert (H : forall fuel rest count, 0 <= count < 2 ^ 32 -> 0 <= cpus_loop fuel rest count < 2 ^ 32).
  { induction fuel as [|fuel IH]; intros rest count Hc; cbn [cpus_loop]; [done|].
    destruct rest as [|c rest]; [done|].
    set (count' := if cpu_line _ then _ else _).
    assert (0 <= count' < 2 ^ 32) by (unfold count'; case_match; [apply Z.mod_pos_bound|]; lia).
    destruct (find_char LF _); [by apply IH|done]. }
  unfold countLogicalCpus. specialize (H (length contents) contents 0 ltac:(lia)).
  destruct (Z.eqb_spec (cpus_loop (length contents) contents 0) 0); lia.
Qed.

(** ** Facts about the uptime *)

Lemma fin_to_int64 L B x :
  fin L B x -> B <= 63 -> exists n, to_int64 x = Some n /\ 0 <= n < 2 ^ 63.
Proof.
  intros (m & e & -> & _ & HB) HB'. unfold to_int64.
  pose proof (digits2_bounds m) as [_ Hm]. pose proof (digits2_pos_ge m).
  assert (Hn : 0 <= Z.shiftl (Zpos m) e < 2 ^ 63).
  { destruct (Z.le_gt_cases 0 e).
    - rewrite Z.shiftl_mul_pow2 by done. split; [apply Z.mul_nonneg_nonneg; [done|apply Z.pow_nonneg; lia]|].
      apply Z.lt_le_trans with (2 ^ (Zdigits2 (Zpos m) + e)); [|apply Z.pow_le_mono_r; lia].
      rewrite Z.pow_add_r by lia. apply Z.mul_lt_mono_pos_r; [apply Z.pow_pos_nonneg; lia|done].
    - rewrite Z.shiftl_div_pow2 by lia.
      assert (0 < 2 ^ (- e)) by (apply Z.pow_pos_nonneg; lia).
      split; [apply Z.div_pos; lia|]. apply Z.div_lt_upper_bound; [done|].
      rewrite <- Z.pow_add_r by lia.
      apply Z.lt_le_trans with (2 ^ Zdigits2 (Zpos m)); [done|apply Z.pow_le_mono_r; lia]. }
  exists (Z.shiftl (Zpos m) e). split; [|done].
  rewrite (proj2 (Z.leb_le _ _)) by (change INT64_MIN with (- 2 ^ 63); lia).
  by rewrite (proj2 (Z.leb_le _ _)) by (change INT64_MAX with (2 ^ 63 - 1); lia).
Qed.

(** ** Properties *)

(** [parseCpuTimes] is exact: it succeeds exactly when the first line is the
label [cpu] followed by at least four decimal columns whose sum fits in 64 bits;
the total is that sum and the idle time the sum of the columns 3 and 4 (idle and
iowait), never more than the total.  In particular the check of the idle sum
never fails. *)
Theorem parseCpuTimes_exact contents :
  (forall t, parseCpuTimes contents = Success t <->
    exists row, words isspace (first_line contents) = $"cpu" :: row /\
      (4 <= length row)%nat /\ Forall is_decimal row /\ dec_sum row <= UINT64_MAX /\
      t = mkCpuTimes (dec_sum row) (dec_sum (take 2 (drop 3 row)))) /\
  (forall t, parseCpuTimes contents = Success t -> 0 <= idleTicks t <= totalTicks t) /\
  parseCpuTimes contents <> Failure (failure $"CPU idle counter overflow in /proc/stat").
Proof.
  split_and!; [apply parseCpuTimes_spec|apply parseCpuTimes_idle|].
  unfold parseCpuTimes. case_match; [done|].
  destruct (cpu_loop_spec (List.tl (words isspace (first_line contents))) 0 0 0)
    as [(_ & _ & ->)|[_ ->]]; [done|done| |done]. by case_match.
Qed.

(** [parseMemoryInfo] is exact on the table the kernel prints ([key: number
kB] lines): it succeeds exactly when every MemTotal and MemAvailable line holds a
decimal number of kibibytes whose bytes fit in 64 bits, both are present and the
available memory is not more than the total; the record holds their bytes. *)
Theorem parseMemoryInfo_exact rows r :
  Forall row_ok rows ->
  parseMemoryInfo (memory_text rows) = Success r <->
  Forall row_valid rows /\
  (fun n => n * 1024) <$> kib $"MemTotal:" rows = Some (totalBytes r) /\
  (fun n => n * 1024) <$> kib $"MemAvailable:" rows = Some (availableBytes r) /\
  availableBytes r <= totalBytes r.
Proof.
  intros Hok. unfold parseMemoryInfo. set (s0 := mkMemoryState _ _ _).
  rewrite (memory_loop_text _ [] rows s0) by (done || auto).
  destruct (memory_fold_spec rows s0) as [[Hv ->]|[Hv [error ->]]]; [|split; [done|tauto]].
  unfold memory_after. simpl.
  destruct (kib $"MemTotal:" rows) as [a|], (kib $"MemAvailable:" rows) as [b|]; simpl;
    try (split; [done|]; by intros (_ & H1 & H2 & _)).
  destruct (Z.ltb_spec (a * 1024) (b * 1024)) as [Hlt|Hle]; split; try done.
  - intros (_ & [= H1] & [= H2] & H3). lia.
  - by intros [= <-].
  - intros (_ & [= H1] & [= H2] & H3). destruct r; simpl in *. by subst.
Qed.

Lemma parseMemoryInfo_exact_witness :
  parseMemoryInfo (memory_text [mkMemoryRow $"MemTotal:" 7 $"2048"; mkMemoryRow $"MemFree:" 3 $"5";
    mkMemoryRow $"MemAvailable:" 3 $"1024"]) = Success (mkMemoryRecord 2097152 1048576).
Proof.
  apply parseMemoryInfo_exact.
  - assert (Hw : forall w, w <> [] -> forallb (fun c => negb (isspace c)) w = true ->
                   word_of isspace w).
    { intros w Hw H. split; [done|]. intros c Hc. rewrite forallb_elem_of in H.
      specialize (H c Hc). by bool_facts. }
    repeat (apply Forall_cons; split; [split; apply Hw; by vm_compute|]). constructor.
  - split_and!; [|vm_compute; reflexivity..|vm_compute; congruence].
    assert (Hd : forall n, 0 <= n <= 4096 -> is_decimal (to_string n) /\
                   dec_value (to_string n) <= UINT64_MAX / 1024).
    { intros n Hn. destruct (to_string_spec n) as [Hd ->]; [lia|]. split; [done|].
      change (UINT64_MAX / 1024) with 18014398509481983. lia. }
    repeat (apply Forall_cons; split).
    + intros _. apply (Hd 2048). lia.
    + by intros [=].
    + intros _. apply (Hd 1024). lia.
    + constructor.
Defined.

(** The conversion of the uptime to milliseconds is defined and not negative
for every number of seconds below [2^52] (142 million years) and at least
[2^-900]; the guard of the code is one value too wide: it accepts 9223372036854776
seconds, which do not fit in the 64 bits of the result. *)
Theorem parseUptime_defined contents token seconds m e :
  first_token contents = token -> parse_double token = Some seconds -> seconds = S754_finite false m e ->
  -900 <= e <= 0 -> Zdigits2 (Zpos m) + e <= 52 ->
  (exists ms, parseUptime contents = Some (Success ms) /\ 0 <= ms < 2 ^ 63) /\
  parseUptime $"9223372036854776 0.00" = None.
Proof.
  intros Ht Hp Hs He Hd. split; [|vm_compute; reflexivity].
  assert (Hfin : fin (-900) 52 seconds) by (exists m, e; split_and!; done || lia).
  assert (H1000 : fin (-43) 10 (of_Z 1000)).
  { exists 8796093022208000%positive, (-43). vm_compute. split_and!; congruence. }
  destruct (fin_to_int64 _ _ _ (fmul_fin _ _ _ _ _ _ Hfin H1000 ltac:(lia) ltac:(lia)))
    as (ms & Hms & Hr); [lia|].
  exists ms. split; [|done]. unfold parseUptime. rewrite Ht, Hp.
  assert (Hc : SFltb (fdiv (of_Z INT64_MAX) (of_Z 1000)) seconds = false).
  { replace (fdiv (of_Z INT64_MAX) (of_Z 1000)) with (S754_finite false 4611686018427388 1)
      by (vm_compute; reflexivity).
    subst seconds. unfold SFltb. cbn [SFcompare]. by rewrite (proj2 (Z.compare_gt_iff 1 e)) by lia. }
  rewrite Hc. rewrite bool_decide_eq_false_2 by (by intros ->).
  rewrite Hms. by subst seconds.
Qed.

Lemma parseUptime_defined_witness : parseUptime $"12345.67 999.00" = Some (Success 12345670).
Proof.
  destruct (parseUptime_defined $"12345.67 999.00" $"12345.67"
    (S754_finite false 6787103858842665 (-39)) 6787103858842665 (-39)) as [(ms & H & _) _];
    [vm_compute; reflexivity..|lia|vm_compute; congruence|].
  rewrite H. vm_compute in H. congruence.
Defined.

(** ** Lines without a unit

Three words are read before the rest of a line is skipped: a line of two words takes
the name of the next line with it. *)
Definition unitless : str := $"HugePages_Total: 0" ++ [LF].
Definition two_fields : str := $"MemTotal: 8 kB" ++ [LF] ++ $"MemAvailable: 4 kB" ++ [LF].
Lemma unitless_line_hides_next :
  parseMemoryInfo two_fields = Success (mkMemoryRecord 8192 4096) /\
  exists e, parseMemoryInfo (unitless ++ two_fields) = Failure e.
Proof. split; [|eexists]; vm_compute; reflexivity. Qed.
