(* ===== verification/OsCalls.v ===== *)
(** * The calls the Linux adapters make

Files, links and directories of the process file system, the user database,
the host name and the sock-diag socket: one constructor per system or C library
call of [src/linux/], with its answer.  A number on the left of a sum is an
[errno] value.  A call whose answer type is empty has no answer: the program
does not go on after it. *)

From S2P Require Import Prelude CppStd CppString Prog Domain.
From Stdlib Require Import Ascii.

(** [std::ifstream] and [std::istreambuf_iterator]: the open may fail; otherwise
the bytes read, [bad()] and [errno] afterwards. *)
Inductive file_answer :=
| OpenFailed (errno : Z)
| Contents (bytes : str) (bad : bool) (errno : Z).

(** [std::filesystem::directory_iterator]: the construction may fail; otherwise
the names of the entries and the error that ended the iteration early. *)
Inductive directory_answer :=
| DirectoryFailed (errno : Z)
| Entries (names : list str) (stopped : option Z).

Variant osE : Type -> Type :=
| ReadFile (path : list str) : osE file_answer
| ReadLink (path : list str) : osE (Z + str)
| OpenDirectory (path : list str) : osE directory_answer
| Sysconf_GETPW_R_SIZE_MAX : osE Z
| GetPwUid_r (uid size : Z) : osE (Z * option str)
| GetHostName : osE (Z + str)
(* socket(AF_NETLINK, ...), sendto, recv *)
| NetlinkOpen : osE (Z + unit)
| NetlinkSend (request : list Z) : osE (Z * Z)  (* what sendto returns, errno *)
| NetlinkReceive : osE (Z + list Z)
(* an exception nobody catches; a loop that goes on for ever *)
| Uncaught : osE Empty_set
| Forever : osE Empty_set.

Definition EPERM : Z := 1.
Definition ENOENT : Z := 2.
Definition ESRCH : Z := 3.
Definition EINTR : Z := 4.
Definition EIO : Z := 5.
Definition EACCES : Z := 13.
Definition EINVAL : Z := 22.
Definition ERANGE : Z := 34.
Definition ENOSYS : Z := 38.

(** The program ends here. *)
Definition uncaught {A} : prog osE A := Vis Uncaught (fun e : Empty_set => match e with end).
Definition forever {A} : prog osE A := Vis Forever (fun e : Empty_set => match e with end).

Lemma runs_uncaught {A} tr (a : A) : ~ runs uncaught tr a.
Proof. by intros ([] & _). Qed.
Lemma runs_forever {A} tr (a : A) : ~ runs forever tr a.
Proof. by intros ([] & _). Qed.

(** [std::system_category().message(number)] is implementation-defined text. *)
Class Messages := { system_message : Z -> str }.

(** A loop of calls over a list, left to right. *)
Fixpoint for_each {E S A} (body : S -> A -> prog E S) (l : list A) (s : S) : prog E S :=
  match l with
  | [] => Ret s
  | x :: l' => s' <- body s x ;; for_each body l' s'
  end.

(** What a step guarantees, accumulated over the loop. *)
Lemma for_each_ind {E S A} (body : S -> A -> prog E S) (I : list A -> trace E -> S -> Prop) s0 :
  I [] [] s0 ->
  (forall done tr s x tr' s', I done tr s -> runs (body s x) tr' s' -> I (done ++ [x]) (tr ++ tr') s') ->
  forall l tr s, runs (for_each body l s0) tr s -> I l tr s.
Proof.
  intros H0 Hstep l tr s Hr.
  enough (H : forall done tr0 s1, I done tr0 s1 -> forall tr1, runs (for_each body l s1) tr1 s ->
              I (done ++ l) (tr0 ++ tr1) s) by (apply (H [] [] s0 H0 tr Hr)).
  clear Hr. induction l as [|x l IH]; intros visited tr0 s1 Hi tr1; simpl.
  - intros [-> ->]. by rewrite !app_nil_r.
  - intros (t1 & s2 & t2 & -> & H1 & H2)%runs_bind.
    rewrite cons_middle, !app_assoc. eapply (IH (visited ++ [x])); [|exact H2]. by eapply Hstep.
Qed.

(** ** A simulated system, for the examples *)

Record os_machine := mkOsMachine {
  os_files : list (list str * file_answer);
  os_links : list (list str * (Z + str));
  os_directories : list (list str * directory_answer);
  os_users : list (Z * str);
  os_datagrams : list (list Z);
}.

Definition path_assoc {A} (k : list str) (l : list (list str * A)) : option A :=
  snd <$> List.find (fun e => bool_decide (e.1 = k)) l.

Definition os_sim (X : Type) (e : osE X) (m : os_machine) : option (X * os_machine) :=
  match e in osE X return option (X * os_machine) with
  | ReadFile path => Some (default (OpenFailed ENOENT) (path_assoc path (os_files m)), m)
  | ReadLink path => Some (default (inl EACCES) (path_assoc path (os_links m)), m)
  | OpenDirectory path =>
      Some (default (DirectoryFailed EACCES) (path_assoc path (os_directories m)), m)
  | Sysconf_GETPW_R_SIZE_MAX => Some (1024, m)
  | GetPwUid_r uid size =>
      Some ((if size <? 4096 then (ERANGE, None)
             else (0, snd <$> List.find (fun e => e.1 =? uid) (os_users m))), m)
  | GetHostName => Some (inr $"host", m)
  | NetlinkOpen => Some (inr tt, m)
  | NetlinkSend request => Some ((Z.of_nat (length request), 0), m)
  | NetlinkReceive =>
      match os_datagrams m with
      | [] => None
      | d :: ds => Some (inr d, mkOsMachine (os_files m) (os_links m) (os_directories m) (os_users m) ds)
      end
  | Uncaught | Forever => None
  end.

Definition os_run {A} (t : prog osE A) (m : os_machine) : option (A * trace osE) :=
  fst <$> exec os_sim t m.

Lemma os_run_runs {A} (t : prog osE A) m a tr : os_run t m = Some (a, tr) -> runs t tr a.
Proof.
  unfold os_run. destruct (exec os_sim t m) as [[[b tr'] s]|] eqn:E; [|done].
  intros [= <- <-]. by apply exec_runs in E.
Qed.

Definition plain_messages : Messages := {| system_message n := to_string n |}.
