(* ===== verification/ProcFsProvider.v ===== *)
(** * Processes from procfs ([src/linux/procfs/])

[ProcFsReader], [PasswdUserResolver], [ProcFsProcessProvider] and
[ProcFsSystemMetricsProvider].  A process may vanish or be unreadable between
any two calls: the theorems hold for every answer of every call. *)

From S2P Require Import Prelude CppStd CppString Prog Domain Contracts Float ProcfsParsers SystemMetricsParser OsCalls.
From Stdlib Require Import Ascii SpecFloat.

Section Providers.
Context {messages : Messages}.
(** The directory of procfs, [root_]. *)
Context (root : str).

(** ** ProcFsReader.cpp *)

Definition reader_code (number : Z) : ErrorCode :=
  if (number =? ENOENT) || (number =? ESRCH) then NotFound
  else if (number =? EACCES) || (number =? EPERM) then PermissionDenied else IoError.

Definition makeError (number : Z) (operation : str) : Error :=
  mkError (reader_code number)
    ($"Unable to " ++ operation ++ $": " ++ system_message number)
    number $"procfs" operation.

Definition pathFor (pid : Z) (name : str) : list str := [root; to_string pid; name].

(** [errno == 0 ? EIO : errno] *)
Definition errno_or_EIO (number : Z) : Z := if number =? 0 then EIO else number.

Definition readFile (pid : Z) (name : str) : prog osE (Result str) :=
  input <- trigger (ReadFile (pathFor pid name)) ;;
  Ret (match input with
       | OpenFailed number => Failure (makeError (errno_or_EIO number) ($"read " ++ name))
       | Contents contents bad number =>
           if bad : bool then Failure (makeError (errno_or_EIO number) ($"read " ++ name))
           else Success contents
       end).

Definition readLink (pid : Z) (name : str) : prog osE (Result str) :=
  target <- trigger (ReadLink (pathFor pid name)) ;;
  Ret (match target with
       | inl number => Failure (makeError number ($"readlink " ++ name))
       | inr target => Success target
       end).

(** The PID a directory entry of procfs names. *)
Definition entry_pid (name : str) : option Z :=
  let parsed := from_chars_unsigned UINT64_MAX name 0 in
  if negb (parsed_whole parsed name) || (fc_value parsed =? 0) || (PID_MAX <? fc_value parsed)
  then None else Some (fc_value parsed).

(** The range-based loop uses the increment that throws. *)
Definition processIds : prog osE (Result (list Z)) :=
  entries <- trigger (OpenDirectory [root]) ;;
  match entries with
  | DirectoryFailed number => Ret (Failure (makeError number $"enumerate processes"))
  | Entries _ (Some _) => uncaught
  | Entries names None => Ret (Success (sort (omap entry_pid names)))
  end.

(** ** PasswdUserResolver.cpp *)

Definition passwd_error (code : ErrorCode) (message : str) (number : Z) : Error :=
  mkError code message number $"passwd-user-resolver" $"resolve uid".

Definition passwd_maximum : Z := 1024 * 1024.

Fixpoint passwd_loop (fuel : nat) (uid size : Z) : prog osE (Result str) :=
  match fuel with
  | O => forever
  | S fuel' =>
      if passwd_maximum <? size then
        Ret (Failure (passwd_error OperationFailed $"Passwd entry exceeds safety limit" ERANGE))
      else
        answer <- trigger (GetPwUid_r uid size) ;;
        match answer with
        | (status, found) =>
            if status =? 0 then
              match found with
              | Some name => Ret (Success name)
              | None => Ret (Failure (passwd_error NotFound $"No passwd entry for UID" 0))
              end
            else if negb (status =? ERANGE) then
              Ret (Failure (passwd_error IoError $"Unable to resolve UID" status))
            else passwd_loop fuel' uid (size * 2)
        end
  end.

(** The buffer doubles from at least one byte to [2^20]: twenty-one calls, and a
last test of the size ([passwd_terminates]). *)
Definition passwd_fuel : nat := 22.

Definition nameForUid (uid : Z) : prog osE (Result str) :=
  suggested <- trigger Sysconf_GETPW_R_SIZE_MAX ;;
  passwd_loop passwd_fuel uid (if 0 <? suggested then suggested else 1024).

(** ** ProcFsProcessProvider.cpp *)

Definition stateName (state : ascii) : str :=
  if bool_decide (state = "R"%char) then $"running"
  else if bool_decide (state = "S"%char) then $"sleeping"
  else if bool_decide (state = "D"%char) then $"disk sleep"
  else if bool_decide (state = "Z"%char) then $"zombie"
  else if bool_decide (state = "T"%char) then $"stopped"
  else if bool_decide (state = "t"%char) then $"tracing stop"
  else if bool_decide (state = "X"%char) || bool_decide (state = "x"%char) then $"dead"
  else if bool_decide (state = "I"%char) then $"idle"
  else [state].

Definition mismatch : Error :=
  mkError ParseError $"Process stat PID does not match request" 0
    $"procfs-process-provider" $"get".

(** An optional detail: its value, or a warning. *)
Definition warning_of {A} (r : Result A) : list Warning :=
  match r with Success _ => [] | Failure error => [warningFrom error] end.
Definition value_of {A} (r : Result A) : option A :=
  match r with Success a => Some a | Failure _ => None end.

Definition get (pid : Z) : prog osE (Result (Observation ProcessInfo)) :=
  statText <-? readFile pid $"stat" ;;
  match parseStat statText with
  | Failure error => Ret (Failure error)
  | Success stat =>
      if negb (st_pid stat =? pid) then Ret (Failure mismatch)
      else
        statusText <-? readFile pid $"status" ;;
        match parseStatus statusText with
        | Failure error => Ret (Failure error)
        | Success status =>
            user <- nameForUid (su_uid status) ;;
            cmdline <- readFile pid $"cmdline" ;;
            executable <- readLink pid $"exe" ;;
            cwd <- readLink pid $"cwd" ;;
            Ret (Success (Observed
              (mkProcessInfo pid (st_ppid stat) (st_name stat) (stateName (st_state stat))
                 (su_uid status) (su_gid status)
                 (match user with Success name => name | Failure _ => to_string (su_uid status) end)
                 (value_of executable) (value_of cwd)
                 (match cmdline with Success text => parseCmdline text | Failure _ => [] end)
                 (su_rssBytes status) (su_threads status) None None)
              (warning_of user ++ warning_of cmdline ++ warning_of executable ++ warning_of cwd)))
        end
  end.

Record list_state := mkListState {
  observed : list ProcessInfo;
  permissionWarnings : Z;
  disappearedWarnings : Z;
  detailWarnings : Z;
}.

Definition countWarning (s : list_state) (code : ErrorCode) : list_state :=
  match code with
  | PermissionDenied => mkListState (observed s) (permissionWarnings s + 1)
                          (disappearedWarnings s) (detailWarnings s)
  | NotFound => mkListState (observed s) (permissionWarnings s) (disappearedWarnings s + 1)
                  (detailWarnings s)
  | _ => mkListState (observed s) (permissionWarnings s) (disappearedWarnings s)
           (detailWarnings s + 1)
  end.

Definition list_step (s : list_state) (pid : Z) : prog osE list_state :=
  process <- get pid ;;
  Ret (match process with
       | Failure error => countWarning s (err_code error)
       | Success p =>
           foldl (fun s w => countWarning s (warn_code w))
             (mkListState (observed s ++ [obs_value p]) (permissionWarnings s)
                (disappearedWarnings s) (detailWarnings s))
             (obs_warnings p)
       end).

Definition list_warning (code : ErrorCode) (count : Z) (text : str) : list Warning :=
  if negb (count =? 0) then
    [mkWarning code (to_string count ++ text) 0 $"procfs-process-provider" $"list"]
  else [].

Definition list_ : prog osE (Result (Observation (list ProcessInfo))) :=
  ids <-? processIds ;;
  s <- for_each list_step ids (mkListState [] 0 0 0) ;;
  Ret (Success (Observed (observed s)
    (list_warning PermissionDenied (permissionWarnings s)
       $" process details could not be read because of permissions" ++
     list_warning NotFound (disappearedWarnings s)
       $" process details disappeared during enumeration" ++
     list_warning IoError (detailWarnings s)
       $" optional process details were unavailable"))).

Definition sample_step (samples : list ProcessCpuSample) (pid : Z) :
  prog osE (list ProcessCpuSample) :=
  text <- readFile pid $"stat" ;;
  Ret (match text with
       | Failure _ => samples
       | Success text =>
           match parseProcessCpuStat text with
           | Success parsed => if pcs_pid parsed =? pid then samples ++ [parsed] else samples
           | Failure _ => samples
           end
       end).

Definition sample : prog osE (Result (list ProcessCpuSample)) :=
  ids <-? processIds ;;
  samples <- for_each sample_step ids [] ;;
  Ret (Success samples).

(** ** ProcFsSystemMetricsProvider.cpp *)

Definition metrics_error (message : str) (number : Z) : Error :=
  mkError IoError (message ++ system_message number) number $"procfs-metrics" $"sample".

Definition readRootFile (name : str) : prog osE (Result str) :=
  input <- trigger (ReadFile [root; name]) ;;
  Ret (match input with
       | OpenFailed number =>
           Failure (metrics_error ($"Unable to read " ++ root ++ $"/" ++ name ++ $": ")
                      (errno_or_EIO number))
       | Contents contents _ _ => Success contents
       end).

Definition HOST_NAME_MAX : nat := 64.

(** A C string: the bytes before the first NUL, at most [HOST_NAME_MAX]. *)
Definition c_string (bytes : str) : str := take_while (fun c => negb (is_char NUL c)) bytes.

(** [None]: the conversion of the uptime is undefined ([parseUptime]). *)
Definition system_sample : prog osE (option (Result SystemMetricsSample)) :=
  stat <- readRootFile $"stat" ;;
  memory <- readRootFile $"meminfo" ;;
  uptime <- readRootFile $"uptime" ;;
  match stat, memory, uptime with
  | Failure error, _, _ | _, Failure error, _ | _, _, Failure error => Ret (Some (Failure error))
  | Success stat, Success memory, Success uptime =>
      match parseCpuTimes stat, parseMemoryInfo memory, parseUptime uptime with
      | _, _, None => Ret None
      | Failure error, _, _ | _, Failure error, _ | _, _, Some (Failure error) =>
          Ret (Some (Failure error))
      | Success cpu, Success mem, Some (Success up) =>
          hostname <- trigger GetHostName ;;
          match hostname with
          | inl number => Ret (Some (Failure (metrics_error $"Unable to read hostname: " number)))
          | inr bytes =>
              Ret (Some (Success
                (mkSystemMetricsSample cpu (totalBytes mem) (availableBytes mem) up
                   (countLogicalCpus stat) (c_string (take HOST_NAME_MAX bytes)))))
          end
      end
  end.
End Providers.

(** ** The user database *)

Definition passwd_call (uid : Z) (X : Type) (e : osE X) : Prop :=
  match e with
  | Sysconf_GETPW_R_SIZE_MAX => True
  | GetPwUid_r u size => u = uid /\ 0 < size <= passwd_maximum
  | _ => False
  end.

Lemma passwd_loop_calls fuel uid size :
  0 < size -> passwd_maximum < size * 2 ^ (Z.of_nat fuel - 1) ->
  (0 < fuel)%nat -> calls_ok (passwd_call uid) (passwd_loop fuel uid size).
Proof.
  revert size. induction fuel as [|fuel IH]; intros size Hs Hm Hf; [lia|]. cbn [passwd_loop].
  destruct (Z.ltb_spec passwd_maximum size); [done|]. split; [done|].
  intros [status found]. cbn [bind]. destruct (status =? 0); [by destruct found|].
  destruct (negb _); [done|].
  assert (fuel <> O). { intros ->. change (Z.of_nat 1 - 1) with 0 in Hm. lia. }
  apply IH; [lia| |lia]. replace (Z.of_nat (S fuel) - 1) with (Z.of_nat fuel - 1 + 1) in Hm by lia.
  rewrite Z.pow_add_r in Hm by lia. lia.
Qed.

Lemma passwd_loop_trace fuel uid size tr r :
  0 < size -> passwd_maximum < size * 2 ^ (Z.of_nat fuel - 1) -> (0 < fuel)%nat ->
  runs (passwd_loop fuel uid size) tr r ->
  (length tr <= fuel - 1)%nat /\
  forall name, r = Success name -> exists size, Ev (GetPwUid_r uid size) (0, Some name) ∈ tr.
Proof.
  revert size tr. induction fuel as [|fuel IH]; intros size tr Hs Hm Hf; [lia|].
  cbn [passwd_loop]. destruct (Z.ltb_spec passwd_maximum size); [by intros [-> ->]; split; [simpl; lia|]|].
  intros (t1 & [status found] & t2 & -> & ->%runs_trigger & H')%runs_bind.
  assert (fuel <> O). { intros ->. change (Z.of_nat 1 - 1) with 0 in Hm. lia. }
  destruct (Z.eqb_spec status 0) as [->|].
  - destruct found as [name|]; destruct H' as [-> ->]; (split; [simpl; lia|]); [|done].
    intros ? [= <-]. exists size. set_solver.
  - destruct (negb _); [destruct H' as [-> ->]; split; [simpl; lia|done]|].
    apply IH in H' as [Hl Hn]; [|lia| |lia].
    + split; [simpl; lia|]. intros name [s Hin]%Hn. exists s. set_solver.
    + replace (Z.of_nat (S fuel) - 1) with (Z.of_nat fuel - 1 + 1) in Hm by lia.
      rewrite Z.pow_add_r in Hm by lia. lia.
Qed.

(** The buffer [nameForUid] starts with, and the fuel of the loop. *)
Lemma passwd_start suggested :
  let size := if 0 <? suggested then suggested else 1024 in
  0 < size /\ passwd_maximum < size * 2 ^ (Z.of_nat passwd_fuel - 1).
Proof.
  cbv zeta. change (Z.of_nat passwd_fuel - 1) with 21. unfold passwd_maximum.
  destruct (Z.ltb_spec 0 suggested); lia.
Qed.

(** ** Reading a process *)

Section Facts.
Context {messages : Messages}.
Context (root : str).

Lemma runs_readFile pid name tr r :
  runs (readFile root pid name) tr r ->
  exists a, tr = [Ev (ReadFile (pathFor root pid name)) a] /\
    match r with
    | Success text => exists n, a = Contents text false n
    | Failure error => err_operation error = $"read " ++ name
    end.
Proof.
  intros (t1 & a & t2 & -> & ->%runs_trigger & [-> ->])%runs_bind.
  exists a. split; [done|]. destruct a as [n|c [] n]; [done|done|eauto].
Qed.

Lemma runs_readLink pid name tr r :
  runs (readLink root pid name) tr r ->
  exists a, tr = [Ev (ReadLink (pathFor root pid name)) a] /\
    match r with
    | Success target => a = inr target
    | Failure error => err_operation error = $"readlink " ++ name
    end.
Proof.
  intros (t1 & a & t2 & -> & ->%runs_trigger & [-> ->])%runs_bind.
  exists a. split; [done|]. by destruct a.
Qed.

(** A failure of the user database names it as its component. *)
Definition passwd_failure (r : Result str) : Prop :=
  match r with
  | Success _ => True
  | Failure error => err_operation error = $"resolve uid"
  end.
Lemma passwd_loop_failure fuel uid size tr r :
  runs (passwd_loop fuel uid size) tr r -> passwd_failure r.
Proof.
  revert size tr. induction fuel as [|fuel IH]; intros size tr; cbn [passwd_loop].
  - by intros ?%runs_forever.
  - destruct (passwd_maximum <? size); [by intros [-> ->]|].
    intros (t1 & [status found] & t2 & -> & _ & H)%runs_bind.
    destruct (status =? 0); [destruct found; by destruct H as [-> ->]|].
    destruct (negb _); [by destruct H as [-> ->]|eauto].
Qed.
Lemma nameForUid_failure uid tr r : runs (nameForUid uid) tr r -> passwd_failure r.
Proof. intros (t1 & s & t2 & -> & _ & H)%runs_bind. by eapply passwd_loop_failure. Qed.

(** The reads a failed [get] made. *)
Definition mandatory_read (pid : Z) (ev : event osE) : Prop :=
  match ev with
  | Ev e _ =>
      match e with
      | ReadFile path => path = pathFor root pid $"stat" \/ path = pathFor root pid $"status"
      | _ => False
      end
  end.

(** What a run of [get] is made of. *)
Definition got (pid : Z) (tr : trace osE) (o : Observation ProcessInfo) : Prop :=
  exists statText n1 statusText n2 stat status user cmdline exe cwd rest,
    tr = Ev (ReadFile (pathFor root pid $"stat")) (Contents statText false n1) ::
         Ev (ReadFile (pathFor root pid $"status")) (Contents statusText false n2) :: rest /\
    parseStat statText = Success stat /\ st_pid stat = pid /\
    parseStatus statusText = Success status /\
    passwd_failure user /\
    (forall error, cmdline = Failure error -> err_operation error = $"read cmdline") /\
    (forall error, exe = Failure error -> err_operation error = $"readlink exe") /\
    (forall error, cwd = Failure error -> err_operation error = $"readlink cwd") /\
    o = Observed
      (mkProcessInfo pid (st_ppid stat) (st_name stat) (stateName (st_state stat))
         (su_uid status) (su_gid status)
         (match user with Success name => name | Failure _ => to_string (su_uid status) end)
         (value_of exe) (value_of cwd)
         (match cmdline with Success text => parseCmdline text | Failure _ => [] end)
         (su_rssBytes status) (su_threads status) None None)
      (warning_of user ++ warning_of cmdline ++ warning_of exe ++ warning_of cwd).

Lemma runs_get pid tr r :
  runs (get root pid) tr r ->
  match r with
  | Failure _ => Forall (mandatory_read pid) tr
  | Success o => got pid tr o
  end.
Proof.
  unfold get. intros [(error & H & ->)|(t1 & statText & t2 & -> & H1 & H)]%runs_bindR.
  { apply runs_readFile in H as (a & -> & _). constructor; [by left|constructor]. }
  apply runs_readFile in H1 as (a1 & -> & n1 & ->).
  assert (Hs : mandatory_read pid
    (Ev (ReadFile (pathFor root pid $"stat")) (Contents statText false n1))) by (by left).
  destruct (parseStat statText) as [stat|] eqn:Es; [|destruct H as [-> ->]; by repeat constructor].
  destruct (negb (st_pid stat =? pid)) eqn:Ep; [destruct H as [-> ->]; by repeat constructor|].
  apply runs_bindR in H as [(error & H & ->)|(t3 & statusText & t4 & -> & H2 & H)].
  { apply runs_readFile in H as (a & -> & _). constructor; [done|].
    constructor; [by right|constructor]. }
  apply runs_readFile in H2 as (a2 & -> & n2 & ->).
  destruct (parseStatus statusText) as [status|] eqn:Eu; [|destruct H as [-> ->];
    constructor; [done|]; constructor; [by right|constructor]].
  apply runs_bind in H as (u1 & user & u2 & -> & Hu%nameForUid_failure & H).
  apply runs_bind in H as (u3 & cmdline & u4 & -> & Hc & H).
  apply runs_bind in H as (u5 & exe & u6 & -> & He & H).
  apply runs_bind in H as (u7 & cwd & u8 & -> & Hw & [-> ->]).
  apply runs_readFile in Hc as (ac & _ & Hc). apply runs_readLink in He as (ae & _ & He).
  apply runs_readLink in Hw as (aw & _ & Hw).
  exists statText, n1, statusText, n2, stat, status, user, cmdline, exe, cwd, (u1 ++ u3 ++ u5 ++ u7 ++ []).
  bool_facts. split_and!; try done; by intros ? ->.
Qed.

(** ** Enumerating processes *)

Definition codes_of (out : Result (Observation ProcessInfo)) : list ErrorCode :=
  match out with
  | Failure error => [err_code error]
  | Success o => map warn_code (obs_warnings o)
  end.
Definition all_codes (outs : list (Result (Observation ProcessInfo))) : list ErrorCode :=
  concat (map codes_of outs).
Definition successes (outs : list (Result (Observation ProcessInfo))) : list ProcessInfo :=
  omap (fun out => obs_value <$> value_of out) outs.

Definition code_class (code : ErrorCode) : ErrorCode :=
  match code with PermissionDenied => PermissionDenied | NotFound => NotFound | _ => IoError end.
Definition count_class (class : ErrorCode) (codes : list ErrorCode) : Z :=
  Z.of_nat (length (List.filter (fun c => bool_decide (code_class c = class)) codes)).

Lemma count_class_app class a b : count_class class (a ++ b) = count_class class a + count_class class b.
Proof. unfold count_class. rewrite List.filter_app, length_app. lia. Qed.

Lemma count_class_zero class codes :
  count_class class codes = 0 <-> forall c, c ∈ codes -> code_class c <> class.
Proof.
  unfold count_class. induction codes as [|c codes IH]; simpl; [set_solver|].
  case_bool_decide; simpl; [|set_solver].
  split; [lia|]. intros Hc. by destruct (Hc c); [set_solver|].
Qed.

(** The counters count the codes. *)
Definition counts (s : list_state) (codes : list ErrorCode) : Prop :=
  permissionWarnings s = count_class PermissionDenied codes /\
  disappearedWarnings s = count_class NotFound codes /\
  detailWarnings s = count_class IoError codes.

Lemma countWarning_counts s codes code :
  counts s codes -> counts (countWarning s code) (codes ++ [code]) /\
  observed (countWarning s code) = observed s.
Proof.
  intros (H1 & H2 & H3). unfold counts. rewrite !count_class_app.
  destruct code; unfold count_class at 2 4 6; simpl; rewrite H1, H2, H3; (split; [|done]); lia.
Qed.

Lemma countWarnings_counts s codes (ws : list Warning) :
  counts s codes ->
  counts (foldl (fun s w => countWarning s (warn_code w)) s ws) (codes ++ map warn_code ws) /\
  observed (foldl (fun s w => countWarning s (warn_code w)) s ws) = observed s.
Proof.
  revert s codes. induction ws as [|w ws IH]; intros s codes H; simpl; [by rewrite app_nil_r|].
  destruct (countWarning_counts s codes (warn_code w) H) as [H' Hobs].
  destruct (IH _ _ H') as [H1 ->]. rewrite <- app_assoc in H1. done.
Qed.

(** The loop of [list]: every process is asked for once, in order. *)
Definition listed (ids : list Z) (tr : trace osE) (s : list_state) : Prop :=
  exists outs, Forall2 (fun pid out => exists tr', runs (get root pid) tr' out) ids outs /\
    observed s = successes outs /\ counts s (all_codes outs).

Lemma list_loop_listed ids tr s :
  runs (for_each (list_step root) ids (mkListState [] 0 0 0)) tr s -> listed ids tr s.
Proof.
  apply (for_each_ind (list_step root) listed).
  - exists []. split_and!; [constructor|done..].
  - clear. intros ids tr s pid tr' s' (outs & H1 & H2 & H3) Hr.
    apply runs_bind in Hr as (t1 & out & t2 & -> & Hget & [-> ->]).
    exists (outs ++ [out]). split; [apply Forall2_app; [done|]; repeat constructor; by exists t1|].
    unfold successes, all_codes in *. rewrite omap_app, map_app, concat_app. simpl. rewrite app_nil_r.
    destruct out as [p|error]; simpl.
    + set (s1 := mkListState _ _ _ _). assert (H3' : counts s1 (concat (map codes_of outs))) by done.
      destruct (countWarnings_counts s1 _ (obs_warnings p) H3') as [Hc Ho]. rewrite Ho. simpl.
      rewrite H2. done.
    + destruct (countWarning_counts s _ (err_code error) H3) as [Hc Ho]. rewrite Ho, H2.
      by rewrite app_nil_r.
Qed.

Lemma elem_of_list_warning code n text w :
  w ∈ list_warning code n text <->
  n <> 0 /\ w = mkWarning code (to_string n ++ text) 0 $"procfs-process-provider" $"list".
Proof. unfold list_warning. destruct (Z.eqb_spec n 0); simpl; set_solver. Qed.

Lemma list_warnings_spec codes text1 text2 text3 :
  let ws := list_warning PermissionDenied (count_class PermissionDenied codes) text1 ++
            list_warning NotFound (count_class NotFound codes) text2 ++
            list_warning IoError (count_class IoError codes) text3 in
  (forall class, class ∈ [PermissionDenied; NotFound; IoError] ->
    (exists w, w ∈ ws /\ warn_code w = class) <-> count_class class codes <> 0) /\
  (ws = [] <-> codes = []).
Proof.
  cbv zeta. set (ws := _ ++ _).
  assert (Hin : forall w, w ∈ ws <->
    (count_class PermissionDenied codes <> 0 /\ w = mkWarning PermissionDenied
      (to_string (count_class PermissionDenied codes) ++ text1) 0 $"procfs-process-provider" $"list") \/
    (count_class NotFound codes <> 0 /\ w = mkWarning NotFound
      (to_string (count_class NotFound codes) ++ text2) 0 $"procfs-process-provider" $"list") \/
    (count_class IoError codes <> 0 /\ w = mkWarning IoError
      (to_string (count_class IoError codes) ++ text3) 0 $"procfs-process-provider" $"list")).
  { intros w. unfold ws. by rewrite !elem_of_app, !elem_of_list_warning. }
  clearbody ws.
  assert (Hclass : forall class, class ∈ [PermissionDenied; NotFound; IoError] ->
    (exists w, w ∈ ws /\ warn_code w = class) <-> count_class class codes <> 0).
  { intros class Hc. split.
    + intros (w & [[H ->]|[[H ->]|[H ->]]]%Hin & <-); done.
    + intros H. repeat apply elem_of_cons in Hc as [->|Hc]; [..|by apply elem_of_nil in Hc];
        eexists; (split; [apply Hin|]); eauto. }
  split; [done|]. split.
  - intros ->. destruct codes as [|c codes]; [done|exfalso].
    assert (Hc : code_class c ∈ [PermissionDenied; NotFound; IoError]) by (destruct c; set_solver).
    assert (Hz : count_class (code_class c) (c :: codes) = 0).
    { destruct (Z.eq_dec (count_class (code_class c) (c :: codes)) 0) as [|H]; [done|].
      apply Hclass in H as (w & H & _); [set_solver|done]. }
    rewrite count_class_zero in Hz. by apply (Hz c); [set_solver|].
  - intros ->. destruct ws as [|w ws]; [done|]. exfalso.
    destruct (proj1 (Hin w)) as [[H _]|[[H _]|[H _]]]; [set_solver|by vm_compute in H..].
Qed.
End Facts.

(** ** Process identifiers and CPU samples *)

Section Enumeration.
Context {messages : Messages}.
Context (root : str).

Lemma entry_pid_Some name pid :
  entry_pid name = Some pid <-> is_decimal name /\ dec_value name = pid /\ 1 <= pid <= PID_MAX.
Proof.
  unfold entry_pid. destruct (parsed_whole (from_chars_unsigned UINT64_MAX name 0) name) eqn:E.
  - rewrite from_chars_unsigned_value by done. apply from_chars_unsigned_whole in E as [Hd Hm].
    pose proof (dec_value_nonneg name (proj2 Hd)). cbn [negb orb].
    destruct (Z.eqb_spec (dec_value name) 0), (Z.ltb_spec PID_MAX (dec_value name)); cbn [orb];
      (split; [intros [=]|intros (_ & <- & H')]; try lia; try done).
    split_and!; [done|done|lia|lia].
  - cbn [negb orb]. split; [done|]. intros (Hd & <- & H1 & H2).
    assert (PID_MAX <= UINT64_MAX) by done.
    assert (E' : parsed_whole (from_chars_unsigned UINT64_MAX name 0) name = true)
      by (apply from_chars_unsigned_whole; split; [done|lia]).
    congruence.
Qed.

Lemma runs_processIds tr r :
  runs (processIds root) tr r ->
  (exists n, tr = [Ev (OpenDirectory [root]) (DirectoryFailed n)] /\
     r = Failure (makeError n $"enumerate processes")) \/
  (exists names, tr = [Ev (OpenDirectory [root]) (Entries names None)] /\
     r = Success (sort (omap entry_pid names))).
Proof.
  intros (t1 & a & t2 & -> & ->%runs_trigger & H)%runs_bind.
  destruct a as [n|names [n|]].
  - destruct H as [-> ->]. left. eauto.
  - by apply runs_uncaught in H.
  - destruct H as [-> ->]. right. eauto.
Qed.

(** The samples of the loop are those of a subsequence of the identifiers. *)
Lemma sample_loop_pids ids tr samples :
  runs (for_each (sample_step root) ids []) tr samples -> sublist (map pcs_pid samples) ids.
Proof.
  apply (for_each_ind (sample_step root) (fun ids _ s => sublist (map pcs_pid s) ids)).
  - constructor.
  - clear. intros ids tr s pid tr' s' H Hr.
    apply runs_bind in Hr as (t1 & text & t2 & -> & _ & [-> ->]).
    assert (Hs : sublist (map pcs_pid s) (ids ++ [pid])) by (by apply sublist_inserts_r).
    destruct text as [text|]; [|done]. destruct (parseProcessCpuStat text) as [p|]; [|done].
    destruct (Z.eqb_spec (pcs_pid p) pid); [|done]. rewrite map_app. simpl. subst.
    by apply sublist_app.
Qed.
End Enumeration.

(** ** Which details are missing *)

Definition reported (ws : list Warning) (operation : str) : Prop :=
  exists w, w ∈ ws /\ warn_operation w = operation.

Lemma warning_of_reported {A} (r : Result A) operation :
  (forall error, r = Failure error -> err_operation error = operation) ->
  (forall other, reported (warning_of r) other <-> value_of r = None /\ other = operation).
Proof.
  intros H other. unfold reported. destruct r as [a|error]; simpl.
  - split; [intros (w & Hw & _); set_solver|by intros [? _]].
  - split.
    + intros (w & ->%list_elem_of_singleton & <-). split; [done|]. by apply H.
    + intros [_ ->]. exists (warningFrom error). split; [set_solver|]. by apply H.
Qed.

Lemma reported_app ws1 ws2 operation :
  reported (ws1 ++ ws2) operation <-> reported ws1 operation \/ reported ws2 operation.
Proof.
  unfold reported. setoid_rewrite elem_of_app. split.
  - intros (w & [H|H] & E); [left|right]; by exists w.
  - intros [(w & H & E)|(w & H & E)]; exists w; auto.
Qed.

(** The warnings of [get] name exactly the details that could not be read. *)
Lemma got_reported user cmdline exe cwd :
  passwd_failure user ->
  (forall error, cmdline = Failure error -> err_operation error = $"read cmdline") ->
  (forall error, exe = Failure error -> err_operation error = $"readlink exe") ->
  (forall error, cwd = Failure error -> err_operation error = $"readlink cwd") ->
  let ws := warning_of user ++ @warning_of str cmdline ++ @warning_of str exe ++ @warning_of str cwd in
  (reported ws $"resolve uid" <-> value_of user = None) /\
  (reported ws $"read cmdline" <-> value_of cmdline = None) /\
  (reported ws $"readlink exe" <-> value_of exe = None) /\
  (reported ws $"readlink cwd" <-> value_of cwd = None).
Proof.
  intros Hu Hc He Hw. cbv zeta. rewrite !reported_app.
  assert (Hu' : forall error, user = Failure error -> err_operation error = $"resolve uid")
    by (intros error ->; exact Hu).
  rewrite !(warning_of_reported user _ Hu'), !(warning_of_reported cmdline _ Hc),
    !(warning_of_reported exe _ He), !(warning_of_reported cwd _ Hw).
  split_and!; (split; [|by auto]);
    intros [[H E]|[[H E]|[[H E]|[H E]]]]; try done; exfalso; revert E; by vm_compute.
Qed.

(** ** Properties *)

(** [ProcFsProcessProvider::get] hides nothing and invents nothing: it fails
only after reading the stat and status files of the PID; when it succeeds, the
identity, parent, user and group identifiers, memory and threads are those of
files whose own PID is the one asked for, and the user name, the command line, the
executable and the working directory are replaced by their default exactly when a
warning names the operation that failed. *)
Theorem get_reports_every_gap (messages : Messages) root pid tr r :
  runs (get root pid) tr r ->
  match r with
  | Failure _ => Forall (mandatory_read root pid) tr
  | Success o =>
      let p := obs_value o in
      let missing := reported (obs_warnings o) in
      (exists statText n1 statusText n2 rest stat status,
        tr = Ev (ReadFile (pathFor root pid $"stat")) (Contents statText false n1) ::
             Ev (ReadFile (pathFor root pid $"status")) (Contents statusText false n2) :: rest /\
        parseStat statText = Success stat /\ st_pid stat = pid /\ pi_pid p = pid /\
        pi_name p = st_name stat /\ pi_ppid p = st_ppid stat /\
        parseStatus statusText = Success status /\
        pi_uid p = su_uid status /\ pi_gid p = su_gid status /\
        pi_rssBytes p = su_rssBytes status /\ pi_threads p = su_threads status) /\
      (pi_executable p = None <-> missing $"readlink exe") /\
      (pi_cwd p = None <-> missing $"readlink cwd") /\
      (missing $"resolve uid" -> pi_user p = to_string (pi_uid p)) /\
      (missing $"read cmdline" -> pi_argv p = []) /\
      (length (obs_warnings o) <= 4)%nat
  end.
Proof.
  intros H%runs_get. destruct r as [o|error]; [|done].
  destruct H as (statText & n1 & statusText & n2 & stat & status & user & cmdline & exe & cwd &
    rest & -> & H1 & H2 & H3 & Hu & Hc & He & Hw & ->).
  destruct (got_reported user cmdline exe cwd Hu Hc He Hw) as (Mu & Mc & Me & Mw).
  cbv zeta. cbn [obs_value obs_warnings pi_pid pi_name pi_ppid pi_uid pi_gid pi_rssBytes
    pi_threads pi_argv pi_executable pi_cwd pi_user]. rewrite Mu, Mc, Me, Mw.
  split_and!; try done.
  - by exists statText, n1, statusText, n2, rest, stat, status.
  - by destruct user.
  - by destruct cmdline.
  - rewrite !length_app. destruct user, cmdline, exe, cwd; simpl; lia.
Qed.

(** A system with one process, whose executable may not be read. *)
Definition example_system : os_machine :=
  let stat := stat_line 42 $"x) R" "S"%char 7
    (map to_string [7; 7; 34; 7; 0; 0; 0; 0; 0; 150; 50; 0; 0; 20; 0; 1; 0; 900]) in
  let status := status_text [($"Uid", [TAB] ++ $"1000"); ($"Gid", [TAB] ++ $"100"); ($"Threads", $" 3")] in
  mkOsMachine
    [([$"/proc"; $"42"; $"stat"], Contents stat false 0);
     ([$"/proc"; $"42"; $"status"], Contents status false 0);
     ([$"/proc"; $"42"; $"cmdline"], Contents (terminated [$"x"; $"-v"]) false 0)]
    [([$"/proc"; $"42"; $"cwd"], inr $"/home/alice")]
    [([$"/proc"], Entries [$"self"; $"42"; $"7"; $"sys"] None)]
    [(1000, $"alice")] [].

Lemma get_reports_every_gap_witness :
  exists tr p ws,
    os_run (@get plain_messages $"/proc" 42) example_system = Some (Success (Observed p ws), tr) /\
    pi_name p = $"x) R" /\ pi_user p = $"alice" /\ pi_argv p = [$"x"; $"-v"] /\
    reported ws $"readlink exe" /\ pi_executable p = None.
Proof.
  destruct (os_run (@get plain_messages $"/proc" 42) example_system) as [[[[p ws]|error] tr]|] eqn:E;
    [|vm_compute in E; congruence..].
  exists tr, p, ws. split; [done|].
  pose proof (get_reports_every_gap plain_messages $"/proc" 42 tr _ (os_run_runs _ _ _ _ E))
    as (_ & He & _).
  vm_compute in E. injection E as <- <- _. split_and!; try done. by apply He.
Defined.

(** Enumerating processes degrades, it does not fail: [list] fails exactly
when the directory cannot be opened; otherwise it asks for every PID the directory
names, once, in increasing order, and returns those that could be read; the
warnings tell, with the right count, whether some detail was refused, had
disappeared or was unavailable, and there is none when nothing is missing.  The
CPU samples, too, belong to PIDs of the directory, in order. *)
Theorem list_degrades (messages : Messages) root tr r :
  runs (list_ root) tr r ->
  match r with
  | Failure error => exists n, tr = [Ev (OpenDirectory [root]) (DirectoryFailed n)]
  | Success o =>
      exists names tr' outs,
        tr = Ev (OpenDirectory [root]) (Entries names None) :: tr' /\
        let ids := sort (omap entry_pid names) in
        Forall2 (fun pid out => exists tr', runs (get root pid) tr' out) ids outs /\
        obs_value o = successes outs /\
        (forall class, class ∈ [PermissionDenied; NotFound; IoError] ->
          (exists w, w ∈ obs_warnings o /\ warn_code w = class) <->
          count_class class (all_codes outs) <> 0) /\
        (obs_warnings o = [] <-> all_codes outs = [])
  end /\
  forall tr' samples, runs (sample root) tr' (Success samples) ->
    exists names, Ev (OpenDirectory [root]) (Entries names None) ∈ tr' /\
      sublist (map pcs_pid samples) (sort (omap entry_pid names)).
Proof.
  intros H. split.
  - apply runs_bindR in H as [(error & H & ->)|(t1 & ids & t2 & -> & H1 & H2)].
    { apply runs_processIds in H as [(n & -> & _)|(names & _ & ?)]; [eauto|done]. }
    apply runs_processIds in H1 as [(n & _ & ?)|(names & -> & [= ->])]; [done|].
    apply runs_bind in H2 as (t3 & s & t4 & -> & H2 & [-> ->]).
    apply list_loop_listed in H2 as (outs & Hf & Ho & H1 & H2 & H3).
    exists names, (t3 ++ []), outs. split; [done|]. cbn [obs_value obs_warnings].
    rewrite H1, H2, H3. split; [done|]. split; [done|].
    apply list_warnings_spec.
  - intros tr' samples [(error & _ & ?)|(t1 & ids & t2 & -> & H1 & H2)]%runs_bindR; [done|].
    apply runs_processIds in H1 as [(n & _ & ?)|(names & -> & [= ->])]; [done|].
    apply runs_bind in H2 as (t3 & s & t4 & -> & H2 & [-> [= ->]]).
    exists names. split; [set_solver|]. by eapply sample_loop_pids.
Qed.

(** The PID 7 of the directory has no files any more. *)
Lemma list_degrades_witness :
  exists tr ps ws,
    os_run (@list_ plain_messages $"/proc") example_system = Some (Success (Observed ps ws), tr) /\
    map pi_pid ps = [42] /\ (exists w, w ∈ ws /\ warn_code w = NotFound) /\ length ws = 2%nat.
Proof.
  destruct (os_run (@list_ plain_messages $"/proc") example_system) as [[[[ps ws]|error] tr]|] eqn:E;
    [|vm_compute in E; congruence..].
  exists tr, ps, ws. split; [done|].
  destruct (list_degrades plain_messages $"/proc" tr _ (os_run_runs _ _ _ _ E))
    as [(names & tr' & outs & _ & _ & _ & Hw & _) _].
  split; [vm_compute in E; by injection E as <- _ _|].
  split; [|vm_compute in E; by injection E as _ <- _].
  assert (E' := E). vm_compute in E. injection E as _ <- _.
  eexists. split; [apply elem_of_cons; right; apply elem_of_cons; by left|done].
Defined.

(** Looking up a user name ends: whatever the user database answers, at most
twenty-two calls are made, each with a positive buffer of at most one mebibyte,
and every run returns the name the database gave, or an error. *)
Theorem nameForUid_bounded uid :
  calls_ok (passwd_call uid) (nameForUid uid) /\
  forall tr r, runs (nameForUid uid) tr r ->
    (length tr <= 22)%nat /\
    match r with
    | Success name => exists size, Ev (GetPwUid_r uid size) (0, Some name) ∈ tr
    | Failure error => err_operation error = $"resolve uid"
    end.
Proof.
  split.
  - split; [done|]. intros suggested. cbn [bind].
    destruct (passwd_start suggested). apply passwd_loop_calls; [done..|unfold passwd_fuel; lia].
  - intros tr r (t1 & s & t2 & -> & ->%runs_trigger & H)%runs_bind.
    pose proof (passwd_loop_failure _ _ _ _ _ H) as Hf. destruct (passwd_start s) as [H1 H2].
    apply passwd_loop_trace in H as [Hl Hn]; [|done|done|unfold passwd_fuel; lia].
    split; [simpl in *; unfold passwd_fuel in Hl; lia|].
    destruct r as [name|error]; [|done]. destruct (Hn name eq_refl) as [size Hin].
    exists size. set_solver.
Qed.

(** A system sample is well formed whatever the files contain: the idle
time is at most the total, the available memory at most the total, both in 64
bits, there is at least one processor, and the host name is a C string of at most
64 bytes; a file that cannot be read or parsed makes the sample fail. *)
Theorem system_sample_wellformed (messages : Messages) root tr r :
  runs (system_sample root) tr (Some (Success r)) ->
  0 <= idleTicks (sms_cpu r) <= totalTicks (sms_cpu r) /\
  0 <= sms_memoryAvailableBytes r <= sms_memoryTotalBytes r /\
  sms_memoryTotalBytes r <= UINT64_MAX /\
  1 <= sms_logicalCpuCount r < 2 ^ 32 /\
  (length (sms_hostname r) <= 64)%nat /\ NUL ∉ sms_hostname r /\
  Forall (fun ev => match ev with
    | Ev e a => match e in osE X return X -> Prop with
                | ReadFile _ => fun a => match a with OpenFailed _ => False | _ => True end
                | _ => fun _ => True end a end) tr.
Proof.
  unfold system_sample, readRootFile. intros H.
  apply runs_bind in H as (? & stat & ? & -> & (? & a1 & ? & -> & ->%runs_trigger & [-> ->])%runs_bind & H).
  apply runs_bind in H as (? & mem & ? & -> & (? & a2 & ? & -> & ->%runs_trigger & [-> ->])%runs_bind & H).
  apply runs_bind in H as (? & up & ? & -> & (? & a3 & ? & -> & ->%runs_trigger & [-> ->])%runs_bind & H).
  destruct a1 as [|stat b1 n1], a2 as [|mem b2 n2], a3 as [|up b3 n3]; try by destruct H.
  destruct (parseCpuTimes stat) as [cpu|] eqn:E1, (parseMemoryInfo mem) as [m|] eqn:E2,
    (parseUptime up) as [[u|]|]; try by destruct H.
  apply runs_bind in H as (? & host & ? & -> & ->%runs_trigger & H).
  destruct host as [|bytes]; destruct H as [-> [= ->]]. simpl.
  apply parseCpuTimes_idle in E1. apply parseMemoryInfo_range in E2 as [? ?].
  pose proof (countLogicalCpus_range stat).
  destruct (take_while_prefix (fun c => negb (is_char NUL c)) (take HOST_NAME_MAX bytes)) as [k Hk].
  split_and!; try done || lia.
  - unfold c_string. apply (f_equal length) in Hk. rewrite length_app, length_take in Hk.
    unfold HOST_NAME_MAX in *. lia.
  - intros Hin. apply take_while_sat in Hin. by rewrite (proj2 (is_char_true NUL NUL)) in Hin.
  - repeat constructor.
Qed.

Definition example_metrics : os_machine :=
  mkOsMachine
    [([$"/proc"; $"stat"], Contents ($"cpu  10 0 5 80 5 0 0 0 0 0" ++ [LF] ++ $"cpu0 10 0 5 80 5" ++ [LF]) false 0);
     ([$"/proc"; $"meminfo"], Contents ($"MemTotal: 2048 kB" ++ [LF] ++ $"MemAvailable: 1024 kB" ++ [LF]) false 0);
     ([$"/proc"; $"uptime"], Contents $"100.50 80.00" false 0)] [] [] [] [].

Lemma system_sample_wellformed_witness :
  exists tr r, os_run (@system_sample plain_messages $"/proc") example_metrics = Some (Some (Success r), tr) /\
    sms_cpu r = mkCpuTimes 100 85 /\ sms_memoryTotalBytes r = 2097152 /\ sms_uptime r = 100500 /\
    sms_hostname r = $"host" /\ 0 <= idleTicks (sms_cpu r) <= totalTicks (sms_cpu r).
Proof.
  destruct (os_run (@system_sample plain_messages $"/proc") example_metrics) as [[[[r|]|] tr]|] eqn:E;
    [|vm_compute in E; congruence..].
  exists tr, r. split; [done|].
  destruct (system_sample_wellformed plain_messages $"/proc" tr r (os_run_runs _ _ _ _ E)) as (Hi & _).
  vm_compute in E. injection E as <- _. done.
Defined.
