(* ===== verification/SocketInodeResolver.v ===== *)
(** * Owners of sockets ([src/linux/procfs/SocketInodeResolver.cpp])

The resolver walks [/proc/*/fd], reads every link and records, for each inode
asked for, the processes that hold it.  The theorem says that the answer is
exactly what the links said: no owner is invented, none is lost, whatever entry
disappears or is refused in between. *)

From S2P Require Import Prelude CppStd CppString Prog Domain Contracts ProcfsParsers OsCalls.
From Stdlib Require Import Ascii.

Section Resolver.
Context {messages : Messages}.
(** The directory of procfs, [root_]. *)
Context (root : str).

Definition disappeared (error : Z) : bool := (error =? ENOENT) || (error =? ESRCH).
Definition denied (error : Z) : bool := (error =? EACCES) || (error =? EPERM).

Definition errorCode (error : Z) : ErrorCode :=
  if denied error then PermissionDenied
  else if disappeared error then NotFound else IoError.

Definition makeError (error : Z) (operation : str) : Error :=
  mkError (errorCode error)
    ($"Unable to " ++ operation ++ $": " ++ system_message error)
    error $"socket-inode-resolver" operation.

Definition parsePid (name : str) : option Z :=
  let parsed := from_chars_unsigned UINT64_MAX name 0 in
  if bool_decide (name = []) || negb (parsed_whole parsed name) ||
     (fc_value parsed =? 0) || (PID_MAX <? fc_value parsed)
  then None else Some (fc_value parsed).

(** The local variables of [resolve]. *)
Record resolver_state := mkResolverState {
  ownership : SocketOwnership; deniedCount : Z; unreadableCount : Z }.

(** [if (denied(error)) ++deniedCount; else if (!disappeared(error)) ++unreadableCount;] *)
Definition count_error (s : resolver_state) (error : Z) : resolver_state :=
  if denied error then mkResolverState (ownership s) (deniedCount s + 1) (unreadableCount s)
  else if negb (disappeared error) then
    mkResolverState (ownership s) (deniedCount s) (unreadableCount s + 1)
  else s.

(** [ownership[inode].push_back(pid)] *)
Definition push_owner (inode pid : Z) (s : resolver_state) : resolver_state :=
  mkResolverState
    (<[inode := default [] (ownership s !! inode) ++ [pid]]> (ownership s))
    (deniedCount s) (unreadableCount s).

(** One link of the descriptor directory of a process. *)
Definition descriptor_step (targets : gset Z) (process : str) (pid : Z)
    (s : resolver_state) (descriptor : str) : prog osE resolver_state :=
  target <- trigger (ReadLink [root; process; $"fd"; descriptor]) ;;
  Ret (match target with
       | inl error => count_error s error
       | inr target =>
           match parseSocketFdTarget target with
           | Success (Some inode) =>
               if bool_decide (inode ∈ targets) then push_owner inode pid s else s
           | _ => s
           end
       end).

(** The increment of an iterator fails when it is advanced past the last entry
it can give: the failure is counted before that entry is examined. *)
Definition split_last {A} (l : list A) : option (list A * A) :=
  match last l with None => None | Some x => Some (removelast l, x) end.

Definition iterate (body : resolver_state -> str -> prog osE resolver_state)
    (names : list str) (stopped : option Z) (s : resolver_state) : prog osE resolver_state :=
  match stopped, split_last names with
  | Some error, Some (names, final) =>
      s <- for_each body names s ;;
      body (count_error s error) final
  | _, _ => for_each body names s
  end.

Definition process_step (targets : gset Z) (s : resolver_state) (process : str) :
  prog osE resolver_state :=
  match parsePid process with
  | None => Ret s
  | Some pid =>
      descriptors <- trigger (OpenDirectory [root; process; $"fd"]) ;;
      match descriptors with
      | DirectoryFailed error => Ret (count_error s error)
      | Entries names stopped => iterate (descriptor_step targets process pid) names stopped s
      end
  end.

Definition resolver_warning (code : ErrorCode) (count : Z) (text : str) : list Warning :=
  if negb (count =? 0) then
    [mkWarning code (to_string count ++ text) 0 $"socket-inode-resolver" $"resolve"]
  else [].

Definition targets_of (inodes : list Z) : gset Z :=
  list_to_set (List.filter (fun inode => negb (inode =? 0)) inodes).

Definition resolve (inodes : list Z) : prog osE (Result (Observation SocketOwnership)) :=
  let targets := targets_of inodes in
  if bool_decide (targets = ∅) then Ret (Success (Observed ∅ []))
  else
    processes <- trigger (OpenDirectory [root]) ;;
    match processes with
    | DirectoryFailed error => Ret (Failure (makeError error $"enumerate procfs root"))
    | Entries names stopped =>
        s <- iterate (process_step targets) names stopped (mkResolverState ∅ 0 0) ;;
        Ret (Success (Observed (sort_unique <$> ownership s)
          (resolver_warning PermissionDenied (deniedCount s)
             $" procfs entries could not be inspected because of permissions" ++
           resolver_warning IoError (unreadableCount s)
             $" procfs entries could not be inspected")))
    end.

(** ** What the links of a run say *)

(** The event says that [pid] holds [inode]. *)
Definition holds (pid inode : Z) (ev : event osE) : Prop :=
  match ev with
  | Ev e a =>
      match e in osE X return X -> Prop with
      | ReadLink path => fun a =>
          exists process descriptor target,
            path = [root; process; $"fd"; descriptor] /\ parsePid process = Some pid /\
            a = inr target /\ parseSocketFdTarget target = Success (Some inode)
      | _ => fun _ => False
      end a
  end.

(** The error an event reports, if any. *)
Definition event_error (ev : event osE) : list Z :=
  match ev with
  | Ev e a =>
      match e in osE X return X -> list Z with
      | ReadLink _ => fun a => match a with inl error => [error] | inr _ => [] end
      | OpenDirectory _ => fun a =>
          match a with
          | DirectoryFailed error => [error]
          | Entries [] _ => []
          | Entries _ stopped => option_list stopped
          end
      | _ => fun _ => []
      end a
  end.
Definition errors (tr : trace osE) : list Z := concat (map event_error tr).

Definition count_if (p : Z -> bool) (l : list Z) : Z := Z.of_nat (length (List.filter p l)).

(** The state agrees with the events so far, [pre] being errors already counted
of which the event is yet to come or has come. *)
Definition agrees (targets : gset Z) (tr : trace osE) (errs : list Z) (s : resolver_state) : Prop :=
  (forall inode pid, pid ∈ default [] (ownership s !! inode) <->
     inode ∈ targets /\ exists ev, ev ∈ tr /\ holds pid inode ev) /\
  (forall inode, ownership s !! inode <> Some []) /\
  deniedCount s = count_if denied errs /\
  unreadableCount s = count_if (fun e => negb (denied e) && negb (disappeared e)) errs.

Lemma count_if_snoc p l e : count_if p (l ++ [e]) = count_if p l + (if p e then 1 else 0).
Proof. unfold count_if. rewrite List.filter_app, length_app. simpl. destruct (p e); simpl; lia. Qed.

Lemma count_if_zero p l : count_if p l = 0 <-> forall e, e ∈ l -> p e = false.
Proof.
  unfold count_if. induction l as [|e l IH]; simpl; [set_solver|].
  destruct (p e) eqn:E; simpl; [|rewrite IH; set_solver].
  split; [lia|]. intros H. rewrite H in E by set_solver. done.
Qed.

Lemma resolver_warning_nil code n text : resolver_warning code n text = [] <-> n = 0.
Proof. unfold resolver_warning. by destruct (Z.eqb_spec n 0). Qed.

Lemma count_error_agrees targets tr errs s error :
  agrees targets tr errs s -> agrees targets tr (errs ++ [error]) (count_error s error).
Proof.
  intros (H1 & H2 & H3 & H4). unfold agrees, count_error.
  rewrite !count_if_snoc, <- H3, <- H4.
  destruct (denied error); [simpl; split_and!; try done; lia|].
  destruct (disappeared error); simpl; split_and!; try done; lia.
Qed.

(** An event that says nothing about holders. *)
Lemma silent_agrees targets tr errs s ev :
  (forall pid inode, ~ holds pid inode ev) -> agrees targets tr errs s ->
  agrees targets (tr ++ [ev]) errs s.
Proof.
  intros Hs (H1 & H2 & H3 & H4). split_and!; try done. intros inode pid. rewrite H1.
  setoid_rewrite elem_of_app. split.
  - intros [? (ev' & ? & ?)]. split; [done|]. exists ev'. auto.
  - intros [? (ev' & [?|Hin%list_elem_of_singleton] & Hh)]; [eauto|]. subst. by apply Hs in Hh.
Qed.

Lemma descriptor_step_agrees targets process pid tr errs s name tr' s' :
  parsePid process = Some pid -> agrees targets tr errs s ->
  runs (descriptor_step targets process pid s name) tr' s' ->
  agrees targets (tr ++ tr') (errs ++ errors tr') s'.
Proof.
  intros Hp Ha (t1 & a & t2 & -> & ->%runs_trigger & [-> ->])%runs_bind.
  unfold errors. simpl. rewrite ?app_nil_r. destruct a as [error|target].
  - apply count_error_agrees, silent_agrees; [|done].
    by intros ? ? (? & ? & ? & _ & _ & ? & _).
  - rewrite !app_nil_r. set (ev := Ev _ _).
    assert (Hh : forall q i, holds q i ev <-> q = pid /\ parseSocketFdTarget target = Success (Some i)).
    { intros q i. unfold ev. simpl. split.
      - intros (p' & d & t & [= <- <-] & Hp' & [= <-] & Ht). split; [congruence|done].
      - intros [-> Ht]. by exists process, name, target. }
    destruct Ha as (H1 & H2 & H3 & H4).
    destruct (parseSocketFdTarget target) as [[inode|]|error] eqn:Et.
    2,3: apply silent_agrees; [by intros q i [_ ?]%Hh|done].
    case_bool_decide as Hin.
    + split_and!; try done; simpl.
      * intros i q. setoid_rewrite elem_of_app. destruct (decide (i = inode)) as [->|Hne].
        -- rewrite lookup_insert. simpl. rewrite decide_True by done. simpl.
           rewrite elem_of_app, H1, list_elem_of_singleton. split.
           ++ intros [[? (ev' & ? & ?)]| ->]; (split; [done|]); [exists ev'; auto|].
              exists ev. split; [right; set_solver|]. by apply Hh.
           ++ intros [_ (ev' & [?|E%list_elem_of_singleton] & Hev)]; [left; eauto|].
              rewrite E in Hev. right. by apply Hh in Hev as [-> _].
        -- rewrite lookup_insert_ne by done. rewrite H1. split.
           ++ intros [? (ev' & ? & ?)]. split; [done|]. exists ev'; auto.
           ++ intros [? (ev' & [?|E%list_elem_of_singleton] & Hev)]; [eauto|].
              rewrite E in Hev. apply Hh in Hev as [_ [= ?]]. congruence.
      * intros i. destruct (decide (i = inode)) as [->|Hne].
        -- rewrite lookup_insert, decide_True by done. intros [= E]. by apply app_nil in E as [_ ?].
        -- rewrite lookup_insert_ne by done. apply H2.
    + split_and!; try done. intros i q. rewrite H1. setoid_rewrite elem_of_app. split.
      * intros [? (ev' & ? & ?)]. split; [done|]. exists ev'; auto.
      * intros [Hi (ev' & [?|E%list_elem_of_singleton] & Hev)]; [eauto|].
        rewrite E in Hev. apply Hh in Hev as [_ [= ->]]. done.
Qed.

Lemma errors_app tr1 tr2 : errors (tr1 ++ tr2) = errors tr1 ++ errors tr2.
Proof. unfold errors. by rewrite map_app, concat_app. Qed.

Lemma count_if_perm p l l' : l ≡ₚ l' -> count_if p l = count_if p l'.
Proof.
  intros H. unfold count_if. apply (f_equal Z.of_nat).
  induction H as [|x l l' _ IH|x y l|l l' l'' _ IH1 _ IH2]; simpl;
    [done|destruct (p x); simpl; congruence|by destruct (p x), (p y)|congruence].
Qed.

Lemma agrees_perm targets tr errs errs' s :
  errs ≡ₚ errs' -> agrees targets tr errs s -> agrees targets tr errs' s.
Proof.
  intros Hp (H1 & H2 & H3 & H4).
  split_and!; [done|done|by rewrite H3; apply count_if_perm|by rewrite H4; apply count_if_perm].
Qed.

(** A step keeps the agreement. *)
Definition keeps (targets : gset Z) (body : resolver_state -> str -> prog osE resolver_state) : Prop :=
  forall tr errs s name tr' s', agrees targets tr errs s -> runs (body s name) tr' s' ->
    agrees targets (tr ++ tr') (errs ++ errors tr') s'.

Lemma for_each_agrees targets body names tr errs s tr' s' :
  keeps targets body -> agrees targets tr errs s -> runs (for_each body names s) tr' s' ->
  agrees targets (tr ++ tr') (errs ++ errors tr') s'.
Proof.
  intros Hb. revert tr errs s tr'. induction names as [|n names IH]; intros tr errs s tr' Ha; simpl.
  - intros [-> ->]. unfold errors. simpl. by rewrite !app_nil_r.
  - intros (t1 & s1 & t2 & -> & H1 & H2)%runs_bind.
    rewrite errors_app, !app_assoc. eapply IH; [|exact H2]. by eapply Hb.
Qed.

Definition stop_errors (names : list str) (stopped : option Z) : list Z :=
  match names with [] => [] | _ => option_list stopped end.

Lemma iterate_agrees targets body names stopped tr errs s tr' s' :
  keeps targets body -> agrees targets tr errs s -> runs (iterate body names stopped s) tr' s' ->
  agrees targets (tr ++ tr') (errs ++ stop_errors names stopped ++ errors tr') s'.
Proof.
  intros Hb Ha. unfold iterate, split_last. destruct stopped as [error|].
  2: { intros Hr. replace (stop_errors names None) with (@nil Z) by (by destruct names).
       by eapply for_each_agrees. }
  destruct names as [|n names _] using rev_ind; [by apply for_each_agrees|].
  rewrite last_snoc, removelast_last.
  intros (t1 & s1 & t2 & -> & H1 & H2)%runs_bind.
  assert (H3 : agrees targets (tr ++ t1) (errs ++ errors t1) s1) by (by eapply for_each_agrees).
  apply (count_error_agrees _ _ _ _ error) in H3.
  specialize (Hb _ _ _ _ _ _ H3 H2). rewrite app_assoc. eapply agrees_perm; [|exact Hb].
  replace (stop_errors (names ++ [n]) (Some error)) with [error] by (by destruct names).
  rewrite errors_app. solve_Permutation.
Qed.

Lemma process_step_keeps targets : keeps targets (process_step targets).
Proof.
  intros tr errs s name tr' s' Ha. unfold process_step.
  destruct (parsePid name) as [pid|] eqn:Ep.
  - intros (t1 & a & t2 & -> & ->%runs_trigger & H)%runs_bind.
    assert (Hs : forall ev, ev = Ev (OpenDirectory [root; name; $"fd"]) a ->
      agrees targets (tr ++ [ev]) errs s) by (intros ev ->; apply silent_agrees; [by intros ? ? []|done]).
    destruct a as [error|names stopped].
    + destruct H as [-> ->]. unfold errors. simpl. rewrite ?app_nil_r.
      by apply count_error_agrees, Hs.
    + eapply iterate_agrees in H; [..|by apply (Hs _ eq_refl)].
      * unfold errors at 1. simpl. fold (errors t2). rewrite <- app_assoc in H. done.
      * intros ? ? ? ? ? ? ? ?. by eapply descriptor_step_agrees.
  - intros [-> ->]. unfold errors. simpl. by rewrite !app_nil_r.
Qed.

Lemma runs_resolve inodes tr r :
  runs (resolve inodes) tr r ->
  (targets_of inodes = ∅ /\ tr = [] /\ r = Success (Observed ∅ [])) \/
  (exists error, tr = [Ev (OpenDirectory [root]) (DirectoryFailed error)] /\
     r = Failure (makeError error $"enumerate procfs root")) \/
  (exists s, agrees (targets_of inodes) tr (errors tr) s /\
     r = Success (Observed (sort_unique <$> ownership s)
          (resolver_warning PermissionDenied (deniedCount s)
             $" procfs entries could not be inspected because of permissions" ++
           resolver_warning IoError (unreadableCount s)
             $" procfs entries could not be inspected"))).
Proof.
  unfold resolve. case_bool_decide as He; [intros [-> ->]; auto|].
  intros (t1 & a & t2 & -> & ->%runs_trigger & H)%runs_bind. right.
  destruct a as [error|names stopped]; [destruct H as [-> ->]; left; eauto|].
  apply runs_bind in H as (t3 & s & t4 & -> & H & [-> ->]). right. exists s. split; [|done].
  rewrite app_nil_r. set (ev := Ev _ _).
  assert (H0 : agrees (targets_of inodes) [ev] [] (mkResolverState ∅ 0 0)).
  { split_and!; [|by intros ?|done..]. intros i p. cbn [ownership]. rewrite lookup_empty. simpl. split; [set_solver|].
    by intros [_ (ev' & ->%list_elem_of_singleton & Hh)]. }
  eapply iterate_agrees in H; [|apply process_step_keeps|exact H0].
  rewrite app_nil_l in H. exact H.
Qed.
End Resolver.

(** ** Properties *)

(** C34. [SocketInodeResolver::resolve] attributes sockets exactly: in every run
that succeeds, a process is an owner of an inode asked for (zero excepted) if and
only if one of the links read under its descriptor directory was [socket:[inode]];
the owners of an inode are strictly increasing; an inode without owner has no
entry; the only failure is that the root cannot be opened; and a warning is there
exactly when some entry was refused, or was unreadable without having
disappeared. *)
Theorem resolve_exact (messages : Messages) root inodes tr r :
  runs (resolve root inodes) tr r ->
  match r with
  | Failure error => exists n, tr = [Ev (OpenDirectory [root]) (DirectoryFailed n)]
  | Success o =>
      (forall inode pid, pid ∈ default [] (obs_value o !! inode) <->
         (inode ∈ inodes /\ inode <> 0) /\ exists ev, ev ∈ tr /\ holds root pid inode ev) /\
      (forall inode pids, obs_value o !! inode = Some pids -> strictly_sorted pids /\ pids <> []) /\
      (obs_warnings o = [] <->
         forall e, e ∈ errors tr -> denied e = false /\ disappeared e = true)
  end.
Proof.
  intros [(He & -> & ->)|[(error & -> & ->)|(s & (H1 & H2 & H3 & H4) & ->)]]%runs_resolve; [|eauto|].
  - cbn [obs_value obs_warnings]. split_and!.
    + intros i p. rewrite lookup_empty. simpl. split; [set_solver|]. intros [_ (ev & ? & _)]. set_solver.
    + intros i l. by rewrite lookup_empty.
    + split; [|done]. intros _ e Hin. by apply elem_of_nil in Hin.
  - cbn [obs_value obs_warnings]. split_and!.
    + intros i p. rewrite lookup_fmap.
      replace (default [] (sort_unique <$> ownership s !! i))
        with (sort_unique (default [] (ownership s !! i))) by (by destruct (ownership s !! i)).
      rewrite elem_of_sort_unique, H1. unfold targets_of.
      rewrite elem_of_list_to_set, list_elem_of_In, List.filter_In, <- list_elem_of_In.
      by rewrite negb_true_iff, Z.eqb_neq.
    + intros i l. rewrite lookup_fmap, fmap_Some. intros (l0 & E & ->).
      split; [apply sort_unique_sorted|]. intros E'.
      destruct l0 as [|p l0]; [by apply (H2 i)|].
      assert (Hp : p ∈ sort_unique (p :: l0)) by (apply elem_of_sort_unique; set_solver).
      rewrite E' in Hp. by apply elem_of_nil in Hp.
    + assert (Hnil : forall a b : list Warning, a ++ b = [] <-> a = [] /\ b = []).
      { intros a b. split; [apply app_nil|by intros [-> ->]]. }
      rewrite Hnil, !resolver_warning_nil, H3, H4, !count_if_zero. split.
      * intros [Hd Hu] e Hin. specialize (Hd e Hin). specialize (Hu e Hin). rewrite Hd in Hu.
        by destruct (disappeared e).
      * intros H. split; intros e Hin; destruct (H e Hin) as [-> Hdis]; [done|by rewrite Hdis].
Qed.

(** PIDs 9 and 12 hold the socket 71 (PID 12 by two descriptors); one link of
PID 12 may not be read. *)
Definition example_descriptors : os_machine :=
  mkOsMachine []
    [([$"/proc"; $"12"; $"fd"; $"0"], inr $"/dev/null");
     ([$"/proc"; $"12"; $"fd"; $"3"], inr $"socket:[71]");
     ([$"/proc"; $"12"; $"fd"; $"4"], inr $"socket:[71]");
     ([$"/proc"; $"9"; $"fd"; $"5"], inr $"socket:[71]");
     ([$"/proc"; $"9"; $"fd"; $"6"], inr $"socket:[72]")]
    [([$"/proc"], Entries [$"self"; $"12"; $"9"] None);
     ([$"/proc"; $"12"; $"fd"], Entries [$"0"; $"3"; $"4"; $"9"] None);
     ([$"/proc"; $"9"; $"fd"], Entries [$"5"; $"6"] None)] [] [].

Lemma resolve_exact_witness :
  exists tr o, os_run (@resolve plain_messages $"/proc" [71; 73; 0]) example_descriptors = Some (Success o, tr) /\
    obs_value o !! 71 = Some [9; 12] /\ obs_value o !! 72 = None /\
    strictly_sorted [9; 12] /\ obs_warnings o <> [].
Proof.
  destruct (os_run (@resolve plain_messages $"/proc" [71; 73; 0]) example_descriptors)
    as [[[o|] tr]|] eqn:E; [|vm_compute in E; congruence..].
  exists tr, o. split; [done|].
  destruct (resolve_exact plain_messages $"/proc" [71; 73; 0] tr _ (os_run_runs _ _ _ _ E)) as (_ & Hs & Hw).
  assert (H71 : obs_value o !! 71 = Some [9; 12]) by (vm_compute in E; by injection E as <- _).
  split_and!; [done|vm_compute in E; by injection E as <- _|by apply (Hs 71)|].
  vm_compute in E. by injection E as <- _.
Defined.
