(* ===== verification/InetDiagCodec.v ===== *)
(** * The sock-diag codec ([src/linux/netlink/InetDiagCodec.cpp])

Requests and responses of the kernel's socket diagnosis as the bytes of the
structures of [linux/netlink.h] and [linux/inet_diag.h], on a little-endian
machine.  A datagram is a list of bytes, numbers from 0 to 255.  [inet_ntop] is
a parameter. *)

From S2P Require Import Prelude CppStd CppString Prog Domain OsCalls.
From Stdlib Require Import Ascii.

(** ** Integers in memory *)

Fixpoint put_le (n : nat) (v : Z) : list Z :=
  match n with O => [] | S n' => v mod 256 :: put_le n' (v / 256) end.
Definition get_le (bytes : list Z) : Z := foldr (fun b acc => b + 256 * acc) 0 bytes.
(** [htons]/[ntohs] and the storage of a 16-bit integer. *)
Definition put_be16 (v : Z) : list Z := [v / 256; v mod 256].
Definition get_be16 (bytes : list Z) : Z := foldl (fun acc b => 256 * acc + b) 0 bytes.

Definition field_at (data : list Z) (offset size : nat) : list Z := take size (drop offset data).

(** ** Constants of the kernel interface *)

Definition AF_INET : Z := 2.
Definition AF_INET6 : Z := 10.
Definition IPPROTO_TCP : Z := 6.
Definition IPPROTO_UDP : Z := 17.
Definition SOCK_DIAG_BY_FAMILY : Z := 20.
Definition NLM_F_REQUEST : Z := 1.
Definition NLM_F_DUMP : Z := 768.
Definition NLM_F_DUMP_INTR : Z := 16.
Definition NLMSG_ERROR : Z := 2.
Definition NLMSG_DONE : Z := 3.
Definition NLMSG_OVERRUN : Z := 4.
(** [sizeof(nlmsghdr)], [NLMSG_HDRLEN]; [sizeof(nlmsgerr)]; [sizeof(inet_diag_msg)] *)
Definition NLMSG_HDRLEN : nat := 16.
Definition sizeof_nlmsgerr : nat := 20.
Definition sizeof_inet_diag_msg : nat := 72.
(** [NLMSG_ALIGN(len)] on a 32-bit unsigned length. *)
Definition NLMSG_ALIGN (len : Z) : Z := Z.land ((len + 3) mod 2 ^ 32) (2 ^ 32 - 4).

(** ** buildInetDiagRequest *)

Definition buildInetDiagRequest (family : AddressFamily) (protocol : TransportProtocol)
    (sequence states : Z) : list Z :=
  (* nlmsghdr *)
  put_le 4 72 ++ put_le 2 SOCK_DIAG_BY_FAMILY ++ put_le 2 (Z.lor NLM_F_REQUEST NLM_F_DUMP) ++
  put_le 4 sequence ++ put_le 4 0 ++
  (* inet_diag_req_v2: family, protocol, ext, pad, states *)
  [match family with IPv4 => AF_INET | IPv6 => AF_INET6 end;
   match protocol with Tcp => IPPROTO_TCP | Udp => IPPROTO_UDP end; 0; 0] ++
  put_le 4 states ++
  (* inet_diag_sockid: ports, addresses, interface, cookie *)
  repeat 0 40 ++ put_le 4 (2 ^ 32 - 1) ++ put_le 4 (2 ^ 32 - 1).

(** ** parseInetDiagDatagram *)

Record InetDiagBatch := mkInetDiagBatch { batch_sockets : list SocketInfo; batch_done : bool }.

Record nlmsghdr := mkNlmsghdr {
  nlmsg_len : Z; nlmsg_type : Z; nlmsg_flags : Z; nlmsg_seq : Z }.

Definition read_header (data : list Z) : nlmsghdr :=
  mkNlmsghdr (get_le (field_at data 0 4)) (get_le (field_at data 4 2))
    (get_le (field_at data 6 2)) (get_le (field_at data 8 4)).

Definition tcpState (state : Z) : str :=
  let names := [$"unknown"; $"established"; $"syn-sent"; $"syn-recv"; $"fin-wait-1";
    $"fin-wait-2"; $"time-wait"; $"close"; $"close-wait"; $"last-ack"; $"listen"; $"closing";
    $"new-syn-recv"] in
  if state <? 13 then nth (Z.to_nat state) names [] else $"unknown".

Definition parseError (message : str) (number : Z) : Error :=
  mkError ProtocolError message number $"inet-diag-codec" $"parse".

(** [nonzero(words)] on the sixteen bytes of four words. *)
Definition nonzero (words : list Z) : bool := existsb (fun v => negb (v =? 0)) words.

Section Codec.
Context {messages : Messages}.
(** [inet_ntop] on the sixteen bytes of the address field; [None] is the null
pointer. *)
Context (inet_ntop : AddressFamily -> list Z -> option str).

Definition parse_socket (payload : list Z) (protocol : TransportProtocol) : Result SocketInfo :=
  let idiag_family := get_le (field_at payload 0 1) in
  let idiag_state := get_le (field_at payload 1 1) in
  let sport := get_be16 (field_at payload 4 2) in
  let dport := get_be16 (field_at payload 6 2) in
  let src := field_at payload 8 16 in
  let dst := field_at payload 24 16 in
  let uid := get_le (field_at payload 64 4) in
  let inode := get_le (field_at payload 68 4) in
  let? family :=
    if idiag_family =? AF_INET then Success IPv4
    else if idiag_family =? AF_INET6 then Success IPv6
    else Failure (parseError $"Unsupported INET_DIAG address family" 0) in
  match inet_ntop family src with
  | None => Failure (parseError $"Unable to format local address" 0)
  | Some address =>
      let? remote :=
        if negb (dport =? 0) || nonzero dst then
          match inet_ntop family dst with
          | None => Failure (parseError $"Unable to format remote address" 0)
          | Some address => Success (Some (mkEndpoint address dport))
          end
        else Success None in
      let state :=
        match protocol with
        | Tcp => tcpState idiag_state
        | Udp => match remote with Some _ => $"connected" | None => $"unconnected" end
        end in
      Success (mkSocketInfo protocol family (mkEndpoint address sport) remote state uid inode [])
  end.

(** [e.error], a signed 32-bit integer. *)
Definition nlmsgerr_error (payload : list Z) : Z :=
  let u := get_le (field_at payload 0 4) in if u <? 2 ^ 31 then u else u - 2 ^ 32.

Definition parse_message (h : nlmsghdr) (payload : list Z) (protocol : TransportProtocol)
    (batch : InetDiagBatch) : Result InetDiagBatch :=
  if nlmsg_type h =? NLMSG_DONE then
    if negb (Z.land (nlmsg_flags h) NLM_F_DUMP_INTR =? 0) then
      Failure (parseError $"Netlink dump was interrupted" 0)
    else Success (mkInetDiagBatch (batch_sockets batch) true)
  else if nlmsg_type h =? NLMSG_ERROR then
    if (length payload <? sizeof_nlmsgerr)%nat then Failure (parseError $"Truncated Netlink error" 0)
    else
      let error := nlmsgerr_error payload in
      if negb (error =? 0) then
        Failure (mkError ProtocolError (system_message (- error)) (- error)
                   $"inet-diag-codec" $"kernel response")
      else Success batch
  else if nlmsg_type h =? NLMSG_OVERRUN then Failure (parseError $"Netlink response overrun" 0)
  else if (length payload <? sizeof_inet_diag_msg)%nat then
    Failure (parseError $"Truncated INET_DIAG message" 0)
  else
    let? socket := parse_socket payload protocol in
    Success (mkInetDiagBatch (batch_sockets batch ++ [socket]) (batch_done batch)).

(** [data] is what is left from [offset] on. *)
Fixpoint parse_loop (fuel : nat) (data : list Z) (sequence : Z) (protocol : TransportProtocol)
    (batch : InetDiagBatch) : Result InetDiagBatch :=
  match fuel, data with
  | O, _ | _, [] => Success batch
  | S fuel', _ =>
      if (length data <? NLMSG_HDRLEN)%nat then Failure (parseError $"Truncated Netlink header" 0)
      else
        let h := read_header data in
        let size := Z.of_nat (length data) in
        if (nlmsg_len h <? Z.of_nat NLMSG_HDRLEN) || (size <? nlmsg_len h) then
          Failure (parseError $"Invalid Netlink message length" 0)
        else if negb (nlmsg_seq h =? sequence) then
          Failure (parseError $"Unexpected Netlink sequence" 0)
        else
          let payload := field_at data NLMSG_HDRLEN (Z.to_nat (nlmsg_len h) - NLMSG_HDRLEN) in
          let? batch' := parse_message h payload protocol batch in
          let aligned := NLMSG_ALIGN (nlmsg_len h) in
          if size <? aligned then
            if negb (nlmsg_len h =? size) then
              Failure (parseError $"Truncated aligned Netlink message" 0)
            else Success batch'
          else parse_loop fuel' (drop (Z.to_nat aligned) data) sequence protocol batch'
  end.

(** Every message takes at least sixteen bytes ([parse_loop_fuel]). *)
Definition parseInetDiagDatagram (data : list Z) (sequence : Z) (protocol : TransportProtocol) :
  Result InetDiagBatch :=
  parse_loop (length data) data sequence protocol (mkInetDiagBatch [] false).
End Codec.

(** ** Facts about integers in memory *)

Lemma length_put_le n v : length (put_le n v) = n.
Proof. revert v. induction n; intros; simpl; [done|by f_equal]. Qed.

Lemma get_put_le n v : 0 <= v < 256 ^ Z.of_nat n -> get_le (put_le n v) = v.
Proof.
  revert v. induction n as [|n IH]; intros v Hv; [simpl in *; lia|].
  rewrite Nat2Z.inj_succ, Z.pow_succ_r in Hv by lia.
  change (v mod 256 + 256 * get_le (put_le n (v / 256)) = v). rewrite IH.
  - pose proof (Z.div_mod v 256 ltac:(lia)). lia.
  - split; [apply Z.div_pos; lia|apply Z.div_lt_upper_bound; lia].
Qed.

Lemma get_put_be16 v : get_be16 (put_be16 v) = v.
Proof. unfold get_be16, put_be16. simpl. pose proof (Z.div_mod v 256 ltac:(lia)). lia. Qed.

Lemma field_at_skip a rest offset size :
  (length a <= offset)%nat -> field_at (a ++ rest) offset size = field_at rest (offset - length a) size.
Proof. intros H. unfold field_at. by rewrite drop_app_ge. Qed.
Lemma field_at_here a rest size : length a = size -> field_at (a ++ rest) 0 size = a.
Proof. intros <-. unfold field_at. by rewrite drop_0, take_app_length. Qed.

(** Read a field of a structure written field by field. *)
Ltac seek :=
  repeat (rewrite field_at_skip by (rewrite ?length_put_le, ?repeat_length; simpl; lia));
  rewrite ?length_put_le, ?repeat_length;
  match goal with |- context [field_at (?a ++ _) ?k ?n] => replace k with O by (simpl; lia) end;
  rewrite field_at_here by (rewrite ?length_put_le, ?repeat_length; simpl; lia).

Lemma NLMSG_ALIGN_spec len :
  0 <= len < 2 ^ 32 - 3 -> NLMSG_ALIGN len = (len + 3) / 4 * 4.
Proof.
  intros H. unfold NLMSG_ALIGN. rewrite Z.mod_small by lia.
  change (2 ^ 32 - 4) with (Z.ldiff (Z.ones 32) (Z.ones 2)).
  assert (E : Z.land (len + 3) (Z.ldiff (Z.ones 32) (Z.ones 2)) =
              Z.ldiff (Z.land (len + 3) (Z.ones 32)) (Z.ones 2)).
  { rewrite !Z.ldiff_land, Z.land_assoc. done. }
  rewrite E, Z.land_ones, Z.mod_small by lia. rewrite Z.ldiff_ones_r by lia.
  by rewrite Z.shiftl_mul_pow2, Z.shiftr_div_pow2 by lia.
Qed.

Lemma NLMSG_ALIGN_progress len : 16 <= len < 2 ^ 32 - 3 -> len <= NLMSG_ALIGN len.
Proof.
  intros H. rewrite NLMSG_ALIGN_spec by lia.
  pose proof (Z.div_mod (len + 3) 4 ltac:(lia)). pose proof (Z.mod_pos_bound (len + 3) 4 ltac:(lia)). lia.
Qed.

(** ** The messages of the kernel *)

Definition encode_header (len type flags sequence portid : Z) : list Z :=
  put_le 4 len ++ put_le 2 type ++ put_le 2 flags ++ put_le 4 sequence ++ put_le 4 portid.

Record diag := mkDiag {
  d_family : AddressFamily; d_state : Z; d_sport : Z; d_dport : Z;
  d_src : list Z; d_dst : list Z; d_uid : Z; d_inode : Z;
  d_attributes : list Z;  (* what follows the structure, whole words *)
}.
Definition diag_ok (d : diag) : Prop :=
  0 <= d_state d < 256 /\ length (d_src d) = 16%nat /\ length (d_dst d) = 16%nat /\
  0 <= d_uid d < 2 ^ 32 /\ 0 <= d_inode d < 2 ^ 32 /\
  exists k, length (d_attributes d) = (4 * k)%nat /\ Z.of_nat k <= 10000.

Definition encode_diag (d : diag) : list Z :=
  [match d_family d with IPv4 => AF_INET | IPv6 => AF_INET6 end] ++ [d_state d] ++ repeat 0 2 ++
  put_be16 (d_sport d) ++ put_be16 (d_dport d) ++ d_src d ++ d_dst d ++ repeat 0 24 ++
  put_le 4 (d_uid d) ++ put_le 4 (d_inode d) ++ d_attributes d.

Definition encode_socket (sequence : Z) (d : diag) : list Z :=
  encode_header (88 + Z.of_nat (length (d_attributes d))) SOCK_DIAG_BY_FAMILY 2 sequence 0 ++
  encode_diag d.
Definition encode_done (sequence : Z) : list Z :=
  encode_header 20 NLMSG_DONE 2 sequence 0 ++ put_le 4 0.

#[global] Arguments encode_socket : simpl never.
#[global] Arguments encode_done : simpl never.

Section CodecFacts.
Context {messages : Messages}.
Context (inet_ntop : AddressFamily -> list Z -> option str).

(** The socket a message describes. *)
Definition socket_of (protocol : TransportProtocol) (d : diag) : SocketInfo :=
  let address bytes := default [] (inet_ntop (d_family d) bytes) in
  let remote :=
    if negb (d_dport d =? 0) || nonzero (d_dst d)
    then Some (mkEndpoint (address (d_dst d)) (d_dport d)) else None in
  mkSocketInfo protocol (d_family d) (mkEndpoint (address (d_src d)) (d_sport d)) remote
    (match protocol with
     | Tcp => tcpState (d_state d)
     | Udp => match remote with Some _ => $"connected" | None => $"unconnected" end
     end) (d_uid d) (d_inode d) [].

Lemma read_encode_header len type flags sequence portid rest :
  0 <= len < 2 ^ 32 -> 0 <= type < 2 ^ 16 -> 0 <= flags < 2 ^ 16 -> 0 <= sequence < 2 ^ 32 ->
  read_header (encode_header len type flags sequence portid ++ rest) =
  mkNlmsghdr len type flags sequence.
Proof.
  intros H1 H2 H3 H4. unfold read_header, encode_header. rewrite <- !app_assoc.
  f_equal; seek; by apply get_put_le.
Qed.

Lemma length_encode_header len type flags sequence portid :
  length (encode_header len type flags sequence portid) = 16%nat.
Proof. unfold encode_header. by rewrite !length_app, !length_put_le. Qed.

Lemma length_encode_diag d :
  diag_ok d -> length (encode_diag d) = (72 + length (d_attributes d))%nat.
Proof.
  intros (_ & H1 & H2 & _). unfold encode_diag.
  rewrite !length_app, !length_put_le, !repeat_length, H1, H2. simpl. lia.
Qed.

Lemma parse_encode_diag d protocol :
  diag_ok d -> (forall family bytes, length bytes = 16%nat -> is_Some (inet_ntop family bytes)) ->
  parse_socket inet_ntop (encode_diag d) protocol = Success (socket_of protocol d).
Proof.
  intros (Hst & Hsrc & Hdst & Hu & Hi & _) Hn. unfold parse_socket, socket_of, encode_diag.
  set (fam := match d_family d with IPv4 => AF_INET | IPv6 => AF_INET6 end).
  assert (E1 : get_le (field_at (encode_diag d) 0 1) = fam).
  { unfold encode_diag. seek. unfold get_le. simpl. fold fam. lia. }
  assert (E2 : get_le (field_at (encode_diag d) 1 1) = d_state d).
  { unfold encode_diag. seek. unfold get_le. simpl. lia. }
  assert (E3 : get_be16 (field_at (encode_diag d) 4 2) = d_sport d).
  { unfold encode_diag. seek. apply get_put_be16. }
  assert (E4 : get_be16 (field_at (encode_diag d) 6 2) = d_dport d).
  { unfold encode_diag. seek. apply get_put_be16. }
  assert (E5 : field_at (encode_diag d) 8 16 = d_src d) by (unfold encode_diag; by seek).
  assert (E6 : field_at (encode_diag d) 24 16 = d_dst d) by (unfold encode_diag; by seek).
  assert (E7 : get_le (field_at (encode_diag d) 64 4) = d_uid d).
  { unfold encode_diag. seek. by apply get_put_le. }
  assert (E8 : get_le (field_at (encode_diag d) 68 4) = d_inode d).
  { unfold encode_diag. seek. by apply get_put_le. }
  fold fam. fold (encode_diag d). unfold encode_diag in *. fold fam in E1, E2, E3, E4, E5, E6, E7, E8.
  rewrite E1, E2, E3, E4, E5, E6, E7, E8.
  assert (Ef : (if fam =? AF_INET then Success IPv4
    else if fam =? AF_INET6 then Success IPv6
    else Failure (parseError $"Unsupported INET_DIAG address family" 0)) = Success (d_family d))
    by (unfold fam; by destruct (d_family d)).
  rewrite Ef. destruct (Hn (d_family d) (d_src d) Hsrc) as [a1 ->].
  destruct (Hn (d_family d) (d_dst d) Hdst) as [a2 ->]. simpl default.
  by destruct (negb (d_dport d =? 0) || nonzero (d_dst d)).
Qed.

(** More fuel changes nothing. *)
Lemma parse_loop_fuel f1 f2 data sequence protocol batch :
  Z.of_nat (length data) < 2 ^ 32 - 3 -> (length data <= f1)%nat -> (length data <= f2)%nat ->
  parse_loop inet_ntop f1 data sequence protocol batch =
  parse_loop inet_ntop f2 data sequence protocol batch.
Proof.
  revert f2 data batch. induction f1 as [|f1 IH]; intros f2 data batch Hb H1 H2.
  - destruct data; [by destruct f2|simpl in H1; lia].
  - destruct f2 as [|f2]; [destruct data; [done|simpl in H2; lia]|].
    destruct data as [|b data]; [done|]. cbn [parse_loop].
    destruct (Nat.ltb_spec (length (b :: data)) NLMSG_HDRLEN); [done|].
    destruct (_ || _) eqn:Elen; [done|]. destruct (negb _); [done|].
    destruct (parse_message _ _ _ _ _) as [batch'|]; [|done].
    apply orb_false_iff in Elen as [E1%Z.ltb_ge E2%Z.ltb_ge].
    change (Z.of_nat NLMSG_HDRLEN) with 16 in E1.
    pose proof (NLMSG_ALIGN_progress (nlmsg_len (read_header (b :: data))) ltac:(lia)).
    destruct (Z.ltb_spec (Z.of_nat (length (b :: data))) (NLMSG_ALIGN (nlmsg_len (read_header (b :: data)))));
      [done|].
    apply IH; rewrite length_drop; lia.
Qed.

(** One message whose length is a multiple of four. *)
Lemma parse_loop_step fuel k type flags sequence expected payload rest protocol batch :
  Z.of_nat (length payload) = 4 * k -> 4 * k <= 65536 ->
  0 <= type < 2 ^ 16 -> 0 <= flags < 2 ^ 16 -> 0 <= sequence < 2 ^ 32 ->
  let len := 16 + 4 * k in
  parse_loop inet_ntop (S fuel) (encode_header len type flags sequence 0 ++ payload ++ rest)
    expected protocol batch =
  if negb (sequence =? expected) then Failure (parseError $"Unexpected Netlink sequence" 0)
  else
    let? batch' := parse_message inet_ntop (mkNlmsghdr len type flags sequence) payload protocol batch in
    parse_loop inet_ntop fuel rest expected protocol batch'.
Proof.
  intros Hp Hk Ht Hf Hs len. set (head := encode_header len type flags sequence 0).
  assert (Hhead : length head = 16%nat) by apply length_encode_header.
  assert (Htotal : Z.of_nat (length (head ++ payload ++ rest)) = len + Z.of_nat (length rest))
    by (rewrite !length_app, Hhead; lia).
  assert (Hread : read_header (head ++ payload ++ rest) = mkNlmsghdr len type flags sequence)
    by (apply read_encode_header; lia).
  assert (Hpay : field_at (head ++ payload ++ rest) NLMSG_HDRLEN (Z.to_nat len - NLMSG_HDRLEN) = payload).
  { unfold NLMSG_HDRLEN. rewrite field_at_skip, Hhead by lia. apply field_at_here. lia. }
  assert (Ha : NLMSG_ALIGN len = len).
  { rewrite NLMSG_ALIGN_spec by lia. replace (len + 3) with (3 + (4 + k) * 4) by lia.
    rewrite Z.div_add by lia. change (3 / 4) with 0. lia. }
  assert (Hdrop : drop (Z.to_nat len) (head ++ payload ++ rest) = rest).
  { rewrite app_assoc. apply drop_app_length'. rewrite length_app, Hhead. lia. }
  destruct (head ++ payload ++ rest) as [|b data]; [simpl in Htotal; lia|].
  cbn [parse_loop]. rewrite Hread. cbn [nlmsg_len nlmsg_seq]. rewrite Hpay, Ha, Hdrop.
  rewrite (proj2 (Nat.ltb_ge _ _)) by (unfold NLMSG_HDRLEN; lia).
  rewrite (proj2 (Z.ltb_ge len (Z.of_nat NLMSG_HDRLEN))) by (unfold NLMSG_HDRLEN; lia).
  rewrite (proj2 (Z.ltb_ge (Z.of_nat (length (b :: data))) len)) by lia. done.
Qed.

Lemma parse_loop_socket fuel d rest sequence protocol batch :
  diag_ok d -> (forall family bytes, length bytes = 16%nat -> is_Some (inet_ntop family bytes)) ->
  0 <= sequence < 2 ^ 32 ->
  parse_loop inet_ntop (S fuel) (encode_socket sequence d ++ rest) sequence protocol batch =
  parse_loop inet_ntop fuel rest sequence protocol
    (mkInetDiagBatch (batch_sockets batch ++ [socket_of protocol d]) (batch_done batch)).
Proof.
  intros Hd Hn Hs. pose proof (length_encode_diag d Hd) as Hlen.
  destruct (Hd) as (_ & _ & _ & _ & _ & k & Hk & Hk').
  unfold encode_socket. rewrite <- app_assoc.
  replace (88 + Z.of_nat (length (d_attributes d))) with (16 + 4 * (18 + Z.of_nat k)) by lia.
  rewrite parse_loop_step by (done || lia). rewrite Z.eqb_refl. cbn [negb].
  unfold parse_message. cbn [nlmsg_type nlmsg_flags].
  change (SOCK_DIAG_BY_FAMILY =? NLMSG_DONE) with false.
  change (SOCK_DIAG_BY_FAMILY =? NLMSG_ERROR) with false.
  change (SOCK_DIAG_BY_FAMILY =? NLMSG_OVERRUN) with false. cbv iota.
  rewrite (proj2 (Nat.ltb_ge (length (encode_diag d)) sizeof_inet_diag_msg))
    by (unfold sizeof_inet_diag_msg; lia).
  by rewrite parse_encode_diag.
Qed.

Lemma parse_loop_foreign fuel d rest sequence other protocol batch :
  diag_ok d -> 0 <= sequence < 2 ^ 32 -> other <> sequence ->
  parse_loop inet_ntop (S fuel) (encode_socket sequence d ++ rest) other protocol batch =
  Failure (parseError $"Unexpected Netlink sequence" 0).
Proof.
  intros Hd Hs Hne. pose proof (length_encode_diag d Hd) as Hlen.
  destruct (Hd) as (_ & _ & _ & _ & _ & k & Hk & Hk').
  unfold encode_socket. rewrite <- app_assoc.
  replace (88 + Z.of_nat (length (d_attributes d))) with (16 + 4 * (18 + Z.of_nat k)) by lia.
  rewrite parse_loop_step by (done || lia).
  by rewrite (proj2 (Z.eqb_neq sequence other)) by congruence.
Qed.

Lemma parse_loop_done fuel sequence protocol batch :
  0 <= sequence < 2 ^ 32 ->
  parse_loop inet_ntop (S fuel) (encode_done sequence) sequence protocol batch =
  Success (mkInetDiagBatch (batch_sockets batch) true).
Proof.
  intros Hs. unfold encode_done. rewrite <- (app_nil_r (put_le 4 0)).
  change 20 with (16 + 4 * 1). rewrite parse_loop_step by done. rewrite Z.eqb_refl. cbn [negb].
  change (parse_message inet_ntop (mkNlmsghdr (16 + 4 * 1) NLMSG_DONE 2 sequence) (put_le 4 0) protocol batch)
    with (@Success InetDiagBatch (mkInetDiagBatch (batch_sockets batch) true)).
  by destruct fuel.
Qed.

Lemma length_encode_socket sequence d : (16 <= length (encode_socket sequence d))%nat.
Proof. unfold encode_socket. rewrite length_app, length_encode_header. lia. Qed.

Lemma parse_loop_dump fuel ds rest sequence protocol batch :
  Forall diag_ok ds -> (forall family bytes, length bytes = 16%nat -> is_Some (inet_ntop family bytes)) ->
  0 <= sequence < 2 ^ 32 ->
  parse_loop inet_ntop (length ds + fuel) (concat (map (encode_socket sequence) ds) ++ rest)
    sequence protocol batch =
  parse_loop inet_ntop fuel rest sequence protocol
    (mkInetDiagBatch (batch_sockets batch ++ map (socket_of protocol) ds) (batch_done batch)).
Proof.
  intros Hds Hn Hs. revert batch. induction Hds as [|d ds Hd _ IH]; intros batch; cbn [map concat length app Nat.add].
  - rewrite app_nil_r. by destruct batch.
  - rewrite <- app_assoc, (parse_loop_socket _ d) by done. rewrite IH.
    cbn [batch_sockets batch_done]. by rewrite <- app_assoc.
Qed.
End CodecFacts.

(** ** Properties *)

(** C33. [parseInetDiagDatagram] reads back what the kernel wrote: a dump of any
number of well-formed socket messages (with any attributes after the structure),
with or without the final message, gives exactly their sockets, in order, with
addresses, ports in host order, state names, user and inode; [done] tells whether
the dump ended; and a dump of another request is refused. *)
Theorem parse_dump_roundtrip (messages : Messages) inet_ntop ds sequence protocol :
  (forall family bytes, length bytes = 16%nat -> is_Some (inet_ntop family bytes)) ->
  Forall diag_ok ds -> 0 <= sequence < 2 ^ 32 ->
  let dump := concat (map (encode_socket sequence) ds) in
  Z.of_nat (length dump) < 2 ^ 31 ->
  parseInetDiagDatagram inet_ntop dump sequence protocol =
    Success (mkInetDiagBatch (map (socket_of inet_ntop protocol) ds) false) /\
  parseInetDiagDatagram inet_ntop (dump ++ encode_done sequence) sequence protocol =
    Success (mkInetDiagBatch (map (socket_of inet_ntop protocol) ds) true) /\
  (forall other, other <> sequence -> ds <> [] ->
    parseInetDiagDatagram inet_ntop dump other protocol =
    Failure (parseError $"Unexpected Netlink sequence" 0)).
Proof.
  intros Hn Hds Hs dump Hl. unfold parseInetDiagDatagram.
  assert (Hlen : (length ds <= length dump)%nat).
  { unfold dump. clear. induction ds as [|d ds IH]; simpl; [lia|].
    pose proof (length_encode_socket sequence d). rewrite length_app. lia. }
  split_and!.
  - rewrite (parse_loop_fuel inet_ntop _ (length ds + length dump)) by lia.
    rewrite <- (app_nil_r dump) at 2. unfold dump at 2. rewrite parse_loop_dump by done.
    by destruct (length dump).
  - assert (Hd : length (encode_done sequence) = 20%nat) by reflexivity.
    rewrite (parse_loop_fuel inet_ntop _ (length ds + S (length (dump ++ encode_done sequence))))
      by (rewrite length_app; lia).
    unfold dump at 2. rewrite parse_loop_dump, parse_loop_done by done. done.
  - intros other Hne Hds'. destruct Hds as [|d ds Hd _]; [done|].
    pose proof (length_encode_socket sequence d) as Hd'.
    assert (Hpos : exists fuel, length dump = S fuel).
    { unfold dump. cbn [map concat]. rewrite length_app. 
      destruct (length (encode_socket sequence d)) as [|n]; [lia|]. by eexists. }
    destruct Hpos as [fuel ->]. unfold dump. cbn [map concat]. by apply parse_loop_foreign.
Qed.

(** The usual formatting of an IPv4 address, enough for the examples. *)
Definition dotted (family : AddressFamily) (bytes : list Z) : option str :=
  Some (concat (map (fun b => to_string b ++ $".") (take 3 bytes)) ++ to_string (nth 3 bytes 0)).

Definition example_diag : diag :=
  mkDiag IPv4 10 8080 0 ([127; 0; 0; 1] ++ repeat 0 12) (repeat 0 16) 1000 71 [8; 0; 1; 0; 0; 0; 0; 0].

Lemma parse_dump_roundtrip_witness :
  @parseInetDiagDatagram plain_messages dotted
    (concat (map (encode_socket 5) [example_diag]) ++ encode_done 5) 5 Tcp =
  Success (mkInetDiagBatch
    [mkSocketInfo Tcp IPv4 (mkEndpoint $"127.0.0.1" 8080) None $"listen" 1000 71 []] true).
Proof.
  destruct (parse_dump_roundtrip plain_messages dotted [example_diag] 5 Tcp) as (_ & H & _).
  - intros family bytes _. eexists. reflexivity.
  - constructor; [|constructor]. unfold diag_ok. split_and!; try (vm_compute; congruence).
    exists 2%nat. vm_compute. split; congruence.
  - vm_compute. split; congruence.
  - vm_compute. congruence.
  - rewrite H. vm_compute. reflexivity.
Defined.

(** The request for a dump is the seventy-two bytes of the kernel's
structures: the header announces its own length, the sock-diag type, the request
and dump flags and the sequence, and the body the family, the protocol and the
mask of states, with no port, address or cookie selected. *)
Theorem request_roundtrip family protocol sequence states :
  0 <= sequence < 2 ^ 32 -> 0 <= states < 2 ^ 32 ->
  let request := buildInetDiagRequest family protocol sequence states in
  Z.of_nat (length request) = nlmsg_len (read_header request) /\ length request = 72%nat /\
  Forall (fun b => 0 <= b < 256) request /\
  read_header request = mkNlmsghdr 72 SOCK_DIAG_BY_FAMILY 769 sequence /\
  get_le (field_at request 16 1) = match family with IPv4 => AF_INET | IPv6 => AF_INET6 end /\
  get_le (field_at request 17 1) = match protocol with Tcp => IPPROTO_TCP | Udp => IPPROTO_UDP end /\
  get_le (field_at request 20 4) = states /\
  field_at request 24 40 = repeat 0 40 /\ field_at request 64 8 = repeat 255 8.
Proof.
  intros Hs Hst. cbv zeta.
  assert (Hhead : read_header (buildInetDiagRequest family protocol sequence states) =
    mkNlmsghdr 72 SOCK_DIAG_BY_FAMILY 769 sequence).
  { unfold buildInetDiagRequest. rewrite !app_assoc.
    rewrite <- !app_assoc. pose proof (read_encode_header 72 SOCK_DIAG_BY_FAMILY 769 sequence 0) as H.
    unfold encode_header in H. setoid_rewrite <- app_assoc in H. setoid_rewrite <- app_assoc in H.
    setoid_rewrite <- app_assoc in H. setoid_rewrite <- app_assoc in H. by apply H. }
  assert (Hb : forall n v, Forall (fun b => 0 <= b < 256) (put_le n v)).
  { induction n; intros v; simpl; constructor; [apply Z.mod_pos_bound; lia|done]. }
  rewrite Hhead. split_and!; try done.
  - unfold buildInetDiagRequest. rewrite !Forall_app.
    assert (Hz : Forall (fun b => 0 <= b < 256) (repeat 0 40)) by (repeat (constructor; [lia|]); constructor).
    split_and!; try apply Hb; [|done].
    assert (H0 : 0 <= 0 < 256) by lia.
    repeat (apply Forall_cons; split; [|]); try done; [by destruct family|by destruct protocol].
  - by destruct family.
  - by destruct protocol.
  - unfold buildInetDiagRequest. seek. by apply get_put_le.
Qed.

Lemma request_roundtrip_witness :
  let request := buildInetDiagRequest IPv6 Udp 3 (2 ^ 32 - 1) in
  read_header request = mkNlmsghdr 72 20 769 3 /\ get_le (field_at request 20 4) = 2 ^ 32 - 1.
Proof.
  cbv zeta. destruct (request_roundtrip IPv6 Udp 3 (2 ^ 32 - 1)) as (_ & _ & _ & H1 & _ & _ & H2 & _);
    [vm_compute; split; congruence..|]. by split.
Defined.
