(* ===== verification/NetlinkSocketProvider.v ===== *)
(** * Sockets from the kernel ([src/linux/netlink/])

[NetlinkSocket] (open, send, receive with the retry on an interrupted call) and
[NetlinkSocketProvider::query]: up to four dumps, one per protocol and family,
filtered, merged and sorted.  Both loops that wait for the kernel have no bound
in the code; they have a fuel here, and a run that uses it up does not end. *)

From S2P Require Import Prelude CppStd CppString Prog Domain Contracts OsCalls InetDiagCodec.
From Stdlib Require Import Ascii.

(** [std::tie(port, protocol, family, address)] *)
Definition socket_key (s : SocketInfo) : Z * (TransportProtocol * (AddressFamily * str)) :=
  (ep_port (si_local s), (si_protocol s, (si_family s, ep_address (si_local s)))).
Definition socket_leb (a b : SocketInfo) : bool := cmp_leb (socket_key a) (socket_key b).

(** [std::sort] with that comparison: sockets with equal keys come in any
order. *)
Class SocketSort := {
  sort_sockets : list SocketInfo -> list SocketInfo;
  sort_sockets_perm l : sort_sockets l ≡ₚ l;
  sort_sockets_sorted l : StronglySorted (fun a b => socket_leb a b = true) (sort_sockets l);
}.

(** The stable sort is one such function. *)
Lemma socket_leb_preorder : PreOrder (fun a b => socket_leb a b = true).
Proof.
  unfold socket_leb. split.
  - intros a. by apply cmp_leb_preorder.
  - intros a b c. apply (@PreOrder_Transitive _ _ cmp_leb_preorder).
Qed.
Definition stable_sockets : SocketSort :=
  {| sort_sockets := stable_sort socket_leb;
     sort_sockets_perm := stable_sort_perm socket_leb;
     sort_sockets_sorted :=
       stable_sort_sorted socket_leb socket_leb_preorder
         (fun a b => cmp_leb_total (socket_key a) (socket_key b)) |}.

Section Provider.
Context {messages : Messages} {socket_sort : SocketSort}.
Context (inet_ntop : AddressFamily -> list Z -> option str).
(** How often an interrupted call is repeated, how many datagrams a dump has. *)
Context (retries datagrams : nat).

(** ** NetlinkSocket.cpp *)

Definition netlink_error (errno : Z) (op : str) : Error :=
  mkError (if (errno =? EACCES) || (errno =? EPERM) then PermissionDenied else IoError)
    ($"Unable to " ++ op ++ $": " ++ system_message errno) errno $"netlink-socket" op.

Definition open : prog osE (Result unit) :=
  fd <- trigger NetlinkOpen ;;
  Ret (match fd with
       | inl errno => Failure (netlink_error errno $"open sock-diag socket")
       | inr _ => Success tt
       end).

Fixpoint send_loop (fuel : nat) (request : list Z) : prog osE (Result unit) :=
  match fuel with
  | O => forever
  | S fuel' =>
      answer <- trigger (NetlinkSend request) ;;
      match answer with
      | (sent, errno) =>
          if (sent <? 0) && (errno =? EINTR) then send_loop fuel' request
          else if (sent <? 0) || negb (sent =? Z.of_nat (length request)) then
            Ret (Failure (netlink_error errno $"send sock-diag request"))
          else Ret (Success tt)
      end
  end.
Definition send (request : list Z) : prog osE (Result unit) := send_loop retries request.

Fixpoint receive_loop (fuel : nat) : prog osE (Result (list Z)) :=
  match fuel with
  | O => forever
  | S fuel' =>
      answer <- trigger NetlinkReceive ;;
      match answer with
      | inl errno =>
          if errno =? EINTR then receive_loop fuel'
          else Ret (Failure (netlink_error errno $"receive sock-diag response"))
      | inr data => Ret (Success data)
      end
  end.
Definition receive : prog osE (Result (list Z)) := receive_loop retries.

(** ** NetlinkSocketProvider.cpp *)

Definition states_of (protocol : TransportProtocol) : Z :=
  match protocol with Tcp => Z.shiftl 1 10 | Udp => UINT32_MAX end.

Fixpoint dump_loop (fuel : nat) (sequence : Z) (protocol : TransportProtocol)
    (values : list SocketInfo) : prog osE (Result (list SocketInfo)) :=
  match fuel with
  | O => forever
  | S fuel' =>
      data <-? receive ;;
      match parseInetDiagDatagram inet_ntop data sequence protocol with
      | Failure error => Ret (Failure error)
      | Success batch =>
          let values := values ++ batch_sockets batch in
          if batch_done batch then Ret (Success values)
          else dump_loop fuel' sequence protocol values
      end
  end.

Definition one (family : AddressFamily) (protocol : TransportProtocol) (sequence : Z) :
  prog osE (Result (list SocketInfo)) :=
  sent <-? send (buildInetDiagRequest family protocol sequence (states_of protocol)) ;;
  dump_loop datagrams sequence protocol [].

(** The filters of [query] on a socket of a dump. *)
Definition accepts (q : SocketQuery) (protocol : TransportProtocol) (item : SocketInfo) : bool :=
  negb (bool_decide (protocol = Udp) && sq_listeningOnly q && bool_decide (is_Some (si_remote item))) &&
  match sq_localPort q with Some port => ep_port (si_local item) =? port | None => true end.

Record query_state := mkQueryState {
  qs_value : list SocketInfo; qs_warnings : list Warning; qs_last : option Error;
  qs_seq : Z; qs_attempts : nat; qs_failures : nat }.

Definition query_step (q : SocketQuery) (s : query_state) (target : TransportProtocol * AddressFamily) :
  prog osE query_state :=
  let '(protocol, family) := target in
  result <- one family protocol (qs_seq s) ;;
  Ret (match result with
       | Failure error =>
           mkQueryState (qs_value s) (qs_warnings s ++ [warningFrom error]) (Some error)
             (qs_seq s + 1) (S (qs_attempts s)) (S (qs_failures s))
       | Success items =>
           mkQueryState (qs_value s ++ List.filter (accepts q protocol) items) (qs_warnings s)
             (qs_last s) (qs_seq s + 1) (S (qs_attempts s)) (qs_failures s)
       end).

(** The protocols and families of the two loops, without those that are skipped. *)
Definition query_targets (q : SocketQuery) : list (TransportProtocol * AddressFamily) :=
  List.filter (fun t => match sq_protocol q with Some p => bool_decide (p = t.1) | None => true end)
    [(Tcp, IPv4); (Tcp, IPv6); (Udp, IPv4); (Udp, IPv6)].

Definition query (q : SocketQuery) : prog osE (Result (Observation (list SocketInfo))) :=
  opened <-? open ;;
  s <- for_each (query_step q) (query_targets q) (mkQueryState [] [] None 1 0 0) ;;
  Ret (match qs_last s with
       | Some error =>
           if (qs_failures s =? qs_attempts s)%nat then Failure error
           else Success (Observed (sort_sockets (qs_value s)) (qs_warnings s))
       | None => Success (Observed (sort_sockets (qs_value s)) (qs_warnings s))
       end).

(** ** What a dump returns *)

(** The datagrams a run received. *)
Definition received (tr : trace osE) : list (list Z) :=
  omap (fun ev => match ev with
    | Ev e a => match e in osE X return X -> option (list Z) with
                | NetlinkReceive => fun a => match a with inr data => Some data | inl _ => None end
                | _ => fun _ => None
                end a
    end) tr.

Lemma received_app tr1 tr2 : received (tr1 ++ tr2) = received tr1 ++ received tr2.
Proof. apply omap_app. Qed.

Lemma runs_send fuel request tr r : runs (send_loop fuel request) tr r -> received tr = [].
Proof.
  revert tr. induction fuel as [|fuel IH]; intros tr; cbn [send_loop].
  - by intros ?%runs_forever.
  - intros (t1 & [sent errno] & t2 & -> & ->%runs_trigger & H)%runs_bind.
    rewrite received_app. simpl. destruct (_ && _); [by apply IH|].
    destruct (_ || _); by destruct H as [-> ->].
Qed.

Lemma runs_receive fuel tr r :
  runs (receive_loop fuel) tr r ->
  received tr = match r with Success data => [data] | Failure _ => [] end.
Proof.
  revert tr. induction fuel as [|fuel IH]; intros tr; cbn [receive_loop].
  - by intros ?%runs_forever.
  - intros (t1 & answer & t2 & -> & ->%runs_trigger & H)%runs_bind.
    rewrite received_app. simpl. destruct answer as [errno|data].
    + destruct (errno =? EINTR); [by apply IH|]. by destruct H as [-> ->].
    + by destruct H as [-> ->].
Qed.

(** The datagrams of a complete dump: each is a batch of this request, and only
the last one says that the dump is done. *)
Definition complete_dump (sequence : Z) (protocol : TransportProtocol) (tr : trace osE)
    (values : list SocketInfo) : Prop :=
  exists first last,
    Forall2 (fun data batch =>
      parseInetDiagDatagram inet_ntop data sequence protocol = Success batch)
      (received tr) (first ++ [last]) /\
    Forall (fun batch => batch_done batch = false) first /\ batch_done last = true /\
    values = concat (map batch_sockets (first ++ [last])).

Lemma dump_loop_complete fuel sequence protocol values0 tr values :
  runs (dump_loop fuel sequence protocol values0) tr (Success values) ->
  exists dumped, values = values0 ++ dumped /\ complete_dump sequence protocol tr dumped.
Proof.
  revert values0 tr. induction fuel as [|fuel IH]; intros values0 tr; cbn [dump_loop].
  - by intros ?%runs_forever.
  - intros [(error & _ & ?)|(t1 & data & t2 & -> & H1%runs_receive & H)]%runs_bindR; [done|].
    unfold complete_dump. rewrite received_app, H1. simpl.
    destruct (parseInetDiagDatagram inet_ntop data sequence protocol) as [batch|] eqn:E;
      [|by destruct H].
    destruct (batch_done batch) eqn:Ed.
    + destruct H as [-> [= ->]]. exists (batch_sockets batch). split; [done|].
      exists [], batch. simpl. rewrite app_nil_r.
      split_and!; [repeat constructor; done|constructor|done|done].
    + apply IH in H as (dumped & -> & first & last & Hf & Hd & Hl & ->).
      eexists. split; [by rewrite <- app_assoc|].
      exists (batch :: first), last.
      split_and!; [by constructor|by constructor|done|done].
Qed.

Lemma one_complete family protocol sequence tr values :
  runs (one family protocol sequence) tr (Success values) -> complete_dump sequence protocol tr values.
Proof.
  intros [(error & _ & ?)|(t1 & u & t2 & -> & H1%runs_send & H)]%runs_bindR; [done|].
  apply dump_loop_complete in H as (dumped & -> & H).
  unfold complete_dump in *. rewrite received_app, H1. done.
Qed.

(** Sockets of the codec have the protocol of the request and no owner. *)
Definition plain (protocol : TransportProtocol) (s : SocketInfo) : Prop :=
  si_protocol s = protocol /\ si_ownerPids s = [].

Lemma parse_socket_plain payload protocol s :
  parse_socket inet_ntop payload protocol = Success s -> plain protocol s.
Proof.
  unfold parse_socket. intros H. repeat (case_match; simplify_eq/=; try done).
Qed.

Lemma parse_loop_plain fuel data sequence protocol batch batch' :
  Forall (plain protocol) (batch_sockets batch) ->
  parse_loop inet_ntop fuel data sequence protocol batch = Success batch' ->
  Forall (plain protocol) (batch_sockets batch').
Proof.
  revert data batch. induction fuel as [|fuel IH]; intros data batch Hb; cbn [parse_loop].
  - by intros [= <-].
  - destruct data as [|b data]; [by intros [= <-]|].
    destruct (_ <? _)%nat; [done|]. destruct (_ || _); [done|]. destruct (negb _); [done|].
    destruct (parse_message _ _ _ _ _) as [b1|] eqn:E; [|done].
    assert (Hb1 : Forall (plain protocol) (batch_sockets b1)).
    { unfold parse_message in E. repeat (case_match; simplify_eq/=; try done).
      apply Forall_app. split; [done|]. constructor; [|constructor]. by eapply parse_socket_plain. }
    destruct (_ <? _); [destruct (negb _); [done|by intros [= <-]]|by apply IH].
Qed.

Lemma complete_dump_plain sequence protocol tr values :
  complete_dump sequence protocol tr values -> Forall (plain protocol) values.
Proof.
  intros (first & last & Hf & _ & _ & ->).
  induction Hf as [|data batch l l' Hp _ IH]; simpl; [constructor|].
  apply Forall_app. split; [|done]. by eapply parse_loop_plain; [|exact Hp].
Qed.

(** ** The loop over protocols and families *)

(** The outcome of a dump with what was asked for. *)
Abbreviation outcome := (TransportProtocol * AddressFamily * Result (list SocketInfo))%type.

Definition kept (q : SocketQuery) (out : outcome) : list SocketInfo :=
  match out.2 with Success items => List.filter (accepts q out.1.1) items | Failure _ => [] end.
Definition failed (out : outcome) : list Error :=
  match out.2 with Success _ => [] | Failure error => [error] end.

(** The dump number [i] used the sequence number [1 + i]. *)
Definition dumped (out : outcome) (i : nat) : Prop :=
  exists tr, runs (one out.1.2 out.1.1 (1 + Z.of_nat i)) tr out.2.

Definition queried (q : SocketQuery) (targets : list (TransportProtocol * AddressFamily))
    (tr : trace osE) (s : query_state) : Prop :=
  exists outs, map fst outs = targets /\
    (forall i out, outs !! i = Some out -> dumped out i) /\
    qs_value s = concat (map (kept q) outs) /\
    qs_warnings s = map warningFrom (concat (map failed outs)) /\
    qs_last s = last (concat (map failed outs)) /\
    qs_seq s = 1 + Z.of_nat (length outs) /\
    qs_attempts s = length outs /\ qs_failures s = length (concat (map failed outs)).

Lemma query_loop q targets tr s :
  runs (for_each (query_step q) targets (mkQueryState [] [] None 1 0 0)) tr s -> queried q targets tr s.
Proof.
  apply (for_each_ind (query_step q) (queried q)).
  - exists []. split_and!; done.
  - clear. intros targets tr s [protocol family] tr' s' (outs & <- & H1 & H2 & H3 & H4 & H5 & H6 & H7) Hr.
    apply runs_bind in Hr as (t1 & result & t2 & -> & Hr & [-> ->]).
    exists (outs ++ [(protocol, family, result)]).
    rewrite !map_app, !concat_app, !length_app. simpl. rewrite !app_nil_r.
    assert (Hd : forall i out, (outs ++ [(protocol, family, result)]) !! i = Some out -> dumped out i).
    { intros i out [H|[Hi H]]%lookup_app_Some; [by apply H1|].
      apply list_lookup_singleton_Some in H as [Hz <-]. exists t1. simpl.
      replace i with (length outs) by lia. by rewrite <- H5. }
    split; [done|]. split; [done|].
    destruct result as [items|error]; simpl; rewrite ?app_nil_r.
    + split_and!; [by rewrite H2|done|done|lia|lia|lia].
    + change (failed (protocol, family, Failure error)) with [error].
      split_and!; [done|by rewrite H3, map_app|by rewrite last_snoc|lia|lia|lia].
Qed.

Lemma runs_query q tr r :
  runs (query q) tr r ->
  (exists errno, r = Failure (netlink_error errno $"open sock-diag socket")) \/
  exists outs, map fst outs = query_targets q /\
    (forall i out, outs !! i = Some out -> dumped out i) /\
    r = match last (concat (map failed outs)) with
        | Some error =>
            if (length (concat (map failed outs)) =? length outs)%nat then Failure error
            else Success (Observed (sort_sockets (concat (map (kept q) outs)))
                            (map warningFrom (concat (map failed outs))))
        | None => Success (Observed (sort_sockets (concat (map (kept q) outs))) [])
        end.
Proof.
  intros [(error & H & ->)|(t1 & u & t2 & -> & _ & H)]%runs_bindR.
  { left. apply runs_bind in H as (? & fd & ? & _ & _ & [_ H]).
    destruct fd as [errno|]; [|done]. injection H as ->. eauto. }
  right. apply runs_bind in H as (t3 & s & t4 & -> & H & [-> ->]).
  apply query_loop in H as (outs & Ht & Hd & -> & -> & -> & _ & -> & ->).
  exists outs. split; [done|]. split; [done|].
  destruct (last (concat (map failed outs))) eqn:E; [done|]. apply last_None in E. by rewrite E.
Qed.

Lemma failed_le outs : (length (concat (map failed outs)) <= length outs)%nat.
Proof.
  induction outs as [|out outs IH]; simpl; [lia|]. rewrite length_app. unfold failed at 1.
  destruct out.2; simpl; lia.
Qed.

Lemma kept_plain q out i : dumped out i -> Forall (plain out.1.1) (kept q out).
Proof.
  intros [tr H]. unfold kept. destruct out.2 as [items|]; [|constructor].
  apply one_complete, complete_dump_plain in H. apply Forall_forall. intros s Hs.
  rewrite list_elem_of_In, List.filter_In, <- list_elem_of_In in Hs.
  rewrite Forall_forall in H. apply H. tauto.
Qed.

Lemma elem_of_kept q outs s :
  s ∈ concat (map (kept q) outs) <-> exists out, out ∈ outs /\ s ∈ kept q out.
Proof.
  rewrite list_elem_of_In, in_concat. split.
  - intros (l & (out & <- & Ho)%in_map_iff & Hs). exists out. by rewrite !list_elem_of_In.
  - intros (out & Ho & Hs). exists (kept q out). rewrite in_map_iff, <- !list_elem_of_In.
    split; [|done]. exists out. by rewrite <- list_elem_of_In.
Qed.

Lemma elem_of_kept_items q outs s :
  s ∈ concat (map (kept q) outs) <-> exists (out : outcome) items,
    out ∈ outs /\ out.2 = Success items /\ s ∈ items /\ accepts q out.1.1 s = true.
Proof.
  rewrite elem_of_kept. unfold kept. split.
  - intros (out & Ho & Hs). destruct (out.2) as [items|] eqn:E; [|by apply elem_of_nil in Hs].
    rewrite list_elem_of_In, List.filter_In, <- list_elem_of_In in Hs. exists out, items. tauto.
  - intros (out & items & Ho & E & Hs & Ha). exists out. split; [done|]. rewrite E.
    by rewrite list_elem_of_In, List.filter_In, <- list_elem_of_In.
Qed.

Lemma all_failed (outs : list outcome) error :
  length (concat (map failed outs)) = length outs -> last (concat (map failed outs)) = Some error ->
  outs <> [] /\ Forall (fun out => hasValue out.2 = false) outs /\
  last (map snd outs) = Some (Failure error).
Proof.
  intros Hlen Hl.
  assert (H : Forall (fun out : outcome => hasValue out.2 = false) outs /\
              map Failure (concat (map failed outs)) = map snd outs).
  { clear Hl. induction outs as [|out outs IH]; [done|]. simpl in *. rewrite length_app in Hlen.
    pose proof (failed_le outs). unfold failed in *. destruct out as [t [items|e]]; simpl in *; [lia|].
    destruct IH as [H1 H2]; [lia|]. split; [by constructor|]. by rewrite H2. }
  destruct H as [H1 H2]. split_and!; [by intros ->|done|].
  rewrite <- H2. change (map Failure ?l) with (@Failure (list SocketInfo) <$> l).
  by rewrite fmap_last, Hl.
Qed.

Lemma query_no_owners q tr o :
  runs (query q) tr (Success o) -> Forall (fun s => si_ownerPids s = []) (obs_value o).
Proof.
  intros [(errno & ?)|(outs & _ & Hd & H)]%runs_query; [done|].
  assert (E : obs_value o = sort_sockets (concat (map (kept q) outs))).
  { destruct (last _); [|by injection H as ->]. destruct (_ =? _)%nat; [done|by injection H as ->]. }
  rewrite E, sort_sockets_perm. apply Forall_forall. intros s (out & Ho & Hs)%elem_of_kept.
  apply list_elem_of_lookup in Ho as [i Ho].
  specialize (kept_plain q out i (Hd i out Ho)). rewrite Forall_forall. intros Hk. by apply Hk.
Qed.
End Provider.

(** ** Properties *)


(** A dump of TCP and IPv4 in two datagrams, the next one refused. *)
Definition example_dumps : os_machine :=
  mkOsMachine [] [] [] []
    [encode_socket 1 example_diag; encode_done 1;
     encode_header 36 NLMSG_ERROR 0 2 0 ++ put_le 4 (2 ^ 32 - 2) ++ repeat 0 16].

