(* ===== verification/LinuxSignalProvider.v ===== *)
(** * Signals and process handles ([src/linux/process/])

[PidFd] and [LinuxSignalProvider]: sending through a process handle with the
fall-back to [kill], waiting for an exit, and the capabilities.  The handle is a
C++ object whose destructor closes the descriptor: the model makes the close a
call at the end of the scope. *)

From S2P Require Import Prelude CppStd CppString Prog Domain OsCalls.
From Stdlib Require Import Ascii.

Variant signalE : Type -> Type :=
| PidfdOpen (pid : Z) : signalE (Z + Z)          (* errno, or the descriptor *)
| PidfdSendSignal (fd number : Z) : signalE (Z + unit)
| Poll (fd timeout : Z) : signalE (Z * Z)        (* status, errno *)
| Close (fd : Z) : signalE unit
| KillCall (pid number : Z) : signalE (Z + unit)
| WaitId (pid : Z) : signalE (option Z)          (* si_pid when it succeeds *)
| Clock : signalE Z                              (* steady_clock, nanoseconds *)
| Sleep (milliseconds : Z) : signalE unit
| OwnPid : signalE Z
| NeverEnds : signalE Empty_set.

Definition never_ends {A} : prog signalE A := Vis NeverEnds (fun e : Empty_set => match e with end).
Lemma runs_never_ends {A} tr (a : A) : ~ runs never_ends tr a.
Proof. by intros ([] & _). Qed.

Definition SIGKILL : Z := 9.
Definition SIGTERM : Z := 15.

Definition nativeSignal (signal : ProcessSignal) : Z :=
  match signal with Terminate => SIGTERM | Kill => SIGKILL end.

Inductive PidFdPolicy := Auto | Disabled.

Section Provider.
Context {messages : Messages}.
(** [pidFdPolicy_], and how often an interrupted poll and the polling of a
process are repeated before the run counts as endless. *)
Context (pidFdPolicy : PidFdPolicy) (retries rounds : nat).

(** ** PidFd.cpp (built with the pidfd system calls) *)

Definition pidfd_code (number : Z) : ErrorCode :=
  if (number =? ENOSYS) || (number =? EINVAL) then Unsupported
  else if (number =? ESRCH) || (number =? ENOENT) then NotFound
  else if (number =? EPERM) || (number =? EACCES) then PermissionDenied else IoError.

Definition pidfd_error (number : Z) (operation : str) : Error :=
  mkError (pidfd_code number) ($"Unable to " ++ operation ++ $": " ++ system_message number)
    number $"pidfd" operation.

Definition pidfd_open (pid : Z) : prog signalE (Result Z) :=
  fd <- trigger (PidfdOpen pid) ;;
  Ret (match fd with
       | inl errno => Failure (pidfd_error errno $"open process handle")
       | inr fd => Success fd
       end).

Definition pidfd_send (fd : Z) (signal : ProcessSignal) : prog signalE (Result unit) :=
  sent <- trigger (PidfdSendSignal fd (nativeSignal signal)) ;;
  Ret (match sent with
       | inl errno => Failure (pidfd_error errno $"send process signal")
       | inr _ => Success tt
       end).

(** The argument of [poll]: an [int], from a count of milliseconds. *)
Definition bounded_timeout (timeout : Z) : Z :=
  if INT_MAX <? timeout then INT_MAX else Z.max timeout 0.

Fixpoint poll_loop (fuel : nat) (fd bounded : Z) : prog signalE (Result bool) :=
  match fuel with
  | O => never_ends
  | S fuel' =>
      answer <- trigger (Poll fd bounded) ;;
      match answer with
      | (status, errno) =>
          if (status <? 0) && (errno =? EINTR) then poll_loop fuel' fd bounded
          else if 0 <? status then Ret (Success true)
          else if status =? 0 then Ret (Success false)
          else Ret (Failure (pidfd_error errno $"wait for process exit"))
      end
  end.
Definition pidfd_waitForExit (fd timeout : Z) : prog signalE (Result bool) :=
  poll_loop retries fd (bounded_timeout timeout).

(** ** LinuxSignalProvider.cpp *)

Definition provider_code (number : Z) : ErrorCode :=
  if number =? ESRCH then NotFound
  else if (number =? EPERM) || (number =? EACCES) then PermissionDenied else IoError.

Definition makeError (number : Z) (operation : str) : Error :=
  mkError (provider_code number) ($"Unable to " ++ operation ++ $": " ++ system_message number)
    number $"linux-signal-provider" operation.

Definition sendWithKill (pid : Z) (signal : ProcessSignal) : prog signalE (Result SignalDelivery) :=
  sent <- trigger (KillCall pid (nativeSignal signal)) ;;
  Ret (match sent with
       | inl errno => Failure (makeError errno $"send signal")
       | inr _ => Success (mkSignalDelivery pid signal ByKill)
       end).

Definition exitedWithKill (pid : Z) : prog signalE (Result bool) :=
  information <- trigger (WaitId pid) ;;
  if match information with Some si_pid => si_pid =? pid | None => false end then Ret (Success true)
  else
    alive <- trigger (KillCall pid 0) ;;
    Ret (match alive with
         | inr _ => Success false
         | inl errno =>
             if errno =? EPERM then Success false
             else if errno =? ESRCH then Success true
             else Failure (makeError errno $"check process lifecycle")
         end).

Definition is_Unsupported (error : Error) : bool := bool_decide (err_code error = Unsupported).

(** The handle is closed when its scope ends: after the result is made, or
before the fall-back. *)
Definition send (pid : Z) (signal : ProcessSignal) : prog signalE (Result SignalDelivery) :=
  match pidFdPolicy with
  | Disabled => sendWithKill pid signal
  | Auto =>
      handle <- pidfd_open pid ;;
      match handle with
      | Success fd =>
          sent <- pidfd_send fd signal ;;
          trigger (Close fd) ;;
          match sent with
          | Success _ => Ret (Success (mkSignalDelivery pid signal ByPidFd))
          | Failure error =>
              if negb (is_Unsupported error) then Ret (Failure error) else sendWithKill pid signal
          end
      | Failure error =>
          if negb (is_Unsupported error) then Ret (Failure error) else sendWithKill pid signal
      end
  end.

(** One millisecond in nanoseconds. *)
Definition ms : Z := 1000000.

Fixpoint wait_loop (fuel : nat) (pid deadline : Z) : prog signalE (Result bool) :=
  match fuel with
  | O => never_ends
  | S fuel' =>
      exited <- exitedWithKill pid ;;
      match exited with
      | Failure error => Ret (Failure error)
      | Success true => Ret (Success true)
      | Success false =>
          now <- trigger Clock ;;
          if deadline <=? now then Ret (Success false)
          else
            trigger (Sleep (Z.min 10 ((deadline - now) / ms))) ;;
            wait_loop fuel' pid deadline
      end
  end.

Definition wait_with_kill (pid timeout : Z) : prog signalE (Result bool) :=
  start <- trigger Clock ;;
  wait_loop rounds pid (start + Z.max timeout 0 * ms).

Definition waitForExit (pid timeout : Z) : prog signalE (Result bool) :=
  match pidFdPolicy with
  | Disabled => wait_with_kill pid timeout
  | Auto =>
      handle <- pidfd_open pid ;;
      match handle with
      | Success fd =>
          exited <- pidfd_waitForExit fd timeout ;;
          trigger (Close fd) ;;
          Ret exited
      | Failure error =>
          if bool_decide (err_code error = NotFound) then Ret (Success true)
          else if negb (is_Unsupported error) then Ret (Failure error)
          else wait_with_kill pid timeout
      end
  end.

Definition capabilities : prog signalE SignalCapabilities :=
  match pidFdPolicy with
  | Disabled => Ret (mkSignalCapabilities true false)
  | Auto =>
      pid <- trigger OwnPid ;;
      handle <- pidfd_open pid ;;
      match handle with
      | Success fd => trigger (Close fd) ;; Ret (mkSignalCapabilities true true)
      | Failure _ => Ret (mkSignalCapabilities true false)
      end
  end.
End Provider.

(** ** What a run did to the system *)

(** The descriptors of process handles still open after a run that starts with
none; [None] when one is closed that is not open. *)
Fixpoint open_handles (opened : list Z) (tr : trace signalE) : option (list Z) :=
  match tr with
  | [] => Some opened
  | Ev e a :: tr' =>
      match e in signalE X return X -> option (list Z) with
      | PidfdOpen _ => fun a =>
          match a with inr fd => open_handles (fd :: opened) tr' | inl _ => open_handles opened tr' end
      | Close fd => fun _ =>
          match opened with
          | fd' :: opened' => if fd =? fd' then open_handles opened' tr' else None
          | [] => None
          end
      | _ => fun _ => open_handles opened tr'
      end a
  end.

(** The signals the kernel accepted, with the process of the handle or of the
call; signal 0 only asks. *)
Fixpoint delivered (handle : option Z) (tr : trace signalE) : list (Z * Z) :=
  match tr with
  | [] => []
  | Ev e a :: tr' =>
      match e in signalE X return X -> list (Z * Z) with
      | PidfdOpen pid => fun a =>
          delivered (match a with inr _ => Some pid | inl _ => handle end) tr'
      | PidfdSendSignal _ number => fun a =>
          match a, handle with
          | inr _, Some pid => (pid, number) :: delivered handle tr'
          | _, _ => delivered handle tr'
          end
      | KillCall pid number => fun a =>
          match a with
          | inr _ => if number =? 0 then delivered handle tr' else (pid, number) :: delivered handle tr'
          | inl _ => delivered handle tr'
          end
      | _ => fun _ => delivered handle tr'
      end a
  end.

(** [kill] was only reached because handles are disabled or unsupported. *)
Definition unsupported_event (ev : event signalE) : Prop :=
  match ev with
  | Ev e a =>
      match e in signalE X return X -> Prop with
      | PidfdOpen _ => fun a => exists errno, a = inl errno /\ pidfd_code errno = Unsupported
      | PidfdSendSignal _ _ => fun a => exists errno, a = inl errno /\ pidfd_code errno = Unsupported
      | _ => fun _ => False
      end a
  end.

(** A clock that advances: every reading is later than the one before, and a
sleep lasts at least as long as asked. *)
Fixpoint clock_advances (last : Z) (tr : trace signalE) : Prop :=
  match tr with
  | [] => True
  | Ev e x :: tr' =>
      match e in signalE X return X -> Prop with
      | Clock => fun now => last < now /\ clock_advances now tr'
      | Sleep n => fun _ => clock_advances (last + n * ms) tr'
      | _ => fun _ => clock_advances last tr'
      end x
  end.

Section Facts.
Context {messages : Messages}.

Lemma open_handles_app opened tr1 tr2 :
  open_handles opened (tr1 ++ tr2) =
  match open_handles opened tr1 with Some opened' => open_handles opened' tr2 | None => None end.
Proof.
  revert opened. induction tr1 as [|[X e x] tr1 IH]; intros opened; simpl; [done|].
  destruct e; try apply IH; [by destruct x|]. destruct opened as [|fd' opened]; [done|].
  by destruct (fd =? fd').
Qed.

(** Runs that neither open nor close a handle nor deliver a signal. *)
Definition observing (ev : event signalE) : Prop :=
  match ev with
  | Ev e a =>
      match e in signalE X return X -> Prop with
      | PidfdOpen _ | PidfdSendSignal _ _ | Close _ => fun _ => False
      | KillCall _ number => fun _ => number = 0
      | Poll _ timeout => fun _ => 0 <= timeout <= INT_MAX
      | _ => fun _ => True
      end a
  end.

Lemma observing_trace tr opened handle rest :
  Forall observing tr ->
  open_handles opened (tr ++ rest) = open_handles opened rest /\
  delivered handle (tr ++ rest) = delivered handle rest.
Proof.
  induction 1 as [|[X e x] tr He _ IH]; [done|]. simpl. destruct e; simpl in He; try done.
  subst number. by destruct x.
Qed.

(** What shows that a process has exited. *)
Definition shows_exit (pid : Z) (ev : event signalE) : Prop :=
  match ev with
  | Ev e a =>
      match e in signalE X return X -> Prop with
      | Poll _ _ => fun a => 0 < a.1
      | WaitId p => fun a => p = pid /\ a = Some pid
      | KillCall p number => fun a => p = pid /\ number = 0 /\ a = inl ESRCH
      | PidfdOpen p => fun a => p = pid /\ exists errno, a = inl errno /\ pidfd_code errno = NotFound
      | _ => fun _ => False
      end a
  end.

Lemma runs_exitedWithKill pid tr r :
  runs (exitedWithKill pid) tr r ->
  Forall observing tr /\ (r = Success true -> Exists (shows_exit pid) tr).
Proof.
  unfold exitedWithKill. intros (t1 & info & t2 & -> & ->%runs_trigger & H)%runs_bind.
  destruct info as [p|]; [destruct (Z.eqb_spec p pid) as [->|]|].
  - destruct H as [-> ->]. split; [repeat constructor|]. intros _. apply Exists_cons. by left.
  - apply runs_bind in H as (t3 & alive & t4 & -> & ->%runs_trigger & [-> ->]).
    split; [repeat constructor|]. destruct alive as [errno|[]]; [|done].
    destruct (Z.eqb_spec errno EPERM); [done|]. destruct (Z.eqb_spec errno ESRCH) as [->|]; [|done].
    intros _. simpl. apply Exists_cons. right. apply Exists_cons. by left.
  - apply runs_bind in H as (t3 & alive & t4 & -> & ->%runs_trigger & [-> ->]).
    split; [repeat constructor|]. destruct alive as [errno|[]]; [|done].
    destruct (Z.eqb_spec errno EPERM); [done|]. destruct (Z.eqb_spec errno ESRCH) as [->|]; [|done].
    intros _. simpl. apply Exists_cons. right. apply Exists_cons. by left.
Qed.

Lemma runs_wait_loop fuel pid deadline tr r :
  runs (wait_loop fuel pid deadline) tr r ->
  Forall observing tr /\ (r = Success true -> Exists (shows_exit pid) tr).
Proof.
  revert tr. induction fuel as [|fuel IH]; intros tr; cbn [wait_loop]; [by intros ?%runs_never_ends|].
  intros (t1 & exited & t2 & -> & H1 & H)%runs_bind.
  apply runs_exitedWithKill in H1 as [Ho He]. destruct exited as [[]|error].
  - destruct H as [-> ->]. rewrite app_nil_r. auto.
  - apply runs_bind in H as (t3 & now & t4 & -> & ->%runs_trigger & H).
    destruct (deadline <=? now).
    + destruct H as [-> ->]. split; [|done]. apply Forall_app. split; [done|]. by repeat constructor.
    + apply runs_bind in H as (t5 & u & t6 & -> & ->%runs_trigger & H). apply IH in H as [Ho' He'].
      split; [apply Forall_app; split; [done|]; by repeat constructor|].
      intros E. apply Exists_app. right. do 2 (apply Exists_cons; right). auto.
  - destruct H as [-> ->]. rewrite app_nil_r. split; [done|]. by intros [=].
Qed.

Lemma runs_poll_loop fuel fd bounded pid tr r :
  0 <= bounded <= INT_MAX -> runs (poll_loop fuel fd bounded) tr r ->
  Forall observing tr /\ (r = Success true -> Exists (shows_exit pid) tr).
Proof.
  intros Hb. revert tr. induction fuel as [|fuel IH]; intros tr; cbn [poll_loop];
    [by intros ?%runs_never_ends|].
  intros (t1 & [status errno] & t2 & -> & ->%runs_trigger & H)%runs_bind.
  destruct (_ && _).
  - apply IH in H as [Ho He]. split; [by constructor|]. intros E. apply Exists_cons. auto.
  - destruct (Z.ltb_spec 0 status); [|destruct (status =? 0)]; destruct H as [-> ->];
      (split; [constructor; [done|constructor]|]); try by intros [=].
    intros _. apply Exists_cons. by left.
Qed.

Lemma bounded_timeout_range timeout : 0 <= bounded_timeout timeout <= INT_MAX.
Proof.
  unfold bounded_timeout. destruct (Z.ltb_spec INT_MAX timeout); [by vm_compute|].
  assert (0 <= INT_MAX) by done. lia.
Qed.

Lemma sendWithKill_once pid signal tr r handle :
  runs (sendWithKill pid signal) tr r ->
  open_handles [] tr = Some [] /\
  match r with
  | Success d => delivered handle tr = [(pid, nativeSignal signal)] /\
      d = mkSignalDelivery pid signal ByKill
  | Failure error => delivered handle tr = []
  end.
Proof.
  intros (t1 & sent & t2 & -> & ->%runs_trigger & [-> ->])%runs_bind. split; [done|].
  destruct sent as [errno|[]]; simpl; [done|]. by destruct signal.
Qed.

(** ** The wait ends *)

Definition at_NeverEnds (X : Type) (e : signalE X) : Prop :=
  match e with NeverEnds => True | _ => False end.

Lemma clock_advances_app last tr1 tr2 :
  Forall (fun ev => match ev with Ev e _ =>
    match e with Sleep n => 0 <= n | _ => True end end) tr1 ->
  clock_advances last (tr1 ++ tr2) -> exists last', last <= last' /\ clock_advances last' tr2.
Proof.
  intros H. revert last. induction H as [|[X e x] tr He _ IH]; intros last; simpl.
  - intros Hc. exists last. split; [lia|done].
  - destruct e; simpl in He; try apply IH.
    + intros [Hlt (l & ? & ?)%IH]. exists l. split; [lia|done].
    + intros (l & ? & ?)%IH. exists l. split; [unfold ms in *; lia|done].
Qed.

Lemma exitedWithKill_silent pid tr : ~ waits_at at_NeverEnds (exitedWithKill pid) tr.
Proof.
  unfold exitedWithKill. intros [H|(t1 & info & t2 & -> & _ & H)]%waits_at_bind.
  - destruct H as [[_ []]|(? & ? & _ & [])].
  - destruct (match info with Some p => p =? pid | None => false end); [by destruct H|].
    apply waits_at_bind in H as [[[_ []]|(? & ? & _ & [])]|(? & ? & ? & _ & _ & [])].
Qed.

Lemma runs_exitedWithKill_no_sleep pid tr r :
  runs (exitedWithKill pid) tr r ->
  Forall (fun ev => match ev with Ev e _ =>
    match e with Sleep n => 0 <= n | _ => True end end) tr.
Proof.
  unfold exitedWithKill. intros (t1 & info & t2 & -> & ->%runs_trigger & H)%runs_bind.
  destruct (match info with Some p => p =? pid | None => false end).
  - destruct H as [-> _]. by repeat constructor.
  - apply runs_bind in H as (t3 & alive & t4 & -> & ->%runs_trigger & [-> _]). by repeat constructor.
Qed.

(** Each round reads a later time, until the deadline. *)
Lemma wait_loop_ends fuel pid deadline last tr :
  deadline - last < Z.of_nat fuel -> (0 < fuel)%nat -> clock_advances last tr ->
  ~ waits_at at_NeverEnds (wait_loop fuel pid deadline) tr.
Proof.
  revert last tr. induction fuel as [|fuel IH]; intros last tr Hf H0 Hc; [lia|]. cbn [wait_loop].
  intros [H%exitedWithKill_silent|(t1 & exited & t2 & -> & H1 & H)]%waits_at_bind; [done|].
  destruct exited as [[]|error]; [done| |done].
  apply clock_advances_app in Hc as (l1 & Hl1 & Hc); [|by eapply runs_exitedWithKill_no_sleep].
  apply waits_at_bind in H as [[[_ []]|(? & ? & _ & [])]|(t3 & now & t4 & -> & ->%runs_trigger & H)].
  destruct (Z.leb_spec deadline now) as [|Hlt]; [done|].
  apply waits_at_bind in H as [[[_ []]|(? & ? & _ & [])]|(t5 & u & t6 & -> & ->%runs_trigger & H)].
  simpl in Hc. destruct Hc as [Hnow Hc].
  assert (0 <= Z.min 10 ((deadline - now) / ms)).
  { apply Z.min_glb; [lia|]. apply Z.div_pos; [lia|done]. }
  revert H. apply (IH (now + Z.min 10 ((deadline - now) / ms) * ms)); [unfold ms in *; lia|lia|done].
Qed.
(** An interrupted poll starts again with the whole timeout: with [n] interruptions the
wait lasts up to [n + 1] times as long as asked. *)
Lemma poll_restarts n fd bounded :
  runs (poll_loop (S n) fd bounded)
    (repeat (Ev (Poll fd bounded) (-1, EINTR)) n ++ [Ev (Poll fd bounded) (0, 0)]) (Success false).
Proof.
  induction n as [|n IH].
  - exists (0, 0), []. by split.
  - exists (-1, EINTR). eexists. split; [reflexivity|exact IH].
Qed.

(** In the last millisecond before the deadline the sleep is none. *)
Lemma last_millisecond_spins fuel pid deadline now si_pid sent :
  0 < deadline - now < ms -> si_pid <> pid ->
  forall tr r, runs (wait_loop fuel pid deadline) tr r ->
  runs (wait_loop (S fuel) pid deadline)
    ([Ev (WaitId pid) (Some si_pid); Ev (KillCall pid 0) (inr sent); Ev Clock now; Ev (Sleep 0) tt] ++ tr) r.
Proof.
  intros Hd Hp tr r H. assert (deadline <=? now = false) as E by lia.
  cbn [wait_loop]. exists (Some si_pid). eexists. split; [reflexivity|].
  cbn. rewrite (proj2 (Z.eqb_neq _ _) Hp).
  exists (inr sent). eexists. split; [reflexivity|].
  exists now. eexists. split; [reflexivity|]. cbn. rewrite E.
  replace (Z.min 10 ((deadline - now) / ms)) with 0 by (rewrite Z.div_small by lia; lia).
  exists tt. eexists. split; [reflexivity|exact H].
Qed.

End Facts.

(** ** Properties *)

(** C30. [LinuxSignalProvider::send] delivers at most once and says the truth: it
succeeds exactly when the kernel accepted the signal, once, for that PID, and fails
when it accepted none; [kill] is used only when process handles are disabled or
the kernel does not support them; every handle is closed. *)
Theorem send_once (messages : Messages) policy pid signal tr r :
  runs (send policy pid signal) tr r ->
  open_handles [] tr = Some [] /\
  match r with
  | Success d =>
      delivered None tr = [(pid, nativeSignal signal)] /\
      sd_pid d = pid /\ sd_signal d = signal /\
      (sd_mechanism d = ByKill -> policy = Disabled \/ Exists unsupported_event tr)
  | Failure error => delivered None tr = []
  end.
Proof.
  unfold send. destruct policy.
  2: { intros H. destruct (sendWithKill_once _ _ _ _ None H) as [Ho Hr]. split; [done|].
       destruct r as [d|]; [|done]. destruct Hr as [-> ->]. auto. }
  intros (t1 & handle & t2 & -> & H1 & H)%runs_bind.
  apply runs_bind in H1 as (t3 & fd & t4 & -> & ->%runs_trigger & [-> ->]). rewrite app_nil_r.
  destruct fd as [errno|fd]; cbn [app].
  - unfold is_Unsupported in H. cbn [err_code pidfd_error] in H. case_bool_decide as E; simpl in H.
    + destruct (sendWithKill_once _ _ _ _ None H) as [Ho Hr]. split; [done|].
      destruct r as [d|]; [|done]. destruct Hr as [Hd ->]. split_and!; try done.
      intros _. right. apply Exists_cons. left. exists errno. done.
    + by destruct H as [-> ->].
  - apply runs_bind in H as (t5 & sent & t6 & -> & H2 & H).
    apply runs_bind in H2 as (t7 & ans & t8 & -> & ->%runs_trigger & [-> ->]).
    apply runs_bind in H as (t9 & u & t10 & -> & ->%runs_trigger & H).
    destruct ans as [errno|[]]; simpl in *; rewrite Z.eqb_refl.
    + unfold is_Unsupported in H. cbn [err_code pidfd_error] in H. case_bool_decide as E; simpl in H.
      * destruct (sendWithKill_once _ _ _ _ (Some pid) H) as [Ho Hr]. split; [done|].
        destruct r as [d|]; [|done]. destruct Hr as [Hd ->]. split_and!; try done.
        intros _. right. apply Exists_cons. right. apply Exists_cons. left. exists errno. done.
      * by destruct H as [-> ->].
    + by destruct H as [-> ->].
Qed.

Definition signal_sim (X : Type) (e : signalE X) (now : Z) : option (X * Z) :=
  match e in signalE X return option (X * Z) with
  | PidfdOpen _ => Some (inr 5, now)
  | PidfdSendSignal _ _ => Some (inl ENOSYS, now)
  | Poll _ _ => Some ((1, 0), now)
  | Close _ => Some (tt, now)
  | KillCall _ number => Some (inr tt, now)
  | WaitId _ => Some (None, now)
  | Clock => Some (now + 1, now + 1)
  | Sleep n => Some (tt, now + n * ms)
  | OwnPid => Some (999, now)
  | NeverEnds => None
  end.

(** A kernel that opens handles but cannot signal through them. *)
Lemma send_once_witness :
  exists tr now, exec signal_sim (@send plain_messages Auto 400 Terminate) 0 =
    Some (Success (mkSignalDelivery 400 Terminate ByKill), tr, now) /\
    delivered None tr = [(400, 15)] /\ open_handles [] tr = Some [].
Proof.
  destruct (exec signal_sim (@send plain_messages Auto 400 Terminate) 0) as [[[r tr] now]|] eqn:E;
    [|vm_compute in E; congruence].
  assert (Er : r = Success (mkSignalDelivery 400 Terminate ByKill)) by (vm_compute in E; congruence).
  subst r. exists tr, now. split; [done|].
  destruct (send_once plain_messages Auto 400 Terminate tr _ (exec_runs _ _ _ _ _ _ E))
    as (H1 & H2 & _). done.
Defined.

(** C31. Waiting for an exit is sound and harmless: it signals nobody, closes its
handle, polls only with a timeout that fits an [int], and reports an exit only
when a call showed one (the handle became readable, the child can be waited for,
the process is gone); and the polling without handles ends: when the clock
advances, a number of rounds above the nanoseconds to wait is never used up. *)
Theorem wait_sound_and_ends (messages : Messages) policy retries rounds pid timeout :
  (forall tr r, runs (waitForExit policy retries rounds pid timeout) tr r ->
    open_handles [] tr = Some [] /\ delivered None tr = [] /\
    Forall (fun ev => match ev with Ev e _ =>
      match e with Poll _ t => 0 <= t <= INT_MAX | _ => True end end) tr /\
    (r = Success true -> Exists (shows_exit pid) tr)) /\
  (Z.max timeout 0 * ms < Z.of_nat rounds -> forall last tr, clock_advances last tr ->
    ~ waits_at at_NeverEnds (wait_with_kill rounds pid timeout) tr).
Proof.
  assert (Hobs : forall tr, Forall observing tr -> Forall (fun ev => match ev with Ev e _ =>
      match e with Poll _ t => 0 <= t <= INT_MAX | _ => True end end) tr).
  { intros tr H. eapply Forall_impl; [exact H|]. intros [X e x] He. by destruct e. }
  assert (Hkill : forall tr r, runs (wait_with_kill rounds pid timeout) tr r ->
    Forall observing tr /\ (r = Success true -> Exists (shows_exit pid) tr)).
  { intros tr r (t1 & start & t2 & -> & ->%runs_trigger & H)%runs_bind.
    apply runs_wait_loop in H as [Ho He]. split; [by constructor|].
    intros E. apply Exists_cons. auto. }
  split.
  - intros tr r. unfold waitForExit. destruct policy.
    2: { intros [Ho He]%Hkill. destruct (observing_trace tr [] None [] Ho) as [H1 H2].
         rewrite app_nil_r in H1, H2. rewrite H1, H2. auto. }
    intros (t1 & handle & t2 & -> & H1 & H)%runs_bind.
    apply runs_bind in H1 as (t3 & fd & t4 & -> & ->%runs_trigger & [-> ->]). rewrite app_nil_r.
    destruct fd as [errno|fd]; cbn [app].
    + cbn [err_code pidfd_error] in H. case_bool_decide as En; simpl in H.
      { destruct H as [-> ->]. split_and!; [done|done|by repeat constructor|].
        intros _. apply Exists_cons. left. split; [done|]. by exists errno. }
      destruct (negb _); [destruct H as [-> ->]; by split_and!; [..|repeat constructor|]|].
      apply Hkill in H as [Ho He]. destruct (observing_trace t2 [] None [] Ho) as [H1 H2].
      rewrite app_nil_r in H1, H2. simpl. rewrite H1, H2. split_and!; try done.
      * constructor; [done|auto].
      * intros E. apply Exists_cons. auto.
    + apply runs_bind in H as (t5 & exited & t6 & -> & H2 & H).
      apply (runs_poll_loop _ _ _ pid) in H2 as [Ho He]; [|apply bounded_timeout_range].
      apply runs_bind in H as (t7 & u & t8 & -> & ->%runs_trigger & [-> ->]). simpl.
      destruct (observing_trace t5 [fd] (Some pid) [Ev (Close fd) u] Ho) as [-> ->].
      simpl. rewrite Z.eqb_refl. split_and!; try done.
      * constructor; [done|]. apply Forall_app. split; [auto|by repeat constructor].
      * intros E. apply Exists_cons. right. apply Exists_app. auto.
  - intros Hr last tr Hc. unfold wait_with_kill.
    intros [[[_ []]|(? & ? & _ & [])]|(t1 & start & t2 & -> & ->%runs_trigger & H)]%waits_at_bind.
    simpl in Hc. destruct Hc as [_ Hc]. revert H. unfold ms in *.
    apply (wait_loop_ends _ _ _ start); [unfold ms; lia|lia|done].
Qed.

Lemma wait_sound_and_ends_witness :
  exists tr now, exec signal_sim (@waitForExit plain_messages Auto 2 3 400 50) 0 = Some (Success true, tr, now) /\
    open_handles [] tr = Some [] /\ Exists (shows_exit 400) tr /\
    ~ waits_at at_NeverEnds (@wait_with_kill plain_messages 3 400 0) [Ev Clock 1].
Proof.
  destruct (exec signal_sim (@waitForExit plain_messages Auto 2 3 400 50) 0) as [[[r tr] now]|] eqn:E;
    [|vm_compute in E; congruence].
  assert (Er : r = Success true) by (vm_compute in E; congruence). subst r.
  exists tr, now. split; [done|].
  destruct (wait_sound_and_ends plain_messages Auto 2 3 400 50) as [H _].
  destruct (H tr _ (exec_runs _ _ _ _ _ _ E)) as (H1 & _ & _ & H2).
  split_and!; [done|by apply H2|].
  destruct (wait_sound_and_ends plain_messages Auto 2 3 400 0) as [_ H3].
  apply (H3 ltac:(vm_compute; reflexivity) 0). by vm_compute.
Defined.
