(* ===== verification/Sim.v ===== *)
(** * A simulated machine

An executable environment for the calls of [provE]: sockets with their owners,
processes, units, a journal, a clock that advances when somebody sleeps or
waits.  It is one environment among all those the theorems quantify over; the
examples run the services on it. *)

From S2P Require Import Prelude CppStd CppString Prog Domain Contracts.
From Stdlib Require Import Ascii SpecFloat.

Record machine := mkMachine {
  m_sockets : list SocketInfo;            (* without owners *)
  m_owners : list (Z * list Z);           (* inode, increasing PIDs *)
  m_processes : list ProcessInfo;         (* without units *)
  m_units : list (Z * str);               (* PID, unit *)
  m_services : list ServiceInfo;
  m_journal : list JournalEntry;
  m_stubborn : list Z;                    (* PIDs that ignore SIGTERM *)
  m_metrics : SystemMetricsSample;
  m_cpu : list ProcessCpuSample;
  m_clock : Z;                            (* nanoseconds *)
  m_self : Z;
}.

Definition assoc {A} (k : Z) (l : list (Z * A)) : option A :=
  snd <$> List.find (fun e => e.1 =? k) l.

Definition sim_error (code : ErrorCode) : Error := mkError code $"simulated" 0 $"sim" $"sim".

Definition without (pids : list Z) (m : machine) : machine :=
  let gone pid := bool_decide (pid ∈ pids) in
  let owners := map (fun e => (e.1, List.filter (fun p => negb (gone p)) e.2)) (m_owners m) in
  mkMachine
    (List.filter (fun s => match assoc (si_inode s) owners with Some [] => false | _ => true end)
       (m_sockets m))
    owners
    (List.filter (fun p => negb (gone (pi_pid p))) (m_processes m))
    (m_units m) (m_services m) (m_journal m) (m_stubborn m) (m_metrics m) (m_cpu m)
    (m_clock m) (m_self m).

Definition advance (ns : Z) (m : machine) : machine :=
  mkMachine (m_sockets m) (m_owners m) (m_processes m) (m_units m) (m_services m) (m_journal m)
    (m_stubborn m) (m_metrics m) (m_cpu m) (m_clock m + ns) (m_self m).

Definition alive (m : machine) (pid : Z) : bool :=
  existsb (fun p => pi_pid p =? pid) (m_processes m).

Definition pids_of_unit (m : machine) (unit : str) : list Z :=
  map fst (List.filter (fun e => bool_decide (e.2 = unit)) (m_units m)).

Definition socket_answers (q : SocketQuery) (m : machine) : list SocketInfo :=
  List.filter (fun s =>
    match sq_localPort q with Some p => ep_port (si_local s) =? p | None => true end &&
    match sq_protocol q with Some p => bool_decide (si_protocol s = p) | None => true end)
    (m_sockets m).

Definition journal_answers (q : LogQuery) (m : machine) : list JournalEntry :=
  let matching := List.filter (fun e =>
    match lq_unit q with Some u => bool_decide (je_systemdUnit e = Some u) | None => true end &&
    match lq_pid q with Some p => bool_decide (je_pid e = Some p) | None => true end)
    (m_journal m) in
  drop (length matching - Z.to_nat (lq_limit q)) matching.

Definition sim (X : Type) (e : provE X) (m : machine) : X * machine :=
  match e in provE X return X * machine with
  | SocketProvider_query q => (Success (Observed (socket_answers q m) []), m)
  | OwnerResolver_resolve inodes =>
      (Success (Observed
         (list_to_map (List.filter (fun e => bool_decide (e.1 ∈ inodes)) (m_owners m)) : gmap Z (list Z))
         []), m)
  | ProcessProvider_get pid =>
      (match List.find (fun p => pi_pid p =? pid) (m_processes m) with
       | Some p => Success (Observed p [])
       | None => Failure (sim_error NotFound)
       end, m)
  | ProcessProvider_list => (Success (Observed (m_processes m) []), m)
  | SignalProvider_send pid s =>
      if negb (alive m pid) then (Failure (sim_error NotFound), m)
      else if bool_decide (s = Terminate) && bool_decide (pid ∈ m_stubborn m) then
        (Success (mkSignalDelivery pid s ByPidFd), m)
      else (Success (mkSignalDelivery pid s ByPidFd), without [pid] m)
  | SignalProvider_waitForExit pid timeout =>
      if alive m pid then (Success false, advance (timeout * 1000000) m) else (Success true, m)
  | SignalProvider_capabilities => (mkSignalCapabilities true true, m)
  | ServiceProvider_probe => (Success tt, m)
  | ServiceProvider_list => (Success (Observed (m_services m) []), m)
  | ServiceProvider_get unit =>
      (match List.find (fun s => bool_decide (svc_unitName s = unit)) (m_services m) with
       | Some s => Success (Observed s [])
       | None => Failure (sim_error NotFound)
       end, m)
  | ServiceProvider_unitByPid pid => (Success (assoc pid (m_units m)), m)
  | ServiceProvider_start _ => (Success tt, m)
  | ServiceProvider_stop unit => (Success tt, without (pids_of_unit m unit) m)
  | ServiceProvider_restart _ => (Success tt, m)
  | JournalProvider_probe => (Success tt, m)
  | JournalProvider_query q => (Success (Observed (journal_answers q m) []), m)
  | JournalProvider_follow _ => (Success tt, m)
  | SystemMetrics_sample => (Success (m_metrics m), m)
  | ProcessMetrics_sample => (Success (m_cpu m), m)
  | SteadyClock_now => (m_clock m, m)
  | SystemClock_now => (m_clock m, m)
  | SleepFor ms => (tt, advance (ms * 1000000) m)
  | GetPid => (m_self m, m)
  end.

(** The answer and the trace of a program on a machine. *)
Definition result {A} (t : prog provE A) (m : machine) : A := (run sim t m).1.1.
Definition calls {A} (t : prog provE A) (m : machine) : trace provE := (run sim t m).1.2.

Lemma sim_runs {A} (t : prog provE A) m : runs t (calls t m) (result t m).
Proof. apply run_runs. Qed.

(** ** A machine with a managed and an unmanaged server *)

Definition sim_process (pid : Z) (name : str) : ProcessInfo :=
  mkProcessInfo pid 1 name $"sleeping" 1000 1000 $"alice" (Some ($"/usr/bin/" ++ name)) None
    [name] 4096 1 None None.
Definition sim_socket (port inode : Z) : SocketInfo :=
  mkSocketInfo Tcp IPv4 (mkEndpoint $"127.0.0.1" port) None $"listen" 1000 inode [].
Definition sim_service (unit : str) (pid : Z) : ServiceInfo :=
  mkServiceInfo unit $"A web server" $"loaded" $"active" $"running" $"enabled" (Some pid) 1000000.
Definition sim_entry (t : Z) (cursor : str) (pid : Z) (message : str) : JournalEntry :=
  mkJournalEntry t cursor (Some $"web.service") (Some pid) (Some $"web") message (Some 6).

Definition sim_machine : machine :=
  mkMachine
    [sim_socket 8080 71; sim_socket 9090 72; sim_socket 3000 73]
    [(71, [300; 301]); (72, [400]); (73, [500])]
    [sim_process 300 $"web"; sim_process 301 $"web"; sim_process 400 $"dev"; sim_process 500 $"node"]
    [(300, $"web.service"); (301, $"web.service")]
    [sim_service $"web.service" 300]
    [sim_entry 1000000000 $"c1" 300 $"started"; sim_entry 2000000000 $"c2" 301 $"ready"]
    [400]
    (mkSystemMetricsSample (mkCpuTimes 1000 400) 8192 4096 60000 2 $"host")
    [mkProcessCpuSample 300 10 50]
    0 999.
