(* ===== verification/ServiceService.v ===== *)
(** * [application::ServiceService] ([src/application/ServiceService.cpp])

Unit names are validated and completed with [.service] before they reach the
service provider. *)

From S2P Require Import Prelude CppStd CppString Prog Domain Contracts Sim.
From Stdlib Require Import Ascii.

Definition validUnitCharacter (character : ascii) : bool :=
  isalnum character || one_of $":_-.@" character || (byte character =? 92). (* backslash *)

Definition invalidUnit (message : str) : Result str :=
  Failure (mkError InvalidArgument message 0 $"service" $"validate unit").

Definition suffix : str := $".service".

Definition normalizeUnit (unit : str) : Result str :=
  match unit with
  | [] => invalidUnit $"Service unit must not be empty"
  | _ =>
      if (247 <? length unit)%nat then invalidUnit $"Service unit name is too long"
      else if negb (forallb validUnitCharacter unit) then
        invalidUnit $"Service unit contains an invalid character"
      else if ends_with suffix unit then Success unit
      else Success (unit ++ suffix)
  end.

Definition list_ : prog provE (Result (Observation (list ServiceInfo))) :=
  trigger ServiceProvider_list.

Definition inspect (unit : str) : prog provE (Result (Observation ServiceInfo)) :=
  match normalizeUnit unit with
  | Failure error => Ret (Failure error)
  | Success normalized => trigger (ServiceProvider_get normalized)
  end.

Definition unitByPid (pid : Z) : prog provE (Result (option str)) :=
  if pid <=? 0 then
    Ret (Failure (mkError InvalidArgument $"PID must be greater than zero" 0
                    $"service" $"resolve PID"))
  else trigger (ServiceProvider_unitByPid pid).

Definition start (unit : str) : prog provE (Result Datatypes.unit) :=
  match normalizeUnit unit with
  | Failure error => Ret (Failure error)
  | Success normalized => trigger (ServiceProvider_start normalized)
  end.

Definition stop (unit : str) : prog provE (Result Datatypes.unit) :=
  match normalizeUnit unit with
  | Failure error => Ret (Failure error)
  | Success normalized => trigger (ServiceProvider_stop normalized)
  end.

Definition restart (unit : str) : prog provE (Result Datatypes.unit) :=
  match normalizeUnit unit with
  | Failure error => Ret (Failure error)
  | Success normalized => trigger (ServiceProvider_restart normalized)
  end.

(** ** Normalisation *)

(** What a well-formed service unit name is, and how long the code lets a
given name be. *)
Definition wf_unit (u : str) : Prop :=
  Forall (fun c => validUnitCharacter c = true) u /\ (exists k, u = k ++ suffix) /\
  (length u <= 255)%nat.

Lemma suffix_valid : Forall (fun c => validUnitCharacter c = true) suffix.
Proof. repeat constructor. Qed.

Lemma normalizeUnit_Success unit v :
  normalizeUnit unit = Success v <->
  unit <> [] /\ (length unit <= 247)%nat /\ Forall (fun c => validUnitCharacter c = true) unit /\
  v = if ends_with suffix unit then unit else unit ++ suffix.
Proof.
  unfold normalizeUnit. destruct unit as [|c u]; [naive_solver|].
  remember (c :: u) as unit eqn:Hu. assert (unit <> []) by (by subst).
  clear Hu. rewrite Forall_forall. setoid_rewrite <- forallb_elem_of.
  destruct (Nat.ltb_spec 247 (length unit)); [split; [done|lia]|].
  destruct (forallb validUnitCharacter unit); simpl; [|naive_solver].
  destruct (ends_with suffix unit); split; intros; naive_solver.
Qed.

Lemma normalizeUnit_total unit :
  (exists v, normalizeUnit unit = Success v) \/
  (exists m, normalizeUnit unit = invalidUnit m).
Proof.
  unfold normalizeUnit. destruct unit as [|c u]; [eauto|].
  repeat case_match; eauto.
Qed.

Lemma normalizeUnit_wf unit v : normalizeUnit unit = Success v -> wf_unit v.
Proof.
  intros (Hne & Hlen & Hv & ->)%normalizeUnit_Success.
  destruct (ends_with suffix unit) eqn:E.
  - apply ends_with_true in E. repeat split; [done|done|lia].
  - repeat split.
    + apply Forall_app. auto using suffix_valid.
    + by exists unit.
    + rewrite length_app. simpl. lia.
Qed.

(** Normalising the result again gives the result back exactly when it is short
enough to be accepted again. *)
(** A unit name reaches a C function whole. *)
Lemma wf_unit_c_str unit : wf_unit unit -> c_str unit = unit.
Proof.
  intros H. unfold c_str. apply take_while_all. intros c Hc.
  destruct H as [H _]. rewrite Forall_forall in H. assert (Hv := H c Hc).
  destruct (is_char (chr 0) c) eqn:E; [|done]. apply is_char_true in E as ->. by vm_compute in Hv.
Qed.

Lemma normalizeUnit_again unit v :
  normalizeUnit unit = Success v ->
  normalizeUnit v = Success v <-> (length v <= 247)%nat.
Proof.
  intros H. pose proof (normalizeUnit_wf _ _ H) as (Hc & Hs & Hl).
  rewrite normalizeUnit_Success. assert (E : ends_with suffix v = true) by by apply ends_with_true.
  rewrite E. assert (v <> []) by (destruct Hs as [k ->]; by destruct k). naive_solver.
Qed.

(** ** Calls *)

Lemma services_list_read_only : calls_ok read_only list_.
Proof. done. Qed.
Lemma service_inspect_read_only unit : calls_ok read_only (inspect unit).
Proof. unfold inspect. by destruct (normalizeUnit unit). Qed.
Lemma unitByPid_read_only pid : calls_ok read_only (unitByPid pid).
Proof. unfold unitByPid. by case_match. Qed.
#[export] Hint Resolve services_list_read_only service_inspect_read_only unitByPid_read_only : calls.

(** The unit names a call hands to the provider are well formed. *)
Definition units_wf (X : Type) (e : provE X) : Prop :=
  match e with
  | ServiceProvider_get u | ServiceProvider_start u | ServiceProvider_stop u
  | ServiceProvider_restart u => wf_unit u
  | _ => True
  end.

Lemma with_unit_wf {A} (unit : str) (call : str -> provE (Result A)) :
  (forall u, wf_unit u -> units_wf _ (call u)) ->
  calls_ok units_wf
    match normalizeUnit unit with
    | Failure error => Ret (Failure error)
    | Success normalized => trigger (call normalized)
    end.
Proof.
  intros Hc. destruct (normalizeUnit unit) eqn:E; [|done]. simpl. split; [|done].
  by apply Hc, normalizeUnit_wf in E || (apply Hc; by eapply normalizeUnit_wf).
Qed.

(** ** Properties *)

(** C22. [normalizeUnit] accepts exactly the names of 1 to 247 valid characters
and returns the name completed with [.service]; whatever it returns is a
well-formed unit name, and every operation of the service hands only such names
to the provider. *)
Theorem normalizeUnit_correct unit v :
  (normalizeUnit unit = Success v <->
   unit <> [] /\ (length unit <= 247)%nat /\ Forall (fun c => validUnitCharacter c = true) unit /\
   v = if ends_with suffix unit then unit else unit ++ suffix) /\
  (normalizeUnit unit = Success v -> wf_unit v) /\
  calls_ok units_wf (inspect unit) /\ calls_ok units_wf (start unit) /\
  calls_ok units_wf (stop unit) /\ calls_ok units_wf (restart unit).
Proof.
  split; [apply normalizeUnit_Success|]. split; [apply normalizeUnit_wf|].
  split_and!; by apply with_unit_wf.
Qed.

(** Normalising is not idempotent: a normalised name is accepted again, and
then unchanged, exactly when it has at most 247 characters.  A name of 240 to
247 characters without the suffix is accepted once and rejected by the next
component that normalises it. *)
Theorem normalizeUnit_idempotent_iff_short unit v :
  normalizeUnit unit = Success v ->
  (normalizeUnit v = Success v <-> (length v <= 247)%nat) /\
  ((240 <= length unit)%nat -> ends_with suffix unit = false ->
   normalizeUnit v = invalidUnit $"Service unit name is too long").
Proof.
  intros H. split; [by apply normalizeUnit_again in H|]. intros Hlen He.
  apply normalizeUnit_Success in H as (_ & _ & _ & ->). rewrite He. unfold normalizeUnit.
  assert (Hne : unit ++ suffix <> []) by (by destruct unit).
  assert (Hl : (247 <? length (unit ++ suffix))%nat = true).
  { apply Nat.ltb_lt. rewrite length_app. change (length suffix) with 8%nat. lia. }
  rewrite Hl. by destruct (unit ++ suffix).
Qed.

Lemma normalizeUnit_correct_witness :
  normalizeUnit $"web" = Success $"web.service" /\ wf_unit $"web.service".
Proof.
  split; [by vm_compute|].
  apply (proj1 (proj2 (normalizeUnit_correct $"web" $"web.service"))). by vm_compute.
Defined.

Lemma normalizeUnit_idempotent_iff_short_witness :
  normalizeUnit (replicate 240 "a"%char ++ suffix) = invalidUnit $"Service unit name is too long".
Proof.
  eapply (normalizeUnit_idempotent_iff_short (replicate 240 "a"%char)); by vm_compute.
Defined.
