(* ===== verification/ProcessService.v ===== *)
(** * [application::ProcessService] ([src/application/ProcessService.cpp])

Inspection and listing of processes with their systemd unit, and the guarded
sending of signals. *)

From S2P Require Import Prelude CppStd CppString Prog Domain Contracts Sim ServiceService.

Record ProcessService := mkProcessService {
  selfPid : Z;
  hasServiceService : bool;   (* serviceService_ != nullptr *)
}.

Definition process_error (code : ErrorCode) (message operation : str) : Error :=
  mkError code message 0 $"process-service" operation.

(** [code != Unavailable && code != NotFound] *)
Definition reportable (error : Error) : bool :=
  bool_decide (err_code error <> Unavailable) && bool_decide (err_code error <> NotFound).

Section Service.
Variable P : ProcessService.

Definition inspect (pid : Z) : prog provE (Result (Observation ProcessInfo)) :=
  if pid <=? 0 then
    Ret (Failure (process_error InvalidArgument $"PID must be greater than zero" $"inspect"))
  else
    observed <-? trigger (ProcessProvider_get pid) ;;
    if negb (hasServiceService P) then Ret (Success observed)
    else
      unit <- ServiceService.unitByPid pid ;;
      Ret (Success
        match unit with
        | Success unit =>
            Observed (set_systemdUnit unit (obs_value observed)) (obs_warnings observed)
        | Failure error =>
            if reportable error then
              Observed (obs_value observed) (obs_warnings observed ++ [warningFrom error])
            else observed
        end).

(** The name and user filters of [list]. *)
Definition name_matches (query : ProcessQuery) (process : ProcessInfo) : bool :=
  match pq_name query with
  | Some name => bool_decide (pi_name process = name)
  | None => true
  end.
Definition user_matches (query : ProcessQuery) (requestedUid : option Z)
    (process : ProcessInfo) : bool :=
  match pq_user query with
  | Some user =>
      match requestedUid with
      | Some uid => (pi_uid process =? uid) || bool_decide (pi_user process = user)
      | None => bool_decide (pi_user process = user)
      end
  | None => true
  end.
Definition unit_matches (query : ProcessQuery) (process : ProcessInfo) : bool :=
  match pq_systemdUnit query with
  | Some unit => bool_decide (pi_systemdUnit process = Some unit)
  | None => true
  end.

(** The user given as a number, when all of it is one. *)
Definition requestedUid (query : ProcessQuery) : option Z :=
  match pq_user query with
  | Some user =>
      let parsed := from_chars_unsigned UINT32_MAX user 0 in
      if parsed_whole parsed user then Some (fc_value parsed) else None
  | None => None
  end.

(** The loop of [list] over the observed processes; [matches] and [warnings]
are the two vectors it appends to. *)
Fixpoint list_loop (query : ProcessQuery) (uid : option Z) (processes : list ProcessInfo)
    (matches : list ProcessInfo) (warnings : list Warning) :
    prog provE (Result (Observation (list ProcessInfo))) :=
  match processes with
  | [] => Ret (Success (Observed matches warnings))
  | process :: rest =>
      if negb (name_matches query process) then list_loop query uid rest matches warnings
      else if negb (user_matches query uid process) then
        list_loop query uid rest matches warnings
      else
        let continue process warnings :=
          if negb (unit_matches query process) then list_loop query uid rest matches warnings
          else list_loop query uid rest (matches ++ [process]) warnings in
        if negb (hasServiceService P) then continue process warnings
        else
          unit <- ServiceService.unitByPid (pi_pid process) ;;
          match unit with
          | Success unit => continue (set_systemdUnit unit process) warnings
          | Failure error =>
              if bool_decide (is_Some (pq_systemdUnit query)) &&
                 bool_decide (err_code error = Unavailable) then Ret (Failure error)
              else if reportable error then
                continue process (warnings ++ [warningFrom error])
              else continue process warnings
          end
  end.

(** The query with its unit filter normalised, or the error [list] returns
before it asks the provider. *)
Definition check_query (query : ProcessQuery) : Result ProcessQuery :=
  if bool_decide (pq_name query = Some []) then
    Failure (process_error InvalidArgument $"Process name must not be empty" $"list")
  else if bool_decide (pq_user query = Some []) then
    Failure (process_error InvalidArgument $"Process user must not be empty" $"list")
  else
    match pq_systemdUnit query with
    | Some unit =>
        if negb (hasServiceService P) then
          Failure (process_error Unavailable $"Service association is unavailable" $"list")
        else
          match ServiceService.normalizeUnit unit with
          | Failure error => Failure error
          | Success unit => Success (mkProcessQuery (pq_name query) (pq_user query) (Some unit))
          end
    | None => Success query
    end.

Definition list_ (query : ProcessQuery) : prog provE (Result (Observation (list ProcessInfo))) :=
  match check_query query with
  | Failure error => Ret (Failure error)
  | Success query =>
      observed <-? trigger ProcessProvider_list ;;
      list_loop query (requestedUid query) (obs_value observed) [] (obs_warnings observed)
  end.

Definition validateSignalTarget (pid : Z) : Result unit :=
  if pid <=? 0 then
    Failure (process_error InvalidArgument $"PID must be greater than zero"
               $"validate signal target")
  else if pid =? 1 then
    Failure (process_error Conflict $"Refusing to signal PID 1" $"validate signal target")
  else if pid =? selfPid P then
    Failure (process_error Conflict $"Refusing to signal the LX process"
               $"validate signal target")
  else Success tt.

Definition signal (pid : Z) (processSignal : ProcessSignal) : prog provE (Result SignalDelivery) :=
  match validateSignalTarget pid with
  | Failure error => Ret (Failure error)
  | Success _ => trigger (SignalProvider_send pid processSignal)
  end.

Definition stop (pid : Z) : prog provE (Result SignalDelivery) := signal pid Terminate.
Definition kill (pid : Z) : prog provE (Result SignalDelivery) := signal pid Kill.

Definition waitForExit (pid timeout : Z) : prog provE (Result bool) :=
  match validateSignalTarget pid with
  | Failure error => Ret (Failure error)
  | Success _ => trigger (SignalProvider_waitForExit pid timeout)
  end.

Definition signalCapabilities : prog provE SignalCapabilities :=
  trigger SignalProvider_capabilities.
End Service.

(** ** The guard on signals *)

(** Who may be signalled: any process but init and LX itself. *)
Definition signal_allowed (P : ProcessService) (pid : Z) : Prop :=
  1 < pid /\ pid <> selfPid P.

Definition guarded (P : ProcessService) (X : Type) (e : provE X) : Prop :=
  match e with SignalProvider_send pid _ => signal_allowed P pid | _ => True end.

Lemma validateSignalTarget_Success P pid :
  validateSignalTarget P pid = Success tt <-> signal_allowed P pid.
Proof.
  unfold validateSignalTarget, signal_allowed. repeat case_match; bool_facts; naive_solver lia.
Qed.

Lemma validateSignalTarget_error P pid e :
  validateSignalTarget P pid = Failure e ->
  ~ signal_allowed P pid /\ (err_code e = InvalidArgument <-> pid <= 0) /\
  (err_code e = Conflict <-> 0 < pid).
Proof.
  unfold validateSignalTarget, signal_allowed, process_error.
  repeat case_match; intros; simplify_eq/=; bool_facts; naive_solver lia.
Qed.

Lemma read_only_guarded P X (e : provE X) : read_only X e -> guarded P X e.
Proof. by destruct e. Qed.

Lemma calls_ok_guarded P {A} (t : prog provE A) : calls_ok read_only t -> calls_ok (guarded P) t.
Proof. apply calls_ok_mono, read_only_guarded. Qed.

Lemma signal_guarded P pid s : calls_ok (guarded P) (signal P pid s).
Proof.
  unfold signal. destruct (validateSignalTarget P pid) as [[]|] eqn:E; [|done].
  apply validateSignalTarget_Success in E. done.
Qed.

Lemma runs_signal P pid s tr r :
  runs (signal P pid s) tr r ->
  (tr = [] /\ exists e, r = Failure e /\ validateSignalTarget P pid = Failure e) \/
  (tr = [Ev (SignalProvider_send pid s) r] /\ signal_allowed P pid).
Proof.
  unfold signal. destruct (validateSignalTarget P pid) as [[]|e] eqn:E.
  - intros ->%runs_trigger. right. split; [done|]. by apply validateSignalTarget_Success.
  - intros [-> ->]. left. eauto.
Qed.

Lemma waitForExit_read_only P pid timeout : calls_ok read_only (waitForExit P pid timeout).
Proof. unfold waitForExit. by destruct (validateSignalTarget P pid). Qed.

Lemma process_inspect_read_only P pid : calls_ok read_only (inspect P pid).
Proof.
  unfold inspect. case_match; [done|]. apply calls_ok_bindR; [done|].
  intros o. case_match; [done|]. apply calls_ok_bind; [auto with calls | done].
Qed.

Lemma list_loop_read_only P q uid ps ms ws : calls_ok read_only (list_loop P q uid ps ms ws).
Proof.
  revert ms ws. induction ps as [|p ps IH]; intros ms ws; simpl; [done|].
  repeat case_match; try apply IH. all: apply calls_ok_bind; [auto with calls|].
  all: intros [u|e]; repeat case_match; done || apply IH.
Qed.

Lemma process_list_read_only P q : calls_ok read_only (list_ P q).
Proof.
  unfold list_. case_match; [|done]. apply calls_ok_bindR; [done|]. intros o.
  apply list_loop_read_only.
Qed.
#[export] Hint Resolve signal_guarded waitForExit_read_only process_inspect_read_only
  process_list_read_only calls_ok_guarded : calls.

(** ** What [list] returns *)

Section ListSpec.
Variable P : ProcessService.

Definition candidates (query : ProcessQuery) (ps : list ProcessInfo) : list ProcessInfo :=
  List.filter (fun p => name_matches query p && user_matches query (requestedUid query) p) ps.

Definition attach_unit (p : ProcessInfo) (u : Result (option str)) : ProcessInfo :=
  match u with Success unit => set_systemdUnit unit p | Failure _ => p end.

Definition unit_warning (u : Result (option str)) : option Warning :=
  match u with
  | Success _ => None
  | Failure error => if reportable error then Some (warningFrom error) else None
  end.

(** The answers [us] to the unit lookups of the processes [ps]. *)
Definition unit_answers (ps : list ProcessInfo) (us : list (Result (option str))) : Prop :=
  Forall2 (fun p u => exists t, runs (ServiceService.unitByPid (pi_pid p)) t u) ps us.

Lemma list_loop_Success query ps ms ws tr o :
  hasServiceService P = true ->
  runs (list_loop P query (requestedUid query) ps ms ws) tr (Success o) ->
  exists us, unit_answers (candidates query ps) us /\
    obs_value o = ms ++
      List.filter (unit_matches query) (zip_with attach_unit (candidates query ps) us) /\
    obs_warnings o = ws ++ omap unit_warning us.
Proof.
  intros HS. revert ms ws tr. induction ps as [|p ps IH]; intros ms ws tr; simpl.
  { intros [_ [= ->]]. exists []. simpl. rewrite !app_nil_r. split; [constructor|done]. }
  unfold candidates; simpl; fold (candidates query ps).
  destruct (name_matches query p); simpl; [|apply IH].
  destruct (user_matches query (requestedUid query) p); simpl; [|apply IH].
  rewrite HS. simpl. intros (t1 & u & t2 & -> & Hu & Hrest)%runs_bind.
(* whatever the lookup answered, the loop goes on with the process attached *)
  assert (Hgo : runs (if negb (unit_matches query (attach_unit p u)) then
                        list_loop P query (requestedUid query) ps ms (ws ++ option_list (unit_warning u))
                      else list_loop P query (requestedUid query) ps (ms ++ [attach_unit p u])
                             (ws ++ option_list (unit_warning u))) t2 (Success o)).
  { destruct u as [unit|e]; simpl; [by rewrite app_nil_r|].
    destruct (bool_decide (is_Some _) && _); [by destruct Hrest as [_ [=]]|].
    destruct (reportable e); simpl; [done|by rewrite app_nil_r]. }
  clear Hrest. destruct (unit_matches query (attach_unit p u)) eqn:Em; simpl in Hgo;
    apply IH in Hgo as (us & Hus & Hv & Hw); exists (u :: us); simpl; rewrite Em;
    (split; [by constructor; [eauto|]|]);
    rewrite ?Hv, ?Hw, <- ?app_assoc; (split; [done|]);
    by destruct (unit_warning u).
Qed.

Lemma list_loop_no_service query ps ms ws tr o :
  hasServiceService P = false ->
  runs (list_loop P query (requestedUid query) ps ms ws) tr (Success o) ->
  obs_value o = ms ++ List.filter (unit_matches query) (candidates query ps) /\
  obs_warnings o = ws /\ tr = [].
Proof.
  intros HS. revert ms. induction ps as [|p ps IH]; intros ms; simpl.
  { intros [-> [= ->]]. simpl. by rewrite app_nil_r. }
  unfold candidates; simpl; fold (candidates query ps).
  destruct (name_matches query p); simpl; [|apply IH].
  destruct (user_matches query (requestedUid query) p); simpl; [|apply IH].
  rewrite HS. simpl. destruct (unit_matches query p); simpl; [|apply IH].
  intros (-> & -> & ->)%IH. by rewrite <- app_assoc.
Qed.
End ListSpec.

(** Whatever [list] returns was reported by the provider, up to the unit, and
passed the filters. *)
Lemma list_loop_sound P query uid ps ms ws tr o p :
  runs (list_loop P query uid ps ms ws) tr (Success o) -> p ∈ obs_value o ->
  p ∈ ms \/ exists p0 u, p0 ∈ ps /\ (p = p0 \/ p = set_systemdUnit u p0) /\
    name_matches query p0 = true /\ user_matches query uid p0 = true /\ unit_matches query p = true.
Proof.
  revert ms ws tr. induction ps as [|q ps IH]; intros ms ws tr; simpl.
  { intros [_ [= ->]]. by left. }
  assert (Hskip : forall ms ws tr, runs (list_loop P query uid ps ms ws) tr (Success o) ->
            p ∈ obs_value o -> p ∈ ms \/ exists p0 u, p0 ∈ q :: ps /\
              (p = p0 \/ p = set_systemdUnit u p0) /\ name_matches query p0 = true /\
              user_matches query uid p0 = true /\ unit_matches query p = true).
  { intros ms' ws' tr' H Hp. destruct (IH _ _ _ H Hp) as [|(p0 & u & ? & ?)]; [by left|].
    right. exists p0, u. set_solver. }
  destruct (name_matches query q) eqn:En; simpl; [|apply Hskip].
  destruct (user_matches query uid q) eqn:Eu; simpl; [|apply Hskip].
  assert (Hadd : forall q' ms ws tr, (exists u, q' = q \/ q' = set_systemdUnit u q) ->
            unit_matches query q' = true ->
            runs (list_loop P query uid ps (ms ++ [q']) ws) tr (Success o) -> p ∈ obs_value o ->
            p ∈ ms \/ exists p0 u, p0 ∈ q :: ps /\
              (p = p0 \/ p = set_systemdUnit u p0) /\ name_matches query p0 = true /\
              user_matches query uid p0 = true /\ unit_matches query p = true).
  { intros q' ms' ws' tr' [u Hq] Hm H Hp.
    destruct (Hskip _ _ _ H Hp) as [[|Hin%list_elem_of_singleton]%elem_of_app|]; [by left| |by right].
    subst q'. right. exists q, u. split_and!; [set_solver|done..]. }
  destruct (hasServiceService P); simpl.
  - intros (t1 & [u|e] & t2 & -> & _ & H)%runs_bind.
    + destruct (unit_matches query (set_systemdUnit u q)) eqn:Em; simpl in H; [|by eapply Hskip].
      eapply Hadd; [|done..]. exists u. by right.
    + destruct (_ && _); [by destruct H as [_ [=]]|].
      destruct (reportable e); (destruct (unit_matches query q) eqn:Em; simpl in H;
        [eapply Hadd; [|done..]; exists None; by left | by eapply Hskip]).
  - destruct (unit_matches query q) eqn:Em; simpl; [|apply Hskip]. apply Hadd; [|done].
    exists None. by left.
Qed.

Lemma list_named P name tr o p :
  runs (list_ P (mkProcessQuery (Some name) None None)) tr (Success o) ->
  p ∈ obs_value o -> pi_name p = name.
Proof.
  unfold list_, check_query. simpl. case_bool_decide as Hne; [by intros [_ [=]]|].
  intros [(e & _ & [=])|(t1 & obs & t2 & -> & _ & H)]%runs_bindR Hp.
  destruct (list_loop_sound _ _ _ _ _ _ _ _ _ H Hp) as [Hnil|(p0 & u & _ & Hq & Hn & _)];
    [by apply not_elem_of_nil in Hnil|].
  unfold name_matches in Hn. simpl in Hn. apply bool_decide_eq_true in Hn.
  by destruct Hq as [->| ->].
Qed.

Lemma check_query_Success P query q :
  check_query P query = Success q ->
  pq_name q = pq_name query /\ pq_user q = pq_user query /\
  pq_name query <> Some [] /\ pq_user query <> Some [] /\
  match pq_systemdUnit query with
  | Some u => exists v, normalizeUnit u = Success v /\ pq_systemdUnit q = Some v /\
                        hasServiceService P = true
  | None => pq_systemdUnit q = None
  end.
Proof.
  unfold check_query. case_bool_decide; [done|]. case_bool_decide; [done|].
  destruct (pq_systemdUnit query) as [u|] eqn:Eu; [|intros [= <-]; naive_solver].
  destruct (hasServiceService P); simpl; [|done].
  destruct (normalizeUnit u) as [v|e] eqn:E; [|done]. intros [= <-]. simpl. naive_solver.
Qed.

(** ** Properties *)

(** The guard on signals: [signal] (behind [stop] and [kill]) makes at most
one call, the requested signal to the requested process, exactly when that is a
process other than PID 0, init and LX; otherwise it fails with InvalidArgument
for a PID that is not positive and with Conflict for init and LX. *)
Theorem signal_guard P pid s tr r :
  runs (signal P pid s) tr r ->
  (signal_allowed P pid /\ tr = [Ev (SignalProvider_send pid s) r]) \/
  (~ signal_allowed P pid /\ tr = [] /\
   exists e, r = Failure e /\ (err_code e = InvalidArgument <-> pid <= 0) /\
     (err_code e = Conflict <-> 0 < pid)).
Proof.
  intros [(-> & e & -> & He)|[-> Hok]]%runs_signal; [right|by left].
  apply validateSignalTarget_error in He as (? & ? & ?). split_and!; [done..|]. by exists e.
Qed.


(** [inspect] of a process reports what the process provider answered; with
a service provider the unit it resolved is attached, and when the lookup fails
the process is still reported, with a warning unless the provider is missing or
knows no such process. *)
Theorem inspect_attaches_unit P pid tr o :
  runs (inspect P pid) tr (Success o) ->
  0 < pid /\
  exists observed tr', tr = Ev (ProcessProvider_get pid) (Success observed) :: tr' /\
    if hasServiceService P then
      exists u, tr' = [Ev (ServiceProvider_unitByPid pid) u] /\
        obs_value o = attach_unit (obs_value observed) u /\
        obs_warnings o = obs_warnings observed ++ option_list (unit_warning u)
    else o = observed /\ tr' = [].
Proof.
  unfold inspect. destruct (Z.leb_spec pid 0); [by intros [_ [=]]|].
  intros [(e & _ & [=])|(t1 & obs & t2 & -> & ->%runs_trigger & H2)]%runs_bindR.
  split; [lia|]. exists obs, t2. split; [done|].
  destruct (hasServiceService P); simpl in H2; [|by destruct H2 as [-> [= ->]]].
  unfold ServiceService.unitByPid in H2. destruct (Z.leb_spec pid 0); [lia|].
  destruct H2 as (u & t3 & -> & -> & [= ->]). exists u. split; [done|].
  destruct u as [u|e]; simpl; [by rewrite app_nil_r|]. destruct (reportable e); simpl; [done|].
  by rewrite app_nil_r.
Qed.

(** ** Examples *)

Definition sim_processes : ProcessService := mkProcessService 999 true.

Lemma signal_guard_witness :
  signals (calls (kill sim_processes 400) sim_machine) = [(400, Kill)] /\
  calls (kill sim_processes 1) sim_machine = [] /\
  exists e, result (kill sim_processes 1) sim_machine = Failure e /\ err_code e = Conflict.
Proof.
  split; [by vm_compute|]. split; [by vm_compute|].
  destruct (signal_guard sim_processes 1 Kill _ _ (sim_runs (kill sim_processes 1) sim_machine))
    as [[[H _] _]|(_ & _ & e & He & _ & Hc)]; [lia|].
  exists e. split; [exact He|]. apply Hc. lia.
Defined.


Lemma inspect_attaches_unit_witness :
  exists o, result (inspect sim_processes 300) sim_machine = Success o /\ 0 < 300 /\
    pi_systemdUnit (obs_value o) = Some $"web.service".
Proof.
  destruct (result (inspect sim_processes 300) sim_machine) as [o|e] eqn:E; [|by vm_compute in E].
  exists o. split; [done|].
  split.
  - apply (inspect_attaches_unit sim_processes 300 (calls (inspect sim_processes 300) sim_machine) o).
    rewrite <- E. apply sim_runs.
  - vm_compute in E. by injection E as <-.
Defined.
