(* ===== verification/PortService.v ===== *)
(** * [application::PortService] ([src/application/PortService.cpp])

Sockets with their owners, and the release of a port: a plan is prepared,
shown to the user, and carried out only when the sockets and owners found at
that moment are those of the plan. *)

From S2P Require Import Prelude CppStd CppString Prog Domain Contracts.
From S2P Require Import ServiceService ProcessService.

Record PortService := mkPortService {
  processService : ProcessService;
  serviceService : bool;      (* serviceService_ != nullptr *)
  gracePeriod : Z;            (* milliseconds *)
}.

Definition port_error (code : ErrorCode) (message operation : str) : Error :=
  mkError code message 0 $"port-service" operation.

(** ** Comparing plans *)

Abbreviation SocketIdentity := (TransportProtocol * AddressFamily * str * Z * Z * list Z)%type.

Definition identity (port : PortInfo) : SocketIdentity :=
  let socket := port_socket port in
  (si_protocol socket, si_family socket, ep_address (si_local socket),
   ep_port (si_local socket), si_inode socket, si_ownerPids socket).

Definition identities (plan : PortReleasePlan) : list SocketIdentity :=
  sort (map identity (plan_ports plan)).

Definition sameTargets (expected current : PortReleasePlan) : bool :=
  bool_decide (identities expected = identities current).

(** The predicate of the [std::find_if] in [remainingTargetsBelongTo]. *)
Definition same_socket (currentPort candidate : PortInfo) : bool :=
  let a := port_socket candidate in
  let b := port_socket currentPort in
  bool_decide (si_protocol a = si_protocol b) && bool_decide (si_family a = si_family b) &&
  bool_decide (ep_address (si_local a) = ep_address (si_local b)) &&
  (ep_port (si_local a) =? ep_port (si_local b)) && (si_inode a =? si_inode b).

Definition remainingTargetsBelongTo (original current : PortReleasePlan) : bool :=
  forallb
    (fun currentPort =>
       match find_if (same_socket currentPort) (plan_ports original) with
       | None => false
       | Some found =>
           includes (si_ownerPids (port_socket found)) (si_ownerPids (port_socket currentPort))
       end)
    (plan_ports current).

Definition changedTargetError : Error :=
  port_error Conflict $"Port ownership changed; refusing to signal a new target" $"release".

(** ** Inspection *)

Definition socket_inodes (sockets : list SocketInfo) : list Z :=
  List.filter (fun inode => negb (inode =? 0)) (map si_inode sockets).

Definition attach_owners (ownership : SocketOwnership) (socket : SocketInfo) : SocketInfo :=
  match ownership !! si_inode socket with
  | Some pids => set_ownerPids pids socket
  | None => socket
  end.

(** The set of all owners found in the ownership map. *)
Fixpoint found_owners (ownership : SocketOwnership) (sockets : list SocketInfo) : gset Z :=
  match sockets with
  | [] => ∅
  | socket :: rest =>
      list_to_set (default [] (ownership !! si_inode socket)) ∪ found_owners ownership rest
  end.

Fixpoint inspect_owners (P : ProcessService) (pids : list Z) (processes : gmap Z ProcessInfo)
    (warnings : list Warning) : prog provE (gmap Z ProcessInfo * list Warning) :=
  match pids with
  | [] => Ret (processes, warnings)
  | pid :: rest =>
      process <- ProcessService.inspect P pid ;;
      match process with
      | Failure error => inspect_owners P rest processes (warnings ++ [warningFrom error])
      | Success observed =>
          inspect_owners P rest (<[pid := obs_value observed]> processes)
            (warnings ++ obs_warnings observed)
      end
  end.

Definition port_of (processes : gmap Z ProcessInfo) (socket : SocketInfo) : PortInfo :=
  mkPortInfo socket (omap (fun pid => processes !! pid) (si_ownerPids socket)).

Section Service.
Context {HO : HashOrder}.
Variable S : PortService.
Abbreviation P := (processService S).

Definition inspect (query : SocketQuery) : prog provE (Result (Observation (list PortInfo))) :=
  sockets <-? trigger (SocketProvider_query query) ;;
  ownership <-? trigger (OwnerResolver_resolve (socket_inodes (obs_value sockets))) ;;
  let warnings := obs_warnings sockets ++ obs_warnings ownership in
  let owned := map (attach_owners (obs_value ownership)) (obs_value sockets) in
  let ownerPids := found_owners (obs_value ownership) (obs_value sockets) in
  found <- inspect_owners P (iter_order ownerPids) ∅ warnings ;;
  Ret (Success (Observed (map (port_of found.1) owned) found.2)).

(** ** Planning *)

Fixpoint find_owner (ports : list PortInfo) (pid : Z) : option ProcessInfo :=
  match ports with
  | [] => None
  | port :: rest =>
      match find_if (fun process => pi_pid process =? pid) (port_owners port) with
      | Some owner => Some owner
      | None => find_owner rest pid
      end
  end.

(** The loop computing [managedByOneService] and [commonUnit]. *)
Fixpoint common_unit (ports : list PortInfo) (pids : list Z) (commonUnit : option str) :
    bool * option str :=
  match pids with
  | [] => (true, commonUnit)
  | pid :: rest =>
      match find_owner ports pid with
      | None => (false, commonUnit)
      | Some owner =>
          match pi_systemdUnit owner with
          | None => (false, commonUnit)
          | Some unit =>
              match commonUnit with
              | None => common_unit ports rest (Some unit)
              | Some common =>
                  if bool_decide (common = unit) then common_unit ports rest commonUnit
                  else (false, commonUnit)
              end
          end
      end
  end.

Definition recommended_unit (ports : list PortInfo) (ownerPids : list Z) : option str :=
  match ownerPids with
  | [] => None
  | _ =>
      let '(managedByOneService, commonUnit) := common_unit ports ownerPids None in
      if managedByOneService then commonUnit else None
  end.

Fixpoint validate_all (pids : list Z) : Result unit :=
  match pids with
  | [] => Success tt
  | pid :: rest =>
      match ProcessService.validateSignalTarget P pid with
      | Failure error => Failure error
      | Success _ => validate_all rest
      end
  end.

Definition prepareRelease (localPort : Z) : prog provE (Result (Observation PortReleasePlan)) :=
  if localPort =? 0 then
    Ret (Failure (port_error InvalidArgument $"Port must be between 1 and 65535"
                    $"prepare release"))
  else
    inspected <-? inspect (mkSocketQuery (Some localPort) None true) ;;
    let ports := obs_value inspected in
    match ports with
    | [] =>
        Ret (Failure (port_error NotFound ($"No socket found for port " ++ to_string localPort)
                        $"prepare release"))
    | _ =>
        if existsb (fun port => bool_decide (si_ownerPids (port_socket port) = [])) ports then
          Ret (Failure (port_error PermissionDenied
            $"Cannot safely release the port because a socket owner is unresolved"
            $"prepare release"))
        else
          let ownerPids := sort_unique (mjoin (map (fun p => si_ownerPids (port_socket p)) ports)) in
          let plan := mkPortReleasePlan localPort ports ownerPids
                        (recommended_unit ports ownerPids) in
          match validate_all ownerPids with
          | Failure error => Ret (Failure error)
          | Success _ => Ret (Success (Observed plan (obs_warnings inspected)))
          end
    end.

(** ** Release *)

Definition released_already : Observation PortReleaseResult :=
  Observed (mkPortReleaseResult true [] None) [].

Definition is_NotFound (error : Error) : bool := bool_decide (err_code error = NotFound).

(** The polling loop of [stopManagedService]; [None] when the fuel runs out. *)
Fixpoint await_release (fuel : nat) (plan : PortReleasePlan) (unit : str) (deadline : Z)
    (warnings : list Warning) : prog provE (option (Result (Observation PortReleaseResult))) :=
  match fuel with
  | O => Ret None
  | Datatypes.S fuel' =>
      after <- prepareRelease (plan_localPort plan) ;;
      match after with
      | Failure error =>
          if is_NotFound error then
            Ret (Some (Success (Observed (mkPortReleaseResult true [] None) warnings)))
          else Ret (Some (Failure error))
      | Success after =>
          let warnings := warnings ++ obs_warnings after in
          if negb (remainingTargetsBelongTo plan (obs_value after)) then
            Ret (Some (Failure changedTargetError))
          else
            now <- trigger SteadyClock_now ;;
            if deadline <=? now then
              Ret (Some (Failure (port_error Timeout
                ($"Port is still occupied after stopping " ++ unit) $"stop managed service")))
            else
              _ <- trigger (SleepFor 25) ;;
              await_release fuel' plan unit deadline warnings
      end
  end.

Definition stopManagedService (fuel : nat) (plan : PortReleasePlan) :
    prog provE (option (Result (Observation PortReleaseResult))) :=
  match plan_recommendedUnit plan with
  | None =>
      Ret (Some (Failure (port_error InvalidArgument
        $"Port release plan has no managed service" $"stop managed service")))
  | Some unit =>
      if negb (serviceService S) then
        Ret (Some (Failure (port_error InvalidArgument
          $"Port release plan has no managed service" $"stop managed service")))
      else
        current <- prepareRelease (plan_localPort plan) ;;
        match current with
        | Failure error =>
            if is_NotFound error then Ret (Some (Success released_already))
            else Ret (Some (Failure error))
        | Success current =>
            if negb (sameTargets plan (obs_value current)) ||
               bool_decide (plan_recommendedUnit (obs_value current) <> Some unit) then
              Ret (Some (Failure changedTargetError))
            else
              stopped <- ServiceService.stop unit ;;
              match stopped with
              | Failure error => Ret (Some (Failure error))
              | Success _ =>
                  now <- trigger SteadyClock_now ;;
                  await_release fuel plan unit (now + gracePeriod S * 1000000)
                    (obs_warnings current)
              end
        end
  end.

(** The signalling loop of [terminate] and [force]. *)
Fixpoint signal_all (send : Z -> prog provE (Result SignalDelivery)) (pids : list Z)
    (deliveries : list SignalDelivery) : prog provE (Result (list SignalDelivery)) :=
  match pids with
  | [] => Ret (Success deliveries)
  | pid :: rest =>
      delivery <- send pid ;;
      match delivery with
      | Failure error =>
          Ret (Failure
            match deliveries with
            | [] => error
            | _ => mkError (err_code error)
                     ($"Port release was partially signaled: " ++ err_message error)
                     (err_systemError error) (err_component error) (err_operation error)
            end)
      | Success delivery => signal_all send rest (deliveries ++ [delivery])
      end
  end.

(** The waiting loop of [terminate] and [force]: what remains until the
deadline, in whole milliseconds. *)
Fixpoint wait_all (deadline : Z) (pids : list Z) : prog provE (Result unit) :=
  match pids with
  | [] => Ret (Success tt)
  | pid :: rest =>
      now <- trigger SteadyClock_now ;;
      let remaining := if deadline <=? now then 0 else (deadline - now) / 1000000 in
      exited <-? ProcessService.waitForExit P pid remaining ;;
      wait_all deadline rest
  end.

Definition terminate (plan : PortReleasePlan) :
    prog provE (Result (Observation PortReleaseResult)) :=
  current <- prepareRelease (plan_localPort plan) ;;
  match current with
  | Failure error =>
      if is_NotFound error then Ret (Success released_already) else Ret (Failure error)
  | Success current =>
      if negb (sameTargets plan (obs_value current)) then Ret (Failure changedTargetError)
      else
        deliveries <-? signal_all (ProcessService.stop P) (plan_ownerPids plan) [] ;;
        now <- trigger SteadyClock_now ;;
        _ <-? wait_all (now + gracePeriod S * 1000000) (plan_ownerPids plan) ;;
        after <- prepareRelease (plan_localPort plan) ;;
        match after with
        | Failure error =>
            if is_NotFound error then
              Ret (Success (Observed (mkPortReleaseResult true deliveries None)
                              (obs_warnings current)))
            else Ret (Failure error)
        | Success after =>
            if negb (remainingTargetsBelongTo plan (obs_value after)) then
              Ret (Failure changedTargetError)
            else
              Ret (Success (Observed
                (mkPortReleaseResult false deliveries (Some (obs_value after)))
                (obs_warnings current ++ obs_warnings after)))
        end
  end.

Definition force (plan : PortReleasePlan) :
    prog provE (Result (Observation PortReleaseResult)) :=
  current <- prepareRelease (plan_localPort plan) ;;
  match current with
  | Failure error =>
      if is_NotFound error then Ret (Success released_already) else Ret (Failure error)
  | Success current =>
      if negb (sameTargets plan (obs_value current)) then Ret (Failure changedTargetError)
      else
        deliveries <-? signal_all (ProcessService.kill P) (plan_ownerPids plan) [] ;;
        now <- trigger SteadyClock_now ;;
        _ <-? wait_all (now + gracePeriod S * 1000000) (plan_ownerPids plan) ;;
        after <- prepareRelease (plan_localPort plan) ;;
        match after with
        | Failure error =>
            if is_NotFound error then
              Ret (Success (Observed (mkPortReleaseResult true deliveries None)
                              (obs_warnings current)))
            else Ret (Failure error)
        | Success after =>
            if negb (remainingTargetsBelongTo plan (obs_value after)) then
              Ret (Failure changedTargetError)
            else
              Ret (Failure (port_error Timeout $"Port is still occupied after SIGKILL"
                              $"force release"))
        end
  end.
End Service.
