(* ===== verification/PortServiceProofs.v ===== *)
(** * Lemmas about [PortService]

What the runs of its operations look like: their calls, the shape of plans, the
owners an escalation may reach, the polling loop.  The theorems are in
[PortServiceTheorems]. *)

From S2P Require Import Prelude CppStd CppString Prog Domain Contracts.
From S2P Require Import ServiceService ProcessService PortService.

Section Proofs.
Context {HO : HashOrder}.
Implicit Types S : PortService.PortService.

(** ** Planning does not change the system *)

Lemma inspect_owners_read_only P pids ps ws : calls_ok read_only (inspect_owners P pids ps ws).
Proof.
  revert ps ws. induction pids as [|pid pids IH]; intros ps ws; simpl; [done|].
  apply calls_ok_bind; [auto with calls|]. by intros [o|e].
Qed.

Lemma port_inspect_read_only S q : calls_ok read_only (PortService.inspect S q).
Proof.
  apply calls_ok_bindR; [done|]. intros sockets. apply calls_ok_bindR; [done|]. intros own.
  apply calls_ok_bind; [apply inspect_owners_read_only | done].
Qed.

Lemma prepareRelease_read_only S port : calls_ok read_only (prepareRelease S port).
Proof.
  unfold prepareRelease. case_match; [done|]. apply calls_ok_bindR; [apply port_inspect_read_only|].
  intros o. repeat case_match; done.
Qed.

Lemma prepareRelease_quiet S port tr r :
  runs (prepareRelease S port) tr r -> signals tr = [] /\ jobs tr = [].
Proof. apply read_only_runs, prepareRelease_read_only. Qed.

Lemma wait_all_read_only S deadline pids : calls_ok read_only (wait_all S deadline pids).
Proof.
  induction pids as [|pid pids IH]; simpl; [done|]. split; [done|]. intros now.
  apply calls_ok_bindR; auto with calls.
Qed.

(** ** Comparison of plans *)

Lemma sameTargets_spec p q :
  sameTargets p q = true <-> map identity (plan_ports p) ≡ₚ map identity (plan_ports q).
Proof. unfold sameTargets, identities. by rewrite bool_decide_eq_true, sort_eq_iff. Qed.

Lemma sameTargets_refl p : sameTargets p p = true.
Proof. by apply sameTargets_spec. Qed.

Definition same_socket_as (a b : PortInfo) : Prop := (identity a).1 = (identity b).1.

Lemma same_socket_spec a b : same_socket a b = true <-> same_socket_as b a.
Proof.
  unfold same_socket, same_socket_as, identity. simpl.
  rewrite !andb_true_iff, !bool_decide_eq_true, !Z.eqb_eq. split.
  - by intros [[[[-> ->] ->] ->] ->].
  - by intros [= -> -> -> -> ->].
Qed.

(** Every remaining port is a socket of the original plan, held by owners the
plan already had. *)
Definition targets_within (original current : PortReleasePlan) : Prop :=
  forall port, port ∈ plan_ports current ->
    exists o, o ∈ plan_ports original /\ same_socket_as o port /\
      si_ownerPids (port_socket port) ⊆ si_ownerPids (port_socket o).

Definition owners_ordered (plan : PortReleasePlan) : Prop :=
  Forall (fun p => strictly_sorted (si_ownerPids (port_socket p))) (plan_ports plan).

Lemma remainingTargetsBelongTo_within original current :
  owners_ordered original -> owners_ordered current ->
  remainingTargetsBelongTo original current = true -> targets_within original current.
Proof.
  unfold owners_ordered, remainingTargetsBelongTo. rewrite !Forall_forall, forallb_elem_of.
  intros Ho Hc H port Hport. specialize (H port Hport).
  destruct (find_if _ _) as [o|] eqn:E; [|done].
  apply find_if_Some in E as [Hin Hs]. apply same_socket_spec in Hs.
  exists o. split_and!; [done..|]. apply includes_spec; auto.
Qed.

(** The converse, when no two sockets of the plan are the same. *)
Lemma within_remainingTargetsBelongTo original current :
  owners_ordered original -> owners_ordered current ->
  (forall a b, a ∈ plan_ports original -> b ∈ plan_ports original -> same_socket_as a b -> a = b) ->
  targets_within original current -> remainingTargetsBelongTo original current = true.
Proof.
  unfold owners_ordered, remainingTargetsBelongTo. rewrite !Forall_forall, forallb_elem_of.
  intros Ho Hc Hu H port Hport. destruct (H port Hport) as (o & Hin & Hs & Hsub).
  destruct (find_if _ _) as [o'|] eqn:E.
  - apply find_if_Some in E as [Hin' Hs']. apply same_socket_spec in Hs'.
    assert (o' = o) as -> by (apply Hu; [done..|]; unfold same_socket_as in *; congruence).
    apply includes_spec; auto.
  - apply (find_if_None _ _ o) in E; [|done].
    rewrite (proj2 (same_socket_spec port o)) in E by done. done.
Qed.

(** ** The plan *)

Lemma common_unit_Some ports pids u v :
  common_unit ports pids (Some u) = (true, Some v) <->
  u = v /\ forall pid, pid ∈ pids ->
    exists owner, find_owner ports pid = Some owner /\ pi_systemdUnit owner = Some u.
Proof.
  induction pids as [|pid pids IH]; simpl; [set_solver|].
  destruct (find_owner ports pid) as [owner|] eqn:E.
  - destruct (pi_systemdUnit owner) as [w|] eqn:Eu.
    + case_bool_decide as Ew; [subst w; rewrite IH|].
      * split; intros [-> H]; (split; [done|]); set_solver.
      * split; [done|]. intros [-> H]. destruct (H pid) as (o & ? & ?); [set_solver|]. congruence.
    + split; [done|]. intros [-> H]. destruct (H pid) as (o & ? & ?); [set_solver|]. congruence.
  - split; [done|]. intros [-> H]. destruct (H pid) as (o & ? & ?); [set_solver|]. congruence.
Qed.

Lemma recommended_unit_spec ports pids u :
  recommended_unit ports pids = Some u <->
  pids <> [] /\ forall pid, pid ∈ pids ->
    exists owner, find_owner ports pid = Some owner /\ pi_systemdUnit owner = Some u.
Proof.
  unfold recommended_unit. destruct pids as [|pid pids]; [naive_solver|]. simpl.
  destruct (find_owner ports pid) as [owner|] eqn:E.
  - destruct (pi_systemdUnit owner) as [w|] eqn:Eu.
    + transitivity (common_unit ports pids (Some w) = (true, Some u)).
      { destruct (common_unit _ _ _) as [[] c]; naive_solver. }
      rewrite common_unit_Some. split.
      * intros [-> H]. split; [done|]. set_solver.
      * intros [_ H]. destruct (H pid) as (o & ? & ?); [set_solver|].
        assert (w = u) as -> by congruence. split; [done|]. set_solver.
    + split; [done|]. intros [_ H]. destruct (H pid) as (o & ? & ?); [set_solver|]. congruence.
  - split; [done|]. intros [_ H]. destruct (H pid) as (o & ? & ?); [set_solver|]. congruence.
Qed.

Lemma validate_all_Success S pids :
  validate_all S pids = Success tt <-> Forall (signal_allowed (processService S)) pids.
Proof.
  induction pids as [|pid pids IH]; simpl; [by split|].
  rewrite Forall_cons, <- IH, <- validateSignalTarget_Success.
  destruct (validateSignalTarget _ pid) as [[]|e]; naive_solver.
Qed.

(** What a plan returned by [prepareRelease] satisfies. *)
Record wf_plan (S : PortService.PortService) (port : Z) (plan : PortReleasePlan) : Prop := {
  wf_port : plan_localPort plan = port;
  wf_nonempty : plan_ports plan <> [];
  wf_owned : Forall (fun p => si_ownerPids (port_socket p) <> []) (plan_ports plan);
  wf_pids_sorted : strictly_sorted (plan_ownerPids plan);
  wf_pids pid : pid ∈ plan_ownerPids plan <->
    exists p, p ∈ plan_ports plan /\ pid ∈ si_ownerPids (port_socket p);
  wf_allowed : Forall (signal_allowed (processService S)) (plan_ownerPids plan);
  wf_unit u : plan_recommendedUnit plan = Some u <->
    forall pid, pid ∈ plan_ownerPids plan ->
      exists owner, find_owner (plan_ports plan) pid = Some owner /\ pi_systemdUnit owner = Some u;
}.

Lemma prepareRelease_inv S port tr o :
  runs (prepareRelease S port) tr (Success o) ->
  exists inspected, runs (PortService.inspect S (mkSocketQuery (Some port) None true)) tr
      (Success inspected) /\
    plan_ports (obs_value o) = obs_value inspected /\ wf_plan S port (obs_value o).
Proof.
  unfold prepareRelease. destruct (port =? 0); [by intros [_ [=]]|].
  intros [(e & _ & [=])|(tr1 & i & tr2 & -> & Hi & H)]%runs_bindR.
  destruct (obs_value i) as [|p ps] eqn:Ei; [by destruct H as [_ [=]]|].
  remember (p :: ps) as ports. destruct (existsb _ ports) eqn:Eo; [by destruct H as [_ [=]]|].
  destruct (validate_all S _) as [[]|e] eqn:Ev; [|by destruct H as [_ [=]]].
  destruct H as [-> [= ->]]. exists i. rewrite app_nil_r. split_and!; [done|by rewrite Ei|].
  apply validate_all_Success in Ev. split; simpl; [done|congruence| | | |done|].
  - apply Forall_forall. intros q Hq Hnil.
    assert (existsb (fun port => bool_decide (si_ownerPids (port_socket port) = [])) ports = true).
    { apply existsb_elem_of. exists q. by rewrite bool_decide_eq_true. }
    congruence.
  - apply sort_unique_sorted.
  - intros pid. rewrite elem_of_sort_unique. rewrite list_elem_of_join.
    setoid_rewrite list_elem_of_fmap. naive_solver.
  - intros u. rewrite recommended_unit_spec. split; [by intros [_ ?]|]. intros Hu. split; [|done].
    (* there is an owner: the first port has one *)
    intros Hnil. assert (p ∈ ports) as Hp by set_solver.
    destruct (si_ownerPids (port_socket p)) as [|pid pids] eqn:Epids.
    + assert (existsb (fun port => bool_decide (si_ownerPids (port_socket port) = [])) ports = true).
      { apply existsb_elem_of. exists p. by rewrite bool_decide_eq_true. }
      congruence.
    + assert (pid ∈ sort_unique (mjoin (map (fun p => si_ownerPids (port_socket p)) ports))) as Hin.
      { rewrite elem_of_sort_unique, list_elem_of_join. exists (pid :: pids).
        split; [set_solver|]. apply list_elem_of_fmap. by exists p. }
      rewrite Hnil in Hin. set_solver.
Qed.

(** ** Inspection *)

Lemma inspect_owners_spec P pids ps ws tr ps' ws' :
  runs (inspect_owners P pids ps ws) tr (ps', ws') ->
  ws `prefix_of` ws' /\
  (forall pid p, ps' !! pid = Some p -> ps !! pid = Some p \/
     exists t w, runs (ProcessService.inspect P pid) t (Success (Observed p w))) /\
  (forall pid, pid ∈ pids -> ps' !! pid = None ->
     exists t e, runs (ProcessService.inspect P pid) t (Failure e) /\ warningFrom e ∈ ws').
Proof.
  revert ps ws tr. induction pids as [|pid pids IH]; intros ps ws tr; simpl.
  { intros [_ [= -> ->]]. split_and!; [done|by left|set_solver]. }
  intros (t1 & [o|e] & t2 & -> & H1 & H2)%runs_bind.
  - pose proof (IH _ _ _ H2) as (Hp & Hs & Hc). split_and!.
    + etrans; [|exact Hp]. by eexists.
    + intros q p Hq. destruct (Hs q p Hq) as [Hi|]; [|by right].
      destruct (decide (pid = q)) as [<-|]; simplify_map_eq; [|by left].
      right. exists t1, (obs_warnings o). by destruct o.
    + intros q [->|Hq]%elem_of_cons Hn; [|by apply Hc].
      destruct (decide (pid ∈ pids)); [by apply Hc|].
      exfalso. clear -H2 Hn n. (* the entry just written is not removed *)
      assert (Hkeep : forall pids ps ws tr ps' ws', runs (inspect_owners P pids ps ws) tr (ps', ws') ->
                is_Some (ps !! pid) -> is_Some (ps' !! pid)).
      { clear. induction pids as [|q pids IH]; intros ps ws tr ps' ws'; simpl.
        - by intros [_ [= -> ->]].
        - intros (t1 & [o|e] & t2 & -> & H1 & H2)%runs_bind Hi; eapply IH; [done| |done|done].
          destruct (decide (q = pid)) as [->|]; by simplify_map_eq. }
      apply Hkeep in H2 as [? ?]; [congruence|by simplify_map_eq].
  - pose proof (IH _ _ _ H2) as (Hp & Hs & Hc). split_and!; [|done|].
    + etrans; [|exact Hp]. by eexists.
    + intros q [->|Hq]%elem_of_cons Hn; [|by apply Hc].
      exists t1, e. split; [done|]. destruct Hp as [k ->]. set_solver.
Qed.

Lemma inspect_inv S q tr o :
  runs (PortService.inspect S q) tr (Success o) ->
  exists sockets ownership procs,
    Ev (SocketProvider_query q) (Success sockets) ∈ tr /\
    Ev (OwnerResolver_resolve (socket_inodes (obs_value sockets))) (Success ownership) ∈ tr /\
    obs_value o = map (port_of procs) (map (attach_owners (obs_value ownership)) (obs_value sockets)) /\
    (obs_warnings sockets ++ obs_warnings ownership) `prefix_of` obs_warnings o /\
    (forall pid p, procs !! pid = Some p ->
       exists t w, runs (ProcessService.inspect (processService S) pid) t (Success (Observed p w))) /\
    (forall pid, pid ∈ found_owners (obs_value ownership) (obs_value sockets) ->
       procs !! pid = None ->
       exists t e, runs (ProcessService.inspect (processService S) pid) t (Failure e) /\
         warningFrom e ∈ obs_warnings o).
Proof.
  unfold PortService.inspect.
  intros [(e & _ & [=])|(t1 & sockets & t2 & -> & ->%runs_trigger & H)]%runs_bindR.
  apply runs_bindR in H as [(e & _ & [=])|(t3 & own & t4 & -> & ->%runs_trigger & H)].
  apply runs_bind in H as (t5 & [procs ws] & t6 & -> & H & -> & [= ->]).
  apply inspect_owners_spec in H as (Hp & Hs & Hc). simpl.
  exists sockets, own, procs. split_and!; [set_solver|set_solver|done|done| |].
  - intros pid p Hi. destruct (Hs pid p Hi) as [|?]; [by simplify_map_eq|done].
  - intros pid Hi. apply Hc. by apply elem_of_iter_order.
Qed.

(** Under the contract of the socket adapters the plan's owner lists are
strictly increasing. *)
Lemma prepareRelease_ordered S port tr o :
  runs (prepareRelease S port) tr (Success o) -> Forall owners_sorted tr ->
  owners_ordered (obs_value o).
Proof.
  intros (i & Hi & Hports & _)%prepareRelease_inv Htr. unfold owners_ordered. rewrite Hports.
  apply inspect_inv in Hi as (sockets & own & procs & Hq & Hr & Ho & _). rewrite Ho.
  rewrite Forall_forall in Htr. pose proof (Htr _ Hq) as Hqs. pose proof (Htr _ Hr) as Hrs.
  simpl in Hqs, Hrs. specialize (Hqs _ eq_refl). specialize (Hrs _ eq_refl).
  rewrite Forall_forall in Hqs. apply Forall_forall. intros p.
  rewrite list_elem_of_fmap. intros (s & -> & Hs). simpl.
  apply list_elem_of_fmap in Hs as (s0 & -> & Hs0). unfold attach_owners.
  destruct (obs_value own !! si_inode s0) as [pids|] eqn:E; simpl; [by apply (Hrs _ _ E)|].
  rewrite Hqs by done. constructor.
Qed.

(** ** Signals *)

(** A loop of sends signals a prefix of the PIDs, in order, each with the same
signal and each allowed. *)
Lemma signal_all_spec P s pids ds tr r :
  runs (signal_all (fun pid => ProcessService.signal P pid s) pids ds) tr r ->
  (exists k, signals tr = map (fun pid => (pid, s)) (take k pids) /\
             Forall (signal_allowed P) (take k pids)) /\
  jobs tr = [] /\
  (forall ds', r = Success ds' ->
     signals tr = map (fun pid => (pid, s)) pids /\ length ds' = (length ds + length pids)%nat).
Proof.
  revert ds tr. induction pids as [|pid pids IH]; intros ds tr; simpl.
  { intros [-> ->]. split_and!; [by exists O|done|]. intros ds' [= ->]. split; [done|simpl; lia]. }
  intros (t1 & d & t2 & -> & H1 & H2)%runs_bind. autorewrite with trace.
  apply runs_signal in H1 as [(-> & e & -> & _)|(-> & Hok)].
  { destruct H2 as [-> ->]. split_and!; [by exists O|done|by intros ? [=]]. }
  destruct d as [d|e].
  - apply IH in H2 as ((k & Hk & Ha) & Hj & Hall). simpl. rewrite Hk, Hj. split_and!; [|done|].
    + exists (Datatypes.S k). simpl. split; [done|]. by apply Forall_cons.
    + intros ds' Hds. destruct (Hall ds' Hds) as [Hs Hl].
      rewrite <- Hs, Hk. split; [done|]. rewrite Hl, length_app. simpl. lia.
  - destruct H2 as [-> ->]. split_and!; [|done|by intros ? [=]].
    exists 1%nat. simpl. split; [done|]. by apply Forall_singleton.
Qed.

(** ** Carrying out a plan

[revalidated]: the run signals nobody before it has prepared the port again
and found exactly the sockets and owners of the plan. *)
Definition revalidated S (plan : PortReleasePlan) (tr : trace provE) : Prop :=
  exists tr0 current tr1,
    tr = tr0 ++ tr1 /\ runs (prepareRelease S (plan_localPort plan)) tr0 (Success current) /\
    signals tr0 = [] /\ jobs tr0 = [] /\
    map identity (plan_ports plan) ≡ₚ map identity (plan_ports (obs_value current)).

Definition signals_plan S (plan : PortReleasePlan) (s : ProcessSignal) (tr : trace provE) : Prop :=
  jobs tr = [] /\
  (exists k, signals tr = map (fun pid => (pid, s)) (take k (plan_ownerPids plan))) /\
  Forall (fun sent => signal_allowed (processService S) sent.1) (signals tr) /\
  (signals tr <> [] -> revalidated S plan tr).

Lemma signals_none S plan s tr : signals tr = [] -> jobs tr = [] -> signals_plan S plan s tr.
Proof. intros H1 H2. split_and!; [done| |by rewrite H1|by rewrite H1]. by exists O. Qed.

(** The common shape of [terminate] and [force]: prepare, compare, signal all,
and a continuation that only observes. *)
Lemma carried_out S plan s tr0 current tr1 r
    (k : list SignalDelivery -> prog provE (Result (Observation PortReleaseResult))) :
  runs (prepareRelease S (plan_localPort plan)) tr0 (Success current) ->
  sameTargets plan (obs_value current) = true ->
  (forall ds, calls_ok read_only (k ds)) ->
  runs (bindR (signal_all (fun pid => ProcessService.signal (processService S) pid s)
                 (plan_ownerPids plan) []) k) tr1 r ->
  signals_plan S plan s (tr0 ++ tr1).
Proof.
  intros H0 Hsame Hk H1. pose proof (prepareRelease_quiet _ _ _ _ H0) as [Hs0 Hj0].
  assert (Hrev : revalidated S plan (tr0 ++ tr1)).
  { exists tr0, current, tr1. by apply sameTargets_spec in Hsame. }
  unfold signals_plan. autorewrite with trace. rewrite Hs0, Hj0. simpl.
  assert (Hsplit : exists ta tb q, tr1 = ta ++ tb /\ signals tb = [] /\ jobs tb = [] /\
            runs (signal_all (fun pid => ProcessService.signal (processService S) pid s)
                 (plan_ownerPids plan) []) ta q).
  { apply runs_bindR in H1 as [(e & H1 & ->)|(ta & ds & tb & -> & H1 & H2)].
    - exists tr1, [], (Failure e). by rewrite app_nil_r.
    - exists ta, tb, (Success ds). pose proof (read_only_runs _ _ _ (Hk ds) H2) as [??]. done. }
  destruct Hsplit as (ta & tb & q & -> & Hsb & Hjb & Ha).
  apply signal_all_spec in Ha as ((n & Hn & Hal) & Hj & _).
  autorewrite with trace. rewrite Hsb, Hjb, Hj, Hn, !app_nil_r. split_and!; [done|by exists n| |done].
  rewrite Forall_fmap. exact Hal.
Qed.

Lemma terminate_quiet_rest S plan current ds :
  calls_ok read_only
    (now <- trigger SteadyClock_now ;;
     _ <-? wait_all S (now + gracePeriod S * 1000000) (plan_ownerPids plan) ;;
     after <- prepareRelease S (plan_localPort plan) ;;
     match after with
     | Failure error =>
         if is_NotFound error then
           Ret (Success (Observed (mkPortReleaseResult true ds None) (obs_warnings current)))
         else Ret (Failure error)
     | Success after =>
         if negb (remainingTargetsBelongTo plan (obs_value after)) then
           Ret (Failure changedTargetError)
         else
           Ret (Success (Observed (mkPortReleaseResult false ds (Some (obs_value after)))
                  (obs_warnings (A := PortReleasePlan) current ++ obs_warnings after)))
     end).
Proof.
  apply calls_ok_bind; [done|]. intros now.
  apply calls_ok_bindR; [apply wait_all_read_only|]. intros _.
  apply calls_ok_bind; [apply prepareRelease_read_only|]. intros [after|e]; by case_match.
Qed.

Lemma force_quiet_rest S plan current ds :
  calls_ok read_only
    (now <- trigger SteadyClock_now ;;
     _ <-? wait_all S (now + gracePeriod S * 1000000) (plan_ownerPids plan) ;;
     after <- prepareRelease S (plan_localPort plan) ;;
     match after with
     | Failure error =>
         if is_NotFound error then
           Ret (Success (Observed (mkPortReleaseResult true ds None)
                           (obs_warnings (A := PortReleasePlan) current)))
         else Ret (Failure error)
     | Success after =>
         if negb (remainingTargetsBelongTo plan (obs_value after)) then
           Ret (Failure changedTargetError)
         else
           Ret (Failure (port_error Timeout $"Port is still occupied after SIGKILL"
                           $"force release"))
     end).
Proof.
  apply calls_ok_bind; [done|]. intros now.
  apply calls_ok_bindR; [apply wait_all_read_only|]. intros _.
  apply calls_ok_bind; [apply prepareRelease_read_only|]. intros [after|e]; by case_match.
Qed.

Lemma terminate_signals_plan S plan tr r :
  runs (terminate S plan) tr r -> signals_plan S plan Terminate tr.
Proof.
  unfold terminate. intros (tr0 & [current|e] & tr1 & -> & H0 & H1)%runs_bind.
  - destruct (sameTargets plan (obs_value current)) eqn:E; simpl in H1.
    + eapply carried_out; [done|done| |exact H1]. intros ds. apply terminate_quiet_rest.
    + destruct H1 as [-> ->]. rewrite app_nil_r. by apply signals_none; apply prepareRelease_quiet in H0 as [??].
  - apply prepareRelease_quiet in H0 as [??].
    destruct (is_NotFound e); destruct H1 as [-> ->]; rewrite app_nil_r; by apply signals_none.
Qed.

Lemma force_signals_plan S plan tr r :
  runs (force S plan) tr r -> signals_plan S plan Kill tr.
Proof.
  unfold force. intros (tr0 & [current|e] & tr1 & -> & H0 & H1)%runs_bind.
  - destruct (sameTargets plan (obs_value current)) eqn:E; simpl in H1.
    + eapply carried_out; [done|done| |exact H1]. intros ds. apply force_quiet_rest.
    + destruct H1 as [-> ->]. rewrite app_nil_r. by apply signals_none; apply prepareRelease_quiet in H0 as [??].
  - apply prepareRelease_quiet in H0 as [??].
    destruct (is_NotFound e); destruct H1 as [-> ->]; rewrite app_nil_r; by apply signals_none.
Qed.

(** ** Outcomes *)

(** The port was prepared within the run and nothing was found on it. *)
Definition observed_free S (port : Z) (tr : trace provE) : Prop :=
  exists tr0 tr1 tr2 e, tr = tr0 ++ tr1 ++ tr2 /\
    runs (prepareRelease S port) tr1 (Failure e) /\ err_code e = NotFound.

Lemma is_NotFound_true e : is_NotFound e = true <-> err_code e = NotFound.
Proof. unfold is_NotFound. by rewrite bool_decide_eq_true. Qed.

Lemma observed_free_intro S port tr0 tr1 e :
  runs (prepareRelease S port) tr1 (Failure e) -> is_NotFound e = true ->
  observed_free S port (tr0 ++ tr1).
Proof. intros H1 H2%is_NotFound_true. exists tr0, tr1, [], e. by rewrite app_nil_r. Qed.

(** A successful [terminate] either saw the port free or reports what is left,
after a signal was delivered to every owner. *)
Lemma terminate_Success S plan tr o :
  runs (terminate S plan) tr (Success o) ->
  (rel_released (obs_value o) = true /\ rel_remaining (obs_value o) = None /\
   observed_free S (plan_localPort plan) tr) \/
  (rel_released (obs_value o) = false /\
   signals tr = map (fun pid => (pid, Terminate)) (plan_ownerPids plan) /\
   length (rel_deliveries (obs_value o)) = length (plan_ownerPids plan) /\
   exists tr0 tr1 after, tr = tr0 ++ tr1 /\
     runs (prepareRelease S (plan_localPort plan)) tr1 (Success after) /\
     rel_remaining (obs_value o) = Some (obs_value after) /\
     remainingTargetsBelongTo plan (obs_value after) = true).
Proof.
  unfold terminate. intros (tr0 & [current|e] & tr1 & -> & H0 & H1)%runs_bind.
  2:{ destruct (is_NotFound e) eqn:E; [|by destruct H1 as [_ [=]]].
      destruct H1 as [-> [= ->]]. left. rewrite app_nil_r. split_and!; [done..|].
      by apply (observed_free_intro S _ []) with e. }
  destruct (sameTargets plan (obs_value current)); simpl in H1; [|by destruct H1 as [_ [=]]].
  apply runs_bindR in H1 as [(e & _ & [=])|(ta & ds & tb & -> & Ha & H1)].
  destruct H1 as (now & td & -> & H1).
  apply runs_bindR in H1 as [(e & _ & [=])|(te & [] & tf & -> & Hw & H1)].
  apply runs_bind in H1 as (tg & [after|e] & th & -> & Hp & H1).
  - destruct (remainingTargetsBelongTo plan (obs_value after)) eqn:E; simpl in H1;
      [|by destruct H1 as [_ [=]]].
    destruct H1 as [-> [= ->]]. right. simpl.
    apply signal_all_spec in Ha as (_ & _ & Hall). destruct (Hall ds eq_refl) as [Hs Hl].
    split_and!; [done| |done|].
    + autorewrite with trace. rewrite Hs.
      destruct (prepareRelease_quiet _ _ _ _ H0) as [-> _].
      destruct (prepareRelease_quiet _ _ _ _ Hp) as [-> _].
      destruct (read_only_runs _ _ _ (wait_all_read_only _ _ _) Hw) as [-> _].
      simpl. by rewrite !app_nil_r.
    + exists (tr0 ++ ta ++ Ev SteadyClock_now now :: te), tg, after.
      rewrite app_nil_r, <- !app_assoc. done.
  - destruct (is_NotFound e) eqn:E; [|by destruct H1 as [_ [=]]].
    destruct H1 as [-> [= ->]]. left. simpl. split_and!; [done..|].
    exists (tr0 ++ ta ++ Ev SteadyClock_now now :: te), tg, [], e.
    rewrite <- !app_assoc. by apply is_NotFound_true in E.
Qed.

(** [force] succeeds only when it saw the port free. *)
Lemma force_Success S plan tr o :
  runs (force S plan) tr (Success o) ->
  rel_released (obs_value o) = true /\ rel_remaining (obs_value o) = None /\
  observed_free S (plan_localPort plan) tr.
Proof.
  unfold force. intros (tr0 & [current|e] & tr1 & -> & H0 & H1)%runs_bind.
  2:{ destruct (is_NotFound e) eqn:E; [|by destruct H1 as [_ [=]]].
      destruct H1 as [-> [= ->]]. rewrite app_nil_r. split_and!; [done..|].
      by apply (observed_free_intro S _ []) with e. }
  destruct (sameTargets plan (obs_value current)); simpl in H1; [|by destruct H1 as [_ [=]]].
  apply runs_bindR in H1 as [(e & _ & [=])|(ta & ds & tb & -> & Ha & H1)].
  destruct H1 as (now & td & -> & H1).
  apply runs_bindR in H1 as [(e & _ & [=])|(te & [] & tf & -> & Hw & H1)].
  apply runs_bind in H1 as (tg & [after|e] & th & -> & Hp & H1).
  - destruct (remainingTargetsBelongTo plan (obs_value after)); simpl in H1; by destruct H1 as [_ [=]].
  - destruct (is_NotFound e) eqn:E; [|by destruct H1 as [_ [=]]].
    destruct H1 as [-> [= ->]]. simpl. split_and!; [done..|].
    exists (tr0 ++ ta ++ Ev SteadyClock_now now :: te), tg, [], e.
    rewrite <- !app_assoc. by apply is_NotFound_true in E.
Qed.

(** ** Stopping the service *)

Lemma await_release_quiet S fuel plan unit deadline ws :
  calls_ok quiet (await_release S fuel plan unit deadline ws).
Proof.
  revert ws. induction fuel as [|fuel IH]; intros ws; simpl; [done|].
  apply calls_ok_bind; [apply read_only_calls_quiet, prepareRelease_read_only|].
  intros [after|e]; [|by case_match]. case_match; [done|]. simpl. split; [done|]. intros now.
  case_match; [done|]. simpl. split; [done|]. intros _. apply IH.
Qed.

Lemma await_release_Success S fuel plan unit deadline ws tr o :
  runs (await_release S fuel plan unit deadline ws) tr (Some (Success o)) ->
  rel_released (obs_value o) = true /\ rel_remaining (obs_value o) = None /\
  rel_deliveries (obs_value o) = [] /\
  exists tr0 tr1 e, tr = tr0 ++ tr1 /\
    runs (prepareRelease S (plan_localPort plan)) tr1 (Failure e) /\ err_code e = NotFound.
Proof.
  revert ws tr. induction fuel as [|fuel IH]; intros ws tr; simpl; [by intros [_ [=]]|].
  intros (t1 & [after|e] & t2 & -> & H1 & H2)%runs_bind.
  - destruct (remainingTargetsBelongTo plan (obs_value after)); simpl in H2; [|by destruct H2 as [_ [=]]].
    destruct H2 as (now & t3 & -> & H2). destruct (deadline <=? now); [by destruct H2 as [_ [=]]|].
    destruct H2 as ([] & t4 & -> & H2). apply IH in H2 as (? & ? & ? & t5 & t6 & e & -> & ? & ?).
    split_and!; [done..|]. exists (t1 ++ Ev SteadyClock_now now :: Ev (SleepFor 25) tt :: t5), t6, e.
    by rewrite <- app_assoc.
  - destruct (is_NotFound e) eqn:E; [|by destruct H2 as [_ [=]]].
    destruct H2 as [-> [= ->]]. simpl. split_and!; [done..|]. exists [], t1, e.
    rewrite app_nil_r. by apply is_NotFound_true in E.
Qed.

(** The loop ends: each turn sleeps 25 ms, so the clock passes the deadline
after [fuel - 1] turns when they add up to it. *)
Lemma await_release_fuel S fuel plan unit deadline ws lower tr o :
  clock_ok lower tr ->
  deadline <= lower + 25000000 * (Z.of_nat fuel - 1) -> (fuel <> O) ->
  runs (await_release S fuel plan unit deadline ws) tr o -> o <> None.
Proof.
  revert ws lower tr. induction fuel as [|fuel IH]; intros ws lower tr Hc Hd Hf; simpl; [done|].
  intros (t1 & [after|e] & t2 & -> & H1 & H2)%runs_bind; [|by case_match; destruct H2 as [_ ->]].
  apply clock_ok_app in Hc as (l1 & Hl1 & Hc);
    [|by eapply calls_ok_runs; [apply prepareRelease_read_only|]].
  destruct (remainingTargetsBelongTo plan (obs_value after)); simpl in H2; [|by destruct H2 as [_ ->]].
  destruct H2 as (now & t3 & -> & H2). simpl in Hc. destruct Hc as [Hnow Hc].
  destruct (Z.leb_spec deadline now); [by destruct H2 as [_ ->]|].
  destruct H2 as (x & t4 & -> & H2). simpl in Hc.
  eapply (IH _ (now + 25 * 1000000)); [done| | |done]; [lia|]. intros ->. lia.
Qed.

Lemma stopManagedService_inv S fuel plan tr o :
  runs (stopManagedService S fuel plan) tr o ->
  (signals tr = [] /\ jobs tr = [] /\ o <> None /\
   (forall v, o = Some (Success v) -> observed_free S (plan_localPort plan) tr /\ v = released_already)) \/
  (exists unit tr0 current tr1 tr2 t r,
     plan_recommendedUnit plan = Some unit /\ tr = tr0 ++ tr1 ++ tr2 /\
     runs (prepareRelease S (plan_localPort plan)) tr0 (Success current) /\
     sameTargets plan (obs_value current) = true /\
     plan_recommendedUnit (obs_value current) = Some unit /\
     runs (ServiceService.stop unit) tr1 r /\
     match r with
     | Failure e => tr2 = [] /\ o = Some (Failure e)
     | Success _ => exists tr3, tr2 = Ev SteadyClock_now t :: tr3 /\
         runs (await_release S fuel plan unit (t + gracePeriod S * 1000000)
                 (obs_warnings current)) tr3 o
     end).
Proof.
  unfold stopManagedService. destruct (plan_recommendedUnit plan) as [unit|] eqn:Eu;
    [|intros [-> ->]; left; naive_solver].
  destruct (serviceService S); simpl; [|intros [-> ->]; left; naive_solver].
  intros (tr0 & [current|e] & t1 & -> & H0 & H1)%runs_bind.
  - destruct (sameTargets plan (obs_value current)) eqn:Es; simpl in H1.
    2:{ left. destruct H1 as [-> ->]. rewrite app_nil_r.
        apply prepareRelease_quiet in H0 as [??]. naive_solver. }
    case_bool_decide as Er.
    { left. destruct H1 as [-> ->]. rewrite app_nil_r.
        apply prepareRelease_quiet in H0 as [??]. naive_solver. }
    right. apply runs_bind in H1 as (tr1 & r & tr2 & -> & Hs & H1).
    assert (plan_recommendedUnit (obs_value current) = Some unit).
    { destruct (decide (plan_recommendedUnit (obs_value current) = Some unit)); tauto. }
    destruct r as [v|e].
    + destruct H1 as (t & tr3 & -> & H1).
      exists unit, tr0, current, tr1, (Ev SteadyClock_now t :: tr3), t, (Success v). eauto 15.
    + destruct H1 as [-> ->].
      exists unit, tr0, current, tr1, [], 0, (Failure e). eauto 15.
  - left. destruct (is_NotFound e) eqn:E; destruct H1 as [-> ->]; rewrite app_nil_r;
      pose proof (prepareRelease_quiet _ _ _ _ H0) as [??]; split_and!; try done.
    intros v [= <-]. split; [|done]. by apply (observed_free_intro S _ []) with e.
Qed.

(** More fuel changes nothing once a run has an answer. *)
Lemma await_release_mono S fuel fuel' plan unit deadline ws tr r :
  (fuel <= fuel')%nat ->
  runs (await_release S fuel plan unit deadline ws) tr (Some r) ->
  runs (await_release S fuel' plan unit deadline ws) tr (Some r).
Proof.
  revert fuel' ws tr. induction fuel as [|fuel IH]; intros fuel' ws tr Hle; [by intros [_ [=]]|].
  destruct fuel' as [|fuel']; [lia|]. simpl. rewrite !runs_bind.
  intros (t1 & after & t2 & -> & H1 & H2). exists t1, after, t2. split_and!; [done..|].
  destruct after as [after|e]; [|done].
  destruct (remainingTargetsBelongTo plan (obs_value after)); [|done].
  destruct H2 as (now & t3 & -> & H2). exists now, t3. split; [done|].
  destruct (deadline <=? now); [done|]. destruct H2 as (x & t4 & -> & H2). exists x, t4.
  split; [done|]. apply IH; [lia|done].
Qed.

Lemma stopManagedService_mono S fuel fuel' plan tr r :
  (fuel <= fuel')%nat ->
  runs (stopManagedService S fuel plan) tr (Some r) ->
  runs (stopManagedService S fuel' plan) tr (Some r).
Proof.
  intros Hle. unfold stopManagedService. destruct (plan_recommendedUnit plan); [|done].
  destruct (serviceService S); [|done]. simpl. rewrite !runs_bind.
  intros (t1 & current & t2 & -> & H1 & H2). exists t1, current, t2. split_and!; [done..|].
  destruct current as [current|e]; [|done]. destruct (_ || _); [done|]. revert H2.
  rewrite !runs_bind. intros (t3 & [v|e] & t4 & -> & H3 & H4); exists t3; eexists _, t4; (split_and!; [done|exact H3|]).
  - destruct H4 as (now & t5 & -> & H4). exists now, t5. split; [done|].
    by eapply await_release_mono.
  - done.
Qed.

Lemma runs_stop unit tr r :
  runs (ServiceService.stop unit) tr r ->
  (tr = [] /\ exists e, r = Failure e /\ normalizeUnit unit = Failure e) \/
  (exists v, normalizeUnit unit = Success v /\ tr = [Ev (ServiceProvider_stop v) r]).
Proof.
  unfold ServiceService.stop. destruct (normalizeUnit unit) as [v|e].
  - intros ->%runs_trigger. eauto.
  - intros [-> ->]. left. eauto.
Qed.

Lemma stopManagedService_answers S fuel plan lower tr o :
  clock_ok lower tr -> gracePeriod S <= 25 * (Z.of_nat fuel - 1) -> fuel <> O ->
  runs (stopManagedService S fuel plan) tr o -> o <> None.
Proof.
  intros Hc Hg Hf [(_ & _ & Ho & _)|(u & t0 & cur & t1 & t2 & t & r & _ & -> & H0 & _ & _ & Hs & H1)]%stopManagedService_inv;
    [done|]. destruct r as [v|e]; [|by destruct H1 as [_ ->]].
  destruct H1 as (t3 & -> & H1).
  apply clock_ok_app in Hc as (l1 & _ & Hc);
    [|by eapply calls_ok_runs; [apply prepareRelease_read_only|]].
  assert (exists l2, clock_ok l2 (Ev SteadyClock_now t :: t3)) as (l2 & _ & Hc2).
  { apply runs_stop in Hs as [(-> & e & [=] & _)|(w & _ & ->)]; simpl in Hc. eauto. }
  revert H1. apply (await_release_fuel S fuel plan u _ _ t); [done| |done]. lia.
Qed.

(** ** From plan to plan *)

Lemma targets_within_owners S plan after :
  wf_plan S (plan_localPort plan) plan -> wf_plan S (plan_localPort after) after ->
  targets_within plan after -> plan_ownerPids after ⊆ plan_ownerPids plan.
Proof.
  intros Hp Ha Hin pid Hpid. apply (wf_pids _ _ _ Ha) in Hpid as (p & Hp1 & Hp2).
  destruct (Hin p Hp1) as (o & Ho & _ & Hsub). apply (wf_pids _ _ _ Hp). exists o. auto.
Qed.

Lemma terminate_remaining S plan tr o after :
  owners_ordered plan -> Forall owners_sorted tr ->
  runs (terminate S plan) tr (Success o) -> rel_remaining (obs_value o) = Some after ->
  targets_within plan after /\ owners_ordered after /\ wf_plan S (plan_localPort after) after.
Proof.
  intros Hord Htr [(_ & -> & _)|(_ & _ & _ & t0 & t1 & a & -> & Ha & -> & Hr)]%terminate_Success;
    [done|]. intros [= <-]. apply Forall_app in Htr as [_ Htr].
  pose proof (prepareRelease_ordered _ _ _ _ Ha Htr) as Hoa.
  apply prepareRelease_inv in Ha as (i & _ & _ & Hwf).
  split_and!; [by apply remainingTargetsBelongTo_within|done|].
  by rewrite (wf_port _ _ _ Hwf).
Qed.
End Proofs.
