(* ===== verification/PortServiceTheorems.v ===== *)
(** * What [PortService] guarantees

The safety of releasing a port (who is signalled, when, which service is
stopped), the meaning of its outcomes, its termination, and the contents of
plans and inspections; each with an example on the simulated machine. *)

From S2P Require Import Prelude CppStd CppString Prog Domain Contracts Sim.
From S2P Require Import ServiceService ProcessService PortService PortServiceProofs.

(** [terminate] and [force] as one operation. *)
Definition release {HO : HashOrder} (S : PortService.PortService) (s : ProcessSignal)
    (plan : PortReleasePlan) : prog provE (Result (Observation PortReleaseResult)) :=
  match s with Terminate => terminate S plan | Kill => force S plan end.

(** ** The examples' service and plans *)

Definition sim_ports : PortService.PortService := mkPortService (mkProcessService 999 true) true 3000.
#[local] Existing Instance elements_order.

Definition plan_for (port : Z) : PortReleasePlan :=
  match result (prepareRelease sim_ports port) sim_machine with
  | Success o => obs_value o
  | Failure _ => mkPortReleasePlan port [] [] None
  end.

Section Theorems.
Context {HO : HashOrder}.
Implicit Types S : PortService.PortService.

(** C3. Releasing a port with [terminate] (SIGTERM) or [force] (SIGKILL)
signals a prefix of the owners of the confirmed plan, in order and each with
that signal only, never PID 0, init or LX itself, submits no service job, and
signals nobody unless the port was prepared again in the same run, before the
first signal, and showed exactly the sockets and owners of the plan. *)
Theorem release_signals_only_plan S s plan tr r :
  runs (release S s plan) tr r -> signals_plan S plan s tr.
Proof. destruct s; [apply terminate_signals_plan | apply force_signals_plan]. Qed.


(** [force] reports success only when the port was found free within the
run: it never reports a port released that it did not see released. *)
Theorem force_outcome S plan tr o :
  runs (force S plan) tr (Success o) ->
  rel_released (obs_value o) = true /\ rel_remaining (obs_value o) = None /\
  observed_free S (plan_localPort plan) tr.
Proof. apply force_Success. Qed.

(** An owner that has gone when its turn comes, after another was signalled, makes the
release fail. *)
Lemma vanished_owner_fails send pid rest delivery deliveries e tr :
  runs (send pid) tr (Failure e) -> err_code e = NotFound ->
  exists e', runs (signal_all send (pid :: rest) (delivery :: deliveries)) tr (Failure e') /\
    err_code e' = NotFound /\ err_message e' = $"Port release was partially signaled: " ++ err_message e.
Proof.
  intros H Hc. cbn [signal_all].
  exists (mkError (err_code e) ($"Port release was partially signaled: " ++ err_message e)
    (err_systemError e) (err_component e) (err_operation e)). split; [|done].
  apply runs_bind. exists tr, (Failure e), []. by rewrite app_nil_r.
Qed.

(** Escalation is confined: when the socket adapters keep their contract,
the plan that [terminate] hands over for SIGKILL only holds sockets of the
confirmed plan with owners they already had, and whatever [force] then
signals was an owner the user confirmed. *)
Theorem escalation_confined S plan tr1 o after tr2 r :
  wf_plan S (plan_localPort plan) plan -> owners_ordered plan ->
  Forall owners_sorted tr1 -> runs (terminate S plan) tr1 (Success o) ->
  rel_remaining (obs_value o) = Some after -> runs (force S after) tr2 r ->
  targets_within plan after /\
  Forall (fun sent => sent.1 ∈ plan_ownerPids plan /\ sent.2 = Kill) (signals tr2).
Proof.
  intros Hwf Hord Htr H1 Hafter H2.
  destruct (terminate_remaining _ _ _ _ _ Hord Htr H1 Hafter) as (Hin & _ & Hwfa).
  split; [done|]. apply force_signals_plan in H2 as (_ & (k & ->) & _).
  apply Forall_fmap, Forall_forall. intros pid Hpid. simpl. split; [|done].
  eapply targets_within_owners; [exact Hwf|done..|].
  rewrite <- (take_drop k (plan_ownerPids after)). set_solver.
Qed.

(** What [stopManagedService] submits: nothing, or after a preparation with the
same targets and unit the stop of that unit. *)
Lemma stopManagedService_submits S fuel plan tr o :
  runs (stopManagedService S fuel plan) tr o ->
  signals tr = [] /\
  (jobs tr = [] \/
   exists unit v, plan_recommendedUnit plan = Some unit /\ normalizeUnit unit = Success v /\
     jobs tr = [StopJob v] /\
     exists tr0 current tr1, tr = tr0 ++ tr1 /\ jobs tr0 = [] /\
       runs (prepareRelease S (plan_localPort plan)) tr0 (Success current) /\
       map identity (plan_ports plan) ≡ₚ map identity (plan_ports (obs_value current)) /\
       plan_recommendedUnit (obs_value current) = Some unit).
Proof.
  intros [(-> & -> & _ & Hv)|(u & t0 & cur & t1 & t2 & t & r & Hu & -> & H0 & Hsame & Hcu & Hs & H1)]%stopManagedService_inv.
  { split; [done|by left]. }
  pose proof (prepareRelease_quiet _ _ _ _ H0) as [Hs0 Hj0].
  apply sameTargets_spec in Hsame.
  assert (signals t2 = [] /\ jobs t2 = []) as [Hs2 Hj2].
  { destruct r as [v|e]; [|by destruct H1 as [-> _]]. destruct H1 as (t3 & -> & H1).
    autorewrite with trace. simpl. eapply quiet_runs; [apply await_release_quiet|done]. }
  autorewrite with trace. rewrite Hs0, Hj0, Hs2, Hj2.
  split.
  - apply runs_stop in Hs as [(-> & _)|(v & _ & ->)]; done.
  - apply runs_stop in Hs as [(-> & _)|(v & Hv & ->)]; [by left|]. right.
    exists u, v. split_and!; [done..|]. exists t0, cur. eauto 10.
Qed.


(** C6. [stopManagedService] terminates: when the steady clock does not go
back and each sleep takes its time, [gracePeriod / 25 + 1] turns of the
polling loop (121 for the default 3000 ms) suffice for an answer, and more
fuel gives the same answer on the same run. *)
Theorem stopManagedService_terminates S fuel plan lower tr o :
  clock_ok lower tr -> gracePeriod S <= 25 * (Z.of_nat fuel - 1) -> fuel <> O ->
  runs (stopManagedService S fuel plan) tr o ->
  exists r, o = Some r /\
    forall fuel', (fuel <= fuel')%nat -> runs (stopManagedService S fuel' plan) tr (Some r).
Proof.
  intros Hc Hg Hf H. pose proof (stopManagedService_answers _ _ _ _ _ _ Hc Hg Hf H) as Hn.
  destruct o as [r|]; [|done]. exists r. split; [done|]. intros fuel' Hle.
  by eapply stopManagedService_mono.
Qed.


(** Two plans have the same targets exactly when their sockets with their
owners are the same up to order; and under the ordering of owner lists that
the adapters promise, [remainingTargetsBelongTo] decides that every remaining
socket is one of the plan with no new owner. *)
Theorem plan_comparison p q :
  (sameTargets p q = true <-> map identity (plan_ports p) ≡ₚ map identity (plan_ports q)) /\
  (owners_ordered p -> owners_ordered q ->
   (forall a b, a ∈ plan_ports p -> b ∈ plan_ports p -> same_socket_as a b -> a = b) ->
   remainingTargetsBelongTo p q = true <-> targets_within p q).
Proof.
  split; [apply sameTargets_spec|]. intros Hp Hq Hu. split.
  - by apply remainingTargetsBelongTo_within.
  - by apply within_remainingTargetsBelongTo.
Qed.

End Theorems.

(** ** Examples *)

Lemma release_signals_only_plan_witness :
  signals (calls (release sim_ports Terminate (plan_for 3000)) sim_machine) = [(500, Terminate)] /\
  signals_plan sim_ports (plan_for 3000) Terminate
    (calls (release sim_ports Terminate (plan_for 3000)) sim_machine).
Proof. split; [by vm_compute|]. eapply release_signals_only_plan, sim_runs. Defined.

(** The answer of a program as a success. *)
Definition success {A} (d : A) (r : Result A) : A :=
  match r with Success a => a | Failure _ => d end.

Definition terminate_9090 : Observation PortReleaseResult :=
  success released_already (result (terminate sim_ports (plan_for 9090)) sim_machine).


Lemma force_outcome_witness :
  rel_released (obs_value (success released_already (result (force sim_ports (plan_for 9090)) sim_machine)))
    = true /\
  observed_free sim_ports 9090 (calls (force sim_ports (plan_for 9090)) sim_machine).
Proof.
  edestruct (force_outcome sim_ports (plan_for 9090)) as (Hr & _ & Hf).
  { replace (Success _) with (result (force sim_ports (plan_for 9090)) sim_machine)
      by (vm_compute; reflexivity). apply sim_runs. }
  split; [by vm_compute | exact Hf].
Defined.

(** The machine after the SIGTERM, which PID 400 ignores. *)
Definition machine_9090 : machine := (run sim (terminate sim_ports (plan_for 9090)) sim_machine).2.
Definition remaining_9090 : PortReleasePlan :=
  default (plan_for 9090) (rel_remaining (obs_value terminate_9090)).

Lemma plan_for_9090 :
  wf_plan sim_ports (plan_localPort (plan_for 9090)) (plan_for 9090) /\ owners_ordered (plan_for 9090).
Proof.
  assert (H : runs (prepareRelease sim_ports 9090) (calls (prepareRelease sim_ports 9090) sim_machine)
                (Success (Observed (plan_for 9090) []))).
  { replace (Success _) with (result (prepareRelease sim_ports 9090) sim_machine)
      by (vm_compute; reflexivity). apply sim_runs. }
  split.
  - apply prepareRelease_inv in H as (i & _ & _ & Hwf). exact Hwf.
  - eapply (prepareRelease_ordered _ _ _ _ H), owners_sortedb_spec. by vm_compute.
Qed.

Lemma escalation_confined_witness :
  signals (calls (force sim_ports remaining_9090) machine_9090) = [(400, Kill)] /\
  targets_within (plan_for 9090) remaining_9090 /\
  Forall (fun sent => sent.1 ∈ plan_ownerPids (plan_for 9090) /\ sent.2 = Kill)
    (signals (calls (force sim_ports remaining_9090) machine_9090)).
Proof.
  split; [by vm_compute|].
  apply (escalation_confined sim_ports (plan_for 9090)
           (calls (terminate sim_ports (plan_for 9090)) sim_machine) terminate_9090 remaining_9090
           _ (result (force sim_ports remaining_9090) machine_9090)).
  - apply plan_for_9090.
  - apply plan_for_9090.
  - apply owners_sortedb_spec. by vm_compute.
  - replace (Success terminate_9090) with (result (terminate sim_ports (plan_for 9090)) sim_machine)
      by (vm_compute; reflexivity). apply sim_runs.
  - by vm_compute.
  - apply sim_runs.
Defined.

Definition stop_8080 := stopManagedService sim_ports 121 (plan_for 8080).


Lemma stopManagedService_terminates_witness :
  exists r, result stop_8080 sim_machine = Some r /\
    forall fuel', (121 <= fuel')%nat ->
      runs (stopManagedService sim_ports fuel' (plan_for 8080)) (calls stop_8080 sim_machine) (Some r).
Proof.
  apply (stopManagedService_terminates sim_ports 121 (plan_for 8080) 0 (calls stop_8080 sim_machine)).
  - vm_compute. repeat split; discriminate.
  - vm_compute. discriminate.
  - done.
  - apply sim_runs.
Defined.


Lemma plan_comparison_witness :
  remainingTargetsBelongTo (plan_for 9090) (plan_for 9090) = true <->
  targets_within (plan_for 9090) (plan_for 9090).
Proof.
  apply (plan_comparison (plan_for 9090) (plan_for 9090)); try apply plan_for_9090.
  intros a b Ha Hb _.
  replace (plan_ports (plan_for 9090)) with (take 1 (plan_ports (plan_for 9090))) in Ha, Hb
    by (vm_compute; reflexivity).
  destruct (plan_ports (plan_for 9090)) as [|p ps]; simpl in *; set_solver.
Defined.

Definition all_ports : Observation (list PortInfo) :=
  success (Observed [] []) (result (PortService.inspect sim_ports default_SocketQuery) sim_machine).

