(* ===== verification/ResourceResolver.v ===== *)
(** * [application::ResourceResolver] ([src/application/ResourceResolver.cpp])

From the expression a user types to the resource it denotes: [port:N], [pid:N]
and [service:NAME] by syntax, a bare number or name by what can be observed. *)

From S2P Require Import Prelude CppStd CppString Prog Domain Contracts Sim.
From S2P Require Import ServiceService ProcessService PortService PortServiceProofs.
From Stdlib Require Import Ascii.

Definition resolver_error (code : ErrorCode) (message operation : str) : Error :=
  mkError code message 0 $"resource-resolver" operation.

Definition positiveInteger (text : str) (maximum : Z) (kind : str) : Result Z :=
  let parsed := from_chars_unsigned UINT64_MAX text 0 in
  let value := fc_value parsed in
  if bool_decide (text = []) || negb (parsed_whole parsed text) || (value =? 0) || (maximum <? value)
  then Failure (resolver_error InvalidArgument ($"Invalid " ++ kind ++ $": " ++ text) $"parse")
  else Success value.

(** The double quote of the messages. *)
Definition quoted (s : str) : str := chr 34 :: s ++ [chr 34].

Definition notFound (expression : str) : Error :=
  resolver_error NotFound ($"No observable resource matched " ++ quoted expression) $"resolve".

(** The part of [resolve] for expressions with a colon. *)
Definition resolve_prefixed (prefix value : str) : Result ResourceTarget :=
  if bool_decide (prefix = $"port") then
    match positiveInteger value 65535 $"port" with
    | Failure error => Failure error
    | Success port => Success (PortTarget port)
    end
  else if bool_decide (prefix = $"pid") then
    match positiveInteger value PID_MAX $"PID" with
    | Failure error => Failure error
    | Success pid => Success (ProcessTarget pid)
    end
  else if bool_decide (prefix = $"service") then
    match ServiceService.normalizeUnit value with
    | Failure error => Failure error
    | Success unit => Success (ServiceTarget unit)
    end
  else
    Failure (resolver_error InvalidArgument
      ($"Unknown resource prefix " ++ quoted prefix ++ $"; use port:, pid:, or service:") $"resolve").

(** The text of the error for several processes with the same name. *)
Fixpoint pid_list (processes : list ProcessInfo) : str :=
  match processes with
  | [] => []
  | process :: rest => $" pid:" ++ to_string (pi_pid process) ++ pid_list rest
  end.

Section Service.
Context {HO : HashOrder}.
Variable S : PortService.PortService.
Abbreviation P := (processService S).

Definition port_query (port : Z) : SocketQuery := mkSocketQuery (Some port) None true.

(** The part for numbers. *)
Definition resolve_number (expression : str) (number : Z) : prog provE (Result ResourceTarget) :=
  processExists <-
    (if number <=? PID_MAX then
       process <- ProcessService.inspect P number ;; Ret (hasValue process)
     else Ret false) ;;
  portExists <-
    (if number <=? 65535 then
       ports <- PortService.inspect S (port_query number) ;;
       Ret (match ports with
            | Success ports => negb (bool_decide (obs_value ports = []))
            | Failure _ => false
            end)
     else Ret false) ;;
  Ret
    (if processExists && portExists then
       Failure (resolver_error Conflict
         ($"Multiple resources matched " ++ quoted expression ++ $": port:" ++ expression ++
          $" and pid:" ++ expression) $"resolve")
     else if portExists : bool then Success (PortTarget number)
     else if processExists : bool then Success (ProcessTarget number)
     else Failure (notFound expression)).

(** The part for names. *)
Definition resolve_name (expression : str) : prog provE (Result ResourceTarget) :=
  service <- ServiceService.inspect expression ;;
  match service with
  | Success service => Ret (Success (ServiceTarget (svc_unitName (obs_value service))))
  | Failure _ =>
      processes <-? ProcessService.list_ P (mkProcessQuery (Some expression) None None) ;;
      Ret
        match obs_value processes with
        | [] => Failure (notFound expression)
        | [process] => Success (ProcessTarget (pi_pid process))
        | several =>
            Failure (resolver_error Conflict
              ($"Multiple processes matched " ++ quoted expression ++ $"; use" ++ pid_list several)
              $"resolve")
        end
  end.

Definition resolve (expression : str) : prog provE (Result ResourceTarget) :=
  match expression with
  | [] => Ret (Failure (resolver_error InvalidArgument $"Resource expression must not be empty"
                          $"resolve"))
  | _ =>
      match find_char ":"%char expression with
      | Some colon =>
          Ret (resolve_prefixed (substr expression 0 colon) (drop (colon + 1) expression))
      | None =>
          match positiveInteger expression UINT64_MAX $"number" with
          | Success number => resolve_number expression number
          | Failure _ => resolve_name expression
          end
      end
  end.
End Service.

(** ** Numbers *)

Lemma positiveInteger_Success text maximum kind n :
  0 <= maximum <= UINT64_MAX ->
  positiveInteger text maximum kind = Success n <->
  is_decimal text /\ dec_value text = n /\ 1 <= n <= maximum.
Proof.
  intros Hmax. unfold positiveInteger.
  pose proof (from_chars_unsigned_whole UINT64_MAX text 0) as Hw.
  pose proof (from_chars_unsigned_value UINT64_MAX text 0) as Hv.
  destruct (parsed_whole _ text) eqn:E; simpl.
  - destruct (proj1 Hw eq_refl) as [Hd _]. rewrite (Hv eq_refl).
    rewrite bool_decide_false by apply Hd. simpl.
    pose proof (dec_value_nonneg text (proj2 Hd)).
    destruct (Z.eqb_spec (dec_value text) 0); simpl; [split; [done|lia]|].
    destruct (Z.ltb_spec maximum (dec_value text)); simpl; [split; [done|lia]|].
    split; [intros [= <-]; split_and!; [done|done|lia|lia] | by intros (_ & -> & _)].
  - rewrite orb_true_r. simpl. split; [done|]. intros (Hd & Hn & Hr).
    exfalso. assert (false = true) by (apply Hw; split; [done|lia]). done.
Qed.

Lemma positiveInteger_to_string n maximum kind :
  1 <= n <= maximum -> maximum <= UINT64_MAX ->
  positiveInteger (to_string n) maximum kind = Success n.
Proof.
  intros Hn Hm. destruct (to_string_spec n) as [Hd Hv]; [lia|].
  apply positiveInteger_Success; [lia|]. auto.
Qed.

Lemma positiveInteger_Failure text maximum kind e n :
  0 <= maximum <= UINT64_MAX -> positiveInteger text maximum kind = Failure e ->
  ~ (is_decimal text /\ dec_value text = n /\ 1 <= n <= maximum).
Proof. intros Hm E H. apply (positiveInteger_Success text maximum kind n Hm) in H. congruence. Qed.

Lemma resolve_prefixed_Success prefix value t :
  resolve_prefixed prefix value = Success t <->
  (exists n, prefix = $"port" /\ t = PortTarget n /\ is_decimal value /\
     dec_value value = n /\ 1 <= n <= 65535) \/
  (exists n, prefix = $"pid" /\ t = ProcessTarget n /\ is_decimal value /\
     dec_value value = n /\ 1 <= n <= PID_MAX) \/
  (exists u, prefix = $"service" /\ t = ServiceTarget u /\ normalizeUnit value = Success u).
Proof.
  assert (Hne : $"port" <> $"pid" /\ $"port" <> $"service" /\ $"pid" <> $"service")
    by (vm_compute; split_and!; discriminate).
  destruct Hne as (N1 & N2 & N3).
  assert (B1 : 0 <= 65535 <= UINT64_MAX) by (vm_compute; split; discriminate).
  assert (B2 : 0 <= PID_MAX <= UINT64_MAX) by (vm_compute; split; discriminate).
  unfold resolve_prefixed.
  case_bool_decide as E1; [|case_bool_decide as E2; [|case_bool_decide as E3]];
    [subst prefix; destruct (positiveInteger value _ _) as [n|e] eqn:E ..|
     subst prefix; destruct (normalizeUnit value) as [u|e] eqn:E | split; naive_solver].
  - apply (positiveInteger_Success value _ _ _ B1) in E. split; [|naive_solver].
    intros [= <-]. left. exists n. naive_solver.
  - pose proof (fun m => positiveInteger_Failure _ _ _ _ m B1 E) as Hno.
    split; [done|]. naive_solver.
  - apply (positiveInteger_Success value _ _ _ B2) in E. split; [|naive_solver].
    intros [= <-]. right; left. exists n. naive_solver.
  - pose proof (fun m => positiveInteger_Failure _ _ _ _ m B2 E) as Hno.
    split; [done|]. naive_solver.
  - split; [intros [= <-]; right; right; eauto|]. naive_solver.
  - split; [done|]. naive_solver.
Qed.

Lemma resolve_colon `{HO : HashOrder} S prefix value :
  ":"%char ∉ prefix -> resolve S (prefix ++ ":"%char :: value) = Ret (resolve_prefixed prefix value).
Proof.
  intros H. unfold resolve. rewrite find_char_app by done.
  destruct (prefix ++ ":"%char :: value) eqn:E; [by destruct prefix|]. rewrite <- E.
  unfold substr. rewrite drop_0, take_app_length.
  replace (drop (length prefix + 1) (prefix ++ ":"%char :: value)) with value; [done|].
  rewrite drop_app_ge by lia. by replace (length prefix + 1 - length prefix)%nat with 1%nat by lia.
Qed.

(** ** Reading only *)

Lemma resolve_read_only `{HO : HashOrder} S e : calls_ok read_only (resolve S e).
Proof.
  unfold resolve. destruct e as [|c e]; [done|]. case_match; [done|]. case_match.
  - unfold resolve_number. apply calls_ok_bind.
    { case_match; [|done]. apply calls_ok_bind; auto with calls. done. }
    intros pe. apply calls_ok_bind; [|done]. case_match; [|done].
    apply calls_ok_bind; [apply port_inspect_read_only|done].
  - unfold resolve_name. apply calls_ok_bind; [auto with calls|]. intros [s|err]; [done|].
    apply calls_ok_bindR; [auto with calls|done].
Qed.

(** ** What an untyped expression can denote *)

Section Untyped.
Context {HO : HashOrder}.
Variable S : PortService.PortService.
Abbreviation P := (processService S).

(** Something is observed on a port, or a process is observed, in some run of
the inspection. *)
Definition port_seen (port : Z) : Prop :=
  exists t o, runs (PortService.inspect S (port_query port)) t (Success o) /\ obs_value o <> [].
Definition port_unseen (port : Z) : Prop :=
  exists t r, runs (PortService.inspect S (port_query port)) t r /\
    forall o, r = Success o -> obs_value o = [].
Definition process_seen (pid : Z) : Prop :=
  exists t o, runs (ProcessService.inspect P pid) t (Success o).
Definition process_unseen (pid : Z) : Prop :=
  exists t e, runs (ProcessService.inspect P pid) t (Failure e).

Lemma resolve_number_inv expression n tr r :
  runs (resolve_number S expression n) tr r ->
  exists processExists portExists : bool,
    (if processExists then n <= PID_MAX /\ process_seen n else n <= PID_MAX -> process_unseen n) /\
    (if portExists then n <= 65535 /\ port_seen n else n <= 65535 -> port_unseen n) /\
    match processExists, portExists with
    | true, true => exists e, r = Failure e /\ err_code e = Conflict
    | false, true => r = Success (PortTarget n)
    | true, false => r = Success (ProcessTarget n)
    | false, false => exists e, r = Failure e /\ err_code e = NotFound
    end.
Proof.
  intros (t1 & pe & t2 & -> & H1 & (t3 & po & t4 & -> & H2 & H3)%runs_bind)%runs_bind.
  exists pe, po. split_and!.
  - destruct (Z.leb_spec n PID_MAX).
    + apply runs_bind in H1 as (t5 & [o|e] & t6 & -> & H1 & [-> ->]); simpl.
      * split; [done|]. by exists t5, o.
      * intros _. by exists t5, e.
    + destruct H1 as [-> ->]. lia.
  - destruct (Z.leb_spec n 65535).
    + apply runs_bind in H2 as (t5 & [o|e] & t6 & -> & H2 & [-> ->]).
      * case_bool_decide as Eo; simpl.
        -- intros _. exists t5, (Success o). split; [done|]. by intros ? [= <-].
        -- split; [done|]. by exists t5, o.
      * intros _. by exists t5, (Failure e).
    + destruct H2 as [-> ->]. lia.
  - destruct H3 as [-> ->]. destruct pe, po; simpl; eauto.
Qed.

Lemma resolve_name_Success expression tr t :
  runs (resolve_name S expression) tr (Success t) ->
  (exists t1 s, runs (ServiceService.inspect expression) t1 (Success s) /\
     t = ServiceTarget (svc_unitName (obs_value s))) \/
  (exists t1 e t2 o p, runs (ServiceService.inspect expression) t1 (Failure e) /\
     runs (ProcessService.list_ P (mkProcessQuery (Some expression) None None)) t2 (Success o) /\
     obs_value o = [p] /\ pi_name p = expression /\ t = ProcessTarget (pi_pid p)).
Proof.
  intros (t1 & [s|e] & t2 & -> & H1 & H2)%runs_bind.
  - destruct H2 as [-> [= ->]]. left. eauto.
  - apply runs_bindR in H2 as [(err & _ & [=])|(t3 & o & t4 & -> & H2 & -> & H3)].
    destruct (obs_value o) as [|p [|q ps]] eqn:Eo; [done| |done]. injection H3 as ->.
    right. exists t1, e, t3, o, p. split_and!; [done..| |done].
    eapply ProcessService.list_named; [done|]. rewrite Eo. set_solver.
Qed.
End Untyped.

(** ** Properties *)

(** Typed expressions are resolved by syntax alone, without any call:
[port:N] for the decimals of 1 to 65535, [pid:N] for those of 1 to the greatest
PID, [service:NAME] when the name normalises, and every other prefix or value is
refused as an invalid argument; printing a port or PID target and resolving it
gives it back. *)
Theorem resolve_typed {HO : HashOrder} S prefix value :
  ":"%char ∉ prefix ->
  resolve S (prefix ++ ":"%char :: value) = Ret (resolve_prefixed prefix value) /\
  (forall t, resolve_prefixed prefix value = Success t <->
     (exists n, prefix = $"port" /\ t = PortTarget n /\ is_decimal value /\
        dec_value value = n /\ 1 <= n <= 65535) \/
     (exists n, prefix = $"pid" /\ t = ProcessTarget n /\ is_decimal value /\
        dec_value value = n /\ 1 <= n <= PID_MAX) \/
     (exists u, prefix = $"service" /\ t = ServiceTarget u /\ normalizeUnit value = Success u)) /\
  (forall e, resolve_prefixed prefix value = Failure e -> err_code e = InvalidArgument) /\
  (forall n, 1 <= n <= 65535 -> resolve_prefixed $"port" (to_string n) = Success (PortTarget n)) /\
  (forall n, 1 <= n <= PID_MAX -> resolve_prefixed $"pid" (to_string n) = Success (ProcessTarget n)).
Proof.
  intros Hp. split; [by apply resolve_colon|]. split.
  { intros t. apply resolve_prefixed_Success. }
  split.
  { intros e. unfold resolve_prefixed, positiveInteger.
    repeat case_match; intros; simplify_eq/=; try done.
    match goal with H : normalizeUnit value = Failure _ |- _ => revert H end.
    destruct (normalizeUnit_total value) as [[v ->]|[m ->]]; [done|]. by intros [= <-]. }
  split; intros n Hn; unfold resolve_prefixed; simpl.
  - rewrite positiveInteger_to_string; [done|done|by vm_compute].
  - rewrite positiveInteger_to_string; [done|done|by vm_compute].
Qed.


(** ** Examples *)

#[local] Existing Instance elements_order.

Definition sim_resolver : PortService.PortService :=
  mkPortService (mkProcessService 999 true) true 3000.

Lemma resolve_typed_witness :
  resolve sim_resolver ($"port" ++ ":"%char :: $"8080") = Ret (Success (PortTarget 8080)).
Proof.
  destruct (resolve_typed sim_resolver $"port" $"8080") as (H & _).
  - apply find_char_None. reflexivity.
  - rewrite H. vm_compute. reflexivity.
Defined.

