(* ===== verification/LogService.v ===== *)
(** * [application::LogService] ([src/application/LogService.cpp])

Validation of journal queries, and the times a user may type: relative ([30s],
[10m], [2h], [3d]) or absolute local times.

Time points of the system clock are signed 64-bit nanosecond counts.  Where the
code computes with them, [None] stands for a signed overflow, which C++ leaves
undefined. *)

From S2P Require Import Prelude CppStd CppString Prog Domain Contracts Sim ServiceService.
From Stdlib Require Import Ascii.

Definition invalid (message operation : str) : Error :=
  mkError InvalidArgument message 0 $"log" operation.

(** ** Relative times *)

Definition unit_seconds (c : ascii) : option Z :=
  if is_char "s"%char c then Some 1
  else if is_char "m"%char c then Some 60
  else if is_char "h"%char c then Some (60 * 60)
  else if is_char "d"%char c then Some (24 * 60 * 60)
  else None.

Definition parse_since : str := $"parse since".

Definition parseRelative (value : str) (now : Z) : option (Result Z) :=
  if (length value <? 2)%nat then
    Some (Failure (invalid $"Invalid relative time; use forms such as 30s, 10m, 2h, or 3d" parse_since))
  else
    let text := take (length value - 1) value in
    let parsed := from_chars_unsigned UINT64_MAX text 0 in
    if negb (parsed_whole parsed text) then
      Some (Failure (invalid $"Invalid relative time; use forms such as 30s, 10m, 2h, or 3d" parse_since))
    else
      let amount := fc_value parsed in
      match c ← last value; unit_seconds c with
      | None =>
          Some (Failure (invalid $"Invalid relative time unit; expected s, m, h, or d" parse_since))
      | Some multiplier =>
          if INT64_MAX / multiplier <? amount then
            Some (Failure (invalid $"Relative time is out of range" parse_since))
          else
            nanoseconds ← int64 (amount * multiplier * 1000000000);
            since ← int64 (now - nanoseconds);
            if since <? 0 then
              Some (Failure (invalid $"Relative time precedes the Unix epoch" parse_since))
            else Some (Success since)
      end.

(** ** Absolute times

[std::get_time], [mktime] and [localtime_r] depend on the locale and on the
time zone of the machine: parameters.  [get_time value] is the broken-down time
read from the front of [value] and what is left of it. *)

Record tm := mkTm { tm_year : Z; tm_mon : Z; tm_mday : Z; tm_hour : Z; tm_min : Z; tm_sec : Z }.
#[export] Instance tm_eq_dec : EqDecision tm.
Proof. solve_decision. Defined.

Section LocalTime.
Variable get_time : str -> option (tm * str).
Variable mktime : tm -> Z.
Variable localtime_r : Z -> option tm.

Definition sameLocalTime (expected : tm) (value : Z) : bool :=
  match localtime_r value with
  | None => false
  | Some actual => bool_decide (actual = expected)
  end.

Definition parseAbsolute (value : str) : option (Result Z) :=
  match get_time value with
  | None =>
      Some (Failure (invalid $"Invalid absolute time; expected YYYY-MM-DD HH:MM:SS" parse_since))
  | Some (expected, rest) =>
      if negb (forallb isspace rest) then
        Some (Failure (invalid $"Absolute time contains trailing characters" parse_since))
      else
        let converted := mktime expected in
        if (converted <? 0) || negb (sameLocalTime expected converted) then
          Some (Failure (invalid $"Absolute time is not a valid local date" parse_since))
        else
          nanoseconds ← int64 (converted * 1000000000);
          Some (Success nanoseconds)
  end.

Definition parseSince (value : str) (now : Z) : option (Result Z) :=
  match last value with
  | Some suffix => if one_of $"smhd" suffix then parseRelative value now else parseAbsolute value
  | None => parseAbsolute value
  end.
End LocalTime.

(** ** Queries *)

Definition set_unit (unit : option str) (q : LogQuery) : LogQuery :=
  mkLogQuery unit (lq_pid q) (lq_since q) (lq_limit q) (lq_follow q).
Definition set_follow (follow : bool) (q : LogQuery) : LogQuery :=
  mkLogQuery (lq_unit q) (lq_pid q) (lq_since q) (lq_limit q) follow.

Definition validate_query : str := $"validate query".

Definition normalize (query : LogQuery) : Result LogQuery :=
  if bool_decide (lq_unit query = None) && bool_decide (lq_pid query = None) then
    Failure (invalid $"A service unit or PID is required for log queries" validate_query)
  else if match lq_pid query with Some pid => pid <=? 0 | None => false end then
    Failure (invalid $"PID must be greater than zero" validate_query)
  else if (lq_limit query =? 0) || (10000 <? lq_limit query) then
    Failure (invalid $"Log line limit must be between 1 and 10000" validate_query)
  else
    match lq_unit query with
    | Some unit =>
        match ServiceService.normalizeUnit unit with
        | Failure error => Failure error
        | Success unit => Success (set_unit (Some unit) query)
        end
    | None => Success query
    end.

Definition read (query : LogQuery) : prog provE (Result (Observation (list JournalEntry))) :=
  match normalize query with
  | Failure error => Ret (Failure error)
  | Success normalized => trigger (JournalProvider_query normalized)
  end.

Definition follow (query : LogQuery) : prog provE (Result unit) :=
  match normalize query with
  | Failure error => Ret (Failure error)
  | Success normalized => trigger (JournalProvider_follow (set_follow true normalized))
  end.

(** ** Lemmas *)

(** What the journal provider may rely on. *)
Definition wf_query (q : LogQuery) : Prop :=
  (lq_unit q <> None \/ lq_pid q <> None) /\
  (forall u, lq_unit q = Some u -> wf_unit u) /\
  (forall pid, lq_pid q = Some pid -> 0 < pid) /\
  1 <= lq_limit q <= 10000.

Definition log_calls (X : Type) (e : provE X) : Prop :=
  match e with
  | JournalProvider_query q => wf_query q
  | JournalProvider_follow q => wf_query q /\ lq_follow q = true
  | _ => False
  end.

Lemma normalize_Success query q :
  0 <= lq_limit query ->
  normalize query = Success q ->
  wf_query q /\ lq_pid q = lq_pid query /\ lq_since q = lq_since query /\
  lq_limit q = lq_limit query /\ lq_follow q = lq_follow query /\
  match lq_unit query with
  | Some u => exists v, normalizeUnit u = Success v /\ lq_unit q = Some v
  | None => lq_unit q = None
  end.
Proof.
  intros Hl. unfold normalize, wf_query.
  destruct (bool_decide (lq_unit query = None) && _) eqn:E1; [done|].
  destruct (match lq_pid query with Some pid => pid <=? 0 | None => false end) eqn:E2; [done|].
  destruct ((lq_limit query =? 0) || _) eqn:E3; [done|]. bool_facts.
  assert (forall pid, lq_pid query = Some pid -> 0 < pid).
  { intros pid Hp. rewrite Hp in E2. bool_facts. lia. }
  destruct (lq_unit query) as [u|] eqn:Eu.
  - destruct (normalizeUnit u) as [v|err] eqn:En; [|done]. intros [= <-]. simpl.
    pose proof (normalizeUnit_wf _ _ En). split_and!; try done; try lia; eauto; by intros ? [= <-].
  - intros [= <-]. rewrite Eu. split_and!; try done; try lia.
    right. destruct E1; bool_facts; naive_solver.
Qed.

Lemma normalize_Failure query err : normalize query = Failure err -> err_code err = InvalidArgument.
Proof.
  unfold normalize. destruct (_ && _); [by intros [= <-]|].
  destruct (match lq_pid query with Some _ => _ | None => _ end); [by intros [= <-]|].
  destruct (_ || _); [by intros [= <-]|]. destruct (lq_unit query) as [u|]; [|done].
  destruct (normalizeUnit_total u) as [[v ->]|[m ->]]; [done|]. by intros [= <-].
Qed.

Lemma read_calls q : 0 <= lq_limit q -> calls_ok log_calls (read q).
Proof. intros Hl. unfold read. destruct (normalize q) eqn:E; [|done]. split; [|done]. by eapply normalize_Success. Qed.
Lemma read_read_only q : calls_ok read_only (read q).
Proof. unfold read. by destruct (normalize q). Qed.
#[export] Hint Resolve read_read_only : calls.


Lemma last_take {A} (l : list A) x : last l = Some x -> l = take (length l - 1) l ++ [x].
Proof.
  intros H. apply last_Some in H as [k ->]. rewrite length_app. simpl.
  rewrite take_app_le by lia. rewrite take_ge by lia. done.
Qed.

(** A relative time is a decimal followed by a unit letter. *)
Lemma parseRelative_app text c now :
  text <> [] ->
  parseRelative (text ++ [c]) now =
  if negb (parsed_whole (from_chars_unsigned UINT64_MAX text 0) text) then
    Some (Failure (invalid $"Invalid relative time; use forms such as 30s, 10m, 2h, or 3d" parse_since))
  else
    match unit_seconds c with
    | None => Some (Failure (invalid $"Invalid relative time unit; expected s, m, h, or d" parse_since))
    | Some multiplier =>
        if INT64_MAX / multiplier <? fc_value (from_chars_unsigned UINT64_MAX text 0) then
          Some (Failure (invalid $"Relative time is out of range" parse_since))
        else
          nanoseconds ← int64 (fc_value (from_chars_unsigned UINT64_MAX text 0) * multiplier * 1000000000);
          since ← int64 (now - nanoseconds);
          if since <? 0 then
            Some (Failure (invalid $"Relative time precedes the Unix epoch" parse_since))
          else Some (Success since)
    end.
Proof.
  intros Hne. unfold parseRelative. rewrite length_app. simpl.
  destruct (Nat.ltb_spec (length text + 1) 2) as [Hlt|_].
  { destruct text; [done|]. simpl in Hlt. lia. }
  replace (length text + 1 - 1)%nat with (length text) by lia.
  rewrite take_app_length, last_snoc. done.
Qed.

Lemma unit_seconds_bound c m : unit_seconds c = Some m -> 1 <= m <= 86400.
Proof. unfold unit_seconds. repeat case_match; intros; simplify_eq/=; lia. Qed.

Lemma parseRelative_decimal n c m now :
  0 <= n <= UINT64_MAX -> unit_seconds c = Some m ->
  parseRelative (to_string n ++ [c]) now =
  if INT64_MAX / m <? n then
    Some (Failure (invalid $"Relative time is out of range" parse_since))
  else
    nanoseconds ← int64 (n * m * 1000000000);
    since ← int64 (now - nanoseconds);
    if since <? 0 then
      Some (Failure (invalid $"Relative time precedes the Unix epoch" parse_since))
    else Some (Success since).
Proof.
  intros Hn Hm. destruct (from_chars_to_string UINT64_MAX n 0 Hn) as [Hw Hv].
  rewrite parseRelative_app by apply (to_string_spec n (proj1 Hn)). rewrite Hw, Hv, Hm. done.
Qed.

Lemma parseRelative_Success value now since :
  parseRelative value now = Some (Success since) ->
  exists text c m, value = text ++ [c] /\ unit_seconds c = Some m /\ is_decimal text /\
    since = now - dec_value text * m * 1000000000 /\ 0 <= since.
Proof.
  intros H. destruct value as [|c0 l _] using rev_ind; [done|].
  destruct l as [|a l]; [done|].
  rewrite parseRelative_app in H by done. remember (a :: l) as text.
  destruct (parsed_whole _ text) eqn:Ew; [|done]. simpl in H.
  destruct (unit_seconds c0) as [m|] eqn:Em; [|done].
  rewrite (from_chars_unsigned_value _ _ _ Ew) in H.
  apply from_chars_unsigned_whole in Ew as [Hd _].
  destruct (INT64_MAX / m <? dec_value text); [done|].
  destruct (int64 _) as [ns|] eqn:Ens; [|done]. simpl in H.
  destruct (int64 (now - ns)) as [t|] eqn:Et; [|done]. simpl in H.
  apply int64_Some in Ens as [-> _]. apply int64_Some in Et as [-> _].
  destruct (Z.ltb_spec (now - dec_value text * m * 1000000000) 0); [done|]. injection H as <-.
  exists text, c0, m. split_and!; try done.
Qed.

(** ** Properties *)

(** Only validated queries reach the journal: [read] and [follow] call the
journal provider at most once, with a query that names a well-formed unit or a
positive PID and asks for 1 to 10000 entries, otherwise as the caller gave it;
every query they refuse is refused as an invalid argument, without a call. *)
Theorem logs_validated query :
  0 <= lq_limit query ->
  (calls_ok log_calls (read query) /\ calls_ok log_calls (follow query)) /\
  match normalize query with
  | Success q =>
      read query = trigger (JournalProvider_query q) /\
      follow query = trigger (JournalProvider_follow (set_follow true q)) /\
      lq_pid q = lq_pid query /\ lq_since q = lq_since query /\ lq_limit q = lq_limit query /\
      match lq_unit query with
      | Some u => exists v, normalizeUnit u = Success v /\ lq_unit q = Some v
      | None => lq_unit q = None
      end
  | Failure e =>
      err_code e = InvalidArgument /\ read query = Ret (Failure e) /\ follow query = Ret (Failure e)
  end.
Proof.
  intros Hl. unfold read, follow. destruct (normalize query) as [q|e] eqn:E.
  - destruct (normalize_Success _ _ Hl E) as (Hwf & ? & ? & ? & ? & ?).
    split; [|done]. split; (split; [|done]); [done|]. by split.
  - split; [done|]. by apply normalize_Failure in E.
Qed.

(** Relative times mean what they say: within the range of the nanosecond
clock, the decimal [n] followed by a unit letter denotes the instant [n] units
before now, or is refused when that precedes the epoch; and whatever relative
time is accepted is of this form and denotes an instant from the epoch on. *)
Theorem parse_relative_exact gt mk lt n c m now value since :
  (0 <= n -> unit_seconds c = Some m -> 0 <= now <= INT64_MAX -> n * m * 1000000000 <= INT64_MAX ->
   parseSince gt mk lt (to_string n ++ [c]) now =
     Some (if now <? n * m * 1000000000
           then Failure (invalid $"Relative time precedes the Unix epoch" parse_since)
           else Success (now - n * m * 1000000000))) /\
  (parseRelative value now = Some (Success since) ->
   exists text c m, value = text ++ [c] /\ unit_seconds c = Some m /\ is_decimal text /\
     since = now - dec_value text * m * 1000000000 /\ 0 <= since).
Proof.
  split; [|apply parseRelative_Success].
  intros Hn Hm Hnow Hr. pose proof (unit_seconds_bound _ _ Hm) as Hmb.
  unfold parseSince. rewrite last_snoc.
  assert (one_of $"smhd" c = true) as ->.
  { unfold unit_seconds in Hm.
    repeat match type of Hm with (if ?b then _ else _) = _ => destruct b eqn:? end; try done;
      match goal with H : is_char _ c = true |- _ => apply is_char_true in H as -> end;
      by vm_compute. }
  assert (HI : INT64_MAX = 9223372036854775807) by done.
  assert (HI' : INT64_MIN = -9223372036854775808) by done.
  assert (HU : UINT64_MAX = 18446744073709551615) by done.
  rewrite (parseRelative_decimal n c m) by (done || nia).
  assert (n <= INT64_MAX / m) by (apply Z.div_le_lower_bound; nia).
  destruct (Z.ltb_spec (INT64_MAX / m) n); [lia|].
  rewrite (proj2 (int64_Some (n * m * 1000000000) _)) by (split; [reflexivity|nia]). simpl.
  rewrite (proj2 (int64_Some (now - _) _)) by (split; [reflexivity|nia]). simpl.
  destruct (Z.ltb_spec now (n * m * 1000000000)), (Z.ltb_spec (now - n * m * 1000000000) 0); try lia; done.
Qed.

(** The overflow check of relative times is made in seconds although the
clock counts nanoseconds: every relative time of more than [INT64_MAX]
nanoseconds but at most [INT64_MAX] seconds passes the check, and computing it
overflows the signed 64-bit count of the clock. *)
Theorem parse_relative_check_misses_overflow n c m now :
  0 <= n -> unit_seconds c = Some m -> n * m <= INT64_MAX -> INT64_MAX < n * m * 1000000000 ->
  parseRelative (to_string n ++ [c]) now = None.
Proof.
  intros Hn Hm Hr Ho. pose proof (unit_seconds_bound _ _ Hm).
  assert (INT64_MAX <= UINT64_MAX) by (by vm_compute).
  rewrite (parseRelative_decimal n c m) by (done || nia).
  assert (n <= INT64_MAX / m) by (apply Z.div_le_lower_bound; nia).
  destruct (Z.ltb_spec (INT64_MAX / m) n); [lia|].
  rewrite (proj2 (int64_None _)); [done|]. lia.
Qed.

(** An absolute time is accepted only when converting it back gives the
fields that were typed, so that dates that do not exist (and hours skipped by a
change of the clocks) are refused; nothing but white space may follow it. *)
Theorem parse_absolute_exact get_time mktime localtime value since :
  parseAbsolute get_time mktime localtime value = Some (Success since) ->
  exists fields rest, get_time value = Some (fields, rest) /\ Forall (fun c => isspace c = true) rest /\
    since = mktime fields * 1000000000 /\ 0 <= since <= INT64_MAX /\
    localtime (mktime fields) = Some fields.
Proof.
  unfold parseAbsolute. destruct (get_time value) as [[fields rest]|]; [|done].
  destruct (forallb isspace rest) eqn:Er; [|done]. simpl.
  destruct (Z.ltb_spec (mktime fields) 0); [done|]. simpl.
  destruct (sameLocalTime localtime fields (mktime fields)) eqn:Es; [|done]. simpl.
  destruct (int64 _) as [t|] eqn:Et; [|done]. simpl. intros [= <-].
  apply int64_Some in Et as [-> Hb]. exists fields, rest.
  rewrite forallb_elem_of in Er. rewrite Forall_forall.
  unfold sameLocalTime in Es. destruct (localtime _); [|done]. bool_facts. subst.
  split_and!; try done; lia.
Qed.

(** ** Examples *)

Lemma logs_validated_witness :
  result (read (mkLogQuery (Some $"web") (Some 300) None 1 false)) sim_machine =
    Success (Observed [sim_entry 1000000000 $"c1" 300 $"started"] []) /\
  calls_ok log_calls (read (mkLogQuery (Some $"web") (Some 300) None 1 false)).
Proof. split; [by vm_compute|]. apply logs_validated. done. Defined.

Lemma parse_relative_exact_witness :
  parseSince (fun _ => None) (fun _ => 0) (fun _ => None) $"10m" 1000000000000 =
    Some (Success 400000000000).
Proof.
  apply (parse_relative_exact (fun _ => None) (fun _ => 0) (fun _ => None) 10 "m"%char 60 1000000000000 [] 0); done.
Defined.

Lemma parse_relative_check_misses_overflow_witness :
  parseRelative $"9223372037s" 1700000000000000000 = None.
Proof.
  apply (parse_relative_check_misses_overflow 9223372037 "s"%char 1 1700000000000000000); done.
Defined.

(** A machine in the UTC time zone that only knows the first day of 1970. *)
Definition day_fields (t : Z) : option tm :=
  if (0 <=? t) && (t <? 86400)
  then Some (mkTm 70 0 1 (t / 3600) (t mod 3600 / 60) (t mod 60)) else None.

Lemma parse_absolute_exact_witness :
  exists fields rest, (fun _ : str => Some (mkTm 70 0 1 1 0 0, $" ")) $"1970-01-01 01:00:00 " =
    Some (fields, rest) /\ 3600000000000 = 3600 * 1000000000 /\ day_fields 3600 = Some fields.
Proof.
  destruct (parse_absolute_exact (fun _ => Some (mkTm 70 0 1 1 0 0, $" "))
    (fun f => tm_hour f * 3600 + tm_min f * 60 + tm_sec f) day_fields
    $"1970-01-01 01:00:00 " 3600000000000) as (f & r & H1 & _ & _ & _ & H2); [by vm_compute|].
  exists f, r. injection H1 as <- <-. split; [done|]. split; [done|]. exact H2.
Defined.
