(* ===== verification/MetricsService.v ===== *)
(** * [application::MetricsService] and [StatusService]

Two samples of the counters of the host and its processes, and the percentages
computed from their differences ([src/application/MetricsService.cpp],
[StatusService.cpp]). *)

From S2P Require Import Prelude CppStd CppString Prog Domain Contracts Float Sim.
From Stdlib Require Import SpecFloat.

Definition capture : prog provE (Result MetricsSnapshot) :=
  system <-? trigger SystemMetrics_sample ;;
  processes <-? trigger ProcessMetrics_sample ;;
  Ret (Success (mkMetricsSnapshot system processes)).

(** [100.0 * static_cast<double>(total - idle) / static_cast<double>(total)] *)
Definition host_percent (busy total : Z) : double :=
  clamp (fdiv (fmul (of_Z 100) (of_Z busy)) (of_Z total)) (S754_zero false) (of_Z 100).

(** [100.0 * used * max(1, cpus) / total], clamped to [100.0 * max(1, cpus)]. *)
Definition process_percent (used cpus total : Z) : double :=
  clamp (fdiv (fmul (fmul (of_Z 100) (of_Z used)) (of_Z (Z.max 1 cpus))) (of_Z total))
    (S754_zero false) (fmul (of_Z 100) (of_Z (Z.max 1 cpus))).

(** [for (process : previous.processes) old[process.pid] = process;] *)
Definition last_samples (processes : list ProcessCpuSample) : gmap Z ProcessCpuSample :=
  foldl (fun old process => <[pcs_pid process := process]> old) ∅ processes.

Definition process_usage (old : gmap Z ProcessCpuSample) (cpus total : Z)
    (process : ProcessCpuSample) : option double :=
  match old !! pcs_pid process with
  | None => None
  | Some found =>
      if negb (pcs_startTimeTicks found =? pcs_startTimeTicks process) ||
         (pcs_cpuTimeTicks process <? pcs_cpuTimeTicks found) then None
      else Some (process_percent (pcs_cpuTimeTicks process - pcs_cpuTimeTicks found) cpus total)
  end.

Definition process_view (old : gmap Z ProcessCpuSample) (cpus total : Z)
    (processes : list ProcessCpuSample) : gmap Z double :=
  foldl (fun view process =>
           match process_usage old cpus total process with
           | None => view
           | Some percent => <[pcs_pid process := percent]> view
           end) ∅ processes.

Definition compare (previous current : MetricsSnapshot) : MetricsView :=
  let before := ms_system previous in
  let now := ms_system current in
  let memoryUsed :=
    if sms_memoryAvailableBytes now <=? sms_memoryTotalBytes now
    then sms_memoryTotalBytes now - sms_memoryAvailableBytes now else 0 in
  if (totalTicks (sms_cpu before) <? totalTicks (sms_cpu now)) &&
     (idleTicks (sms_cpu before) <=? idleTicks (sms_cpu now)) then
    let total := totalTicks (sms_cpu now) - totalTicks (sms_cpu before) in
    let idle := idleTicks (sms_cpu now) - idleTicks (sms_cpu before) in
    mkMetricsView
      (mkHostStatus (sms_hostname now)
         (if idle <=? total then Some (host_percent (total - idle) total) else None)
         (sms_memoryTotalBytes now) memoryUsed (sms_uptime now))
      (process_view (last_samples (ms_processes previous)) (sms_logicalCpuCount now) total
         (ms_processes current))
  else
    mkMetricsView
      (mkHostStatus (sms_hostname now) None (sms_memoryTotalBytes now) memoryUsed (sms_uptime now)) ∅.

(** The waiter of the program sleeps. *)
Definition measure (interval : Z) : prog provE (Result MetricsView) :=
  previous <-? capture ;;
  _ <- trigger (SleepFor interval) ;;
  current <-? capture ;;
  Ret (Success (compare previous current)).

(** [StatusService] *)
Definition status_get (interval : Z) : prog provE (Result HostStatus) :=
  measured <-? measure interval ;;
  Ret (Success (mv_host measured)).
Definition status_measure (interval : Z) : prog provE (Result MetricsView) := measure interval.

(** ** Lemmas *)

(** Counters are unsigned 64-bit numbers, the processor count has 32 bits. *)
Definition wf_system (s : SystemMetricsSample) : Prop :=
  0 <= totalTicks (sms_cpu s) < 2 ^ 64 /\ 0 <= idleTicks (sms_cpu s) < 2 ^ 64 /\
  0 <= sms_memoryTotalBytes s < 2 ^ 64 /\ 0 <= sms_memoryAvailableBytes s < 2 ^ 64 /\
  0 <= sms_logicalCpuCount s < 2 ^ 32.
Definition wf_sample (p : ProcessCpuSample) : Prop := 0 <= pcs_cpuTimeTicks p < 2 ^ 64.
Definition wf_snapshot (m : MetricsSnapshot) : Prop :=
  wf_system (ms_system m) /\ Forall wf_sample (ms_processes m).

Lemma hundred_fin : fin (-52) 8 (of_Z 100).
Proof. apply (of_Z_fin 100 7); [done|lia]. Qed.

Lemma host_percent_within busy total :
  0 <= busy < 2 ^ 64 -> 0 < total < 2 ^ 64 ->
  within (S754_zero false) (of_Z 100) (host_percent busy total) = true.
Proof.
  intros Hb Ht. apply clamp_within; [|eapply fin_num, hundred_fin].
  eapply (fdiv_num (-104) 74); [|by apply (of_Z_fin total 64)].
  destruct (Z.eq_dec busy 0) as [->|Hne]; [by left|]. right.
  apply (fmul_fin (-52) 8 (-52) 65); [apply hundred_fin|apply (of_Z_fin busy 64); lia|lia|lia].
Qed.

Lemma process_percent_within used cpus total :
  0 <= used < 2 ^ 64 -> 0 <= cpus < 2 ^ 32 -> 0 < total < 2 ^ 64 ->
  within (S754_zero false) (fmul (of_Z 100) (of_Z (Z.max 1 cpus))) (process_percent used cpus total) = true.
Proof.
  intros Hu Hc Ht.
  assert (Hn : fin (-52) 33 (of_Z (Z.max 1 cpus))) by (apply (of_Z_fin _ 32); [split; [lia|]|lia]; apply Z.max_case_strong; lia).
  apply clamp_within.
  - eapply (fdiv_num (-156) 108); [|by apply (of_Z_fin total 64)].
    destruct (Z.eq_dec used 0) as [->|Hne].
    + left. destruct Hn as (m & e & -> & _). done.
    + right. apply (fmul_fin (-104) 74 (-52) 33); [|done|lia|lia].
      apply (fmul_fin (-52) 8 (-52) 65); [apply hundred_fin|apply (of_Z_fin used 64); lia|lia|lia].
  - eapply fin_num, (fmul_fin (-52) 8 (-52) 33); [apply hundred_fin|done|lia|lia].
Qed.

Lemma last_samples_lookup ps pid p :
  last_samples ps !! pid = Some p -> p ∈ ps /\ pcs_pid p = pid.
Proof.
  unfold last_samples. induction ps as [|q ps IH] using rev_ind; [done|].
  rewrite foldl_app. simpl. destruct (decide (pcs_pid q = pid)) as [<-|]; simplify_map_eq.
  - intros [= ->]. set_solver.
  - intros [? ?]%IH. set_solver.
Qed.

Lemma process_view_lookup old cpus total ps pid v :
  process_view old cpus total ps !! pid = Some v ->
  exists p, p ∈ ps /\ pcs_pid p = pid /\ process_usage old cpus total p = Some v.
Proof.
  unfold process_view. induction ps as [|q ps IH] using rev_ind; [done|].
  rewrite foldl_app. simpl. destruct (process_usage old cpus total q) as [w|] eqn:E.
  - destruct (decide (pcs_pid q = pid)) as [<-|]; simplify_map_eq.
    + intros [= ->]. exists q. set_solver.
    + intros (p & ? & ? & ?)%IH. exists p. set_solver.
  - intros (p & ? & ? & ?)%IH. exists p. set_solver.
Qed.

Lemma capture_read_only : calls_ok read_only capture.
Proof. repeat (apply calls_ok_bindR; [done|intros ?]). done. Qed.
Lemma measure_quiet interval : calls_ok quiet (measure interval).
Proof.
  apply calls_ok_bindR; [apply read_only_calls_quiet, capture_read_only|]. intros p.
  split; [done|]. intros ?. apply calls_ok_bindR; [apply read_only_calls_quiet, capture_read_only|]. done.
Qed.
#[export] Hint Resolve capture_read_only measure_quiet : calls.

Lemma runs_capture tr s :
  runs capture tr (Success s) <->
  tr = [Ev SystemMetrics_sample (Success (ms_system s)); Ev ProcessMetrics_sample (Success (ms_processes s))].
Proof.
  unfold capture. split.
  - intros [(e & _ & [=])|(t1 & sys & t2 & -> & ->%runs_trigger & H)]%runs_bindR.
    apply runs_bindR in H as [(e & _ & [=])|(t3 & ps & t4 & -> & ->%runs_trigger & -> & [= ->])]. done.
  - intros ->. destruct s as [sys ps]. simpl. eexists _, _. split; [done|].
    eexists _, _. split; [done|]. done.
Qed.

(** ** Properties *)

(** C26. The metrics of two snapshots are meaningful numbers: used memory is
total minus available memory and never exceeds the total (no wrap-around); the
host percentage is present exactly when the tick counters grew consistently and
then lies within 0 and 100; a process has a percentage only if both snapshots
hold a sample of it with the same start time and growing ticks, and it lies
within 0 and 100 per processor.  None of them is NaN or infinite. *)
Theorem compare_meaningful previous current :
  wf_snapshot previous -> wf_snapshot current ->
  let view := compare previous current in
  let now := ms_system current in
  let before := ms_system previous in
  (sms_memoryAvailableBytes now <= sms_memoryTotalBytes now ->
     hs_memoryUsedBytes (mv_host view) + sms_memoryAvailableBytes now = hs_memoryTotalBytes (mv_host view)) /\
  0 <= hs_memoryUsedBytes (mv_host view) <= hs_memoryTotalBytes (mv_host view) /\
  (is_Some (hs_cpuPercent (mv_host view)) <->
     totalTicks (sms_cpu before) < totalTicks (sms_cpu now) /\
     0 <= idleTicks (sms_cpu now) - idleTicks (sms_cpu before)
       <= totalTicks (sms_cpu now) - totalTicks (sms_cpu before)) /\
  (forall v, hs_cpuPercent (mv_host view) = Some v -> within (S754_zero false) (of_Z 100) v = true) /\
  (forall pid v, mv_processCpuPercent view !! pid = Some v ->
     (exists p q, p ∈ ms_processes previous /\ q ∈ ms_processes current /\
        pcs_pid p = pid /\ pcs_pid q = pid /\
        pcs_startTimeTicks p = pcs_startTimeTicks q /\ pcs_cpuTimeTicks p <= pcs_cpuTimeTicks q) /\
     within (S754_zero false) (fmul (of_Z 100) (of_Z (Z.max 1 (sms_logicalCpuCount now)))) v = true).
Proof.
  intros [Hp Hps] [Hc Hcs]. destruct Hp as (Hpt & Hpi & _), Hc as (Hct & Hci & Hcm & Hca & Hcn).
  rewrite Forall_forall in Hps, Hcs. unfold compare.
  set (now := ms_system current) in *. set (before := ms_system previous) in *.
  destruct (_ && _) eqn:E; simpl.
  - bool_facts. split_and!; try (case_match; bool_facts; lia).
    + case_match; bool_facts; split; intros H'; try (by destruct H'); try lia; eauto.
    + intros v. case_match; bool_facts; [|done]. intros [= <-]. apply host_percent_within; lia.
    + intros pid v (q & Hq & <- & Hu)%process_view_lookup. unfold process_usage in Hu.
      destruct (last_samples _ !! _) as [p|] eqn:El; [|done].
      apply last_samples_lookup in El as [Hp Hpid].
      destruct (_ || _) eqn:Eu; [done|]. bool_facts. injection Hu as <-.
      specialize (Hps p Hp). specialize (Hcs q Hq). unfold wf_sample in *. split.
      * exists p, q. split_and!; done.
      * apply process_percent_within; lia.
  - split_and!; try (case_match; bool_facts; lia); try done.
    split; [by intros []|]. intros [? ?]. exfalso. bool_facts. destruct E; bool_facts; lia.
Qed.

(** [measure] compares two captures with exactly one sleep of the requested
interval between them, and changes nothing. *)
Theorem measure_compares interval tr view :
  runs (measure interval) tr (Success view) ->
  exists previous current tr1 tr2,
    tr = tr1 ++ Ev (SleepFor interval) tt :: tr2 /\
    runs capture tr1 (Success previous) /\ runs capture tr2 (Success current) /\
    view = compare previous current /\ signals tr = [] /\ jobs tr = [].
Proof.
  intros H. pose proof (quiet_runs _ _ _ (measure_quiet interval) H) as [Hs Hj].
  apply runs_bindR in H as [(e & _ & [=])|(t1 & prev & t2 & -> & H1 & [] & t3 & -> & H2)].
  apply runs_bindR in H2 as [(e & _ & [=])|(t4 & cur & t5 & -> & H2 & -> & [= ->])].
  exists prev, cur, t1, t4. by rewrite app_nil_r in *.
Qed.

(** ** Examples *)

Definition sim_snapshot (total idle cpu : Z) : MetricsSnapshot :=
  mkMetricsSnapshot
    (mkSystemMetricsSample (mkCpuTimes total idle) 8192 4096 60000 2 $"host")
    [mkProcessCpuSample 300 10 cpu].

Lemma compare_meaningful_witness :
  hs_cpuPercent (mv_host (compare (sim_snapshot 1000 400 50) (sim_snapshot 1100 425 100))) =
    Some (of_Z 75) /\
  (forall pid v,
     mv_processCpuPercent (compare (sim_snapshot 1000 400 50) (sim_snapshot 1100 425 100)) !! pid = Some v ->
     within (S754_zero false) (fmul (of_Z 100) (of_Z 2)) v = true).
Proof.
  split; [by vm_compute|]. intros pid v H.
  apply (compare_meaningful (sim_snapshot 1000 400 50) (sim_snapshot 1100 425 100)) with (pid := pid);
    [..|exact H].
  - split; [vm_compute; intuition discriminate|]. constructor; [|constructor]. split; done.
  - split; [vm_compute; intuition discriminate|]. constructor; [|constructor]. split; done.
Defined.

Lemma measure_compares_witness :
  exists previous current tr1 tr2,
    calls (measure 1000) sim_machine = tr1 ++ Ev (SleepFor 1000) tt :: tr2 /\
    runs capture tr1 (Success previous) /\ runs capture tr2 (Success current).
Proof.
  destruct (result (measure 1000) sim_machine) as [v|e] eqn:E; [|by vm_compute in E].
  destruct (measure_compares 1000 (calls (measure 1000) sim_machine) v)
    as (p & c & t1 & t2 & H1 & H2 & H3 & _); [rewrite <- E; apply sim_runs|].
  exists p, c, t1, t2. split; [exact H1|]. split; [exact H2|exact H3].
Defined.
