(* ===== verification/FindService.v ===== *)
(** * [application::FindService] ([src/application/FindService.cpp])

A case-insensitive search through services, processes and ports; a process of a
matching service and a port of a matching process or service are results too. *)

From S2P Require Import Prelude CppStd CppString Prog Domain Contracts Sim.
From S2P Require Import ServiceService ProcessService PortService PortServiceProofs ResourceResolver.

Definition contains (value needle : str) : bool :=
  bool_decide (is_Some (find_sub needle (to_lower value))).

Definition processMatches (process : ProcessInfo) (query : str) : bool :=
  contains (pi_name process) query || contains (pi_user process) query ||
  match pi_executable process with Some executable => contains executable query | None => false end ||
  existsb (fun argument => contains argument query) (pi_argv process).

Definition service_matches (query : str) (service : ServiceInfo) : bool :=
  contains (svc_unitName service) query || contains (svc_description service) query.

(** [process.systemdUnit && matchedUnits.count( *process.systemdUnit ) != 0] *)
Definition in_units (units : list str) (process : ProcessInfo) : bool :=
  match pi_systemdUnit process with Some unit => bool_decide (unit ∈ units) | None => false end.

Definition process_found (query : str) (units : list str) (process : ProcessInfo) : bool :=
  processMatches process query || in_units units process.

Definition port_found (query : str) (pids : list Z) (units : list str) (port : PortInfo) : bool :=
  let direct := contains (to_string (ep_port (si_local (port_socket port)))) query in
  let relatedPid := existsb (fun pid => bool_decide (pid ∈ pids)) (si_ownerPids (port_socket port)) in
  let relatedUnit := existsb (in_units units) (port_owners port) in
  direct || relatedPid || relatedUnit.

(** The [std::set] of executables, in its order. *)
Definition executables_of (processes : list ProcessInfo) : list str :=
  foldr set_insert [] (omap pi_executable processes).

Section Service.
Context {HO : HashOrder}.
Variable S : PortService.PortService.

Definition find (query : str) : prog provE (Result FindResult) :=
  let normalized := to_lower query in
  match normalized with
  | [] => Ret (Failure (mkError InvalidArgument $"Find query must not be empty" 0
                          $"find-service" $"find"))
  | _ =>
      services <- ServiceService.list_ ;;
      let '(foundServices, warnings) :=
        match services with
        | Success services =>
            (List.filter (service_matches normalized) (obs_value services), obs_warnings services)
        | Failure error => ([], [warningFrom error])
        end in
      let matchedUnits := map svc_unitName foundServices in
      processes <-? ProcessService.list_ (processService S) default_ProcessQuery ;;
      let warnings := warnings ++ obs_warnings processes in
      let foundProcesses := List.filter (process_found normalized matchedUnits) (obs_value processes) in
      let matchedPids := map pi_pid foundProcesses in
      let executables := executables_of foundProcesses in
      ports <- PortService.inspect S default_SocketQuery ;;
      let '(foundPorts, warnings) :=
        match ports with
        | Success ports =>
            (List.filter (port_found normalized matchedPids matchedUnits) (obs_value ports),
             warnings ++ obs_warnings ports)
        | Failure error => ([], warnings ++ [warningFrom error])
        end in
      match foundServices, foundProcesses, foundPorts, executables with
      | [], [], [], [] =>
          Ret (Failure (mkError NotFound ($"No observable resource matched " ++ quoted query) 0
                          $"find-service" $"find"))
      | _, _, _, _ =>
          Ret (Success (mkFindResult foundServices foundProcesses foundPorts executables warnings))
      end
  end.
End Service.

(** ** Lemmas *)

Lemma contains_spec value needle :
  contains value needle = true <-> exists s1 s2, to_lower value = s1 ++ needle ++ s2.
Proof. unfold contains. by rewrite bool_decide_eq_true, find_sub_is_Some. Qed.

Lemma executables_of_sorted ps : strictly_sorted (executables_of ps).
Proof. unfold executables_of. induction (omap _ _); simpl; [constructor|]. by apply set_insert_sorted. Qed.

Lemma elem_of_executables ps e :
  e ∈ executables_of ps <-> exists p, p ∈ ps /\ pi_executable p = Some e.
Proof.
  unfold executables_of. rewrite <- list_elem_of_omap.
  induction (omap pi_executable ps) as [|x l IH]; simpl; [done|].
  rewrite elem_of_set_insert, IH. set_solver.
Qed.

Lemma elem_of_filter_b {A} (f : A -> bool) l x : x ∈ List.filter f l <-> x ∈ l /\ f x = true.
Proof. rewrite !list_elem_of_In. apply filter_In. Qed.

Lemma find_read_only `{HO : HashOrder} S q : calls_ok read_only (find S q).
Proof.
  unfold find. destruct (to_lower q); [done|]. apply calls_ok_bind; [auto with calls|].
  intros ss. destruct (match ss with Success _ => _ | Failure _ => _ end) as [fs ws].
  apply calls_ok_bindR; [auto with calls|]. intros ps.
  apply calls_ok_bind; [apply port_inspect_read_only|]. intros ports.
  destruct (match ports with Success _ => _ | Failure _ => _ end) as [fp ws'].
  repeat case_match; done.
Qed.

(** The parts of a search: what each source answered. *)
Lemma find_inv `{HO : HashOrder} S q tr r :
  runs (find S q) tr r -> q <> [] ->
  exists services t1 processes t2 ports t3,
    tr = t1 ++ t2 ++ t3 /\
    runs ServiceService.list_ t1 services /\
    runs (ProcessService.list_ (processService S) default_ProcessQuery) t2 processes /\
    match processes with
    | Failure e => r = Failure e /\ t3 = []
    | Success processes =>
        runs (PortService.inspect S default_SocketQuery) t3 ports /\
        let fs := match services with
                  | Success s => List.filter (service_matches (to_lower q)) (obs_value s)
                  | Failure _ => []
                  end in
        let fp := List.filter (process_found (to_lower q) (map svc_unitName fs)) (obs_value processes) in
        let ft := match ports with
                  | Success p => List.filter (port_found (to_lower q) (map pi_pid fp) (map svc_unitName fs))
                                   (obs_value p)
                  | Failure _ => []
                  end in
        let ws := match services with Success s => obs_warnings s | Failure e => [warningFrom e] end ++
                  obs_warnings processes ++
                  match ports with Success p => obs_warnings p | Failure e => [warningFrom e] end in
        match r with
        | Success f => f = mkFindResult fs fp ft (executables_of fp) ws /\ (fs <> [] \/ fp <> [] \/ ft <> [])
        | Failure e => err_code e = NotFound /\ fs = [] /\ fp = [] /\ ft = []
        end
    end.
Proof.
  unfold find. intros H Hq. destruct (to_lower q) as [|c l] eqn:El; [by destruct q|].
  rewrite <- El in *. clear c l El.
  apply runs_bind in H as (t1 & services & t2 & -> & H1 & H).
  destruct (match services with Success _ => _ | Failure _ => _ end) as [fs ws] eqn:Es in H.
  assert (fs = match services with
               | Success s => List.filter (service_matches (to_lower q)) (obs_value s)
               | Failure _ => [] end /\
          ws = match services with Success s => obs_warnings s | Failure e => [warningFrom e] end)
    as [-> ->] by (destruct services; simplify_eq; done). clear Es.
  set (fs := match services with Success s => List.filter _ _ | Failure _ => [] end) in *.
  apply runs_bindR in H as [(e & H2 & ->)|(t3 & processes & t4 & -> & H2 & H)].
  { exists services, t1, (Failure e), t2, (Failure e), []. by rewrite app_nil_r. }
  apply runs_bind in H as (t5 & ports & t6 & -> & H3 & H).
  exists services, t1, (Success processes), t3, ports, t5. cbv beta zeta iota. fold fs.
  set (fp := List.filter (process_found _ _) (obs_value processes)) in *.
  destruct (match ports with Success _ => _ | Failure _ => _ end) as [ft ws] eqn:Ep in H.
  assert (ft = match ports with
               | Success p => List.filter (port_found (to_lower q) (map pi_pid fp) (map svc_unitName fs)) (obs_value p)
               | Failure _ => [] end) as Hft by (destruct ports; simplify_eq; done).
  assert (ws = (match services with Success s => obs_warnings s | Failure e => [warningFrom e] end ++
                obs_warnings processes) ++
               match ports with Success p => obs_warnings p | Failure e => [warningFrom e] end)
    as Hws by (destruct ports; simplify_eq; done).
  clear Ep. rewrite <- app_assoc in Hws.
  rewrite <- Hft, <- Hws. clear Hft Hws.
  clearbody fs. clearbody fp. destruct fs as [|s fs], fp as [|p fp], ft as [|t ft]; simpl in H;
    try (destruct (executables_of _)); destruct H as [-> ->];
    rewrite app_nil_r; split_and!; try done; auto; by right; right.
Qed.

(** ** Properties *)


(** A search degrades instead of failing: it fails only for an empty query,
when the processes cannot be listed, or when nothing at all was found; a
failing service provider or socket inspection leaves its error among the
warnings of the result. *)
Theorem find_degrades {HO : HashOrder} S q tr r :
  runs (find S q) tr r -> q <> [] ->
  exists services processes ports,
    match r with
    | Failure e => processes = Failure e \/ err_code e = NotFound
    | Success f =>
        (forall e, services = Failure e -> warningFrom e ∈ fr_warnings f) /\
        (forall e, ports = Failure e -> warningFrom e ∈ fr_warnings f)
    end /\
    (exists t, runs ServiceService.list_ t services) /\
    (exists t, runs (ProcessService.list_ (processService S) default_ProcessQuery) t processes) /\
    (forall p, processes = Success p -> exists t, runs (PortService.inspect S default_SocketQuery) t ports).
Proof.
  intros H Hq. apply find_inv in H as (ss & t1 & ps & t2 & pts & t3 & -> & H1 & H2 & H); [|done].
  exists ss, ps, pts. destruct ps as [ps|e].
  - destruct H as [H3 H]. split_and!; [|eauto..].
    destruct r as [f|e]; [|right; by destruct H].
    destruct H as [-> _]. simpl. split; intros e ->; set_solver.
  - destruct H as [-> ->]. split_and!; [by left|eauto..|done].
Qed.

(** ** Examples *)

#[local] Existing Instance elements_order.


Lemma find_degrades_witness :
  exists e, result (find sim_resolver $"no such thing") sim_machine = Failure e /\
    exists processes, (processes = Failure e \/ err_code e = NotFound) /\
      exists t, runs (ProcessService.list_ (processService sim_resolver) default_ProcessQuery) t processes.
Proof.
  destruct (result (find sim_resolver $"no such thing") sim_machine) as [f|e] eqn:E; [by vm_compute in E|].
  exists e. split; [done|].
  destruct (find_degrades sim_resolver $"no such thing"
              (calls (find sim_resolver $"no such thing") sim_machine) (Failure e))
    as (ss & ps & pts & H1 & _ & H2 & _); [rewrite <- E; apply sim_runs|done|].
  exists ps. split; [exact H1|exact H2].
Defined.
