(* ===== verification/InspectService.v ===== *)
(** * [application::InspectService] ([src/application/InspectService.cpp])

The graph of resources around a target: the ports, processes, services and
recent log entries related to a port, a process or a service. *)

From S2P Require Import Prelude CppStd CppString Prog Domain Contracts Sim.
From S2P Require Import ServiceService ProcessService PortService PortServiceProofs.
From S2P Require Import ResourceResolver LogService.

Definition appendWarnings (ws : list Warning) (graph : ResourceGraph) : ResourceGraph :=
  mkResourceGraph (rg_root graph) (rg_ports graph) (rg_processes graph) (rg_services graph)
    (rg_recentLogs graph) (rg_warnings graph ++ ws).
Definition appendError (error : Error) : ResourceGraph -> ResourceGraph :=
  appendWarnings [warningFrom error].
Definition set_ports (ports : list PortInfo) (graph : ResourceGraph) : ResourceGraph :=
  mkResourceGraph (rg_root graph) ports (rg_processes graph) (rg_services graph)
    (rg_recentLogs graph) (rg_warnings graph).
Definition set_processes (processes : list ProcessInfo) (graph : ResourceGraph) : ResourceGraph :=
  mkResourceGraph (rg_root graph) (rg_ports graph) processes (rg_services graph)
    (rg_recentLogs graph) (rg_warnings graph).
Definition set_recentLogs (logs : list JournalEntry) (graph : ResourceGraph) : ResourceGraph :=
  mkResourceGraph (rg_root graph) (rg_ports graph) (rg_processes graph) (rg_services graph)
    logs (rg_warnings graph).

Definition addProcess (process : ProcessInfo) (graph : ResourceGraph) : ResourceGraph :=
  match find_if (fun value => pi_pid value =? pi_pid process) (rg_processes graph) with
  | Some _ => graph
  | None => set_processes (rg_processes graph ++ [process]) graph
  end.

Definition addService (service : ServiceInfo) (graph : ResourceGraph) : ResourceGraph :=
  match find_if (fun value => bool_decide (svc_unitName value = svc_unitName service))
          (rg_services graph) with
  | Some _ => graph
  | None =>
      mkResourceGraph (rg_root graph) (rg_ports graph) (rg_processes graph)
        (rg_services graph ++ [service]) (rg_recentLogs graph) (rg_warnings graph)
  end.

(** One turn of the loop of [addLogs]. *)
Definition add_entry (logs : list JournalEntry) (entry : JournalEntry) : list JournalEntry :=
  if negb (bool_decide (je_cursor entry = [])) &&
     bool_decide (is_Some (find_if (fun value => bool_decide (je_cursor value = je_cursor entry)) logs))
  then logs else logs ++ [entry].

Definition addLogs (query : LogQuery) (graph : ResourceGraph) : prog provE ResourceGraph :=
  logs <- LogService.read (mkLogQuery (lq_unit query) (lq_pid query) (lq_since query) 20 (lq_follow query)) ;;
  Ret
    match logs with
    | Failure error => appendError error graph
    | Success logs =>
        set_recentLogs (foldl add_entry (rg_recentLogs graph) (obs_value logs))
          (appendWarnings (obs_warnings logs) graph)
    end.

Definition finalizeLogs (graph : ResourceGraph) : ResourceGraph :=
  let sorted := stable_sort (fun l r => je_timestamp l <=? je_timestamp r) (rg_recentLogs graph) in
  set_recentLogs (drop (length sorted - 20) sorted) graph.

(** The service of a unit, or a warning. *)
Definition inspectService (unit : str) (graph : ResourceGraph) : prog provE ResourceGraph :=
  service <- ServiceService.inspect unit ;;
  Ret
    match service with
    | Success service => addService (obs_value service) (appendWarnings (obs_warnings service) graph)
    | Failure error => appendError error graph
    end.

Definition unit_logs (unit : str) : LogQuery := mkLogQuery (Some unit) None None 50 false.
Definition pid_logs (pid : Z) : LogQuery := mkLogQuery None (Some pid) None 50 false.

(** The three loops for a port target. *)
Fixpoint add_owners (owners : list ProcessInfo) (graph : ResourceGraph) (units : list str)
    (unmanaged : list Z) : ResourceGraph * list str * list Z :=
  match owners with
  | [] => (graph, units, unmanaged)
  | process :: rest =>
      match pi_systemdUnit process with
      | Some unit => add_owners rest (addProcess process graph) (set_insert unit units) unmanaged
      | None => add_owners rest (addProcess process graph) units (set_insert (pi_pid process) unmanaged)
      end
  end.

Fixpoint add_units (units : list str) (graph : ResourceGraph) : prog provE ResourceGraph :=
  match units with
  | [] => Ret graph
  | unit :: rest =>
      graph <- inspectService unit graph ;;
      graph <- addLogs (unit_logs unit) graph ;;
      add_units rest graph
  end.

Fixpoint add_unmanaged (pids : list Z) (graph : ResourceGraph) : prog provE ResourceGraph :=
  match pids with
  | [] => Ret graph
  | pid :: rest =>
      graph <- addLogs (pid_logs pid) graph ;;
      add_unmanaged rest graph
  end.

Section Service.
Context {HO : HashOrder}.
Variable S : PortService.PortService.
Abbreviation P := (processService S).

(** The ports of all sockets with an owner that satisfies [related]. *)
Definition add_ports (related : list Z -> bool) (graph : ResourceGraph) : prog provE ResourceGraph :=
  ports <- PortService.inspect S default_SocketQuery ;;
  Ret
    match ports with
    | Success ports =>
        set_ports (rg_ports graph ++
                     List.filter (fun port => related (si_ownerPids (port_socket port))) (obs_value ports))
          (appendWarnings (obs_warnings ports) graph)
    | Failure error => appendError error graph
    end.

Definition inspect_port (port : Z) (graph : ResourceGraph) : prog provE (Result ResourceGraph) :=
  ports <-? PortService.inspect S (port_query port) ;;
  match obs_value ports with
  | [] =>
      Ret (Failure (mkError NotFound ($"No socket found for port " ++ to_string port) 0
                      $"inspect-service" $"inspect port"))
  | _ =>
      let graph := set_ports (obs_value ports) (appendWarnings (obs_warnings ports) graph) in
      let '(graph, units, unmanaged) :=
        add_owners (mjoin (map port_owners (rg_ports graph))) graph [] [] in
      graph <- add_units units graph ;;
      graph <- add_unmanaged unmanaged graph ;;
      Ret (Success graph)
  end.

Definition inspect_process (pid : Z) (graph : ResourceGraph) : prog provE (Result ResourceGraph) :=
  process <-? ProcessService.inspect P pid ;;
  let graph := addProcess (obs_value process) (appendWarnings (obs_warnings process) graph) in
  graph <-
    match pi_systemdUnit (obs_value process) with
    | Some unit => inspectService unit graph
    | None => Ret graph
    end ;;
  graph <- add_ports (fun owners => bool_decide (pid ∈ owners)) graph ;;
  graph <- addLogs (pid_logs pid) graph ;;
  Ret (Success graph).

Definition inspect_service (unit : str) (graph : ResourceGraph) : prog provE (Result ResourceGraph) :=
  service <-? ServiceService.inspect unit ;;
  let graph := addService (obs_value service) (appendWarnings (obs_warnings service) graph) in
  processes <- ProcessService.list_ P (mkProcessQuery None None (Some unit)) ;;
  let graph :=
    match processes with
    | Success processes => set_processes (obs_value processes) (appendWarnings (obs_warnings processes) graph)
    | Failure error => appendError error graph
    end in
  let pids := match processes with Success _ => map pi_pid (rg_processes graph) | Failure _ => [] end in
  graph <- add_ports (fun owners => existsb (fun pid => bool_decide (pid ∈ pids)) owners) graph ;;
  graph <- addLogs (unit_logs unit) graph ;;
  Ret (Success graph).

Definition inspect_target (target : ResourceTarget) : prog provE (Result ResourceGraph) :=
  let graph := mkResourceGraph target [] [] [] [] [] in
  result <-?
    match target with
    | PortTarget port => inspect_port port graph
    | ProcessTarget pid => inspect_process pid graph
    | ServiceTarget unit => inspect_service unit graph
    end ;;
  Ret (Success (finalizeLogs result)).

Definition inspect (expression : str) : prog provE (Result ResourceGraph) :=
  target <-? ResourceResolver.resolve S expression ;;
  inspect_target target.
End Service.

(** ** Invariants of the graph *)

Definition cursors (logs : list JournalEntry) : list str :=
  List.filter (fun c => negb (bool_decide (c = []))) (map je_cursor logs).

(** Services have different names, log entries different cursors. *)
Definition graph_ok (g : ResourceGraph) : Prop :=
  NoDup (map svc_unitName (rg_services g)) /\ NoDup (cursors (rg_recentLogs g)).

(** What the secondary steps leave alone and preserve. *)
Definition step_ok (g g' : ResourceGraph) : Prop :=
  rg_root g' = rg_root g /\ rg_ports g' = rg_ports g /\ rg_processes g' = rg_processes g /\
  rg_warnings g `prefix_of` rg_warnings g' /\ (graph_ok g -> graph_ok g').

#[export] Instance step_ok_preorder : PreOrder step_ok.
Proof.
  split; [by intros g|]. intros g1 g2 g3 (? & ? & ? & W1 & O1) (? & ? & ? & W2 & O2).
  split_and!; [congruence..|by etrans|auto].
Qed.

Lemma appendWarnings_step ws g : step_ok g (appendWarnings ws g).
Proof. split_and!; try done. by eexists. Qed.

Lemma addService_step s g : step_ok g (addService s g).
Proof.
  unfold addService. destruct (find_if _ _) eqn:E; [done|].
  split_and!; try done. intros [Hs Hl]. split; [|done]. simpl. rewrite map_app.
  apply NoDup_app. split_and!; [done| |apply NoDup_singleton].
  intros n (v & -> & Hv)%list_elem_of_fmap Hn%list_elem_of_singleton.
  apply (find_if_None _ _ v) in E; [|done]. by rewrite bool_decide_eq_false in E.
Qed.

Lemma add_entry_cursors logs e : NoDup (cursors logs) -> NoDup (cursors (add_entry logs e)).
Proof.
  intros H. unfold add_entry. destruct (negb _ && _) eqn:E; [done|].
  unfold cursors. rewrite map_app, List.filter_app. simpl.
  destruct (decide (je_cursor e = [])) as [Hc|Hc].
  { rewrite (bool_decide_true _ Hc). simpl. by rewrite app_nil_r. }
  rewrite (bool_decide_false _ Hc) in E |- *. simpl in E |- *. apply bool_decide_eq_false in E.
  apply NoDup_app. split_and!; [done| |apply NoDup_singleton].
  intros c (Hin & _)%list_elem_of_In%filter_In Hcc%list_elem_of_singleton. subst c.
  apply E, find_if_is_Some. apply list_elem_of_In, list_elem_of_fmap in Hin as (v & Hv & Hin).
  exists v. split; [done|]. by apply bool_decide_eq_true.
Qed.

Lemma addLogs_step q g : ensures (step_ok g) (addLogs q g).
Proof.
  apply ensures_any. intros [o|e]; apply ensures_ret; [|apply appendWarnings_step].
  etrans; [apply (appendWarnings_step (obs_warnings o))|]. split_and!; try done.
  intros [Hs Hl]. split; [done|]. simpl in *. clear Hs.
  revert Hl. generalize (rg_recentLogs g). induction (obs_value o) as [|e l IH]; intros logs Hl; simpl; [done|].
  apply IH. by apply add_entry_cursors.
Qed.

Lemma inspectService_step u g : ensures (step_ok g) (inspectService u g).
Proof.
  apply ensures_any. intros [o|e]; apply ensures_ret; [|apply appendWarnings_step].
  etrans; [apply (appendWarnings_step (obs_warnings o))|apply addService_step].
Qed.

Lemma add_units_step us g : ensures (step_ok g) (add_units us g).
Proof.
  revert g. induction us as [|u us IH]; intros g; simpl; [by apply ensures_ret|].
  eapply ensures_bind; [apply inspectService_step|]. intros g1 H1. simpl.
  eapply ensures_bind; [apply addLogs_step|]. intros g2 H2. simpl.
  eapply ensures_mono; [|apply IH]. intros g3 H3. simpl in *. etrans; [exact H1|]. by etrans.
Qed.

Lemma add_unmanaged_step ps g : ensures (step_ok g) (add_unmanaged ps g).
Proof.
  revert g. induction ps as [|p ps IH]; intros g; simpl; [by apply ensures_ret|].
  eapply ensures_bind; [apply addLogs_step|]. intros g2 H2. simpl.
  eapply ensures_mono; [|apply IH]. intros g3 H3. simpl in *. by etrans.
Qed.

(** Processes are added once per PID. *)
Lemma addProcess_spec p g :
  let g' := addProcess p g in
  rg_root g' = rg_root g /\ rg_ports g' = rg_ports g /\ rg_services g' = rg_services g /\
  rg_recentLogs g' = rg_recentLogs g /\ rg_warnings g' = rg_warnings g /\
  (NoDup (map pi_pid (rg_processes g)) -> NoDup (map pi_pid (rg_processes g'))) /\
  (forall q, q ∈ rg_processes g' -> q ∈ rg_processes g \/ q = p) /\
  (forall q, q ∈ rg_processes g -> q ∈ rg_processes g') /\
  (exists q, q ∈ rg_processes g' /\ pi_pid q = pi_pid p).
Proof.
  unfold addProcess. destruct (find_if _ _) as [v|] eqn:E; simpl.
  - apply find_if_Some in E as [? ?]. bool_facts. split_and!; try done; eauto.
  - split_and!; try done.
    + intros H. rewrite map_app. apply NoDup_app. split_and!; [done| |apply NoDup_singleton].
      intros n (v & -> & Hv)%list_elem_of_fmap Hn%list_elem_of_singleton.
      apply (find_if_None _ _ v) in E; [|done].
      simpl in E. bool_facts. congruence.
    + set_solver.
    + set_solver.
    + exists p. set_solver.
Qed.

Lemma add_owners_spec owners g us ps g' us' ps' :
  add_owners owners g us ps = (g', us', ps') ->
  rg_root g' = rg_root g /\ rg_ports g' = rg_ports g /\ rg_services g' = rg_services g /\
  rg_recentLogs g' = rg_recentLogs g /\
  (NoDup (map pi_pid (rg_processes g)) -> NoDup (map pi_pid (rg_processes g'))) /\
  (forall q, q ∈ rg_processes g' -> q ∈ rg_processes g \/ q ∈ owners) /\
  (forall q, q ∈ rg_processes g -> q ∈ rg_processes g') /\
  (forall p, p ∈ owners -> exists q, q ∈ rg_processes g' /\ pi_pid q = pi_pid p).
Proof.
  revert g us ps. induction owners as [|p owners IH]; intros g us ps; simpl.
  { intros [= <- <- <-]. split_and!; try done; set_solver. }
  intros H. assert (H' : exists us ps, add_owners owners (addProcess p g) us ps = (g', us', ps'))
    by (destruct (pi_systemdUnit p); eauto).
  clear H. destruct H' as (us1 & ps1 & H). apply IH in H as (-> & -> & -> & -> & N & I & K & C).
  pose proof (addProcess_spec p g) as (-> & -> & -> & -> & _ & N' & I' & K' & (q & Hq & Hqp)).
  split_and!; [done|done|done|done|auto| | |].
  - intros q' Hq'. destruct (I q' Hq') as [Hin|]; [|set_solver]. destruct (I' q' Hin); set_solver.
  - auto.
  - intros p' [->|Hp']%elem_of_cons; [|auto]. exists q. auto.
Qed.

(** ** The final logs *)

#[export] Instance filter_b_perm {A} (f : A -> bool) :
  Proper ((≡ₚ) ==> (≡ₚ)) (List.filter f).
Proof.
  intros l k. induction 1; simpl; [done|case_match; by try constructor| |by etrans].
  repeat case_match; try done. apply perm_swap.
Qed.
#[export] Instance cursors_perm : Proper ((≡ₚ) ==> (≡ₚ)) cursors.
Proof. intros l k H. unfold cursors. by apply filter_b_perm, Permutation_map. Qed.

Lemma by_timestamp_preorder : PreOrder (fun l r : JournalEntry => (je_timestamp l <=? je_timestamp r) = true).
Proof.
  split; [intros e; apply Z.leb_refl|]. intros a b c. rewrite !Z.leb_le. lia.
Qed.

Lemma StronglySorted_drop {A} (R : A -> A -> Prop) l n : StronglySorted R l -> StronglySorted R (drop n l).
Proof.
  intros Hs. revert n. induction Hs as [|x l Hl IH Hx]; intros [|n]; simpl; [constructor..|by constructor|done].
Qed.

Lemma finalizeLogs_spec g :
  let logs := rg_recentLogs (finalizeLogs g) in
  (exists dropped, rg_recentLogs g ≡ₚ dropped ++ logs /\
     (dropped = [] \/ length logs = 20%nat) /\
     forall d e, d ∈ dropped -> e ∈ logs -> je_timestamp d <= je_timestamp e) /\
  (length logs <= 20)%nat /\
  StronglySorted (fun l r => je_timestamp l <= je_timestamp r) logs /\
  (NoDup (cursors (rg_recentLogs g)) -> NoDup (cursors logs)).
Proof.
  simpl. set (sorted := stable_sort _ _).
  assert (Hperm : sorted ≡ₚ rg_recentLogs g) by apply stable_sort_perm.
  assert (Hs : StronglySorted (fun l r => (je_timestamp l <=? je_timestamp r) = true) sorted).
  { apply stable_sort_sorted; [apply by_timestamp_preorder|].
    intros x y. rewrite !Z.leb_le. lia. }
  set (n := (length sorted - 20)%nat).
  assert (Hsplit : take n sorted ++ drop n sorted = sorted) by apply take_drop.
  split_and!.
  - exists (take n sorted). split_and!.
    + by rewrite Hsplit, Hperm.
    + subst n. rewrite length_drop. destruct (decide (length sorted <= 20)%nat).
      * left. by replace (length sorted - 20)%nat with 0%nat by lia.
      * right. lia.
    + rewrite <- Hsplit in Hs. intros d e Hd He. apply Z.leb_le.
      clear -Hs Hd He. revert Hs. generalize dependent (drop n sorted). generalize dependent (take n sorted).
      intros l Hl k Hk Hs. induction l as [|x l IH]; [by apply not_elem_of_nil in Hl|].
      apply StronglySorted_cons in Hs as [Hx Hs]. apply elem_of_cons in Hl as [->|Hl].
      * rewrite Forall_forall in Hx. apply Hx. set_solver.
      * by apply IH.
  - subst n. rewrite length_drop. lia.
  - apply StronglySorted_drop. clear -Hs. induction Hs as [|x l Hl IH Hx]; constructor; [done|].
    eapply Forall_impl; [exact Hx|]. intros y. by rewrite Z.leb_le.
  - intros HN. rewrite <- Hperm in HN. rewrite <- Hsplit in HN.
    unfold cursors in *. rewrite map_app, List.filter_app in HN. by apply NoDup_app in HN as (_ & _ & ?).
Qed.

Lemma addLogs_read_only q g : calls_ok read_only (addLogs q g).
Proof. apply calls_ok_bind; [auto with calls|done]. Qed.
Lemma inspectService_read_only u g : calls_ok read_only (inspectService u g).
Proof. apply calls_ok_bind; [auto with calls|done]. Qed.
#[export] Hint Resolve addLogs_read_only inspectService_read_only : calls.
Lemma add_units_read_only us g : calls_ok read_only (add_units us g).
Proof. revert g. induction us as [|u us IH]; intros g; simpl; [done|]. auto 6 with calls. Qed.
Lemma add_unmanaged_read_only ps g : calls_ok read_only (add_unmanaged ps g).
Proof. revert g. induction ps as [|u us IH]; intros g; simpl; [done|]. auto 6 with calls. Qed.
#[export] Hint Resolve add_units_read_only add_unmanaged_read_only : calls.

Section Correct.
Context {HO : HashOrder}.
Variable S : PortService.PortService.

Lemma add_ports_read_only f g : calls_ok read_only (add_ports S f g).
Proof. apply calls_ok_bind; [apply port_inspect_read_only|done]. Qed.
#[local] Hint Resolve add_ports_read_only port_inspect_read_only : calls.

Lemma inspect_read_only e : calls_ok read_only (inspect S e).
Proof.
  apply calls_ok_bindR; [apply resolve_read_only|]. intros t. apply calls_ok_bindR; [|done].
  destruct t as [port|pid|unit].
  - apply calls_ok_bindR; [auto with calls|]. intros ports. destruct (obs_value ports); [done|].
    cbv beta iota zeta. match goal with |- context [add_owners ?a ?b ?c ?d] => destruct (add_owners a b c d) as [[g us] ps] end.
    apply calls_ok_bind; [auto with calls|]. intros g1. apply calls_ok_bind; [auto with calls|done].
  - apply calls_ok_bindR; [auto with calls|]. intros p.
    apply calls_ok_bind; [destruct (pi_systemdUnit _); [auto with calls|done]|]. intros g1.
    apply calls_ok_bind; [auto with calls|]. intros g2. apply calls_ok_bind; [auto with calls|done].
  - apply calls_ok_bindR; [auto with calls|]. intros p.
    apply calls_ok_bind; [auto with calls|]. intros ps.
    apply calls_ok_bind; [auto with calls|]. intros g2. apply calls_ok_bind; [auto with calls|done].
Qed.

Lemma add_ports_spec f g :
  ensures (fun g' => rg_root g' = rg_root g /\ rg_processes g' = rg_processes g /\
             (graph_ok g -> graph_ok g') /\
             forall p, p ∈ rg_ports g' -> p ∈ rg_ports g \/ f (si_ownerPids (port_socket p)) = true)
          (add_ports S f g).
Proof.
  apply ensures_any. intros [o|e]; apply ensures_ret; simpl; split_and!; try done; auto.
  intros p [Hp|Hp]%elem_of_app; [by left|]. right.
  apply list_elem_of_In, filter_In in Hp. by destruct Hp.
Qed.

(** What relates the resources of a graph to its root. *)
Definition related_ok (g : ResourceGraph) : Prop :=
  match rg_root g with
  | PortTarget _ =>
      rg_ports g <> [] /\ NoDup (map pi_pid (rg_processes g)) /\
      (forall q, q ∈ rg_processes g -> exists p, p ∈ rg_ports g /\ q ∈ port_owners p) /\
      (forall p q, p ∈ rg_ports g -> q ∈ port_owners p ->
         exists q', q' ∈ rg_processes g /\ pi_pid q' = pi_pid q)
  | ProcessTarget pid =>
      (exists p, rg_processes g = [p]) /\
      (forall p, p ∈ rg_ports g -> pid ∈ si_ownerPids (port_socket p))
  | ServiceTarget _ =>
      forall p, p ∈ rg_ports g ->
        exists q, q ∈ rg_processes g /\ pi_pid q ∈ si_ownerPids (port_socket p)
  end.

Lemma empty_ok target ws : graph_ok (mkResourceGraph target [] [] [] [] ws).
Proof. split; constructor. Qed.

Lemma inspect_port_ok port :
  ensures (fun r => forall g, r = Success g -> rg_root g = PortTarget port /\ related_ok g /\ graph_ok g)
    (inspect_port S port (mkResourceGraph (PortTarget port) [] [] [] [] [])).
Proof.
  apply ensures_any. intros [ports|e]; [|by apply ensures_ret].
  destruct (obs_value ports) as [|p0 ps0] eqn:E; [by apply ensures_ret|].
  assert (Hne : p0 :: ps0 <> []) by done.
  cbv beta iota zeta. remember (p0 :: ps0) as pl eqn:Hpl. clear Hpl E.
  match goal with |- context [add_owners ?a ?b ?c ?d] =>
    destruct (add_owners a b c d) as [[g us] ps] eqn:Ea end.
  apply add_owners_spec in Ea as (H1 & H2 & H3 & H4 & N & I & _ & C).
  simpl in H1, H2, H3, H4, N, I, C.
  eapply ensures_bind; [apply add_units_step|]. intros g1 S1. simpl.
  eapply ensures_bind; [apply add_unmanaged_step|]. intros g2 S2. simpl.
  apply ensures_ret. intros g' [= <-].
  assert (Hstep : step_ok g g2) by (by etrans). destruct Hstep as (R & Po & Pr & _ & Ok).
  rewrite R, H1. split; [done|]. split.
  - unfold related_ok. rewrite R, H1, Po, Pr, H2. split_and!; [done|apply N; constructor| |].
    + intros q [Hnil|Hq]%I; [by apply not_elem_of_nil in Hnil|].
      apply list_elem_of_join in Hq as (owners & Hq & (p & -> & Hp)%list_elem_of_fmap). eauto.
    + intros p q Hp Hq. apply C. apply list_elem_of_join. exists (port_owners p).
      split; [done|]. apply list_elem_of_fmap. eauto.
  - apply Ok. split; [rewrite H3|rewrite H4]; constructor.
Qed.

Lemma inspect_process_ok pid :
  ensures (fun r => forall g, r = Success g -> rg_root g = ProcessTarget pid /\ related_ok g /\ graph_ok g)
    (inspect_process S pid (mkResourceGraph (ProcessTarget pid) [] [] [] [] [])).
Proof.
  apply ensures_any. intros [process|e]; [|by apply ensures_ret].
  set (g0 := addProcess _ _).
  assert (Hg0 : rg_root g0 = ProcessTarget pid /\ rg_ports g0 = [] /\
                rg_processes g0 = [obs_value process] /\ graph_ok g0).
  { split_and!; try done. split; constructor. }
  destruct Hg0 as (Hr0 & Hp0 & Hq0 & Ok0). clearbody g0.
  eapply (ensures_bind (step_ok g0)).
  { destruct (pi_systemdUnit _); [apply inspectService_step|by apply ensures_ret]. }
  intros g1 (R1 & Po1 & Pr1 & _ & Ok1).
  eapply ensures_bind; [apply add_ports_spec|]. intros g2 (R2 & Pr2 & Ok2 & Po2). simpl in *.
  eapply ensures_bind; [apply addLogs_step|]. intros g3 (R3 & Po3 & Pr3 & _ & Ok3).
  apply ensures_ret. intros g' [= <-].
  assert (Hroot : rg_root g3 = ProcessTarget pid) by congruence.
  split; [done|]. split; [|auto]. unfold related_ok. rewrite Hroot. split.
  - exists (obs_value process). congruence.
  - rewrite Po3. intros p [Hp|Hp]%Po2.
    + rewrite Po1, Hp0 in Hp. by apply not_elem_of_nil in Hp.
    + by bool_facts.
Qed.

Lemma inspect_service_ok unit :
  ensures (fun r => forall g, r = Success g -> rg_root g = ServiceTarget unit /\ related_ok g /\ graph_ok g)
    (inspect_service S unit (mkResourceGraph (ServiceTarget unit) [] [] [] [] [])).
Proof.
  apply ensures_any. intros [service|e]; [|by apply ensures_ret].
  set (g0 := addService _ _).
  assert (Hg0 : rg_root g0 = ServiceTarget unit /\ rg_ports g0 = [] /\ graph_ok g0).
  { split_and!; try done. split; [apply NoDup_singleton|constructor]. }
  destruct Hg0 as (Hr0 & Hp0 & Ok0). clearbody g0.
  apply ensures_any. intros processes. cbv zeta.
  set (g1 := match processes with Success _ => _ | Failure _ => appendError _ _ end).
  assert (Hg1 : rg_root g1 = ServiceTarget unit /\ rg_ports g1 = [] /\ graph_ok g1)
    by (by subst g1; destruct processes).
  destruct Hg1 as (Hr1 & Hp1 & Ok1).
  set (pids := match processes with Success _ => _ | Failure _ => [] end).
  assert (Hpids : forall pid, pid ∈ pids -> exists q, q ∈ rg_processes g1 /\ pi_pid q = pid).
  { subst pids. intros pid Hpid. destruct processes as [o|e]; [|by apply not_elem_of_nil in Hpid].
    apply list_elem_of_fmap in Hpid as (q & -> & Hq). eauto. }
  clearbody g1 pids.
  eapply ensures_bind; [apply add_ports_spec|]. intros g2 (R2 & Pr2 & Ok2 & Po2). simpl in *.
  eapply ensures_bind; [apply addLogs_step|]. intros g3 (R3 & Po3 & Pr3 & _ & Ok3).
  apply ensures_ret. intros g' [= <-].
  assert (Hroot : rg_root g3 = ServiceTarget unit) by congruence.
  split; [done|]. split; [|auto]. unfold related_ok. rewrite Hroot.
  rewrite Po3, Pr3, Pr2. intros p [Hp|Hp]%Po2.
  - rewrite Hp1 in Hp. by apply not_elem_of_nil in Hp.
  - apply existsb_elem_of in Hp as (pid & Hin & Hpid). bool_facts.
    apply Hpids in Hpid as (q & Hq & <-). eauto.
Qed.

(** The graph before its logs are cut. *)
Lemma inspect_target_inv target tr g' :
  runs (inspect_target S target) tr (Success g') ->
  exists g, g' = finalizeLogs g /\ rg_root g = target /\ related_ok g /\ graph_ok g.
Proof.
  unfold inspect_target. intros [(e & _ & [=])|(t1 & g & t2 & -> & H1 & -> & [= ->])]%runs_bindR.
  exists g. split; [done|].
  destruct target as [port|pid|unit]; simpl in H1;
    [apply inspect_port_ok in H1 | apply inspect_process_ok in H1 | apply inspect_service_ok in H1];
    exact (H1 g eq_refl).
Qed.

(** Only the observation of the root itself can make an inspection fail. *)
Lemma inspect_target_fails target tr e :
  runs (inspect_target S target) tr (Failure e) ->
  match target with
  | PortTarget port =>
      exists t r, runs (PortService.inspect S (port_query port)) t r /\
        (r = Failure e \/ exists o, r = Success o /\ obs_value o = [] /\ err_code e = NotFound)
  | ProcessTarget pid =>
      exists t, runs (ProcessService.inspect (processService S) pid) t (Failure e)
  | ServiceTarget unit => exists t, runs (ServiceService.inspect unit) t (Failure e)
  end.
Proof.
  unfold inspect_target. intros [(e' & H & [= <-])|(t1 & g & t2 & _ & _ & _ & [=])]%runs_bindR.
  assert (Hok : forall (t : prog provE ResourceGraph) tr,
            runs (g <- t ;; Ret (Success g)) tr (Failure e) -> False).
  { intros t tr' (t1 & g & t2 & _ & _ & _ & [=])%runs_bind. }
  destruct target as [port|pid|unit];
    unfold inspect_port, inspect_process, inspect_service in H;
    apply runs_bindR in H as [(e' & H & [= <-])|(t1 & o & t2 & -> & H1 & H)].
  - eauto.
  - destruct (obs_value o) eqn:Eo.
    + destruct H as [-> [= ->]]. exists t1, (Success o). split; [done|]. right. eauto.
    + exfalso. cbv beta iota zeta in H.
      match type of H with context [add_owners ?a ?b ?c ?d] =>
        destruct (add_owners a b c d) as [[g us] ps] end.
      apply runs_bind in H as (? & ? & ? & _ & _ & H). by apply Hok in H.
  - eauto.
  - exfalso. apply runs_bind in H as (? & ? & ? & _ & _ & H).
    apply runs_bind in H as (? & ? & ? & _ & _ & H). by apply Hok in H.
  - eauto.
  - exfalso. apply runs_bind in H as (? & ? & ? & _ & _ & H).
    apply runs_bind in H as (? & ? & ? & _ & _ & H). by apply Hok in H.
Qed.
End Correct.

(** ** Properties *)


(** The recent log of a graph has at most 20 entries in the order of their
timestamps, no entry with a cursor appears twice, and the entries left out are
not newer than any entry kept (and some are left out only when 20 are kept). *)
Theorem inspect_recent_logs {HO : HashOrder} S target tr g :
  runs (inspect_target S target) tr (Success g) ->
  (length (rg_recentLogs g) <= 20)%nat /\
  StronglySorted (fun l r => je_timestamp l <= je_timestamp r) (rg_recentLogs g) /\
  NoDup (cursors (rg_recentLogs g)) /\
  exists g0 dropped, g = finalizeLogs g0 /\ rg_recentLogs g0 ≡ₚ dropped ++ rg_recentLogs g /\
    (dropped = [] \/ length (rg_recentLogs g) = 20%nat) /\
    forall d e, d ∈ dropped -> e ∈ rg_recentLogs g -> je_timestamp d <= je_timestamp e.
Proof.
  intros (g0 & -> & _ & _ & _ & Hc)%inspect_target_inv.
  destruct (finalizeLogs_spec g0) as ((d & H1 & H2 & H3) & H4 & H5 & H6).
  split_and!; [done|done|auto|]. exists g0, d. done.
Qed.

(** Inspection reads only and fails only when the expression cannot be
resolved or the target itself cannot be observed: failures of the related
observations (units, ports, processes, logs) do not fail it. *)
Theorem inspect_fails_only_at_root {HO : HashOrder} S expression tr e :
  runs (inspect S expression) tr (Failure e) ->
  (signals tr = [] /\ jobs tr = []) /\
  ((exists t, runs (resolve S expression) t (Failure e)) \/
   exists t target, runs (resolve S expression) t (Success target) /\
     match target with
     | PortTarget port =>
         exists t r, runs (PortService.inspect S (port_query port)) t r /\
           (r = Failure e \/ exists o, r = Success o /\ obs_value o = [] /\ err_code e = NotFound)
     | ProcessTarget pid =>
         exists t, runs (ProcessService.inspect (processService S) pid) t (Failure e)
     | ServiceTarget unit => exists t, runs (ServiceService.inspect unit) t (Failure e)
     end).
Proof.
  intros H. split; [by eapply read_only_runs; [apply inspect_read_only|]|].
  apply runs_bindR in H as [(e' & H & [= <-])|(t1 & target & t2 & -> & H1 & H2)]; [by left; eauto|].
  right. exists t1, target. split; [done|]. by eapply inspect_target_fails.
Qed.

(** ** Examples *)

#[local] Existing Instance elements_order.

Definition graph_8080 : ResourceGraph :=
  match result (inspect_target sim_resolver (PortTarget 8080)) sim_machine with
  | Success g => g
  | Failure _ => mkResourceGraph (PortTarget 8080) [] [] [] [] []
  end.

Lemma graph_8080_runs :
  runs (inspect_target sim_resolver (PortTarget 8080))
    (calls (inspect_target sim_resolver (PortTarget 8080)) sim_machine) (Success graph_8080).
Proof.
  replace (Success graph_8080) with (result (inspect_target sim_resolver (PortTarget 8080)) sim_machine)
    by (vm_compute; reflexivity). apply sim_runs.
Qed.


Lemma inspect_recent_logs_witness :
  map je_cursor (rg_recentLogs graph_8080) = [$"c1"; $"c2"] /\
  (length (rg_recentLogs graph_8080) <= 20)%nat.
Proof. split; [by vm_compute|]. apply (inspect_recent_logs _ _ _ _ graph_8080_runs). Defined.

Lemma inspect_fails_only_at_root_witness :
  exists e, result (inspect sim_resolver $"port:81") sim_machine = Failure e /\
    signals (calls (inspect sim_resolver $"port:81") sim_machine) = [].
Proof.
  destruct (result (inspect sim_resolver $"port:81") sim_machine) as [g|e] eqn:E; [by vm_compute in E|].
  exists e. split; [done|].
  apply (inspect_fails_only_at_root sim_resolver $"port:81" _ e). rewrite <- E. apply sim_runs.
Defined.
