(* ===== verification/DashboardService.v ===== *)
(** * [application::DashboardService] ([src/application/DashboardService.cpp])

Successive snapshots of the host, its processes, ports and services.  A panel
whose source fails keeps its previous contents and is marked stale; services are
listed again only three seconds after the last successful listing. *)

From S2P Require Import Prelude CppStd CppString Prog Domain Contracts Float Sim.
From S2P Require Import ServiceService ProcessService PortService PortServiceProofs.
From S2P Require Import MetricsService ResourceResolver.

(** [previous_], [previousMetrics_], [servicesRefreshedAt_] *)
Record state := mkState {
  previous : option DashboardSnapshot;
  previousMetrics : option MetricsSnapshot;
  servicesRefreshedAt : option Z;    (* nanoseconds of the steady clock *)
}.
Definition initial : state := mkState None None None.

Definition attachCpu (metrics : MetricsView) (processes : list ProcessInfo) : list ProcessInfo :=
  map (fun process => set_cpuPercent (mv_processCpuPercent metrics !! pi_pid process) process) processes.

Definition serviceInterval : Z := 3000000000.

(** The four panels, each from the answer of its source. *)
Definition next_host (prev : DashboardSnapshot) (view : option MetricsView) : HostStatus * bool :=
  match view with Some view => (mv_host view, false) | None => (ds_host prev, true) end.

Definition refreshed {A} (answer : Result (Observation A)) (old : A) : A * bool * list Warning :=
  match answer with
  | Success o => (obs_value o, false, obs_warnings o)
  | Failure error => (old, true, [warningFrom error])
  end.

Definition services_due (at_ : option Z) (now : Z) : bool :=
  match at_ with None => true | Some t => serviceInterval <=? now - t end.

Section Service.
Context {HO : HashOrder}.
Variable S : PortService.PortService.
Abbreviation P := (processService S).

Definition refreshAt (st : state) (now : Z) : prog provE (DashboardSnapshot * state) :=
  let prev := default default_DashboardSnapshot (previous st) in
  capturedAt <- trigger SystemClock_now ;;
  metrics <- MetricsService.capture ;;
  let '(metricsView, metricsWarnings, previousMetrics') :=
    match metrics with
    | Success current =>
        (Some (MetricsService.compare (default current (previousMetrics st)) current), [], Some current)
    | Failure error => (None, [warningFrom error], previousMetrics st)
    end in
  let '(host, hostStale) := next_host prev metricsView in
  processes <- ProcessService.list_ P default_ProcessQuery ;;
  let '(nextProcesses, processesStale, processWarnings) := refreshed processes (ds_processes prev) in
  let nextProcesses :=
    match processes, metricsView with
    | Success _, Some view => attachCpu view nextProcesses
    | _, _ => nextProcesses
    end in
  ports <- PortService.inspect S default_SocketQuery ;;
  let '(nextPorts, portsStale, portWarnings) := refreshed ports (ds_ports prev) in
  let warnings := metricsWarnings ++ processWarnings ++ portWarnings in
  let finish services servicesStale serviceWarnings refreshedAt :=
    let next := mkDashboardSnapshot host nextProcesses nextPorts services hostStale processesStale
                  portsStale servicesStale (warnings ++ serviceWarnings) capturedAt in
    Ret (next, mkState (Some next) previousMetrics' refreshedAt) in
  if services_due (servicesRefreshedAt st) now then
    services <- ServiceService.list_ ;;
    let '(nextServices, servicesStale, serviceWarnings) := refreshed services (ds_services prev) in
    finish nextServices servicesStale serviceWarnings
      (if hasValue services then Some now else servicesRefreshedAt st)
  else finish (ds_services prev) (ds_servicesStale prev) [] (servicesRefreshedAt st).

Definition refresh (st : state) : prog provE (DashboardSnapshot * state) :=
  now <- trigger SteadyClock_now ;;
  refreshAt st now.

Lemma refreshAt_read_only st now : calls_ok read_only (refreshAt st now).
Proof.
  unfold refreshAt. apply calls_ok_bind; [done|]. intros t.
  apply calls_ok_bind; [auto with calls|]. intros metrics.
  destruct (match metrics with Success _ => _ | Failure _ => _ end) as [[mv mw] pm].
  destruct (next_host _ mv) as [host hs].
  apply calls_ok_bind; [auto with calls|]. intros ps. destruct (refreshed ps _) as [[np pst] pw].
  apply calls_ok_bind; [apply port_inspect_read_only|]. intros pts.
  destruct (refreshed pts _) as [[nt tst] tw].
  destruct (services_due _ _); [|done]. apply calls_ok_bind; [auto with calls|].
  intros ss. destruct (refreshed ss _) as [[ns sst] sw]. done.
Qed.

(** ** One refresh *)

(** The contents, the stale flag and the warnings of a panel. *)
Definition panel {A} (answer : Result (Observation A)) (old new : A) (stale : bool) : Prop :=
  match answer with
  | Success o => new = obs_value o /\ stale = false
  | Failure _ => new = old /\ stale = true
  end.

Definition warnings_of {A} (answer : Result (Observation A)) : list Warning :=
  match answer with Success o => obs_warnings o | Failure e => [warningFrom e] end.

Lemma refreshed_panel {A} (r : Result (Observation A)) old new stale ws :
  refreshed r old = (new, stale, ws) -> panel r old new stale /\ ws = warnings_of r.
Proof. destruct r; intros [= <- <- <-]; done. Qed.

Lemma refreshAt_inv st now tr next st' :
  runs (refreshAt st now) tr (next, st') ->
  let prev := default default_DashboardSnapshot (previous st) in
  exists t tm metrics tp processes tq ports ts,
    tr = Ev SystemClock_now t :: tm ++ tp ++ tq ++ ts /\
    runs MetricsService.capture tm metrics /\
    runs (ProcessService.list_ P default_ProcessQuery) tp processes /\
    runs (PortService.inspect S default_SocketQuery) tq ports /\
    previous st' = Some next /\ ds_capturedAt next = t /\
    match metrics with
    | Success m =>
        ds_host next = mv_host (MetricsService.compare (default m (previousMetrics st)) m) /\
        ds_hostStale next = false /\ previousMetrics st' = Some m
    | Failure e =>
        ds_host next = ds_host prev /\ ds_hostStale next = true /\
        previousMetrics st' = previousMetrics st
    end /\
    match processes with
    | Success o =>
        map (set_cpuPercent None) (ds_processes next) = map (set_cpuPercent None) (obs_value o) /\
        ds_processesStale next = false
    | Failure _ => ds_processes next = ds_processes prev /\ ds_processesStale next = true
    end /\
    panel ports (ds_ports prev) (ds_ports next) (ds_portsStale next) /\
    exists ws,
      ds_warnings next = match metrics with Success _ => [] | Failure e => [warningFrom e] end ++
        warnings_of processes ++ warnings_of ports ++ ws /\
      if services_due (servicesRefreshedAt st) now then
        exists services, ts = [Ev ServiceProvider_list services] /\
          panel services (ds_services prev) (ds_services next) (ds_servicesStale next) /\
          ws = warnings_of services /\
          servicesRefreshedAt st' = if hasValue services then Some now else servicesRefreshedAt st
      else
        ts = [] /\ ws = [] /\ ds_services next = ds_services prev /\
        ds_servicesStale next = ds_servicesStale prev /\
        servicesRefreshedAt st' = servicesRefreshedAt st.
Proof.
  unfold refreshAt. intros (t0 & t & t1 & -> & ->%runs_trigger & H)%runs_bind.
  cbv zeta. exists t.
  apply runs_bind in H as (tm & metrics & t2 & -> & Hm & H).
  destruct (match metrics with Success _ => _ | Failure _ => _ end) as [[mv mw] pm] eqn:Em.
  destruct (next_host _ mv) as [host hs] eqn:Eh.
  apply runs_bind in H as (tp & processes & t3 & -> & Hp & H).
  destruct (refreshed processes _) as [[np pst] pw] eqn:Ep.
  apply runs_bind in H as (tq & ports & ts & -> & Hq & H).
  destruct (refreshed ports _) as [[nt tst] tw] eqn:Eq.
  exists tm, metrics, tp, processes, tq, ports, ts.
  apply refreshed_panel in Eq as [Hpq ->].
  assert (Hcpu : forall mv l, map (set_cpuPercent None) (attachCpu mv l) = map (set_cpuPercent None) l).
  { intros v l. unfold attachCpu. rewrite map_map. done. }
  assert (Hmetrics : mw = match metrics with Success _ => [] | Failure e => [warningFrom e] end)
    by (destruct metrics; by simplify_eq).
  assert (Hproc : pw = warnings_of processes) by (destruct processes; by simplify_eq/=).
  destruct (services_due (servicesRefreshedAt st) now).
  - apply runs_bind in H as (t4 & services & t5 & -> & ->%runs_trigger & H).
    destruct (refreshed services _) as [[ns sst] sw] eqn:Es.
    apply refreshed_panel in Es as [Hs ->]. destruct H as [-> [= -> ->]]. simpl.
    split_and!; try done.
    + destruct metrics; simplify_eq/=; done.
    + destruct processes as [o|e]; simplify_eq/=; [|done]. destruct mv; by rewrite ?Hcpu.
    + exists (warnings_of services). rewrite Hmetrics, Hproc, <- !app_assoc. split; [done|].
      exists services. done.
  - destruct H as [-> [= -> ->]]. simpl. split_and!; try done.
    + destruct metrics; simplify_eq/=; done.
    + destruct processes as [o|e]; simplify_eq/=; [|done]. destruct mv; by rewrite ?Hcpu.
    + exists []. rewrite Hmetrics, Hproc, !app_nil_r. done.
Qed.
End Service.

(** ** Successive refreshes *)

(** The services were listed successfully in a run. *)
Definition listed (ev : event provE) : bool :=
  match ev with
  | Ev e x =>
      match e in provE X return X -> bool with
      | ServiceProvider_list => fun r => hasValue r
      | _ => fun _ => false
      end x
  end.

(** Calls that do not list the services. *)
Definition not_listing (X : Type) (e : provE X) : Prop :=
  match e with ServiceProvider_list => False | _ => True end.

Lemma not_listing_listed tr : Forall (ev_ok not_listing) tr -> existsb listed tr = false.
Proof.
  intros H. apply not_true_iff_false. rewrite existsb_elem_of. intros ([X e x] & Hin & He).
  rewrite Forall_forall in H. specialize (H _ Hin). by destruct e.
Qed.

(** States reached by refreshes, with the times of the refreshes whose listing
of the services succeeded, the latest first, and the time of the last refresh. *)
Inductive reach {HO : HashOrder} (S : PortService.PortService) : state -> list Z -> Prop :=
| reach_initial : reach S initial []
| reach_refresh st h now tr next st' :
    reach S st h -> runs (refreshAt S st now) tr (next, st') ->
    reach S st' (if existsb listed tr then now :: h else h).

Fixpoint spaced (gap : Z) (times : list Z) : Prop :=
  match times with
  | t :: (u :: _) as rest => gap <= t - u /\ spaced gap rest
  | _ => True
  end.

Section Reach.
Context {HO : HashOrder}.
Variable S : PortService.PortService.

Lemma unitByPid_not_listing pid : calls_ok not_listing (ServiceService.unitByPid pid).
Proof. unfold ServiceService.unitByPid. by case_match. Qed.

Lemma process_inspect_not_listing P pid : calls_ok not_listing (ProcessService.inspect P pid).
Proof.
  unfold ProcessService.inspect. case_match; [done|]. apply calls_ok_bindR; [done|].
  intros o. case_match; [done|]. apply calls_ok_bind; [apply unitByPid_not_listing|done].
Qed.

Lemma process_list_not_listing P q : calls_ok not_listing (ProcessService.list_ P q).
Proof.
  unfold ProcessService.list_. case_match; [|done]. apply calls_ok_bindR; [done|]. intros o.
  generalize (@nil ProcessInfo), (obs_warnings o). induction (obs_value o) as [|p ps IH];
    intros ms ws; simpl; [done|].
  repeat case_match; try apply IH; (apply calls_ok_bind; [apply unitByPid_not_listing|]);
    intros [u|e]; repeat case_match; done || apply IH.
Qed.

Lemma ports_not_listing q : calls_ok not_listing (PortService.inspect S q).
Proof.
  apply calls_ok_bindR; [done|]. intros s. apply calls_ok_bindR; [done|]. intros o.
  apply calls_ok_bind; [|done]. generalize (obs_warnings s ++ obs_warnings o), (∅ : gmap Z ProcessInfo).
  induction (iter_order _) as [|pid pids IH]; intros ws m; simpl; [done|].
  apply calls_ok_bind; [apply process_inspect_not_listing|]. by intros [p|e].
Qed.

Lemma capture_not_listing : calls_ok not_listing MetricsService.capture.
Proof. repeat (apply calls_ok_bindR; [done|intros ?]). done. Qed.

Lemma refreshAt_listed st now tr next st' :
  runs (refreshAt S st now) tr (next, st') ->
  servicesRefreshedAt st' = (if existsb listed tr then Some now else servicesRefreshedAt st) /\
  (existsb listed tr = true -> services_due (servicesRefreshedAt st) now = true).
Proof.
  intros (t & tm & m & tp & ps & tq & pts & ts & -> & Hm & Hp & Hq & _ & _ & _ & _ & _ & ws & _ & Hs)%refreshAt_inv.
  simpl. rewrite !existsb_app.
  rewrite (not_listing_listed tm) by (eapply calls_ok_runs; [apply capture_not_listing|done]).
  rewrite (not_listing_listed tp) by (eapply calls_ok_runs; [apply process_list_not_listing|done]).
  rewrite (not_listing_listed tq) by (eapply calls_ok_runs; [apply ports_not_listing|done]).
  simpl. destruct (services_due (servicesRefreshedAt st) now).
  - destruct Hs as (ss & -> & _ & _ & ->). simpl. by destruct ss.
  - by destruct Hs as (-> & _ & _ & _ & ->).
Qed.

Lemma reach_inv st h : reach S st h -> servicesRefreshedAt st = head h /\ spaced serviceInterval h.
Proof.
  induction 1 as [|st h now tr next st' _ [IH1 IH2] H]; [done|].
  apply refreshAt_listed in H as [-> Hdue]. destruct (existsb listed tr); [|done].
  split; [done|]. specialize (Hdue eq_refl). rewrite IH1 in Hdue.
  destruct h as [|u h]; simpl in *; [done|]. bool_facts. done.
Qed.
End Reach.

(** ** Properties *)


(** However often the dashboard refreshes and whatever its sources answer,
two successful listings of the services are at least three seconds apart, and
the remembered time is that of the latest one. *)
Theorem services_listed_every_three_seconds {HO : HashOrder} S st h :
  reach S st h -> servicesRefreshedAt st = head h /\ spaced 3000000000 h.
Proof. apply reach_inv. Qed.

(** ** Examples *)

#[local] Existing Instance elements_order.

Definition first_refresh : DashboardSnapshot * state := result (refreshAt sim_resolver initial 0) sim_machine.
Definition second_refresh : DashboardSnapshot * state :=
  result (refreshAt sim_resolver first_refresh.2 1500000000) sim_machine.
Definition third_refresh : DashboardSnapshot * state :=
  result (refreshAt sim_resolver second_refresh.2 3000000000) sim_machine.


Lemma three_refreshes : reach sim_resolver third_refresh.2 [3000000000; 0].
Proof.
  assert (H1 : reach sim_resolver first_refresh.2 [0]).
  { change [0] with (if existsb listed (calls (refreshAt sim_resolver initial 0) sim_machine)
                     then [0] else []).
    eapply (reach_refresh _ initial [] 0 _ first_refresh.1); [constructor|].
    rewrite <- surjective_pairing. apply sim_runs. }
  assert (H2 : reach sim_resolver second_refresh.2 [0]).
  { change [0] with (if existsb listed (calls (refreshAt sim_resolver first_refresh.2 1500000000) sim_machine)
                     then [1500000000; 0] else [0]).
    eapply (reach_refresh _ first_refresh.2 [0] 1500000000 _ second_refresh.1); [done|].
    rewrite <- surjective_pairing. apply sim_runs. }
  change [3000000000; 0] with
    (if existsb listed (calls (refreshAt sim_resolver second_refresh.2 3000000000) sim_machine)
     then [3000000000; 0] else [0]).
  eapply (reach_refresh _ second_refresh.2 [0] 3000000000 _ third_refresh.1); [done|].
  rewrite <- surjective_pairing. apply sim_runs.
Qed.

Lemma services_listed_every_three_seconds_witness :
  servicesRefreshedAt third_refresh.2 = Some 3000000000 /\ spaced 3000000000 [3000000000; 0].
Proof.
  apply (services_listed_every_three_seconds sim_resolver third_refresh.2 [3000000000; 0]).
  apply three_refreshes.
Defined.
