(* ===== verification/DashboardWorker.v ===== *)
(** * [application::DashboardWorker] ([src/application/DashboardWorker.cpp])

The thread that refreshes the dashboard.  Its client (the presentation thread)
starts and stops it and reads the latest snapshot; mutex and condition variable
make each critical section one step.  The model is a labelled transition system
of the two threads, executable as [step]; the scheduler, the results of the
refreshes, the callback and the wake-ups of the condition variable are the
labels. *)

From S2P Require Import Prelude CppStd CppString Prog Domain.
From Stdlib Require Import Ascii.

(** Where the worker stands in [work]. *)
Inductive worker_pc :=
| Refreshing                                  (* service_.refresh() *)
| Publishing (next : DashboardSnapshot)       (* before the lock of snapshot_ *)
| CallingBack                                 (* if (refreshed) refreshed(); *)
| Locking                                     (* before the lock of the wait *)
| Waiting                                     (* asleep in wait_for, lock released *)
| Returned.                                   (* work has returned *)

(** Where the client stands in [stop]. *)
Inductive client_pc :=
| Idle                                        (* in no member function *)
| Notifying                                   (* stopping_ set, before notify_all *)
| Joining.                                    (* before thread_.joinable() *)

Record DashboardWorker := mkWorker {
  snapshot_ : option DashboardSnapshot;
  thread_ : option (worker_pc * bool);        (* the joinable thread; is [refreshed] set *)
  stopping_ : bool;
  notified : bool;                            (* the sleeping worker was notified *)
  client : client_pc;
}.
Definition initial : DashboardWorker := mkWorker None None false false Idle.

(** Why [wait_for] wakes up. *)
Inductive reason := TimedOut | Notification | Spurious.

Inductive label :=
(* the client *)
| Start (has_callback : bool)
| StopFlag | StopNotify | StopJoin
| Snapshot
(* the worker *)
| RefreshReturns (next : DashboardSnapshot) | RefreshThrows
| Publish
| CallbackReturns | CallbackThrows
| EnterWait
| WakeUp (why : reason).

Definition set_pc (pc : worker_pc) (callback : bool) (w : DashboardWorker) : DashboardWorker :=
  mkWorker (snapshot_ w) (Some (pc, callback)) (stopping_ w) false (client w).

(** What [snapshot] returns. *)
Definition snapshot (w : DashboardWorker) : option DashboardSnapshot := snapshot_ w.

(** [start] holds the lock while it tests and creates the thread. *)
Definition start (has_callback : bool) (w : DashboardWorker) : DashboardWorker :=
  match thread_ w with
  | Some _ => w
  | None => mkWorker (snapshot_ w) (Some (Refreshing, has_callback)) false false (client w)
  end.

(** [stop]: set the flag, notify, join. *)
Definition stop_flag (w : DashboardWorker) : DashboardWorker :=
  mkWorker (snapshot_ w) (thread_ w) true (notified w) Notifying.
Definition stop_notify (w : DashboardWorker) : DashboardWorker :=
  mkWorker (snapshot_ w) (thread_ w) (stopping_ w)
    (match thread_ w with Some (Waiting, _) => true | _ => notified w end) Joining.
(** [join] blocks until the thread has returned. *)
Definition stop_join (w : DashboardWorker) : option DashboardWorker :=
  match thread_ w with
  | Some (Returned, _) | None => Some (mkWorker (snapshot_ w) None (stopping_ w) (notified w) Idle)
  | Some _ => None
  end.

(** The predicate of [wait_for] is tested when the wait is entered and after
every wake-up; a time-out returns its value. *)
Definition enter_wait (callback : bool) (w : DashboardWorker) : DashboardWorker :=
  if stopping_ w then set_pc Returned callback w else set_pc Waiting callback w.
Definition wake_up (why : reason) (callback : bool) (w : DashboardWorker) : option DashboardWorker :=
  let woken :=
    if stopping_ w then set_pc Returned callback w
    else match why with
         | TimedOut => set_pc Refreshing callback w
         | Notification | Spurious => set_pc Waiting callback w
         end in
  match why with
  | Notification => if notified w then Some woken else None
  | TimedOut | Spurious => Some woken
  end.

Definition step (w : DashboardWorker) (l : label) : option DashboardWorker :=
  match l with
  | Start has_callback =>
      match client w with Idle => Some (start has_callback w) | _ => None end
  | StopFlag => match client w with Idle => Some (stop_flag w) | _ => None end
  | StopNotify => match client w with Notifying => Some (stop_notify w) | _ => None end
  | StopJoin => match client w with Joining => stop_join w | _ => None end
  | Snapshot => match client w with Idle => Some w | _ => None end
  | RefreshReturns next =>
      match thread_ w with Some (Refreshing, cb) => Some (set_pc (Publishing next) cb w) | _ => None end
  | RefreshThrows =>
      match thread_ w with Some (Refreshing, cb) => Some (set_pc Returned cb w) | _ => None end
  | Publish =>
      match thread_ w with
      | Some (Publishing next, cb) =>
          Some (mkWorker (Some next) (Some (if cb then CallingBack else Locking, cb)) (stopping_ w)
                  false (client w))
      | _ => None
      end
  | CallbackReturns =>
      match thread_ w with Some (CallingBack, cb) => Some (set_pc Locking cb w) | _ => None end
  | CallbackThrows =>
      match thread_ w with Some (CallingBack, cb) => Some (set_pc Returned cb w) | _ => None end
  | EnterWait =>
      match thread_ w with Some (Locking, cb) => Some (enter_wait cb w) | _ => None end
  | WakeUp why =>
      match thread_ w with Some (Waiting, cb) => wake_up why cb w | _ => None end
  end.

Fixpoint run (w : DashboardWorker) (ls : list label) : option DashboardWorker :=
  match ls with
  | [] => Some w
  | l :: ls' => match step w l with Some w' => run w' ls' | None => None end
  end.

Inductive reachable : DashboardWorker -> Prop :=
| reachable_initial : reachable initial
| reachable_step w l w' : reachable w -> step w l = Some w' -> reachable w'.

Lemma run_app w ls1 ls2 :
  run w (ls1 ++ ls2) = match run w ls1 with Some w' => run w' ls2 | None => None end.
Proof. revert w. induction ls1 as [|l ls1 IH]; intros w; simpl; [done|]. destruct (step w l); [apply IH|done]. Qed.

Lemma run_reachable w ls w' : reachable w -> run w ls = Some w' -> reachable w'.
Proof.
  revert w. induction ls as [|l ls IH]; intros w Hw; simpl; [by intros [= <-]|].
  destruct (step w l) as [w1|] eqn:E; [|done]. apply IH. by eapply reachable_step.
Qed.

(** The labels of the worker's own steps. *)
Definition is_worker (l : label) : bool :=
  match l with
  | RefreshReturns _ | RefreshThrows | Publish | CallbackReturns | CallbackThrows | EnterWait
  | WakeUp _ => true
  | _ => false
  end.

(** Case analysis of one step. *)
Ltac step_cases w H :=
  destruct w as [snap thread stopping note c]; unfold step in H; cbn in H;
  repeat (case_match; simplify_eq/=; try done).

Definition stopping_inv (w : DashboardWorker) : Prop :=
  (client w = Idle -> stopping_ w = true -> thread_ w = None) /\
  (client w <> Idle -> stopping_ w = true) /\
  (forall cb, client w = Joining -> thread_ w = Some (Waiting, cb) -> notified w = true).

Lemma stopping_inv_step w l w' : stopping_inv w -> step w l = Some w' -> stopping_inv w'.
Proof.
  intros (H1 & H2 & H3) H. unfold stopping_inv in *.
  destruct w as [snap thread stopping note c], l; unfold step in H; cbn in *;
    unfold start, stop_flag, stop_notify, stop_join, enter_wait, wake_up, set_pc in H; cbn in H;
    repeat (case_match; simplify_eq/=); try done;
    try (split_and!; intros; simplify_eq/=; try done; naive_solver).
Qed.

Lemma reachable_inv w : reachable w -> stopping_inv w.
Proof.
  induction 1 as [|w l w' _ IH E]; [by split_and!|]. by eapply stopping_inv_step.
Qed.

(** A worker that has no thread, or whose thread has returned, takes no step. *)
Definition ended (w : DashboardWorker) : Prop :=
  thread_ w = None \/ exists cb, thread_ w = Some (Returned, cb).

Lemma ended_quiet w l : ended w -> is_worker l = true -> step w l = None.
Proof. unfold step. intros [->|[cb ->]] Hl; by destruct l. Qed.

(** Stopping is final and loses no wake-up: in every reachable state a thread
asleep while the client joins it has been notified, so it need not wait for its
time-out; once [stop] has returned (or the thread has ended by an exception) the
worker takes no step, and after an exception [start] does nothing until the next
[stop]. *)
Theorem stop_is_final w :
  reachable w ->
  (client w = Joining -> forall cb, thread_ w = Some (Waiting, cb) ->
   step w (WakeUp Notification) = Some (set_pc Returned cb w)) /\
  (client w = Idle -> stopping_ w = true -> forall l, is_worker l = true -> step w l = None) /\
  (client w = Idle -> forall cb, thread_ w = Some (Returned, cb) ->
   (forall l, is_worker l = true -> step w l = None) /\ forall cb', step w (Start cb') = Some w).
Proof.
  intros (H1 & H2 & H3)%reachable_inv. split_and!.
  - intros Hc cb Ht. unfold step, wake_up. rewrite Ht, (H3 cb) by done. rewrite H2 by congruence. done.
  - intros Hc Hs l. apply ended_quiet. left. auto.
  - intros Hc cb Ht. split; [intros l; apply ended_quiet; right; eauto|].
    intros cb'. unfold step, start. by rewrite Hc, Ht.
Qed.

(** Steps left until [stop] can join. *)
Definition worker_left (w : DashboardWorker) : nat :=
  match thread_ w with
  | Some (Refreshing, _) => 4
  | Some (Publishing _, _) => 3
  | Some (CallingBack, _) => 2
  | Some (Locking, _) | Some (Waiting, _) => 1
  | Some (Returned, _) | None => 0
  end.
Definition left (w : DashboardWorker) : nat :=
  worker_left w + match client w with Notifying => 1 | _ => 0 end.
(** Refreshes the worker can still begin to answer. *)
Definition refreshes_left (w : DashboardWorker) : nat :=
  match thread_ w with Some (Refreshing, _) => 1 | _ => 0 end.
Definition is_refresh (l : label) : bool := match l with RefreshReturns _ => true | _ => false end.
Definition refreshes (ls : list label) : nat := length (List.filter is_refresh ls).

Lemma stopping_step w l w' :
  stopping_ w = true -> client w <> Idle -> step w l = Some w' -> l <> StopJoin ->
  stopping_ w' = true /\ client w' <> Idle /\ (S (left w') <= left w)%nat /\
  (refreshes_left w' + (if is_refresh l then 1 else 0) <= refreshes_left w)%nat.
Proof.
  intros Hs Hc H Hl. unfold left, worker_left, refreshes_left.
  destruct w as [snap thread stopping note c], l; unfold step in H; cbn in *;
    unfold stop_notify, enter_wait, wake_up, set_pc in H; cbn in H;
    repeat (case_match; simplify_eq/=); try done; (split_and!; [done|done|lia|lia]).
Qed.

Lemma stopping_run w ls w' :
  stopping_ w = true -> client w <> Idle -> run w ls = Some w' -> StopJoin ∉ ls ->
  (length ls <= left w)%nat /\ (refreshes ls <= refreshes_left w)%nat /\ client w' <> Idle.
Proof.
  revert w. induction ls as [|l ls IH]; intros w Hs Hc; simpl.
  - intros [= <-] _. unfold refreshes. simpl. split_and!; [lia|lia|done].
  - destruct (step w l) as [w1|] eqn:E; [|done]. intros Hr [Hl Hls]%not_elem_of_cons.
    destruct (stopping_step w l w1 Hs Hc E) as (Hs1 & Hc1 & Hleft & Href); [congruence|].
    destruct (IH w1 Hs1 Hc1 Hr Hls) as (H1 & H2 & H3).
    unfold refreshes in *. simpl. destruct (is_refresh l); simpl; split_and!; lia || done.
Qed.

(** Steps that do not depend on a time-out or on luck. *)
Definition prompt (l : label) : bool :=
  match l with WakeUp TimedOut | WakeUp Spurious => false | _ => true end.

Lemma stop_enabled w :
  reachable w -> client w <> Idle -> exists l w', prompt l = true /\ step w l = Some w'.
Proof.
  intros (H1 & H2 & H3)%reachable_inv Hc. specialize (H2 Hc).
  destruct w as [snap thread stopping note c]; cbn in *. subst stopping. destruct c; [done| |].
  - exists StopNotify. eexists. split; [done|]. reflexivity.
  - destruct thread as [[[| | | | |] cb]|].
    + exists (RefreshReturns default_DashboardSnapshot). by eexists.
    + exists Publish. by eexists.
    + exists CallbackReturns. by eexists.
    + exists EnterWait. by eexists.
    + exists (WakeUp Notification). rewrite (H3 cb) by done. by eexists.
    + exists StopJoin. by eexists.
    + exists StopJoin. by eexists.
Qed.

(** C40. [stop] ends: from every reachable state in which it is under way, however
the scheduler interleaves the threads, at most five more steps are taken before
the join and at most one of them is a refresh; until the join some step is always
possible that waits for no time-out; so the client is delayed by one refresh and
one callback at most. *)
Theorem stop_completes w ls w' :
  reachable w -> client w <> Idle -> run w ls = Some w' -> StopJoin ∉ ls ->
  (length ls <= 5)%nat /\ (refreshes ls <= 1)%nat /\
  exists l w'', prompt l = true /\ step w' l = Some w''.
Proof.
  intros Hw Hc Hr Hj. assert (Hinv := reachable_inv w Hw). destruct Hinv as (_ & H2 & _).
  destruct (stopping_run w ls w' (H2 Hc) Hc Hr Hj) as (Hlen & Href & Hc').
  split_and!.
  - unfold left, worker_left in Hlen. repeat case_match; lia.
  - unfold refreshes_left in Href. repeat case_match; lia.
  - apply stop_enabled; [by eapply run_reachable|done].
Qed.

Lemma stop_completes_witness :
  exists w w', run initial [Start true; RefreshReturns default_DashboardSnapshot; Publish;
                            CallbackReturns; EnterWait; WakeUp TimedOut; StopFlag] = Some w /\
    run w [StopNotify; RefreshReturns default_DashboardSnapshot; Publish; CallbackThrows] = Some w' /\
    exists l w'', prompt l = true /\ step w' l = Some w''.
Proof.
  eexists _, _. split; [reflexivity|]. split; [reflexivity|].
  eapply (stop_completes _ [StopNotify; RefreshReturns default_DashboardSnapshot; Publish; CallbackThrows]).
  - eapply (run_reachable initial [Start true; RefreshReturns default_DashboardSnapshot; Publish;
                            CallbackReturns; EnterWait; WakeUp TimedOut; StopFlag]);
      [constructor|reflexivity].
  - discriminate.
  - reflexivity.
  - intros H. repeat (apply elem_of_cons in H as [?|H]; [discriminate|]). by apply elem_of_nil in H.
Defined.

Lemma stop_is_final_witness :
  exists w, run initial [Start false; RefreshReturns default_DashboardSnapshot; Publish; EnterWait;
                         StopFlag; StopNotify] = Some w /\
    step w (WakeUp Notification) = Some (set_pc Returned false w).
Proof.
  eexists. split; [reflexivity|].
  eapply stop_is_final; [|reflexivity|reflexivity].
  eapply (run_reachable initial [Start false; RefreshReturns default_DashboardSnapshot; Publish;
                                 EnterWait; StopFlag; StopNotify]); [constructor|reflexivity].
Defined.

(** ** What the presentation thread sees *)

(** The snapshots the refreshes of a run returned, in order. *)
Definition result_of (l : label) : option DashboardSnapshot :=
  match l with RefreshReturns next => Some next | _ => None end.
Definition results (ls : list label) : list DashboardSnapshot := omap result_of ls.
Definition pending (w : DashboardWorker) : list DashboardSnapshot :=
  match thread_ w with Some (Publishing next, _) => [next] | _ => [] end.

Lemma latest_step w l w' :
  step w l = Some w' ->
  exists published, pending w ++ option_list (result_of l) = published ++ pending w' /\
    snapshot_ w' = match last published with Some s => Some s | None => snapshot_ w end.
Proof.
  intros H.
  destruct w as [snap thread stopping note c], l; unfold step in H; cbn in *;
    unfold start, stop_flag, stop_notify, stop_join, enter_wait, wake_up, set_pc in H; cbn in H;
    unfold pending; repeat (case_match; simplify_eq/=); try done;
    first [by exists [] | by eexists [_] | by eexists].
Qed.

(** [snapshot] returns the latest result of a refresh that was published:
the results of the refreshes are published one by one in their order, nothing
else is ever seen, and a refresh or a callback that throws leaves the last one in
place. *)
Theorem snapshot_latest ls w :
  run initial ls = Some w ->
  exists published, results ls = published ++ pending w /\ snapshot w = last published.
Proof.
  unfold snapshot. revert w. induction ls as [|l ls IH] using rev_ind; intros w.
  - intros [= <-]. by exists [].
  - rewrite run_app. destruct (run initial ls) as [w1|] eqn:E; [|done]. simpl.
    destruct (step w1 l) as [w2|] eqn:Es; [|done]. intros [= <-].
    destruct (IH w1 eq_refl) as (pub & Hpub & Hsnap).
    destruct (latest_step w1 l w2 Es) as (new & Hnew & Hsnap2).
    exists (pub ++ new). unfold results in *. rewrite omap_app, Hpub. simpl. split.
    + rewrite <- !app_assoc, <- Hnew. by destruct (result_of l).
    + rewrite last_app, Hsnap2, Hsnap. by destruct (last new).
Qed.

Lemma snapshot_latest_witness :
  exists w, run initial [Start false; RefreshReturns default_DashboardSnapshot; Publish; EnterWait;
                         WakeUp TimedOut; RefreshThrows; Snapshot] = Some w /\
    exists published, [default_DashboardSnapshot] = published ++ pending w /\
      snapshot w = last published.
Proof.
  eexists. split; [reflexivity|].
  apply (snapshot_latest [Start false; RefreshReturns default_DashboardSnapshot; Publish; EnterWait;
                         WakeUp TimedOut; RefreshThrows; Snapshot]). reflexivity.
Defined.
