(* ===== verification/DoctorService.v ===== *)
(** * [application::DoctorService] ([src/application/DoctorService.cpp])

The report of what the program can do on this host: one check per provider, each
from one probe; a provider that fails makes its own check fail only. *)

From S2P Require Import Prelude CppStd CppString Prog Domain Contracts Sim.

Definition foundation : CapabilityCheck :=
  mkCapabilityCheck $"Project foundation" Available
    $"C++17 application and test infrastructure are ready".

Definition check_of {A} (name detail : str) (probe : Result A) : CapabilityCheck :=
  match probe with
  | Success _ => mkCapabilityCheck name Available detail
  | Failure error => mkCapabilityCheck name CapUnavailable (err_message error)
  end.

Definition signal_check (capabilities : SignalCapabilities) : CapabilityCheck :=
  if signalingAvailable capabilities then
    mkCapabilityCheck $"Process signals" Available
      (if pidFdAvailable capabilities then $"Process signaling uses pidfd when possible"
       else $"Process signaling uses kill(2) fallback")
  else mkCapabilityCheck $"Process signals" CapUnavailable $"Process signaling is unavailable".

Definition inspect : prog provE DoctorReport :=
  self <- trigger GetPid ;;
  process <- trigger (ProcessProvider_get self) ;;
  sockets <- trigger (SocketProvider_query (mkSocketQuery None (Some Tcp) true)) ;;
  signalCapabilities <- trigger SignalProvider_capabilities ;;
  systemd <- trigger ServiceProvider_probe ;;
  journal <- trigger JournalProvider_probe ;;
  Ret (mkDoctorReport
    [foundation;
     check_of $"Process API" $"ProcFS process inspection is available" process;
     check_of $"Socket API" $"INET_DIAG socket inspection is available" sockets;
     signal_check signalCapabilities;
     check_of $"systemd" $"systemd service management is available" systemd;
     check_of $"Journal" $"Local journal queries are available" journal]).

(** ** Property *)

(** The doctor reports always the same six capabilities in the same order,
never as not implemented; each depends on the probe of its own subsystem only,
is available exactly when that probe succeeded, and otherwise shows the probe's
error message; probing changes nothing. *)
Theorem doctor_report tr report :
  runs inspect tr report ->
  (signals tr = [] /\ jobs tr = []) /\
  map cap_name (checks report) =
    [$"Project foundation"; $"Process API"; $"Socket API"; $"Process signals"; $"systemd"; $"Journal"] /\
  Forall (fun c => cap_status c <> NotImplemented) (checks report) /\
  exists self process sockets capabilities systemd journal,
    tr = [Ev GetPid self; Ev (ProcessProvider_get self) process;
          Ev (SocketProvider_query (mkSocketQuery None (Some Tcp) true)) sockets;
          Ev SignalProvider_capabilities capabilities; Ev ServiceProvider_probe systemd;
          Ev JournalProvider_probe journal] /\
    map (fun c => bool_decide (cap_status c = Available)) (checks report) =
      [true; hasValue process; hasValue sockets; signalingAvailable capabilities;
       hasValue systemd; hasValue journal] /\
    (forall e, systemd = Failure e -> map cap_detail (drop 4 (take 5 (checks report))) = [err_message e]) /\
    (forall e, journal = Failure e -> map cap_detail (drop 5 (checks report)) = [err_message e]).
Proof.
  intros (self & t1 & -> & p & t2 & -> & s & t3 & -> & c & t4 & -> & sd & t5 & -> & j & t6 & -> & -> & ->).
  split; [done|]. unfold checks, check_of, signal_check. split_and!.
  - destruct p, s, (signalingAvailable c), sd, j; reflexivity.
  - repeat constructor; unfold foundation; simpl; repeat case_match; done.
  - exists self, p, s, c, sd, j. split_and!; [done| | |].
    + destruct p, s, (signalingAvailable c), sd, j; reflexivity.
    + by intros e ->.
    + by intros e ->.
Qed.

Lemma doctor_report_witness :
  map cap_name (checks (result inspect sim_machine)) =
    [$"Project foundation"; $"Process API"; $"Socket API"; $"Process signals"; $"systemd"; $"Journal"].
Proof. apply (doctor_report (calls inspect sim_machine)). apply sim_runs. Defined.
