(* ===== verification/SystemdJournalProvider.v ===== *)
(** * The journal adapter ([src/linux/systemd/])

[JournalFieldParser] and [SystemdJournalProvider]: reading an entry of the
journal, the two queries (the last entries, the entries since a time) and
following.  One constructor of [journalE] per function of libsystemd the code
calls, and one for each of the two callbacks of [follow]; an operation works on
one journal handle, which its scope closes. *)

From S2P Require Import Prelude CppStd CppString Prog Domain OsCalls.
From Stdlib Require Import Ascii.

Variant journalE : Type -> Type :=
| JournalOpen : journalE (Z * option Z)          (* sd_journal_open: status, handle *)
| JournalClose (journal : option Z) : journalE unit
| SetDataThreshold (size : Z) : journalE Z
| AddMatch (match_ : str) : journalE Z
| SeekTail : journalE Z
| SeekRealtimeUsec (usec : Z) : journalE Z
| SeekCursor (cursor : str) : journalE Z
| Next : journalE Z
| Previous : journalE Z
| JournalWait (usec : Z) : journalE Z
| GetRealtimeUsec : journalE (Z * Z)
| GetCursor : journalE (Z * option str)          (* None: the null pointer *)
| GetData (field : str) : journalE (Z * option str)
| Sink (entry : Observation JournalEntry) : journalE (Result unit)
| StopRequested : journalE bool
(* behaviour the language leaves undefined; a loop that goes on for ever *)
| JournalUndefined : journalE Empty_set
| JournalForever : journalE Empty_set.

Definition undefined {A} : prog journalE A :=
  Vis JournalUndefined (fun e : Empty_set => match e with end).
Definition journal_forever {A} : prog journalE A :=
  Vis JournalForever (fun e : Empty_set => match e with end).

Lemma runs_undefined {A} tr (a : A) : ~ runs undefined tr a.
Proof. by intros ([] & _). Qed.
Lemma runs_journal_forever {A} tr (a : A) : ~ runs journal_forever tr a.
Proof. by intros ([] & _). Qed.

Definition ETIMEDOUT : Z := 110.

(** ** JournalFieldParser.cpp *)

Record JournalFields := mkJournalFields {
  jf_timestampUsec : Z;
  jf_cursor : str;
  jf_systemdUnit : option str;
  jf_pid : option str;
  jf_command : option str;
  jf_message : option str;
  jf_priority : option str;
}.

Definition parseWarning (message operation : str) : Warning :=
  mkWarning ParseError message 0 $"sd-journal" operation.

(** [data] with its length; [None] is the null pointer. *)
Definition journalFieldValue (field : str) (data : option str) : Result str :=
  match data with
  | None => Failure (mkError ProtocolError $"Journal field has no data" 0 $"sd-journal" $"read field")
  | Some bytes =>
      if (length bytes <=? length field)%nat ||
         negb (bool_decide (take (length field) bytes = field)) ||
         negb (bool_decide (bytes !! length field = Some "="%char)) then
        Failure (mkError ProtocolError $"Journal field does not match the requested name" 0
                   $"sd-journal" $"read field")
      else Success (drop (length field + 1) bytes)
  end.

(** The value of an optional number, with the warning an invalid one leaves. *)
Definition entry_pid (pid : option str) : option Z * list Warning :=
  match pid with
  | None => (None, [])
  | Some text =>
      let parsed := from_chars_unsigned UINT64_MAX text 0 in
      if parsed_whole parsed text && (0 <? fc_value parsed) && (fc_value parsed <=? PID_MAX) then
        (Some (fc_value parsed), [])
      else (None, [parseWarning $"Journal entry contains an invalid _PID" $"parse PID"])
  end.

Definition entry_priority (priority : option str) : option Z * list Warning :=
  match priority with
  | None => (None, [])
  | Some text =>
      let parsed := from_chars_unsigned UINT32_MAX text 0 in
      if parsed_whole parsed text && (fc_value parsed <=? 7) then (Some (fc_value parsed), [])
      else (None, [parseWarning $"Journal entry contains an invalid PRIORITY" $"parse priority"])
  end.

(** The time point counts nanoseconds: [None] when the conversion of the
microseconds overflows the 64 bits of its count. *)
Definition journalEntryFromFields (fields : JournalFields) : option (Observation JournalEntry) :=
  timestamp ← int64 (jf_timestampUsec fields * 1000);
  let pid := entry_pid (jf_pid fields) in
  let priority := entry_priority (jf_priority fields) in
  Some (Observed
    (mkJournalEntry timestamp (jf_cursor fields) (jf_systemdUnit fields) pid.1
       (jf_command fields) (default [] (jf_message fields)) priority.1)
    (pid.2 ++ priority.2)).

(** ** SdJournal.cpp, SystemdJournalProvider.cpp *)

Section Provider.
Context {messages : Messages}.
(** How many turns of an endless loop count as endless. *)
Context (rounds : nat).

Definition openError (status : Z) : Error :=
  let number := Z.abs status in
  let code := if (number =? EACCES) || (number =? EPERM) then PermissionDenied else Unavailable in
  mkError code ($"Unable to open the local journal: " ++ system_message number) number
    $"sd-journal" $"open local journal".

Definition openLocal : prog journalE (Result (option Z)) :=
  opened <- trigger JournalOpen ;;
  if opened.1 <? 0 then trigger (JournalClose opened.2) ;; Ret (Failure (openError opened.1))
  else Ret (Success opened.2).

Definition journalDataThreshold : Z := 1024 * 1024.

Definition journal_code (number : Z) : ErrorCode :=
  if (number =? EACCES) || (number =? EPERM) then PermissionDenied
  else if number =? ENOENT then Unavailable
  else if number =? EINTR then Interrupted
  else if number =? ETIMEDOUT then Timeout else IoError.

Definition journalError (status : Z) (operation : str) : Error :=
  let number := Z.abs status in
  mkError (journal_code number) ($"Journal operation failed: " ++ system_message number) number
    $"sd-journal" operation.

(** A call whose negative status is an error of this operation. *)
Definition checked (call : journalE Z) (operation : str) : prog journalE (Result Z) :=
  status <- trigger call ;;
  Ret (if status <? 0 then Failure (journalError status operation) else Success status).

Definition addMatch (text : str) : prog journalE (Result unit) :=
  _ <-? checked (AddMatch (c_str text)) $"add match" ;; Ret (Success tt).

Definition configureJournal (query : LogQuery) : prog journalE (Result unit) :=
  if lq_limit query =? 0 then
    Ret (Failure (mkError InvalidArgument $"Journal limit must be greater than zero" 0
                    $"sd-journal" $"configure query"))
  else
    _ <-? checked (SetDataThreshold journalDataThreshold) $"set data threshold" ;;
    _ <-? match lq_unit query with
          | Some unit => addMatch ($"_SYSTEMD_UNIT=" ++ unit)
          | None => Ret (Success tt)
          end ;;
    match lq_pid query with
    | Some pid => addMatch ($"_PID=" ++ to_string pid)
    | None => Ret (Success tt)
    end.

Definition readField (field : str) : prog journalE (Result (option str)) :=
  answer <- trigger (GetData field) ;;
  Ret (if answer.1 =? - ENOENT then Success None
       else if answer.1 <? 0 then Failure (journalError answer.1 $"read field")
       else match journalFieldValue field answer.2 with
            | Failure error => Failure error
            | Success value => Success (Some value)
            end).

Definition missing_message : Warning :=
  mkWarning NotFound $"Journal entry has no MESSAGE field" 0 $"sd-journal" $"read entry".

(** The warning of an entry without a message. *)
Definition note_message (observed : Observation JournalEntry) : Observation JournalEntry :=
  match je_message (obs_value observed) with
  | [] => Observed (obs_value observed) (obs_warnings observed ++ [missing_message])
  | _ => observed
  end.

(** All five fields are read before the first failure is reported. *)
Definition readFields (timestampUsec : Z) (cursor : str) : prog journalE (Result JournalFields) :=
  unit <- readField $"_SYSTEMD_UNIT" ;;
  pid <- readField $"_PID" ;;
  command <- readField $"_COMM" ;;
  message <- readField $"MESSAGE" ;;
  priority <- readField $"PRIORITY" ;;
  Ret (let? unit := unit in let? pid := pid in let? command := command in
       let? message := message in let? priority := priority in
       Success (mkJournalFields timestampUsec cursor unit pid command message priority)).

Definition readCurrentEntry : prog journalE (Result (Observation JournalEntry)) :=
  timestamp <- trigger GetRealtimeUsec ;;
  if timestamp.1 <? 0 then Ret (Failure (journalError timestamp.1 $"read timestamp"))
  else if INT64_MAX <? timestamp.2 then
    Ret (Failure (mkError ParseError $"Journal timestamp is out of range" 0
                    $"sd-journal" $"read timestamp"))
  else
    cursor <- trigger GetCursor ;;
    if cursor.1 <? 0 then Ret (Failure (journalError cursor.1 $"read cursor"))
    else
      fields <-? readFields timestamp.2 (default [] cursor.2) ;;
      match journalEntryFromFields fields with
      | None => undefined
      | Some observed => Ret (Success (note_message observed))
      end.

Definition appendEntry (target : Observation (list JournalEntry)) (source : Observation JournalEntry) :
  Observation (list JournalEntry) :=
  Observed (obs_value target ++ [obs_value source]) (obs_warnings target ++ obs_warnings source).

(** Appending the entries of a sequence to an empty observation. *)
Definition appendEntries : list (Observation JournalEntry) -> Observation (list JournalEntry) :=
  foldl appendEntry (Observed [] []).

(** [reversed] holds the entries read so far, [missing] more are wanted. *)
Fixpoint tail_loop (missing : nat) (reversed : list (Observation JournalEntry)) :
  prog journalE (Result (list (Observation JournalEntry))) :=
  match missing with
  | O => Ret (Success reversed)
  | S missing' =>
      status <-? checked Previous $"read previous entry" ;;
      if status =? 0 then Ret (Success reversed)
      else entry <-? readCurrentEntry ;; tail_loop missing' (reversed ++ [entry])
  end.

Definition queryTail (limit : Z) : prog journalE (Result (Observation (list JournalEntry))) :=
  _ <-? checked SeekTail $"seek tail" ;;
  reversed <-? tail_loop (Z.to_nat limit) [] ;;
  Ret (Success (appendEntries (rev reversed))).

(** [window.push_back(entry); if (window.size() > limit) window.pop_front();] *)
Definition push_window (limit : Z) (window : list (Observation JournalEntry))
  (entry : Observation JournalEntry) : list (Observation JournalEntry) :=
  let window := window ++ [entry] in
  if limit <? Z.of_nat (length window) then tail window else window.

Fixpoint since_loop (fuel : nat) (limit : Z) (window : list (Observation JournalEntry)) :
  prog journalE (Result (list (Observation JournalEntry))) :=
  match fuel with
  | O => journal_forever
  | S fuel' =>
      status <-? checked Next $"read next entry" ;;
      if status =? 0 then Ret (Success window)
      else entry <-? readCurrentEntry ;; since_loop fuel' limit (push_window limit window entry)
  end.

(** [duration_cast] to microseconds truncates toward zero. *)
Definition querySince (since limit : Z) : prog journalE (Result (Observation (list JournalEntry))) :=
  let signedUsec := Z.quot since 1000 in
  if signedUsec <? 0 then
    Ret (Failure (mkError InvalidArgument $"Journal since time must not precede the Unix epoch" 0
                    $"sd-journal" $"seek time"))
  else
    _ <-? checked (SeekRealtimeUsec signedUsec) $"seek time" ;;
    window <-? since_loop rounds limit [] ;;
    Ret (Success (appendEntries window)).

Definition interrupted : Result unit :=
  Failure (mkError Interrupted $"Journal follow was interrupted" EINTR $"sd-journal" $"follow").

Definition positionAfterInitial (entries : list JournalEntry) : prog journalE (Result unit) :=
  match last entries with
  | None => _ <-? checked SeekTail $"seek tail" ;; Ret (Success tt)
  | Some entry =>
      _ <-? checked (SeekCursor (c_str (je_cursor entry))) $"seek initial cursor" ;;
      status <-? checked Next $"position after initial cursor" ;;
      Ret (if status =? 0 then
             Failure (mkError Conflict $"Initial journal cursor disappeared before follow" 0
                        $"sd-journal" $"follow")
           else Success tt)
  end.

(** The handle is closed when the scope of [body] ends. *)
Definition with_journal {A} (body : prog journalE (Result A)) : prog journalE (Result A) :=
  journal <-? openLocal ;;
  result <- body ;;
  trigger (JournalClose journal) ;;
  Ret result.

Definition probe : prog journalE (Result unit) := with_journal (Ret (Success tt)).

Definition initial_query (query : LogQuery) : prog journalE (Result (Observation (list JournalEntry))) :=
  match lq_since query with
  | Some since => querySince since (lq_limit query)
  | None => queryTail (lq_limit query)
  end.

Definition query_ (query : LogQuery) : prog journalE (Result (Observation (list JournalEntry))) :=
  with_journal (_ <-? configureJournal query ;; initial_query query).

(** The initial entries; the first carries the warnings of all. *)
Fixpoint send_initial (warnings : list Warning) (entries : list JournalEntry) :
  prog journalE (Result unit) :=
  match entries with
  | [] => Ret (Success tt)
  | entry :: entries' =>
      stop <- trigger StopRequested ;;
      if stop : bool then Ret interrupted
      else _ <-? trigger (Sink (Observed entry warnings)) ;; send_initial [] entries'
  end.

(** A negative status of a blocking call, while following. *)
Definition follow_error (status : Z) (operation : str) : prog journalE (Result unit) :=
  if status =? - EINTR then
    stop <- trigger StopRequested ;;
    Ret (if stop : bool then interrupted else Failure (journalError status operation))
  else Ret (Failure (journalError status operation)).

(** The inner loop: [None] when it breaks at the end of the journal. *)
Fixpoint drain (fuel : nat) : prog journalE (option (Result unit)) :=
  match fuel with
  | O => journal_forever
  | S fuel' =>
      status <- trigger Next ;;
      if status <? 0 then result <- follow_error status $"read followed entry" ;; Ret (Some result)
      else if status =? 0 then Ret None
      else
        entry <- readCurrentEntry ;;
        match entry with
        | Failure error => Ret (Some (Failure error))
        | Success entry =>
            accepted <- trigger (Sink entry) ;;
            match accepted with
            | Failure error => Ret (Some (Failure error))
            | Success _ =>
                stop <- trigger StopRequested ;;
                if stop : bool then Ret (Some interrupted) else drain fuel'
            end
        end
  end.

Definition waitUsec : Z := 1000000.

Fixpoint follow_loop (fuel : nat) : prog journalE (Result unit) :=
  match fuel with
  | O => journal_forever
  | S fuel' =>
      stop <- trigger StopRequested ;;
      if stop : bool then Ret interrupted
      else
        drained <- drain rounds ;;
        match drained with
        | Some result => Ret result
        | None =>
            waited <- trigger (JournalWait waitUsec) ;;
            if waited <? 0 then follow_error waited $"wait for journal entries"
            else follow_loop fuel'
        end
  end.

(** [has_sink] and [has_stop]: the callbacks are not empty. *)
Definition follow (has_sink has_stop : bool) (query : LogQuery) : prog journalE (Result unit) :=
  if negb has_sink || negb has_stop then
    Ret (Failure (mkError InvalidArgument $"Journal follow requires a sink and stop predicate" 0
                    $"sd-journal" $"follow"))
  else
    with_journal
      (_ <-? configureJournal query ;;
       initial <-? initial_query query ;;
       _ <-? positionAfterInitial (obs_value initial) ;;
       _ <-? send_initial (obs_warnings initial) (obs_value initial) ;;
       follow_loop rounds).
End Provider.

(** ** Facts *)

(** A decimal text of a value between [lo] and [hi]. *)
Definition number_text (lo hi : Z) (text : str) : Prop :=
  is_decimal text /\ lo <= dec_value text <= hi.

Lemma whole_iff max text :
  parsed_whole (from_chars_unsigned max text 0) text = true <-> number_text 0 max text.
Proof.
  unfold number_text. rewrite from_chars_unsigned_whole. split; [|tauto].
  intros [Hd Hm]. split; [done|]. split; [|done]. apply dec_value_nonneg, Hd.
Qed.

Lemma entry_pid_spec text :
  (number_text 1 PID_MAX text -> entry_pid (Some text) = (Some (dec_value text), [])) /\
  (~ number_text 1 PID_MAX text ->
   entry_pid (Some text) = (None, [parseWarning $"Journal entry contains an invalid _PID" $"parse PID"])).
Proof.
  unfold entry_pid. destruct (parsed_whole _ _) eqn:Hw.
  - rewrite (from_chars_unsigned_value _ _ _ Hw). apply whole_iff in Hw as [Hd Hr].
    unfold number_text. destruct (_ && _) eqn:E; bool_facts.
    + split; [done|]. intros []. split; [done|lia].
    + split; [|done]. intros [_ Hr']. destruct E; bool_facts; lia.
  - split; [|done]. intros [Hd Hr]. exfalso.
    assert (parsed_whole (from_chars_unsigned UINT64_MAX text 0) text = true); [|congruence].
    apply whole_iff. split; [done|]. unfold PID_MAX, UINT64_MAX in *. lia.
Qed.

Lemma entry_priority_spec text :
  (number_text 0 7 text -> entry_priority (Some text) = (Some (dec_value text), [])) /\
  (~ number_text 0 7 text ->
   entry_priority (Some text) =
     (None, [parseWarning $"Journal entry contains an invalid PRIORITY" $"parse priority"])).
Proof.
  unfold entry_priority. destruct (parsed_whole _ _) eqn:Hw.
  - rewrite (from_chars_unsigned_value _ _ _ Hw). apply whole_iff in Hw as [Hd Hr].
    unfold number_text. destruct (_ <=? 7) eqn:E; simpl; bool_facts.
    + split; [done|]. intros []. split; [done|lia].
    + split; [|done]. intros [_ Hr']. lia.
  - split; [|done]. intros [Hd Hr]. exfalso.
    assert (parsed_whole (from_chars_unsigned UINT32_MAX text 0) text = true); [|congruence].
    apply whole_iff. split; [done|]. unfold UINT32_MAX in *. lia.
Qed.

(** What an entry shows for an optional number of a range, and the warning. *)
Definition shows_number (lo hi : Z) (text : option str) (value : option Z) (warning : Warning)
  (warnings : list Warning) : Prop :=
  match text with
  | None => value = None /\ warnings = []
  | Some text =>
      (number_text lo hi text /\ value = Some (dec_value text) /\ warnings = []) \/
      (~ number_text lo hi text /\ value = None /\ warnings = [warning])
  end.

#[export] Instance number_text_dec lo hi text : Decision (number_text lo hi text).
Proof.
  refine (cast_if (decide (text <> [] /\ Forall (fun c => is_digit c = true) text /\
    lo <= dec_value text <= hi))); unfold number_text, is_decimal; rewrite Forall_forall in *; tauto.
Defined.

(** C39. The fields of an entry are shown faithfully: the texts as they are, the
process and the priority exactly when they are decimal numbers between 1 and the
greatest PID and between 0 and 7 (otherwise a warning says which is invalid), the
time in nanoseconds; but only while the nanoseconds fit in 64 bits.  The guard of
the time lets through 292 thousand years of microseconds, a thousand times more
than fit: reading such an entry has no defined result. *)
Theorem entry_shows_fields fields :
  0 <= jf_timestampUsec fields <= INT64_MAX ->
  (jf_timestampUsec fields <= INT64_MAX / 1000 ->
   exists pid priority ws1 ws2,
     journalEntryFromFields fields =
       Some (Observed (mkJournalEntry (jf_timestampUsec fields * 1000) (jf_cursor fields)
               (jf_systemdUnit fields) pid (jf_command fields) (default [] (jf_message fields)) priority)
               (ws1 ++ ws2)) /\
     shows_number 1 PID_MAX (jf_pid fields) pid
       (parseWarning $"Journal entry contains an invalid _PID" $"parse PID") ws1 /\
     shows_number 0 7 (jf_priority fields) priority
       (parseWarning $"Journal entry contains an invalid PRIORITY" $"parse priority") ws2) /\
  (INT64_MAX / 1000 < jf_timestampUsec fields ->
   forall (messages : Messages),
   waits_at (fun X e => match e with JournalUndefined => True | _ => False end) readCurrentEntry
     [Ev GetRealtimeUsec (0, jf_timestampUsec fields); Ev GetCursor (0, None);
      Ev (GetData $"_SYSTEMD_UNIT") (- ENOENT, None); Ev (GetData $"_PID") (- ENOENT, None);
      Ev (GetData $"_COMM") (- ENOENT, None); Ev (GetData $"MESSAGE") (- ENOENT, None);
      Ev (GetData $"PRIORITY") (- ENOENT, None)]).
Proof.
  intros Ht. split.
  - intros Hle. exists (entry_pid (jf_pid fields)).1, (entry_priority (jf_priority fields)).1,
      (entry_pid (jf_pid fields)).2, (entry_priority (jf_priority fields)).2.
    split_and!.
    + unfold journalEntryFromFields.
      rewrite (proj2 (int64_Some _ (jf_timestampUsec fields * 1000))); [done|].
      unfold INT64_MIN, INT64_MAX in *. split; [done|].
      assert (1000 * (((2 ^ 63 - 1) / 1000)) <= 2 ^ 63 - 1) by (apply Z.mul_div_le; lia). lia.
    + unfold shows_number. destruct (jf_pid fields) as [text|]; [|done].
      destruct (entry_pid_spec text) as [Hyes Hno].
      destruct (decide (number_text 1 PID_MAX text)) as [H|H]; [left; by rewrite Hyes|right; by rewrite Hno].
    + unfold shows_number. destruct (jf_priority fields) as [text|]; [|done].
      destruct (entry_priority_spec text) as [Hyes Hno].
      destruct (decide (number_text 0 7 text)) as [H|H]; [left; by rewrite Hyes|right; by rewrite Hno].
  - intros Hlt messages.
    assert (E1 : int64 (jf_timestampUsec fields * 1000) = None).
    { apply int64_None. unfold INT64_MIN, INT64_MAX in *.
      assert ((2 ^ 63 - 1) < 1000 * Z.succ ((2 ^ 63 - 1) / 1000)) by (apply Z.mul_succ_div_gt; lia). lia. }
    assert (E2 : (INT64_MAX <? jf_timestampUsec fields) = false) by (apply Z.ltb_ge; lia).
    right. exists (0, jf_timestampUsec fields). eexists. split; [done|].
    cbn -[INT64_MAX Z.ltb]. rewrite E2. change (0 <? 0) with false. cbv iota.
    do 6 (right; eexists _, _; split; [reflexivity|]; cbn -[int64 Z.mul]).
    rewrite !(Z.eqb_refl (- ENOENT)). cbn -[int64 Z.mul]. unfold journalEntryFromFields.
    cbn -[int64 Z.mul]. rewrite E1. simpl. by left.
Qed.

Lemma entry_shows_fields_witness :
  exists o, journalEntryFromFields
              (mkJournalFields 1700000000000000 $"c" (Some $"web.service") (Some $"300") None
                 (Some $"ready") (Some $"9")) = Some o /\
    je_pid (obs_value o) = Some 300 /\ je_priority (obs_value o) = None /\
    length (obs_warnings o) = 1%nat.
Proof.
  destruct (entry_shows_fields
              (mkJournalFields 1700000000000000 $"c" (Some $"web.service") (Some $"300") None
                 (Some $"ready") (Some $"9"))) as [H _]; [vm_compute; split; congruence|].
  destruct H as (pid & priority & ws1 & ws2 & E & Hp & Hq); [vm_compute; congruence|].
  eexists. split; [exact E|]. cbn [obs_value je_pid je_priority obs_warnings].
  destruct Hp as [(_ & -> & ->)|[Hno _]].
  2:{ exfalso. apply Hno. apply (bool_decide_unpack _). by vm_compute. }
  destruct Hq as [[Hno _]|(_ & -> & ->)]; [|split_and!; by vm_compute].
  exfalso. apply (bool_decide_pack _) in Hno. by vm_compute in Hno.
Defined.
