(* ===== verification/JournalSpec.v ===== *)
(** * What the journal shows

An abstract journal, an append-only list of entries, with the documented
behaviour of the libsystemd functions on it ([serve]: matches select a view, a
position moves over the view, the data calls read the current entry); and the
refinement: a query of the adapter is the selection of the last matching entries
of the journal as it was at some moment of the run, and following hands over one
gapless stretch of it. *)

From S2P Require Import Prelude CppStd CppString Prog Domain OsCalls SystemdJournalProvider.
From Stdlib Require Import Ascii.

(** ** The abstract journal *)

Record raw_entry := mkRaw { re_usec : Z; re_cursor : str; re_fields : list (str * str) }.

Definition field_value (field : str) (e : raw_entry) : option str :=
  snd <$> List.find (fun f => bool_decide (f.1 = field)) (re_fields e).

Definition fields_of (e : raw_entry) : JournalFields :=
  mkJournalFields (re_usec e) (re_cursor e) (field_value $"_SYSTEMD_UNIT" e)
    (field_value $"_PID" e) (field_value $"_COMM" e) (field_value $"MESSAGE" e)
    (field_value $"PRIORITY" e).

(** An entry as LX shows it; [None] when its time does not fit. *)
Definition decode (e : raw_entry) : option (Observation JournalEntry) :=
  note_message <$> journalEntryFromFields (fields_of e).

Definition holds (e : raw_entry) (m : str) : bool :=
  existsb (fun f => bool_decide (f.1 ++ "="%char :: f.2 = m)) (re_fields e).
(** The entries that satisfy every match. *)
Definition view (matches : list str) (J : list raw_entry) : list raw_entry :=
  List.filter (fun e => forallb (holds e) matches) J.

(** The first entry not before [t]. *)
Fixpoint first_at (t : Z) (V : list raw_entry) : option nat :=
  match V with
  | [] => None
  | e :: V' => if t <=? re_usec e then Some O else S <$> first_at t V'
  end.
Fixpoint since (t : Z) (V : list raw_entry) : list raw_entry :=
  match V with
  | [] => []
  | e :: V' => if t <=? re_usec e then V else since t V'
  end.
Fixpoint cursor_index (cursor : str) (V : list raw_entry) : option nat :=
  match V with
  | [] => None
  | e :: V' => if bool_decide (re_cursor e = cursor) then Some O else S <$> cursor_index cursor V'
  end.

Definition last_n {A} (n : nat) (l : list A) : list A := drop (length l - n) l.

Definition matches_of (q : LogQuery) : list str :=
  match lq_unit q with Some unit => [c_str ($"_SYSTEMD_UNIT=" ++ unit)] | None => [] end ++
  match lq_pid q with Some pid => [c_str ($"_PID=" ++ to_string pid)] | None => [] end.

(** What a query asks of a journal. *)
Definition selected (q : LogQuery) (J : list raw_entry) : list raw_entry :=
  let V := view (matches_of q) J in
  last_n (Z.to_nat (lq_limit q))
    match lq_since q with Some t => since (Z.quot t 1000) V | None => V end.

(** ** The documented behaviour of the calls *)

(** After a seek nothing is read yet: at the tail, when it had [n] entries, from a time on,
or before the entry of an index. *)
Inductive position := Tail (n : nat) | From (t : Z) | Before (k : nat) | On (k : nat).
Record handle := mkHandle { h_matches : list str; h_position : position }.

Definition next_of (V : list raw_entry) (p : position) : option nat :=
  match p with
  | From t => first_at t V
  | Tail k | Before k => if decide (k < length V)%nat then Some k else None
  | On k => if decide (S k < length V)%nat then Some (S k) else None
  end.
Definition previous_of (V : list raw_entry) (p : position) : option nat :=
  match p with
  | Tail _ => match length V with O => None | S n => Some n end
  | From _ => None
  | Before k | On k => match k with O => None | S n => Some n end
  end.
Definition current (V : list raw_entry) (p : position) : option raw_entry :=
  match p with On k => V !! k | _ => None end.

(** A status: an error leaves the handle alone. *)
Definition on_status (status : Z) (h h' : handle) : option handle :=
  Some (if status <? 0 then h else h').
Definition move (status : Z) (h : handle) (target : option nat) : option handle :=
  if status <? 0 then Some h
  else match target with
       | None => if status =? 0 then Some h else None
       | Some k => if status =? 0 then None else Some (mkHandle (h_matches h) (On k))
       end.
(** Moving on from the tail shows the entries that arrived since, or nothing. *)
Definition unread_tail (h : handle) : bool := match h_position h with Tail _ => true | _ => false end.
Definition agrees (h : handle) (b : bool) : option handle := if b then Some h else None.

(** The handle after a call, [None] when the answer is not the documented one. *)
Definition serve (J : list raw_entry) (h : handle) (ev : event journalE) : option handle :=
  let V := view (h_matches h) J in
  let seek p := mkHandle (h_matches h) p in
  match ev with
  | Ev e x =>
      match e in journalE X return X -> option handle with
      | JournalOpen => fun a => on_status a.1 h (mkHandle [] (Before 0))
      | AddMatch m => fun s => on_status s h (mkHandle (h_matches h ++ [m]) (h_position h))
      | SeekTail => fun s => on_status s h (seek (Tail (length V)))
      | SeekRealtimeUsec t => fun s => on_status s h (seek (From t))
      | SeekCursor c => fun s =>
          on_status s h (seek (match cursor_index c V with Some k => Before k | None => Tail (length V) end))
      | Next => fun s =>
          if unread_tail h && (s =? 0) then Some h else move s h (next_of V (h_position h))
      | Previous => fun s => move s h (previous_of V (h_position h))
      | GetRealtimeUsec => fun a =>
          agrees h ((a.1 <? 0) ||
            bool_decide (re_usec <$> current V (h_position h) = Some a.2))
      | GetCursor => fun a =>
          agrees h ((a.1 <? 0) ||
            match current V (h_position h) with
            | Some e => bool_decide (a.2 = Some (re_cursor e))
            | None => false
            end)
      | GetData f => fun a =>
          agrees h
            match current V (h_position h) with
            | Some e =>
                match field_value f e with
                | Some v => ((a.1 <? 0) && negb (a.1 =? - ENOENT)) ||
                            ((0 <=? a.1) && bool_decide (a.2 = Some (f ++ "="%char :: v)))
                | None => a.1 <? 0
                end
            | None => false
            end
      | _ => fun _ => Some h
      end x
  end.

(** A run against a journal that may grow at any moment. *)
Inductive served : list raw_entry -> handle -> trace journalE -> list raw_entry -> handle -> Prop :=
| served_nil J h : served J h [] J h
| served_grow J new h tr J' h' : served (J ++ new) h tr J' h' -> served J h tr J' h'
| served_call J h ev h1 tr J' h' :
  serve J h ev = Some h1 -> served J h1 tr J' h' -> served J h (ev :: tr) J' h'.

(** The entries handed to the sink. *)
Definition sunk_of (ev : event journalE) : option JournalEntry :=
  match ev with
  | Ev e _ => match e with Sink entry => Some (obs_value entry) | _ => None end
  end.
Definition sunk (tr : trace journalE) : list JournalEntry := omap sunk_of tr.

(** ** Growing journals *)

(** Chains of growing journals. *)
Ltac growing :=
  first
    [ assumption
    | reflexivity
    | match goal with H : ?J `prefix_of` ?K |- ?J `prefix_of` _ => transitivity K; [exact H | growing] end ].

Lemma view_app ms J K : view ms (J ++ K) = view ms J ++ view ms K.
Proof. apply List.filter_app. Qed.

Lemma view_prefix ms J J' : J `prefix_of` J' -> view ms J `prefix_of` view ms J'.
Proof. intros [K ->]. rewrite view_app. by exists (view ms K). Qed.

Lemma first_at_app t V W i : first_at t V = Some i -> first_at t (V ++ W) = Some i.
Proof.
  revert i. induction V as [|e V IH]; intros i; simpl; [done|]. destruct (_ <=? _); [done|].
  destruct (first_at t V) as [j|]; [|done]. intros [= <-]. by rewrite (IH j).
Qed.

Lemma first_at_since t V :
  since t V = match first_at t V with Some i => drop i V | None => [] end.
Proof.
  induction V as [|e V IH]; simpl; [done|]. destruct (_ <=? _); [done|].
  rewrite IH. by destruct (first_at t V).
Qed.

Lemma first_at_lt t V i : first_at t V = Some i -> (i < length V)%nat.
Proof.
  revert i. induction V as [|e V IH]; intros i; simpl; [done|]. destruct (_ <=? _).
  - intros [= <-]. lia.
  - destruct (first_at t V) as [j|]; [|done]. intros [= <-]. specialize (IH j eq_refl). lia.
Qed.

Lemma served_prefix J h tr J' h' : served J h tr J' h' -> J `prefix_of` J'.
Proof.
  induction 1 as [|J new h tr J' h' _ IH|]; [done| |done].
  etransitivity; [|exact IH]. by exists new.
Qed.

Lemma served_nil_inv J h J' h' : served J h [] J' h' -> h' = h /\ J `prefix_of` J'.
Proof.
  intros H. split; [|by eapply served_prefix]. remember [] as tr eqn:E. by induction H; auto.
Qed.

Lemma served_app J h tr1 tr2 J' h' :
  served J h (tr1 ++ tr2) J' h' ->
  exists J1 h1, served J h tr1 J1 h1 /\ served J1 h1 tr2 J' h'.
Proof.
  intros H. remember (tr1 ++ tr2) as tr eqn:E. revert tr1 E.
  induction H as [J h|J new h tr J' h' _ IH|J h ev h1 tr J' h' Hs Hr IH]; intros tr1 E.
  - symmetry in E. apply app_nil in E as [-> ->]. exists J, h. split; constructor.
  - destruct (IH tr1 E) as (J1 & h1 & H1 & H2). exists J1, h1. split; [by econstructor|done].
  - destruct tr1 as [|ev' tr1]; simpl in E.
    + subst tr2. exists J, h. split; [constructor|]. by econstructor.
    + injection E as <- ->. destruct (IH tr1 eq_refl) as (J1 & h2 & H1 & H2).
      exists J1, h2. split; [by econstructor|done].
Qed.

Lemma served_trans J h tr1 J1 h1 tr2 J' h' :
  served J h tr1 J1 h1 -> served J1 h1 tr2 J' h' -> served J h (tr1 ++ tr2) J' h'.
Proof. induction 1; intros H2; [done|eapply served_grow; eauto|eapply served_call; eauto]. Qed.

Lemma served_event J h ev J' h' :
  served J h [ev] J' h' ->
  exists J1, J `prefix_of` J1 /\ serve J1 h ev = Some h' /\ J1 `prefix_of` J'.
Proof.
  intros H. remember [ev] as tr eqn:E. induction H as [|J new h tr J' h' _ IH|J h ev' h1 tr J' h' Hs Hr].
  - done.
  - destruct (IH E) as (J1 & H1 & H2 & H3). exists J1. split_and!; [|done..].
    etransitivity; [|exact H1]. by exists new.
  - injection E as -> ->. apply served_nil_inv in Hr as [-> Hp]. by exists J.
Qed.

(** A run of a program on a served journal. *)
Definition goes {A} (J : list raw_entry) (h : handle) (t : prog journalE A) (tr : trace journalE)
  (a : A) (J' : list raw_entry) (h' : handle) : Prop :=
  runs t tr a /\ served J h tr J' h'.

Lemma goes_prefix {A} J h (t : prog journalE A) tr a J' h' :
  goes J h t tr a J' h' -> J `prefix_of` J'.
Proof. intros [_ H]. by eapply served_prefix. Qed.

Lemma goes_ret {A} J h (a b : A) tr J' h' :
  goes J h (Ret a) tr b J' h' -> tr = [] /\ b = a /\ h' = h /\ J `prefix_of` J'.
Proof. intros [[-> ->] Hs]. apply served_nil_inv in Hs as [-> Hp]. done. Qed.

Lemma goes_trigger {X} J h (e : journalE X) tr x J' h' :
  goes J h (trigger e) tr x J' h' ->
  tr = [Ev e x] /\ exists J1, J `prefix_of` J1 /\ serve J1 h (Ev e x) = Some h' /\ J1 `prefix_of` J'.
Proof. intros [->%runs_trigger Hs]. split; [done|]. by apply served_event. Qed.

Lemma goes_bind {A B} J h (t : prog journalE A) (f : A -> prog journalE B) tr b J' h' :
  goes J h (bind t f) tr b J' h' ->
  exists tr1 a tr2 J1 h1, tr = tr1 ++ tr2 /\ goes J h t tr1 a J1 h1 /\ goes J1 h1 (f a) tr2 b J' h'.
Proof.
  intros [(tr1 & a & tr2 & -> & H1 & H2)%runs_bind (J1 & h1 & S1 & S2)%served_app].
  exists tr1, a, tr2, J1, h1. done.
Qed.

Lemma goes_bindR {A B} J h (t : prog journalE (Result A)) (f : A -> prog journalE (Result B)) tr b J' h' :
  goes J h (bindR t f) tr (Success b) J' h' ->
  exists tr1 a tr2 J1 h1, tr = tr1 ++ tr2 /\ goes J h t tr1 (Success a) J1 h1 /\
    goes J1 h1 (f a) tr2 (Success b) J' h'.
Proof.
  intros (tr1 & r & tr2 & J1 & h1 & -> & H1 & H2)%goes_bind. destruct r as [a|error].
  - by exists tr1, a, tr2, J1, h1.
  - by apply goes_ret in H2 as (_ & ? & _).
Qed.

Lemma goes_checked {messages : Messages} J h call operation tr s J' h' :
  goes J h (checked call operation) tr (Success s) J' h' ->
  tr = [Ev call s] /\ 0 <= s /\
  exists J1, J `prefix_of` J1 /\ serve J1 h (Ev call s) = Some h' /\ J1 `prefix_of` J'.
Proof.
  unfold checked. intros (tr1 & status & tr2 & J1 & h1 & -> & H1 & H2)%goes_bind.
  apply goes_trigger in H1 as (-> & J2 & P1 & Hs & P2).
  apply goes_ret in H2 as (-> & E & -> & P3).
  destruct (Z.ltb_spec status 0); [done|]. injection E as <-.
  split_and!; [done|done|]. exists J2. split_and!; [done|done|by etransitivity].
Qed.

Lemma on_status_ok s h h' : 0 <= s -> on_status s h h' = Some h'.
Proof. intros H. unfold on_status. by rewrite (proj2 (Z.ltb_ge _ _) H). Qed.

(** ** Reading the current entry *)

Lemma field_value_matches f v : journalFieldValue f (Some (f ++ "="%char :: v)) = Success v.
Proof.
  unfold journalFieldValue. rewrite length_app. cbn [length].
  rewrite (proj2 (Nat.leb_gt _ _)) by lia.
  rewrite take_app_length, bool_decide_eq_true_2 by done.
  rewrite list_lookup_middle, bool_decide_eq_true_2 by done. simpl.
  rewrite drop_app_ge by lia. by replace (length f + 1 - length f)%nat with 1%nat by lia.
Qed.

Section Provider.
Context {messages : Messages} (rounds : nat).

(** The handle stands on the entry [e]. *)
Definition stands (J : list raw_entry) (h : handle) (k : nat) (e : raw_entry) : Prop :=
  h_position h = On k /\ view (h_matches h) J !! k = Some e.

Lemma stands_grow J J1 h k e : J `prefix_of` J1 -> stands J h k e -> stands J1 h k e.
Proof. intros HJ [Hp Hk]. split; [done|]. eapply prefix_lookup_Some; [exact Hk|]. by apply view_prefix. Qed.

Lemma stands_current J J1 h k e :
  stands J h k e -> J `prefix_of` J1 -> current (view (h_matches h) J1) (h_position h) = Some e.
Proof. intros Hst HJ. apply (stands_grow _ J1) in Hst as [-> Hk]; done. Qed.

Lemma goes_readField J h k e field tr v J' h' :
  stands J h k e -> goes J h (readField field) tr (Success v) J' h' ->
  h' = h /\ v = field_value field e /\ sunk tr = [] /\ J `prefix_of` J'.
Proof.
  intros Hst (tr1 & a & tr2 & J1 & h1 & -> & H1 & H2)%goes_bind.
  apply goes_trigger in H1 as (-> & J2 & P1 & Hs & P2).
  apply goes_ret in H2 as (-> & E & -> & P3). cbn [serve] in Hs.
  rewrite (stands_current J J2 h k e) in Hs by done. unfold agrees in Hs.
  destruct (field_value field e) as [w|].
  - destruct (_ || _) eqn:Hb in Hs; [|done]. injection Hs as <-.
    split_and!; [done| |done|growing].
    apply orb_true_iff in Hb as [Hb|Hb]; bool_facts.
    + rewrite (proj2 (Z.eqb_neq _ _)) in E by done. by rewrite (proj2 (Z.ltb_lt _ _)) in E.
    + rewrite (proj2 (Z.eqb_neq _ _)) in E by (unfold ENOENT; lia).
      rewrite (proj2 (Z.ltb_ge _ _)) in E by done.
      rewrite H0, field_value_matches in E. by injection E as <-.
  - destruct (a.1 <? 0) eqn:Hb in Hs; [|done]. injection Hs as <-.
    split_and!; [done| |done|growing].
    destruct (a.1 =? _); [by injection E as <-|]. by rewrite Hb in E.
Qed.

Lemma sunk_app tr1 tr2 : sunk (tr1 ++ tr2) = sunk tr1 ++ sunk tr2.
Proof. apply omap_app. Qed.

Lemma goes_readFields J h k e usec cursor tr fields J' h' :
  stands J h k e -> goes J h (readFields usec cursor) tr (Success fields) J' h' ->
  h' = h /\ sunk tr = [] /\ J `prefix_of` J' /\
  fields = mkJournalFields usec cursor (field_value $"_SYSTEMD_UNIT" e) (field_value $"_PID" e)
    (field_value $"_COMM" e) (field_value $"MESSAGE" e) (field_value $"PRIORITY" e).
Proof.
  intros Hst (t1 & r1 & ? & J1 & h1 & -> & H1 & G)%goes_bind.
  apply goes_bind in G as (t2 & r2 & ? & J2 & h2 & -> & H2 & G).
  apply goes_bind in G as (t3 & r3 & ? & J3 & h3 & -> & H3 & G).
  apply goes_bind in G as (t4 & r4 & ? & J4 & h4 & -> & H4 & G).
  apply goes_bind in G as (t5 & r5 & ? & J5 & h5 & -> & H5 & G).
  apply goes_ret in G as (-> & E & -> & P).
  destruct r1, r2, r3, r4, r5; try done. injection E as ->.
  apply (goes_readField J h k e) in H1 as (-> & -> & N1 & P1); [|done].
  apply (stands_grow J J1) in Hst; [|done].
  apply (goes_readField J1 h k e) in H2 as (-> & -> & N2 & P2); [|done].
  apply (stands_grow J1 J2) in Hst; [|done].
  apply (goes_readField J2 h k e) in H3 as (-> & -> & N3 & P3); [|done].
  apply (stands_grow J2 J3) in Hst; [|done].
  apply (goes_readField J3 h k e) in H4 as (-> & -> & N4 & P4); [|done].
  apply (stands_grow J3 J4) in Hst; [|done].
  apply (goes_readField J4 h k e) in H5 as (-> & -> & N5 & P5); [|done].
  split_and!; [done| |growing|done].
  by rewrite !sunk_app, N1, N2, N3, N4, N5.
Qed.

(** Reading the entry the handle stands on shows that entry. *)
Lemma goes_readCurrentEntry J h k e tr o J' h' :
  stands J h k e -> goes J h readCurrentEntry tr (Success o) J' h' ->
  h' = h /\ decode e = Some o /\ sunk tr = [] /\ J `prefix_of` J'.
Proof.
  intros Hst (t1 & ts & ? & J1 & h1 & -> & H1 & G)%goes_bind.
  apply goes_trigger in H1 as (-> & J2 & P1 & S1 & P2).
  destruct (ts.1 <? 0) eqn:Ets; [by apply goes_ret in G as (_ & ? & _)|].
  destruct (_ <? ts.2); [by apply goes_ret in G as (_ & ? & _)|].
  cbn [serve] in S1. rewrite (stands_current J J2 h k e) in S1 by done.
  rewrite Ets in S1. simpl in S1. unfold agrees in S1.
  destruct (bool_decide _) eqn:Et in S1; [|done]. injection S1 as <-. bool_facts. injection Et as Et.
  apply goes_bind in G as (t2 & c & ? & J3 & h3 & -> & H2 & G).
  apply goes_trigger in H2 as (-> & J4 & P3 & S2 & P4).
  destruct (c.1 <? 0) eqn:Ec; [by apply goes_ret in G as (_ & ? & _)|].
  assert (J `prefix_of` J4) as P5 by growing.
  cbn [serve] in S2. rewrite (stands_current J J4 h k e) in S2 by done.
  rewrite Ec in S2. simpl in S2. unfold agrees in S2.
  destruct (bool_decide _) eqn:Ecur in S2; [|done]. injection S2 as <-. bool_facts.
  apply goes_bindR in G as (t3 & fields & t4 & J5 & h5 & -> & H3 & G).
  apply (goes_readFields J3 h k e) in H3 as (-> & N & P6 & ->);
    [|eapply stands_grow; [|exact Hst]; growing].
  rewrite Ecur in G. simpl in G. rewrite <- Et in G.
  fold (fields_of e) in G. unfold decode.
  destruct (journalEntryFromFields (fields_of e)) as [o'|];
    [|by destruct G as [G _]; apply runs_undefined in G].
  apply goes_ret in G as (-> & [= ->] & -> & P7).
  split_and!; [done|done| |growing].
  rewrite app_nil_r. change (sunk t3 = []). done.
Qed.

(** ** Moving *)

Lemma move_end h target h' : move 0 h target = Some h' -> target = None /\ h' = h.
Proof. unfold move. destruct target; [done|]. by intros [= <-]. Qed.
Lemma move_to status h target h' :
  0 <= status -> status <> 0 -> move status h target = Some h' ->
  exists k, target = Some k /\ h' = mkHandle (h_matches h) (On k).
Proof.
  intros H0 Hn. unfold move. rewrite (proj2 (Z.ltb_ge _ _)) by done.
  rewrite (proj2 (Z.eqb_neq _ _)) by done. destruct target as [k|]; [|done].
  intros [= <-]. eauto.
Qed.

(** Where reading backwards can start, and how many entries lie before. *)
Definition backwards (J : list raw_entry) (h : handle) : Prop :=
  (exists n, h_position h = Tail n) \/ exists k e, stands J h k e.
Definition behind (J : list raw_entry) (h : handle) : list raw_entry :=
  let V := view (h_matches h) J in
  match h_position h with Tail _ => V | On k => take k V | _ => [] end.

Lemma behind_grow J J1 h :
  (exists k e, stands J h k e) -> J `prefix_of` J1 -> behind J1 h = behind J h.
Proof.
  intros (k & e & Hp & Hk) [K ->]. unfold behind. rewrite Hp, view_app.
  apply take_app_le. apply lookup_lt_Some in Hk. lia.
Qed.

Lemma move_back J h k :
  backwards J h -> previous_of (view (h_matches h) J) (h_position h) = Some k ->
  exists e, stands J (mkHandle (h_matches h) (On k)) k e /\
    behind J h = behind J (mkHandle (h_matches h) (On k)) ++ [e].
Proof.
  intros [[? Hp]|(k' & e' & Hp & Hk)]; unfold stands, behind; rewrite Hp; simpl.
  - destruct (length (view _ _)) as [|n] eqn:El; [done|]. intros [= ->].
    destruct (lookup_lt_is_Some_2 (view (h_matches h) J) k) as [e He]; [lia|].
    exists e. split; [done|]. rewrite <- (take_S_r _ _ e He), <- El. by rewrite firstn_all.
  - destruct k' as [|n]; [done|]. intros [= ->]. apply lookup_lt_Some in Hk.
    destruct (lookup_lt_is_Some_2 (view (h_matches h) J) k) as [e He]; [lia|].
    exists e. split; [done|]. by apply take_S_r.
Qed.

Lemma move_back_end J h :
  backwards J h -> previous_of (view (h_matches h) J) (h_position h) = None -> behind J h = [].
Proof.
  unfold behind. intros [[? Hp]|(k' & e' & Hp & Hk)]; rewrite Hp; simpl.
  - destruct (view _ _) eqn:Ev; [done|]. by simpl.
  - by destruct k'.
Qed.

(** The entries read backwards are the last of those behind, at the moment of the
first move. *)
Lemma goes_tail_loop n J h rev_ tr out J' h' :
  backwards J h -> goes J h (tail_loop n rev_) tr (Success out) J' h' ->
  exists J1 es, J `prefix_of` J1 /\ J1 `prefix_of` J' /\ out = rev_ ++ es /\ sunk tr = [] /\
    h_matches h' = h_matches h /\
    Forall2 (fun e o => decode e = Some o) (take n (rev (behind J1 h))) es.
Proof.
  revert J h rev_ tr. induction n as [|n IH]; intros J h rev_ tr Hb; cbn [tail_loop].
  - intros (-> & E & -> & HJ)%goes_ret. injection E as ->. exists J, [].
    rewrite app_nil_r. split_and!; try done.
  - intros (t1 & s & t2 & J1 & h1 & -> & H1 & G)%goes_bindR.
    apply goes_checked in H1 as (-> & Hs & J2 & P1 & S1 & P2). cbn [serve] in S1.
    assert (Hb2 : backwards J2 h).
    { destruct Hb as [|(k & e & Hst)]; [by left|right]. exists k, e. by apply (stands_grow J). }
    destruct (Z.eqb_spec s 0) as [->|Hn].
    + apply goes_ret in G as (-> & E & -> & HJ). injection E as ->.
      apply move_end in S1 as [Hprev ->]. exists J2, [].
      rewrite app_nil_r. split_and!; [growing..|done|done|done|].
      rewrite (move_back_end J2 h) by done. constructor.
    + apply goes_bindR in G as (t3 & o & t4 & J3 & h3 & -> & H3 & G).
      apply move_to in S1 as (k & Hprev & ->); [|done..].
      apply move_back in Hprev as (e & Hst & Hbehind); [|done].
      assert (Hst1 := stands_grow J2 J1 _ _ _ P2 Hst).
      apply (goes_readCurrentEntry _ _ _ _ _ _ _ _ Hst1) in H3 as (-> & Hd & N3 & P3).
      assert (Hst3 := stands_grow J1 J3 _ _ _ P3 Hst1).
      apply IH in G as (J4 & es & P4 & P5 & -> & N4 & Hm & Hes); [|right; eauto].
      exists J2, (o :: es). split_and!; [growing..| | |done|].
      * by rewrite <- app_assoc.
      * rewrite sunk_app. simpl. rewrite sunk_app, N3. done.
      * rewrite Hbehind, rev_unit. simpl. constructor; [done|].
        rewrite <- (behind_grow J2 J4); [done|eauto|growing].
Qed.

(** ** Reading forwards *)

Definition forwards (J : list raw_entry) (h : handle) : Prop :=
  (exists t, h_position h = From t) \/ exists k e, stands J h k e.
Definition ahead (J : list raw_entry) (h : handle) : list raw_entry :=
  let V := view (h_matches h) J in
  match h_position h with From t => since t V | On k => drop (S k) V | _ => [] end.

Lemma forwards_grow J J1 h : J `prefix_of` J1 -> forwards J h -> forwards J1 h.
Proof.
  intros HJ [?|(k & e & Hst)]; [by left|right]. exists k, e. by apply (stands_grow J).
Qed.

Lemma forwards_read J h : forwards J h -> unread_tail h = false.
Proof. unfold unread_tail. by intros [[t ->]|(k & e & -> & _)]. Qed.

Lemma next_of_grow V V' p k : V `prefix_of` V' -> next_of V p = Some k -> next_of V' p = Some k.
Proof.
  intros [W ->]. destruct p as [k'|t|k'|k']; simpl; [|apply first_at_app|..];
    rewrite length_app; do 2 case_decide; (done || lia).
Qed.

Lemma move_next J h k :
  forwards J h -> next_of (view (h_matches h) J) (h_position h) = Some k ->
  exists e, stands J (mkHandle (h_matches h) (On k)) k e /\
    ahead J h = e :: ahead J (mkHandle (h_matches h) (On k)).
Proof.
  intros [[t Hp]|(k' & e' & Hp & Hk)]; unfold stands, ahead; rewrite Hp; cbn [next_of h_matches h_position].
  - intros Hf. destruct (lookup_lt_is_Some_2 (view (h_matches h) J) k) as [e He];
      [by eapply first_at_lt|].
    exists e. split; [done|]. rewrite first_at_since, Hf. by apply drop_S.
  - case_decide; [|done]. intros [= <-].
    destruct (lookup_lt_is_Some_2 (view (h_matches h) J) (S k')) as [e He]; [done|].
    exists e. split; [done|]. by apply drop_S.
Qed.

Lemma move_next_end J h :
  forwards J h -> next_of (view (h_matches h) J) (h_position h) = None -> ahead J h = [].
Proof.
  unfold ahead. intros [[t Hp]|(k' & e' & Hp & Hk)]; rewrite Hp; cbn [next_of].
  - intros Hf. by rewrite first_at_since, Hf.
  - case_decide; [done|]. intros _. apply drop_ge. lia.
Qed.

(** The window after reading [es]: the last [limit] of them. *)
Lemma last_n_app {A} n (l k : list A) : last_n n (last_n n l ++ k) = last_n n (l ++ k).
Proof.
  unfold last_n. rewrite !length_app, length_drop.
  rewrite !drop_app, drop_drop, length_drop. f_equal; f_equal; lia.
Qed.

Lemma push_window_last limit w e :
  (length w <= Z.to_nat limit)%nat -> push_window limit w e = last_n (Z.to_nat limit) (w ++ [e]).
Proof.
  intros Hw. unfold push_window, last_n. rewrite length_app. simpl.
  destruct (Z.ltb_spec limit (Z.of_nat (length w + 1))).
  - replace (length w + 1 - Z.to_nat limit)%nat with 1%nat by lia. by destruct w.
  - replace (length w + 1 - Z.to_nat limit)%nat with O by lia. done.
Qed.

Lemma length_last_n {A} n (l : list A) : (length (last_n n l) <= n)%nat.
Proof. unfold last_n. rewrite length_drop. lia. Qed.

Lemma push_windows limit es w :
  (length w <= Z.to_nat limit)%nat ->
  foldl (push_window limit) w es = last_n (Z.to_nat limit) (w ++ es).
Proof.
  revert w. induction es as [|e es IH]; intros w Hw; simpl.
  - rewrite app_nil_r. unfold last_n. by replace (length w - _)%nat with O by lia.
  - rewrite push_window_last, IH by (done || apply length_last_n).
    by rewrite last_n_app, <- app_assoc.
Qed.

Lemma goes_since_loop fuel J h limit window tr out J' h' :
  forwards J h -> goes J h (since_loop fuel limit window) tr (Success out) J' h' ->
  exists J1 es, J `prefix_of` J1 /\ J1 `prefix_of` J' /\
    out = foldl (push_window limit) window es /\ sunk tr = [] /\ h_matches h' = h_matches h /\
    Forall2 (fun e o => decode e = Some o) (ahead J1 h) es.
Proof.
  revert J h window tr. induction fuel as [|fuel IH]; intros J h window tr Hf; cbn [since_loop].
  - by intros [?%runs_journal_forever _].
  - intros (t1 & s & t2 & J1 & h1 & -> & H1 & G)%goes_bindR.
    apply goes_checked in H1 as (-> & Hs & J2 & P1 & S1 & P2). cbn [serve] in S1.
    assert (Hf2 := forwards_grow _ _ _ P1 Hf). rewrite (forwards_read _ _ Hf) in S1. cbn [andb] in S1.
    destruct (Z.eqb_spec s 0) as [->|Hn].
    + apply goes_ret in G as (-> & E & -> & HJ). injection E as ->.
      apply move_end in S1 as [Hnext ->]. exists J2, [].
      split_and!; [growing..|done|done|done|]. by rewrite (move_next_end J2 h).
    + apply goes_bindR in G as (t3 & o & t4 & J3 & h3 & -> & H3 & G).
      apply move_to in S1 as (k & Hnext & ->); [|done..].
      assert (Hst := Hnext). apply move_next in Hst as (e & Hst & _); [|done].
      assert (Hst1 := stands_grow J2 J1 _ _ _ P2 Hst).
      apply (goes_readCurrentEntry _ _ _ _ _ _ _ _ Hst1) in H3 as (-> & Hd & N3 & P3).
      assert (Hst3 := stands_grow J1 J3 _ _ _ P3 Hst1).
      apply IH in G as (J4 & es & P4 & P5 & -> & N4 & Hm & Hes); [|right; eauto].
      exists J4, (o :: es). split_and!; [growing..|done| |done|].
      * rewrite sunk_app. simpl. by rewrite sunk_app, N3.
      * assert (P6 : J2 `prefix_of` J4) by growing.
        apply (next_of_grow _ (view (h_matches h) J4)) in Hnext; [|by apply view_prefix].
        apply move_next in Hnext as (e' & [_ Hst'] & ->); [|by eapply forwards_grow].
        apply (stands_grow J2 J4) in Hst as [_ Hst]; [|done]. simpl in Hst, Hst'.
        rewrite Hst in Hst'. injection Hst' as <-. by constructor.
Qed.

(** ** Queries *)

Lemma goes_addMatch J h text tr J' h' :
  goes J h (addMatch text) tr (Success tt) J' h' ->
  h' = mkHandle (h_matches h ++ [c_str text]) (h_position h) /\ sunk tr = [] /\ J `prefix_of` J'.
Proof.
  intros (t1 & s & t2 & J1 & h1 & -> & H1 & G)%goes_bindR.
  apply goes_checked in H1 as (-> & Hs & J2 & P1 & S1 & P2). cbn [serve] in S1.
  rewrite on_status_ok in S1 by done. injection S1 as <-.
  apply goes_ret in G as (-> & _ & -> & P3). split_and!; [done..|growing].
Qed.

Lemma goes_configure J h q tr J' h' :
  goes J h (configureJournal q) tr (Success tt) J' h' ->
  h_matches h' = h_matches h ++ matches_of q /\ sunk tr = [] /\ J `prefix_of` J'.
Proof.
  unfold configureJournal. destruct (_ =? 0); [by intros (_ & ? & _)%goes_ret|].
  intros (t1 & s & t2 & J1 & h1 & -> & H1 & G)%goes_bindR.
  apply goes_checked in H1 as (-> & Hs & J2 & P1 & S1 & P2). injection S1 as <-.
  apply goes_bindR in G as (t3 & u & t4 & J3 & h3 & -> & H3 & G).
  unfold matches_of. destruct (lq_unit q) as [unit|].
  - destruct u. apply goes_addMatch in H3 as (-> & N3 & P3).
    destruct (lq_pid q) as [pid|].
    + apply goes_addMatch in G as (-> & N4 & P4). cbn [h_matches].
      rewrite <- app_assoc, !sunk_app, N3, N4. split_and!; [done..|growing].
    + apply goes_ret in G as (-> & _ & -> & P4). rewrite !sunk_app, N3. split_and!; [done..|growing].
  - apply goes_ret in H3 as (-> & _ & -> & P3). destruct (lq_pid q) as [pid|].
    + apply goes_addMatch in G as (-> & N4 & P4). cbn [h_matches h_position app].
      split_and!; [done..|growing].
    + apply goes_ret in G as (-> & _ & -> & P4). simpl. rewrite app_nil_r.
      split_and!; [done..|growing].
Qed.

Lemma goes_initial_query J h q tr o J' h' :
  h_matches h = matches_of q ->
  goes J h (initial_query rounds q) tr (Success o) J' h' ->
  sunk tr = [] /\ h_matches h' = matches_of q /\
  exists J1 es, J `prefix_of` J1 /\ J1 `prefix_of` J' /\
    Forall2 (fun e o => decode e = Some o) (selected q J1) es /\ o = appendEntries es.
Proof.
  intros Hm. unfold initial_query, selected. destruct (lq_since q) as [t|].
  - unfold querySince. destruct (_ <? 0); [by intros (_ & ? & _)%goes_ret|].
    intros (t1 & s & t2 & J1 & h1 & -> & H1 & G)%goes_bindR.
    apply goes_checked in H1 as (-> & Hs & J2 & P1 & S1 & P2). cbn [serve] in S1.
    rewrite on_status_ok in S1 by done. injection S1 as <-.
    apply goes_bindR in G as (t3 & w & t4 & J3 & h3 & -> & H3 & G).
    apply goes_since_loop in H3 as (J4 & es & P4 & P5 & -> & N & Hm' & Hes); [|left; eauto].
    apply goes_ret in G as (-> & [= ->] & -> & P6). simpl in Hm'.
    split_and!; [by rewrite !sunk_app, N|congruence|].
    exists J4, (last_n (Z.to_nat (lq_limit q)) es). rewrite push_windows by (simpl; lia).
    split_and!; [growing..| |done].
    unfold ahead in Hes. simpl in Hes. rewrite <- Hm. unfold last_n.
    rewrite (Forall2_length _ _ _ Hes). by apply Forall2_drop.
  - unfold queryTail. intros (t1 & s & t2 & J1 & h1 & -> & H1 & G)%goes_bindR.
    apply goes_checked in H1 as (-> & Hs & J2 & P1 & S1 & P2). cbn [serve] in S1.
    rewrite on_status_ok in S1 by done. injection S1 as <-.
    apply goes_bindR in G as (t3 & w & t4 & J3 & h3 & -> & H3 & G).
    apply goes_tail_loop in H3 as (J4 & es & P4 & P5 & -> & N & Hm' & Hes); [|left; by eexists].
    apply goes_ret in G as (-> & [= ->] & -> & P6). simpl in Hm'.
    split_and!; [by rewrite !sunk_app, N|congruence|].
    exists J4, (rev es). split_and!; [growing..| |done].
    unfold behind in Hes. simpl in Hes. rewrite <- Hm. unfold last_n.
    rewrite <- (rev_involutive (drop _ _)), <- firstn_rev.
    clear -Hes. induction Hes; simpl; [constructor|]. apply Forall2_app; auto.
Qed.

Lemma goes_openLocal J h tr j J' h' :
  goes J h openLocal tr (Success j) J' h' ->
  h' = mkHandle [] (Before 0) /\ sunk tr = [] /\ J `prefix_of` J'.
Proof.
  intros (t1 & a & t2 & J1 & h1 & -> & H1 & G)%goes_bind.
  apply goes_trigger in H1 as (-> & J2 & P1 & S1 & P2). cbn [serve] in S1.
  destruct (a.1 <? 0) eqn:Ha.
  - apply goes_bind in G as (t3 & u & t4 & J3 & h3 & -> & _ & G). by apply goes_ret in G as (_ & ? & _).
  - apply goes_ret in G as (-> & _ & -> & P3). unfold on_status in S1. rewrite Ha in S1.
    injection S1 as <-. split_and!; [done..|growing].
Qed.

(** The scope of a journal handle. *)
Lemma goes_with_journal {A} J h (body : prog journalE (Result A)) tr r J' h' :
  goes J h (with_journal body) tr r J' h' ->
  (exists error, r = Failure error /\ sunk tr = []) \/
  exists tr1 J1 J2 h2, J `prefix_of` J1 /\ goes J1 (mkHandle [] (Before 0)) body tr1 r J2 h2 /\
    J2 `prefix_of` J' /\ sunk tr = sunk tr1.
Proof.
  intros (t1 & a & t2 & J1 & h1 & -> & H1 & G)%goes_bind. destruct a as [j|error].
  - apply goes_openLocal in H1 as (-> & N & P). right.
    apply goes_bind in G as (t3 & x & t4 & J2 & h2 & -> & H2 & G).
    apply goes_bind in G as (t5 & u & t6 & J3 & h3 & -> & H3 & G).
    apply goes_trigger in H3 as (-> & J4 & P4 & _ & P5).
    apply goes_ret in G as (-> & -> & -> & P6).
    exists t3, J1, J2, h2. rewrite !sunk_app, N. simpl. rewrite app_nil_r.
    split_and!; [done|done|growing|done].
  - left. exists error. apply goes_ret in G as (-> & -> & _). rewrite app_nil_r. split; [done|].
    destruct H1 as [H1 _]. unfold openLocal in H1.
    apply runs_bind in H1 as (t3 & b & t4 & -> & ->%runs_trigger & H1).
    destruct (b.1 <? 0); [|by destruct H1 as [-> ?]].
    apply runs_bind in H1 as (t5 & u & t6 & -> & ->%runs_trigger & H1). by destruct H1 as [-> _].
Qed.
End Provider.

(** ** Following *)

(** Calls other than the two callbacks. *)
Definition no_callback (X : Type) (e : journalE X) : Prop :=
  match e with Sink _ | StopRequested => False | _ => True end.

(** The caller asks to stop. *)
Definition is_stop (ev : event journalE) : bool :=
  match ev with
  | Ev e x => match e in journalE X return X -> bool with StopRequested => fun b => b | _ => fun _ => false end x
  end.
Definition asked (tr : trace journalE) : bool := existsb is_stop tr.

Lemma asked_app tr1 tr2 : asked (tr1 ++ tr2) = asked tr1 || asked tr2.
Proof. apply existsb_app. Qed.

(** A request to stop ends the run, with the result [interrupted]. *)
Definition stops (tr : trace journalE) (r : Result unit) : Prop :=
  forall tr1 ev tr2, tr = tr1 ++ ev :: tr2 -> is_stop ev = true -> tr2 = [] /\ r = interrupted.

Lemma sunk_nil {A} (t : prog journalE A) tr a : calls_ok no_callback t -> runs t tr a -> sunk tr = [].
Proof.
  intros Hc Hr. eapply calls_ok_runs in Hr; [|exact Hc]. clear Hc.
  induction Hr as [|[X e x] tr He _ IH]; [done|].
  change (sunk ([Ev e x] ++ tr) = []). rewrite sunk_app, IH, app_nil_r. by destruct e.
Qed.

Lemma no_stop {A} (t : prog journalE A) tr a :
  calls_ok no_callback t -> runs t tr a -> asked tr = false.
Proof.
  intros Hc Hr. eapply calls_ok_runs in Hr; [|exact Hc].
  induction Hr as [|[X e x] tr He _ IH]; [done|]. simpl. rewrite IH. by destruct e.
Qed.

Lemma stops_none tr r : asked tr = false -> stops tr r.
Proof. intros H tr1 ev tr2 -> Hev. rewrite asked_app in H. simpl in H. rewrite Hev in H. by destruct (asked tr1). Qed.

Lemma stops_app tr1 tr2 r : asked tr1 = false -> stops tr2 r -> stops (tr1 ++ tr2) r.
Proof.
  intros H1 H2 t1 ev t2 E Hev. apply app_eq_inv in E as [(k & -> & E)|(k & -> & E)].
  - destruct k as [|ev' k]; [by apply (H2 [] ev t2)|]. injection E as <- ->.
    rewrite asked_app in H1. simpl in H1. rewrite Hev in H1. by destruct (asked t1).
  - by apply (H2 k ev t2).
Qed.

Section Following.
Context {messages : Messages} (rounds : nat).

Lemma no_callback_checked c operation : no_callback _ c -> calls_ok no_callback (checked c operation).
Proof. by split. Qed.
Lemma no_callback_field f : calls_ok no_callback (readField f).
Proof. by split. Qed.
Hint Resolve no_callback_checked no_callback_field : calls.

Lemma no_callback_current : calls_ok no_callback readCurrentEntry.
Proof.
  apply calls_ok_bind; [by split|]. intros ts. do 2 (case_match; [done|]).
  apply calls_ok_bind; [by split|]. intros c. case_match; [done|].
  apply calls_ok_bindR; [|intros fields; by case_match].
  unfold readFields. repeat (apply calls_ok_bind; [apply no_callback_field|intros ?]). done.
Qed.

Lemma no_callback_tail n l : calls_ok no_callback (tail_loop n l).
Proof.
  revert l. induction n as [|n IH]; intros l; simpl; [done|]. split; [done|]. intros s.
  destruct (_ <? _); simpl; [done|]. case_match; [done|].
  apply calls_ok_bindR; [apply no_callback_current|auto].
Qed.

Lemma no_callback_since fuel limit l : calls_ok no_callback (since_loop fuel limit l).
Proof.
  revert l. induction fuel as [|n IH]; intros l; simpl; [done|]. split; [done|]. intros s.
  destruct (_ <? _); simpl; [done|]. case_match; [done|].
  apply calls_ok_bindR; [apply no_callback_current|auto].
Qed.

Lemma no_callback_initial q : calls_ok no_callback (initial_query rounds q).
Proof.
  unfold initial_query, querySince, queryTail. case_match; [case_match; [done|]|];
    (apply calls_ok_bindR; [by apply no_callback_checked|intros _]);
    (apply calls_ok_bindR; [apply no_callback_since || apply no_callback_tail|done]).
Qed.

Lemma no_callback_configure q : calls_ok no_callback (configureJournal q).
Proof.
  unfold configureJournal, addMatch. case_match; [done|].
  apply calls_ok_bindR; [by apply no_callback_checked|intros _].
  apply calls_ok_bindR; [case_match; [|done]|intros _; case_match; [|done]];
    (apply calls_ok_bindR; [by apply no_callback_checked|done]).
Qed.

Lemma no_callback_position l : calls_ok no_callback (positionAfterInitial l).
Proof.
  unfold positionAfterInitial. case_match.
  - do 2 (apply calls_ok_bindR; [by apply no_callback_checked|intros ?]). done.
  - apply calls_ok_bindR; [by apply no_callback_checked|done].
Qed.

(** ** A request to stop is final *)

(** Nobody asked to stop in a trace made of known pieces. *)
Ltac unasked := rewrite ?asked_app; simpl; repeat match goal with H : asked _ = false |- _ => rewrite ?H; clear H end; done.

Lemma stops_bindR {A} (t : prog journalE (Result A)) (f : A -> prog journalE (Result unit)) tr r :
  (forall tr a, runs t tr (Success a) -> asked tr = false) ->
  (forall tr error, runs t tr (Failure error) -> stops tr (Failure error)) ->
  (forall a tr r, runs (f a) tr r -> stops tr r) ->
  runs (bindR t f) tr r -> stops tr r.
Proof.
  intros H1 H2 Hf [(error & Hr & ->)|(tr1 & a & tr2 & -> & Hr & Hr2)]%runs_bindR; [auto|].
  apply stops_app; eauto.
Qed.

Lemma stops_quiet_bindR {A} (t : prog journalE (Result A)) (f : A -> prog journalE (Result unit)) tr r :
  calls_ok no_callback t -> (forall a tr r, runs (f a) tr r -> stops tr r) ->
  runs (bindR t f) tr r -> stops tr r.
Proof.
  intros Hc Hf. apply stops_bindR; [|intros; apply stops_none|done]; intros; by eapply no_stop.
Qed.

(** The question whether to stop, then the rest. *)
Lemma stops_question {A} (no : prog journalE A) (yes : A) tr x :
  runs (stop <- trigger StopRequested ;; if stop : bool then Ret yes else no) tr x ->
  (tr = [Ev StopRequested true] /\ x = yes) \/
  exists tr', tr = Ev StopRequested false :: tr' /\ runs no tr' x.
Proof.
  intros (t1 & stop & t2 & -> & ->%runs_trigger & H)%runs_bind. destruct stop.
  - left. by destruct H as [-> ->].
  - right. by exists t2.
Qed.

Lemma stops_last tr : asked tr = false -> stops (tr ++ [Ev StopRequested true]) interrupted.
Proof.
  intros H. apply stops_app; [done|]. intros t1 ev t2 E _. destruct t1 as [|ev' t1]; [by injection E as <- <-|].
  injection E as _ E. by destruct t1.
Qed.

Lemma stops_follow_error s operation tr r : runs (follow_error s operation) tr r -> stops tr r.
Proof.
  unfold follow_error. case_match; [|intros [-> _]; apply stops_none; unasked].
  intros (t1 & stop & t2 & -> & ->%runs_trigger & -> & ->)%runs_bind.
  destruct stop; [by apply (stops_last []); unasked|]. apply stops_none. unasked.
Qed.

Lemma stops_send_initial ws entries tr r :
  runs (send_initial ws entries) tr r ->
  stops tr r /\ (r = Success tt -> asked tr = false).
Proof.
  revert ws tr. induction entries as [|x entries IH]; intros ws tr; cbn [send_initial].
  { intros [-> _]. split; [apply stops_none|intros _]; unasked. }
  intros [[-> ->]|(tr' & -> & H)]%stops_question; [split; [apply (stops_last []); unasked|done]|].
  apply runs_bindR in H as [(error & ->%runs_trigger & ->)|(t1 & u & t2 & -> & ->%runs_trigger & H)].
  - split; [apply stops_none; unasked|done].
  - apply IH in H as [Hs Hn]. split.
    + apply (stops_app [_; _]); [unasked|done].
    + intros Hr. specialize (Hn Hr). unasked.
Qed.

Lemma stops_drain fuel tr r :
  runs (drain fuel) tr r ->
  match r with Some result => stops tr result | None => asked tr = false end.
Proof.
  revert tr. induction fuel as [|fuel IH]; intros tr; cbn [drain]; [by intros ?%runs_journal_forever|].
  intros (t1 & s & t2 & -> & ->%runs_trigger & H)%runs_bind.
  destruct (s <? 0).
  { apply runs_bind in H as (t3 & x & t4 & -> & H%stops_follow_error & -> & ->).
    apply (stops_app [_]); [unasked|]. by rewrite app_nil_r. }
  destruct (s =? 0); [destruct H as [-> ->]; unasked|].
  apply runs_bind in H as (t3 & o & t4 & -> & Hr & H).
  assert (N : asked t3 = false) by (eapply no_stop, Hr; apply no_callback_current).
  destruct o as [o|error]; [|destruct H as [-> ->]; apply stops_none; unasked].
  apply runs_bind in H as (t5 & u & t6 & -> & ->%runs_trigger & H).
  destruct u as [u|error]; [|destruct H as [-> ->]; apply stops_none; unasked].
  apply stops_question in H as [[-> ->]|(t7 & -> & H)].
  - rewrite !app_assoc. apply stops_last. unasked.
  - apply IH in H. destruct r as [result|]; [|unasked].
    rewrite cons_middle, !app_assoc. apply stops_app; [unasked|done].
Qed.

Lemma stops_follow_loop fuel tr r : runs (follow_loop rounds fuel) tr r -> stops tr r.
Proof.
  revert tr. induction fuel as [|fuel IH]; intros tr; cbn [follow_loop]; [by intros ?%runs_journal_forever|].
  intros [[-> ->]|(tr' & -> & H)]%stops_question; [apply (stops_last []); unasked|].
  apply (stops_app [_]); [unasked|].
  apply runs_bind in H as (t1 & x & t2 & -> & Hd%stops_drain & H).
  destruct x as [result|]; [destruct H as [-> ->]; by rewrite app_nil_r|].
  apply runs_bind in H as (t3 & s & t4 & -> & ->%runs_trigger & H).
  apply stops_app; [done|]. apply (stops_app [_]); [unasked|].
  case_match; [by eapply stops_follow_error|auto].
Qed.

Lemma stops_follow has_sink has_stop q tr1 ev tr2 r :
  runs (follow rounds has_sink has_stop q) (tr1 ++ ev :: tr2) r -> is_stop ev = true ->
  sunk tr2 = [] /\ r = interrupted.
Proof.
  unfold follow. destruct (_ || _); [by intros [? _] ?; destruct tr1|].
  unfold with_journal. rewrite runs_bindR.
  assert (No : calls_ok no_callback openLocal).
  { apply calls_ok_bind; [by split|]. intros a. by case_match. }
  intros [(error & Hr & ->)|(t1 & j & t2 & E & Hr & H)] Hev.
  { eapply no_stop in Hr; [|done]. rewrite asked_app in Hr. simpl in Hr. rewrite Hev in Hr.
    by destruct (asked tr1). }
  apply runs_bind in H as (t3 & x & t4 & -> & H & (t5 & u & t6 & -> & ->%runs_trigger & -> & ->)%runs_bind).
  assert (Hs : stops (t1 ++ t3) x).
  { apply stops_app; [by eapply no_stop|]. revert H. apply stops_quiet_bindR; [apply no_callback_configure|].
    intros _ tr' r'. apply stops_quiet_bindR; [apply no_callback_initial|].
    intros o tr3 r3. apply stops_quiet_bindR; [apply no_callback_position|].
    intros _ tr4 r4. apply stops_bindR.
    - intros tr5 [] H5. by apply (stops_send_initial _ _ _ _ H5).
    - intros tr5 error H5. by apply (stops_send_initial _ _ _ _ H5).
    - intros _. apply stops_follow_loop. }
  rewrite app_assoc in E. apply app_eq_inv in E as [(k & E1 & E2)|(k & E1 & E2)].
  - destruct k as [|ev' k]; simpl in E2; injection E2 as <- E2; [done|]. by destruct k.
  - destruct k as [|ev' k]; simpl in E2; injection E2 as -> E2; [done|].
    destruct (Hs tr1 ev' k E1 Hev) as [-> ->]. by rewrite E2.
Qed.

(** A gapless stretch of the view from index [a] on, as LX shows it. *)
Definition stretch (ms : list str) (J : list raw_entry) (a : nat) (es : list (Observation JournalEntry)) :
  Prop := Forall2 (fun e o => decode e = Some o) (take (length es) (drop a (view ms J))) es.

Lemma stretch_nil ms J a : stretch ms J a [].
Proof. constructor. Qed.

Lemma stretch_app ms J a es1 es2 :
  stretch ms J a es1 -> stretch ms J (a + length es1) es2 -> stretch ms J a (es1 ++ es2).
Proof.
  unfold stretch. intros H1 H2. rewrite length_app, <- take_take_drop, drop_drop. by apply Forall2_app.
Qed.

Lemma stretch_grow ms J J1 a es : J `prefix_of` J1 -> stretch ms J a es -> stretch ms J1 a es.
Proof.
  unfold stretch. intros HJ H. assert (Hl := Forall2_length _ _ _ H). rewrite length_take, length_drop in Hl.
  destruct (view_prefix ms _ _ HJ) as [W ->].
  destruct es as [|o es]; [constructor|]. cbn [length] in *.
  rewrite drop_app_le, take_app_le by (rewrite ?length_drop; lia). done.
Qed.

Lemma stretch_one J h k e o :
  stands J h k e -> decode e = Some o -> stretch (h_matches h) J k [o].
Proof.
  intros [_ Hk] Hd. unfold stretch. rewrite (drop_S _ e) by done. simpl. by repeat constructor.
Qed.

(** Where following waits: [a] is the index of the next entry. *)
Definition waiting (J : list raw_entry) (h : handle) (a : nat) : Prop :=
  h_position h = Tail a \/ exists k e, stands J h k e /\ a = S k.

Lemma waiting_grow J J1 h a : J `prefix_of` J1 -> waiting J h a -> waiting J1 h a.
Proof.
  intros HJ [?|(k & e & Hst & ->)]; [by left|right]. exists k, e. split; [by eapply stands_grow|done].
Qed.

(** The next entry while waiting. *)
Lemma waiting_next J h a s h' :
  waiting J h a -> 0 <= s -> s <> 0 ->
  move s h (next_of (view (h_matches h) J) (h_position h)) = Some h' ->
  h_matches h' = h_matches h /\ exists e, stands J h' a e.
Proof.
  intros Hw Hs Hn Hm. apply move_to in Hm as (k & Hnext & ->); [|done..].
  destruct Hw as [Hp|(k' & e' & Hst & ->)].
  - rewrite Hp in Hnext. cbn [next_of] in Hnext. case_decide as Hlt; [|done]. injection Hnext as <-.
    split; [done|]. apply lookup_lt_is_Some_2 in Hlt as [e He]. by exists e.
  - assert (Hf : forwards J h) by (right; eauto).
    assert (k = S k') as ->.
    { destruct Hst as [Hp _]. rewrite Hp in Hnext. simpl in Hnext. case_decide; [|done].
      by injection Hnext as <-. }
    apply move_next in Hnext as (e & Hst' & _); [|done]. eauto.
Qed.

Lemma goes_follow_error J h s operation tr r J' h' :
  goes J h (follow_error s operation) tr r J' h' -> sunk tr = [] /\ J `prefix_of` J'.
Proof.
  intros G. split; [|by eapply goes_prefix]. destruct G as [G _]. revert G. unfold follow_error.
  case_match; [|by intros [-> _]]. by intros (t1 & stop & t2 & -> & ->%runs_trigger & -> & _)%runs_bind.
Qed.

Lemma goes_drain fuel J h a tr r J' h' :
  waiting J h a -> goes J h (drain fuel) tr r J' h' ->
  exists es, stretch (h_matches h) J' a es /\ sunk tr = obs_value <$> es /\ J `prefix_of` J' /\
    (r = None -> h_matches h' = h_matches h /\ waiting J' h' (a + length es)).
Proof.
  revert J h a tr. induction fuel as [|fuel IH]; intros J h a tr Hw; cbn [drain].
  { by intros [?%runs_journal_forever _]. }
  intros G. assert (HJ := goes_prefix _ _ _ _ _ _ _ G).
  apply goes_bind in G as (t1 & s & t2 & J1 & h1 & -> & H1 & G).
  apply goes_trigger in H1 as (-> & J2 & P1 & S1 & P2). cbn [serve] in S1.
  destruct (Z.ltb_spec s 0).
  { apply goes_bind in G as (t3 & x & t4 & J3 & h3 & -> & H3 & G).
    apply goes_follow_error in H3 as [N _]. apply goes_ret in G as (-> & -> & -> & _).
    exists []. rewrite !sunk_app, N. split_and!; [apply stretch_nil|done|done|done]. }
  destruct (Z.eqb_spec s 0) as [->|Hn].
  { apply goes_ret in G as (-> & -> & -> & P3).
    assert (h1 = h) as -> by (destruct (unread_tail h); cbn [andb] in S1; [congruence|by apply move_end in S1 as [_ ->]]).
    exists []. split_and!; [apply stretch_nil|done|done|]. intros _. split; [done|].
    rewrite Nat.add_0_r. by eapply waiting_grow. }
  rewrite andb_false_r in S1.
  eapply waiting_grow in Hw; [|exact P1].
  eapply waiting_next in S1 as (Hm & e & Hst); [|done..].
  apply (stands_grow J2 J1) in Hst; [|done].
  apply goes_bind in G as (t3 & x & t4 & J3 & h3 & -> & H3 & G). destruct x as [o|error].
  2:{ assert (N : sunk t3 = []) by (eapply sunk_nil, H3; apply no_callback_current).
      apply goes_ret in G as (-> & -> & -> & P3). exists []. rewrite !sunk_app, N.
      split_and!; [apply stretch_nil|done|done|done]. }
  apply (goes_readCurrentEntry _ _ _ _ _ _ _ _ Hst) in H3 as (-> & Hd & N & P3).
  apply (stands_grow J1 J3) in Hst; [|done].
  apply goes_bind in G as (t5 & accepted & t6 & J4 & h4 & -> & H4 & G).
  apply goes_trigger in H4 as (-> & J5 & P5 & S4 & P6). injection S4 as <-.
  assert (Hone : stretch (h_matches h1) J3 a [o]) by (by eapply stretch_one).
  assert (P7 : J3 `prefix_of` J') by (apply goes_prefix in G; growing).
  destruct accepted as [u|error].
  2:{ apply goes_ret in G as (-> & -> & -> & _). exists [o]. rewrite !sunk_app, N, <- Hm.
      split_and!; [by eapply stretch_grow|done|done|done]. }
  apply goes_bind in G as (t7 & stop & t8 & J6 & h6 & -> & H6 & G).
  apply goes_trigger in H6 as (-> & J7 & P8 & S6 & P9). injection S6 as <-.
  destruct stop.
  - apply goes_ret in G as (-> & -> & -> & _). exists [o]. rewrite !sunk_app, N, <- Hm.
    split_and!; [by eapply stretch_grow|done|done|done].
  - apply (IH _ _ (S a)) in G as (es & Hes & Hsunk & P10 & Hw').
    + exists (o :: es). rewrite !sunk_app, N, Hsunk, <- Hm. split_and!; [|done|done|].
      * apply (stretch_app _ _ _ [o] es); [by eapply stretch_grow|].
        by replace (a + length [o])%nat with (S a) by (simpl; lia).
      * intros Hr. destruct (Hw' Hr) as [? Hw'']. split; [done|].
        by replace (a + length (o :: es))%nat with (S a + length es)%nat by (simpl; lia).
    + right. exists a, e. split; [|done]. eapply stands_grow; [|exact Hst]. growing.
Qed.

Lemma goes_follow_loop fuel J h a tr r J' h' :
  waiting J h a -> goes J h (follow_loop rounds fuel) tr r J' h' ->
  exists es, stretch (h_matches h) J' a es /\ sunk tr = obs_value <$> es.
Proof.
  revert J h a tr. induction fuel as [|fuel IH]; intros J h a tr Hw; cbn [follow_loop].
  { by intros [?%runs_journal_forever _]. }
  intros (t1 & stop & t2 & J1 & h1 & -> & H1 & G)%goes_bind.
  apply goes_trigger in H1 as (-> & J2 & P1 & S1 & P2). injection S1 as <-.
  destruct stop.
  { apply goes_ret in G as (-> & _). exists []. split; [apply stretch_nil|done]. }
  apply goes_bind in G as (t3 & x & t4 & J3 & h3 & -> & H3 & G).
  apply (goes_drain _ _ _ a) in H3 as (es & Hes & N & P3 & Hw'); [|eapply waiting_grow; [|done]; growing].
  destruct x as [result|].
  { apply goes_ret in G as (-> & -> & -> & P4). exists es. rewrite !sunk_app, N.
    split; [by eapply stretch_grow|]. simpl. by rewrite app_nil_r. }
  destruct (Hw' eq_refl) as [Hm Hw3]. assert (P5 := goes_prefix _ _ _ _ _ _ _ G).
  apply goes_bind in G as (t5 & s & t6 & J4 & h4 & -> & H4 & G).
  apply goes_trigger in H4 as (-> & J5 & P6 & S4 & P7). injection S4 as <-.
  destruct (s <? 0).
  - apply goes_follow_error in G as [N4 _]. exists es. rewrite !sunk_app, N, N4.
    split; [by eapply stretch_grow|]. simpl. by rewrite app_nil_r.
  - apply (IH _ _ (a + length es)%nat) in G as (es' & Hes' & N');
      [|eapply waiting_grow; [|done]; growing].
    exists (es ++ es'). rewrite !sunk_app, N, N', fmap_app. split; [|done].
    rewrite Hm in Hes'. apply stretch_app; [by eapply stretch_grow|done].
Qed.

(** ** From the initial query to following *)

Lemma appendEntries_from target es :
  obs_value (foldl appendEntry target es) = obs_value target ++ (obs_value <$> es).
Proof.
  revert target. induction es as [|o es IH]; intros target; simpl; [by rewrite app_nil_r|].
  rewrite IH. simpl. by rewrite <- app_assoc.
Qed.
Lemma appendEntries_value es : obs_value (appendEntries es) = obs_value <$> es.
Proof. apply appendEntries_from. Qed.

Lemma selected_drop q J : exists a, selected q J = drop a (view (matches_of q) J).
Proof.
  unfold selected, last_n. destruct (lq_since q) as [t|]; [|eauto].
  rewrite first_at_since. destruct (first_at _ _) as [i|].
  - rewrite drop_drop. eauto.
  - exists (length (view (matches_of q) J)). by rewrite drop_nil, drop_all.
Qed.

Lemma cursor_index_unique V k e :
  NoDup (re_cursor <$> V) -> V !! k = Some e -> cursor_index (re_cursor e) V = Some k.
Proof.
  revert k. induction V as [|e' V IH]; intros k; simpl; [done|].
  intros [Hnot Hnd]%NoDup_cons. destruct k as [|k]; simpl; intros Hk.
  - injection Hk as ->. by rewrite bool_decide_eq_true_2.
  - rewrite bool_decide_eq_false_2; [by rewrite (IH k)|]. intros E. apply Hnot.
    rewrite E. apply list_elem_of_fmap_2. by eapply list_elem_of_lookup_2.
Qed.

Lemma elem_of_view ms J e : e ∈ view ms J -> e ∈ J.
Proof. rewrite !list_elem_of_In. by intros [H _]%List.filter_In. Qed.

Lemma NoDup_view ms J : NoDup (re_cursor <$> J) -> NoDup (re_cursor <$> view ms J).
Proof.
  induction J as [|e J IH]; simpl; [done|]. intros [Hnot Hnd]%NoDup_cons.
  destruct (forallb _ ms); simpl; [|auto]. apply NoDup_cons. split; [|auto].
  intros (e' & E & Hin)%list_elem_of_fmap. apply Hnot. rewrite E. apply list_elem_of_fmap_2.
  by eapply elem_of_view.
Qed.

Lemma decode_cursor e o : decode e = Some o -> je_cursor (obs_value o) = re_cursor e.
Proof.
  unfold decode, journalEntryFromFields. destruct (int64 _) as [ns|]; [|done]. simpl.
  intros [= <-]. unfold note_message. by case_match.
Qed.

(** Every entry has a cursor of its own, a C string. *)
Definition cursors_ok (J : list raw_entry) : Prop :=
  NoDup (re_cursor <$> J) /\ forall e, e ∈ J -> c_str (re_cursor e) = re_cursor e.

Lemma cursors_ok_prefix J J' : J `prefix_of` J' -> cursors_ok J' -> cursors_ok J.
Proof.
  intros [K ->] [Hnd Hc]. rewrite fmap_app in Hnd. apply NoDup_app in Hnd as [Hnd _].
  split; [done|]. intros e He. apply Hc, elem_of_app. by left.
Qed.

(** Where following goes on: behind the initial entries, or, when there are none, behind
the entries there are when the tail is sought a second time. *)
Lemma goes_position J J1 h a os tr J' h' :
  J1 `prefix_of` J -> cursors_ok J' -> Forall2 (fun e o => decode e = Some o) (drop a (view (h_matches h) J1)) os ->
  goes J h (positionAfterInitial (obs_value <$> os)) tr (Success tt) J' h' ->
  h_matches h' = h_matches h /\
  exists b, drop b (view (h_matches h) J1) = drop a (view (h_matches h) J1) /\ waiting J' h' (b + length os).
Proof.
  intros HJ Hc Hos. unfold positionAfterInitial. rewrite fmap_last.
  destruct (last os) as [o|] eqn:Hlast; simpl.
  - intros (t1 & s & t2 & J2 & h2 & -> & H1 & G)%goes_bindR.
    apply goes_checked in H1 as (-> & Hs & J3 & P1 & S1 & P2). cbn [serve] in S1.
    rewrite on_status_ok in S1 by done. injection S1 as <-.
    apply goes_bindR in G as (t3 & s2 & t4 & J4 & h4 & -> & H2 & G).
    apply goes_checked in H2 as (-> & Hs2 & J5 & P3 & S2 & P4).
    apply goes_ret in G as (-> & E & -> & P5).
    destruct (Z.eqb_spec s2 0) as [|Hn]; [done|].
    cbn [serve h_matches h_position] in S2.
    assert (He : exists e, view (h_matches h) J1 !! (a + length os - 1)%nat = Some e /\ decode e = Some o /\
              (0 < length os)%nat).
    { rewrite last_lookup in Hlast. assert (Hl := Hlast). apply lookup_lt_Some in Hl.
      destruct (Forall2_lookup_r _ _ _ _ _ Hos Hlast) as (e & He & Hd).
      rewrite lookup_drop in He. exists e. split_and!; [|done|lia].
      rewrite <- He. f_equal. lia. }
    destruct He as (e & He & Hd & Hlen).
    assert (Hin : e ∈ J').
    { assert (P6 : J1 `prefix_of` J') by growing.
      apply (prefix_lookup_Some _ (view (h_matches h) J')), list_elem_of_lookup_2 in He; [|by apply view_prefix].
      by eapply elem_of_view. }
    rewrite (decode_cursor e o Hd), (proj2 Hc e Hin) in S2.
    assert (P6 : J1 `prefix_of` J3) by growing. assert (P7 : J3 `prefix_of` J') by growing.
    rewrite (cursor_index_unique (view (h_matches h) J3) (a + length os - 1)) in S2.
    + apply move_to in S2 as (k & Hk & ->); [|done..]. simpl in Hk.
      case_decide; [|done]. injection Hk as <-. split; [done|]. exists a. split; [done|]. right.
      exists (a + length os - 1)%nat, e. split; [split; [done|]|lia].
      eapply prefix_lookup_Some; [exact He|]. apply view_prefix. growing.
    + by apply NoDup_view, (cursors_ok_prefix J3 J').
    + eapply prefix_lookup_Some; [exact He|]. by apply view_prefix.
  - intros (t1 & s & t2 & J2 & h2 & -> & H1 & G)%goes_bindR.
    apply goes_checked in H1 as (-> & Hs & J3 & P1 & S1 & P2). cbn [serve] in S1.
    rewrite on_status_ok in S1 by done. injection S1 as <-.
    apply goes_ret in G as (-> & _ & -> & P3). split; [done|].
    apply last_None in Hlast as ->. inversion Hos as [E|]. exists (length (view (h_matches h) J3)).
    split; [|left; by rewrite Nat.add_0_r].
    apply drop_ge, prefix_length, view_prefix. growing.
Qed.

Lemma goes_send_initial J h ws entries tr r J' h' :
  goes J h (send_initial ws entries) tr r J' h' ->
  h' = h /\ J `prefix_of` J' /\
  exists m, sunk tr = take m entries /\ (r = Success tt -> sunk tr = entries).
Proof.
  revert J ws tr. induction entries as [|x entries IH]; intros J ws tr; cbn [send_initial].
  { intros (-> & -> & -> & P)%goes_ret. split_and!; [done|done|]. by exists O. }
  intros (t1 & stop & t2 & J1 & h1 & -> & H1 & G)%goes_bind.
  apply goes_trigger in H1 as (-> & J2 & P1 & S1 & P2). injection S1 as <-. destruct stop.
  { apply goes_ret in G as (-> & -> & -> & P3). split_and!; [done|growing|]. by exists O. }
  apply goes_bind in G as (t3 & u & t4 & J3 & h3 & -> & H3 & G).
  apply goes_trigger in H3 as (-> & J4 & P4 & S4 & P5). injection S4 as <-. destruct u as [u|error].
  - apply IH in G as (-> & P6 & m & Hm & Hall). split_and!; [done|growing|].
    exists (S m). rewrite !sunk_app, Hm. split; [done|]. intros Hr.
    simpl. by rewrite <- Hm, Hall.
  - apply goes_ret in G as (-> & -> & -> & P6). split_and!; [done|growing|]. by exists 1%nat.
Qed.

Lemma stretch_take ms J a es m : stretch ms J a es -> stretch ms J a (take m es).
Proof.
  unfold stretch. intros H. apply (Forall2_take _ _ _ m) in H. rewrite length_take.
  by rewrite take_take in H.
Qed.

Lemma stretch_whole ms J a es :
  Forall2 (fun e o => decode e = Some o) (drop a (view ms J)) es -> stretch ms J a es.
Proof. intros H. unfold stretch. by rewrite <- (Forall2_length _ _ _ H), firstn_all. Qed.

(** What following hands over, when the queries are configured on a fresh handle. *)
Lemma goes_follow_body J h q tr r J' h' :
  h_matches h = [] -> cursors_ok J' ->
  goes J h (_ <-? configureJournal q ;;
            initial <-? initial_query rounds q ;;
            _ <-? positionAfterInitial (obs_value initial) ;;
            _ <-? send_initial (obs_warnings initial) (obs_value initial) ;;
            follow_loop rounds rounds) tr r J' h' ->
  exists a es, stretch (matches_of q) J' a es /\ sunk tr = obs_value <$> es /\
    (es <> [] -> exists J1, J `prefix_of` J1 /\ J1 `prefix_of` J' /\
       selected q J1 = drop a (view (matches_of q) J1)).
Proof.
  intros Hm0 Hc (t1 & r1 & t2 & J1 & h1 & -> & H1 & G)%goes_bind.
  assert (N1 : sunk t1 = []) by (eapply sunk_nil, H1; apply no_callback_configure).
  rewrite sunk_app, N1. destruct r1 as [[]|error].
  2:{ apply goes_ret in G as (-> & _). exists O, []. split_and!; [apply stretch_nil|done|done]. }
  apply goes_configure in H1 as (Hm & _ & P1). rewrite Hm0 in Hm. simpl in Hm.
  apply goes_bind in G as (t3 & r3 & t4 & J2 & h2 & -> & H2 & G).
  assert (N2 : sunk t3 = []) by (eapply sunk_nil, H2; apply no_callback_initial).
  rewrite sunk_app, N2. destruct r3 as [o|error].
  2:{ apply goes_ret in G as (-> & _). exists O, []. split_and!; [apply stretch_nil|done|done]. }
  apply goes_initial_query in H2 as (_ & Hm2 & J3 & os & P2 & P3 & Hos & ->); [|done].
  rewrite appendEntries_value in G.
  destruct (selected_drop q J3) as [a Ha]. rewrite Ha in Hos.
  assert (P9 := goes_prefix _ _ _ _ _ _ _ G).
  apply goes_bind in G as (t5 & r5 & t6 & J4 & h4 & -> & H5 & G).
  assert (N3 : sunk t5 = []) by (eapply sunk_nil, H5; apply no_callback_position).
  rewrite sunk_app, N3. destruct r5 as [[]|error].
  2:{ apply goes_ret in G as (-> & _). exists O, []. split_and!; [apply stretch_nil|done|done]. }
  assert (P10 := goes_prefix _ _ _ _ _ _ _ G). assert (P11 := goes_prefix _ _ _ _ _ _ _ H5).
  rewrite <- Hm2 in Hos. assert (Hc4 := cursors_ok_prefix _ _ P10 Hc).
  apply (goes_position _ _ _ _ _ _ _ _ P3 Hc4 Hos) in H5 as [Hm4 (b & Hb & Hw)].
  rewrite <- Hb in Hos. rewrite Hm2 in Hb. rewrite <- Hb in Ha. clear a Hb. rename b into a.
  assert (Hst : stretch (matches_of q) J' a os).
  { rewrite <- Hm2. eapply stretch_grow; [|by apply stretch_whole]. growing. }
  exists a. apply goes_bind in G as (t7 & r7 & t8 & J5 & h5 & -> & H6 & G).
  apply goes_send_initial in H6 as (-> & P12 & m & Hs & Hall). rewrite sunk_app.
  assert (Hsel : exists J1', J `prefix_of` J1' /\ J1' `prefix_of` J' /\
            selected q J1' = drop a (view (matches_of q) J1')).
  { exists J3. split_and!; [growing..|done]. }
  destruct r7 as [[]|error].
  - apply (goes_follow_loop _ _ _ (a + length os)) in G as (es & Hes & N); [|by eapply waiting_grow].
    rewrite Hm4, Hm2 in Hes. exists (os ++ es). rewrite (Hall eq_refl), N, fmap_app.
    split_and!; [by apply stretch_app|done|done].
  - apply goes_ret in G as (-> & _). exists (take m os). rewrite Hs, app_nil_r, fmap_take.
    split_and!; [by apply stretch_take|done|done].
Qed.
End Following.

(** ** A simulated journal, for the examples *)

Record journal_machine := mkJournalMachine {
  jm_entries : list raw_entry; jm_handle : handle; jm_stops : list bool }.

Definition one_if (target : option nat) : Z := match target with Some _ => 1 | None => 0 end.

Definition journal_answer {X} (e : journalE X) (m : journal_machine) : option X :=
  let V := view (h_matches (jm_handle m)) (jm_entries m) in
  let p := h_position (jm_handle m) in
  match e in journalE X return option X with
  | JournalOpen => Some (0, Some 1)
  | JournalClose _ => Some tt
  | SetDataThreshold _ | AddMatch _ | SeekTail | SeekRealtimeUsec _ | SeekCursor _ | JournalWait _ => Some 0
  | Next => Some (one_if (next_of V p))
  | Previous => Some (one_if (previous_of V p))
  | GetRealtimeUsec => (fun e => (0, re_usec e)) <$> current V p
  | GetCursor => (fun e => (0, Some (re_cursor e))) <$> current V p
  | GetData f =>
      (fun e => match field_value f e with
                | Some v => (0, Some (f ++ "="%char :: v))
                | None => (- ENOENT, None)
                end) <$> current V p
  | Sink _ => Some (Success tt)
  | StopRequested => Some (match jm_stops m with b :: _ => b | [] => true end)
  | JournalUndefined | JournalForever => None
  end.

Definition journal_sim (X : Type) (e : journalE X) (m : journal_machine) : option (X * journal_machine) :=
  x ← journal_answer e m;
  h ← serve (jm_entries m) (jm_handle m) (Ev e x);
  Some (x, mkJournalMachine (jm_entries m) h
             match e with StopRequested => tail (jm_stops m) | _ => jm_stops m end).

Lemma journal_sim_step X (e : journalE X) m x m1 :
  journal_sim X e m = Some (x, m1) ->
  serve (jm_entries m) (jm_handle m) (Ev e x) = Some (jm_handle m1) /\ jm_entries m1 = jm_entries m.
Proof.
  unfold journal_sim. destruct (journal_answer e m) as [y|]; [|done]. cbn [mbind option_bind].
  destruct (serve (jm_entries m) (jm_handle m) (Ev e y)) as [h|] eqn:Hs; [|done].
  cbn [mbind option_bind]. intros [= -> <-]. done.
Qed.

Lemma journal_sim_served {A} (t : prog journalE A) m a tr m' :
  exec journal_sim t m = Some (a, tr, m') ->
  served (jm_entries m) (jm_handle m) tr (jm_entries m') (jm_handle m').
Proof.
  revert m tr. induction t as [b|X e k IH]; intros m tr; simpl; [intros [= _ <- <-]; constructor|].
  destruct (journal_sim X e m) as [[x m1]|] eqn:E; [|done].
  destruct (exec journal_sim (k x) m1) as [[[b tr'] m2]|] eqn:E2; [|done].
  intros [= -> <- ->]. apply IH in E2. apply journal_sim_step in E as [Hs Hj]. rewrite Hj in E2.
  by eapply served_call.
Qed.

Definition web_entry (usec : Z) (cursor pid message : str) : raw_entry :=
  mkRaw usec cursor [($"_SYSTEMD_UNIT", $"web.service"); ($"_PID", pid); ($"MESSAGE", message);
                     ($"PRIORITY", $"6")].
Definition journal_machine_1 : journal_machine :=
  mkJournalMachine
    [web_entry 1000000 $"c1" $"300" $"started";
     mkRaw 2000000 $"c2" [($"_SYSTEMD_UNIT", $"db.service"); ($"MESSAGE", $"ready")];
     web_entry 3000000 $"c3" $"x" $"listening"; web_entry 4000000 $"c4" $"301" $"ready"]
    (mkHandle [] (Before 0)) [false; false; true].

(** ** Queries are refined by selections *)


(** C37. A query of the journal adapter is the selection of the journal as it was
at some moment between the start and the end of the run, even if entries arrive
meanwhile: the last [limit] entries that satisfy the matches (and are not before
the time asked for), each shown with its own warnings, in the order of the
journal. *)
Theorem query_refines_selection {messages : Messages} rounds q J h tr o J' h' :
  runs (query_ rounds q) tr (Success o) -> served J h tr J' h' ->
  exists J1 es, J `prefix_of` J1 /\ J1 `prefix_of` J' /\
    Forall2 (fun e o => decode e = Some o) (selected q J1) es /\ o = appendEntries es.
Proof.
  intros Hr Hs. destruct (goes_with_journal J h _ tr (Success o) J' h' (conj Hr Hs))
    as [(error & ? & _)|(tr1 & J1 & J2 & h2 & P1 & G & P2 & _)]; [done|].
  apply goes_bindR in G as (t1 & u & t2 & J3 & h3 & -> & Hc & G). destruct u.
  apply goes_configure in Hc as (Hm & _ & P3).
  apply goes_initial_query in G as (_ & _ & J4 & es & P4 & P5 & Hes & ->); [|done].
  exists J4, es. split_and!; [growing..|done|done].
Qed.

Lemma query_refines_selection_witness :
  exists tr o,
    runs (query_ (messages := plain_messages) 10 (mkLogQuery (Some $"web.service") None None 2 false)) tr (Success o) /\
    map je_cursor (obs_value o) = [$"c3"; $"c4"] /\ length (obs_warnings o) = 1%nat.
Proof.
  destruct (exec journal_sim
    (query_ (messages := plain_messages) 10 (mkLogQuery (Some $"web.service") None None 2 false))
    journal_machine_1) as [[[r tr] m]|] eqn:E; [|vm_compute in E; congruence].
  assert (Hr := exec_runs _ _ _ _ _ _ E). apply journal_sim_served in E as Hs.
  destruct r as [o|error]; [|vm_compute in E; congruence].
  exists tr, o. split; [done|].
  destruct (query_refines_selection (messages := plain_messages) 10 _ _ _ _ o _ _ Hr Hs)
    as (J1 & es & P1 & P2 & Hes & ->).
  assert (Ej : jm_entries m = jm_entries journal_machine_1) by (vm_compute in E; by injection E as _ _ <-).
  rewrite Ej in P2. assert (J1 = jm_entries journal_machine_1) as -> by (by apply (anti_symm prefix)).
  apply mapM_Some in Hes. clear -Hes. vm_compute in Hes. injection Hes as <-.
  by vm_compute.
Defined.

Lemma follow_stretch {messages : Messages} rounds has_sink has_stop q J h tr r J' h' :
  runs (follow rounds has_sink has_stop q) tr r -> served J h tr J' h' -> cursors_ok J' ->
  exists a es, stretch (matches_of q) J' a es /\ sunk tr = obs_value <$> es /\
    (es <> [] -> exists J1, J `prefix_of` J1 /\ J1 `prefix_of` J' /\
       selected q J1 = drop a (view (matches_of q) J1)).
Proof.
  intros Hr Hs Hc. unfold follow in Hr. destruct (negb has_sink || negb has_stop).
  { apply runs_ret in Hr as [-> _]. exists O, []. split_and!; [apply stretch_nil|done|done]. }
  destruct (goes_with_journal J h _ tr r J' h' (conj Hr Hs))
    as [(error & _ & N)|(tr1 & J1 & J2 & h2 & P1 & G & P2 & N)]; rewrite N.
  { exists O, []. split_and!; [apply stretch_nil|done|done]. }
  apply goes_follow_body in G as (a & es & Hst & Hsunk & Hsel); [|done|by eapply cursors_ok_prefix].
  exists a, es. split_and!; [by eapply stretch_grow|done|].
  intros Hne. destruct (Hsel Hne) as (J3 & P3 & P4 & E). exists J3. split_and!; [growing..|done].
Qed.



(** ** What arrives between the initial query and the second seek

A journal that grows by one entry at every move backwards, and at every wait. *)
Definition growing_sim (X : Type) (e : journalE X) (s : journal_machine * list raw_entry) :
    option (X * (journal_machine * list raw_entry)) :=
  let grows := match e with Previous | JournalWait _ => true | _ => false end in
  x ← journal_sim X e s.1;
  let m := x.2 in
  Some (x.1, if grows then
    (mkJournalMachine (jm_entries m ++ option_list (head s.2)) (jm_handle m) (jm_stops m), tail s.2)
  else (m, s.2)).

Lemma growing_sim_served {A} (t : prog journalE A) s a tr s' :
  exec growing_sim t s = Some (a, tr, s') ->
  served (jm_entries s.1) (jm_handle s.1) tr (jm_entries s'.1) (jm_handle s'.1).
Proof.
  revert s tr. induction t as [b|X e k IH]; intros s tr; cbn [exec]; [intros [= _ <- <-]; constructor|].
  unfold growing_sim at 1. destruct (journal_sim X e s.1) as [[x m]|] eqn:E; [|done]. cbn [mbind option_bind fst snd].
  apply journal_sim_step in E as [Hs Hj].
  match goal with |- context [exec _ (k x) ?s1] => set (s1' := s1) end.
  destruct (exec growing_sim (k x) s1') as [[[b tr'] s2]|] eqn:E; [|done]. intros [= -> <- ->].
  apply IH in E. eapply served_call; [exact Hs|]. rewrite <- Hj.
  destruct (match e with Previous | JournalWait _ => true | _ => false end); [|exact E].
  eapply served_grow, E.
Qed.

(** The journal is empty when its initial entries are read; [c1] arrives before the tail
is sought again, [c2] after: only [c2] is ever shown. *)
Lemma entry_lost_before_second_seek {messages : Messages} :
  exists tr r J' h', runs (follow 10 true true (mkLogQuery (Some $"web.service") None None 2 true)) tr r /\
    served [] (mkHandle [] (Before 0)) tr J' h' /\
    J' = [web_entry 1 $"c1" $"300" $"lost"; web_entry 2 $"c2" $"300" $"shown"] /\
    je_message <$> sunk tr = [$"shown"].
Proof.
  set (s := (mkJournalMachine [] (mkHandle [] (Before 0)) [false; false; false; true],
    [web_entry 1 $"c1" $"300" $"lost"; web_entry 2 $"c2" $"300" $"shown"])).
  set (t := follow 10 true true (mkLogQuery (Some $"web.service") None None 2 true)).
  assert (E : (fun x => (jm_entries x.2.1, je_message <$> sunk x.1.2)) <$> exec growing_sim t s =
    Some (s.2, [$"shown"])) by (vm_compute; reflexivity).
  destruct (exec growing_sim t s) as [[[r tr] s']|] eqn:Ex; [|discriminate]. injection E as Ej Es.
  exists tr, r, (jm_entries s'.1), (jm_handle s'.1). split_and!; [|by apply growing_sim_served in Ex|exact Ej|exact Es].
  by eapply exec_runs.
Qed.
