(* ===== verification/SystemdServiceProvider.v ===== *)
(** * The service adapter ([src/linux/systemd/])

[SystemdMessageParser] and [SystemdServiceProvider]: the manager of systemd over
D-Bus.  One constructor of [busE] per use of a libsystemd function; a connection
is closed when its scope ends.  References to messages and the memory of errors
are not modelled. *)

From S2P Require Import Prelude CppStd CppString Prog Domain OsCalls.
From Stdlib Require Import Ascii.

(** [sd_bus_error]: both pointers may be null. *)
Record bus_error := mkBusError { be_name : option str; be_message : option str }.
Definition no_bus_error : bus_error := mkBusError None None.

Inductive bus_arg := ArgString (s : str) | ArgUint32 (n : Z).

(** A unit as [ListUnits] describes it ("ssssssouso"); null pointers are [None]. *)
Record unit_fields := mkUnitFields {
  uf_name : option str; uf_description : option str; uf_loadState : option str;
  uf_activeState : option str; uf_subState : option str; uf_following : option str;
  uf_objectPath : option str; uf_jobId : Z; uf_jobType : option str; uf_jobPath : option str;
}.

Variant busE : Type -> Type :=
| BusOpenSystem : busE Z
| BusUnref : busE unit
(* of the manager: status, error, whether there is a reply *)
| CallMethod (method : str) (args : list bus_arg) : busE (Z * bus_error * bool)
| GetManagerProperty (property : str) : busE (Z * bus_error)
| GetPropertyString (path interface property : str) : busE (Z * bus_error * option str)
| GetPropertyTrivial (path interface property : str) : busE (Z * bus_error * Z)
(* sd_bus_message_read of one string or object path *)
| MessageRead (type : ascii) : busE (Z * option str)
| EnterArray : busE Z
| EnterStruct : busE Z
| ExitContainer : busE Z
| ReadUnit : busE (Z * unit_fields)
| BusForever : busE Empty_set.

Definition bus_forever {A} : prog busE A := Vis BusForever (fun e : Empty_set => match e with end).
Lemma runs_bus_forever {A} tr (a : A) : ~ runs bus_forever tr a.
Proof. by intros ([] & _). Qed.

Definition ETIMEDOUT : Z := 110.
Definition ENOTCONN : Z := 107.
Definition ECONNREFUSED : Z := 111.

(** ** SystemdMessageParser.cpp *)

Definition parseFailure {A} (message : str) : Result A :=
  Failure (mkError ProtocolError message 0 $"systemd" $"parse ListUnits").

Definition service_suffix : str := $".service".
Definition isService (value : str) : bool :=
  (length service_suffix <? length value)%nat &&
  bool_decide (drop (length value - length service_suffix) value = service_suffix).

Record SystemdUnitRecord := mkUnitRecord {
  ur_name : str; ur_description : str; ur_loadState : str; ur_activeState : str; ur_subState : str }.

Definition serviceFromUnitRecord (record : SystemdUnitRecord) : option ServiceInfo :=
  if negb (isService (ur_name record)) then None
  else Some (mkServiceInfo (ur_name record) (ur_description record) (ur_loadState record)
               (ur_activeState record) (ur_subState record) [] None 0).

(** A null pointer reads as the empty string. *)
Definition record_of (f : unit_fields) : SystemdUnitRecord :=
  mkUnitRecord (default [] (uf_name f)) (default [] (uf_description f)) (default [] (uf_loadState f))
    (default [] (uf_activeState f)) (default [] (uf_subState f)).

Section Provider.
Context {messages : Messages}.
(** How many units a reply may hold before reading it counts as endless. *)
Context (units : nat).

Fixpoint units_loop (fuel : nat) (services : list ServiceInfo) : prog busE (Result (list ServiceInfo)) :=
  match fuel with
  | O => bus_forever
  | S fuel' =>
      status <- trigger EnterStruct ;;
      if 0 <? status then
        record <- trigger ReadUnit ;;
        if record.1 <? 0 then Ret (parseFailure $"Unable to decode a ListUnits record")
        else
          exited <- trigger ExitContainer ;;
          if exited <? 0 then Ret (parseFailure $"Malformed ListUnits unit record")
          else units_loop fuel' (services ++ option_list (serviceFromUnitRecord (record_of record.2)))
      else if status <? 0 then Ret (parseFailure $"Malformed ListUnits response")
      else
        exited <- trigger ExitContainer ;;
        Ret (if exited <? 0 then parseFailure $"Malformed ListUnits response" else Success services)
  end.

(** [has_message]: the pointer is not null. *)
Definition parseListUnitsMessage (has_message : bool) : prog busE (Result (list ServiceInfo)) :=
  if negb has_message then Ret (parseFailure $"ListUnits returned no message")
  else
    status <- trigger EnterArray ;;
    if status <? 0 then Ret (parseFailure $"ListUnits response is not an array of units")
    else units_loop units [].

(** ** SdBus.cpp, SystemdServiceProvider.cpp *)

Definition openError (status : Z) : Error :=
  let number := Z.abs status in
  let code := if (number =? EACCES) || (number =? EPERM) then PermissionDenied else Unavailable in
  mkError code ($"Unable to open the system bus: " ++ system_message number) number
    $"sd-bus" $"open system bus".

Definition unitInterface : str := $"org.freedesktop.systemd1.Unit".
Definition serviceInterface : str := $"org.freedesktop.systemd1.Service".

(** [sd_bus_error_has_name] *)
Definition has_name (error : bus_error) (name : str) : bool := bool_decide (be_name error = Some name).

Definition bus_code (error : bus_error) (number : Z) : ErrorCode :=
  if (number =? EACCES) || (number =? EPERM) ||
     has_name error $"org.freedesktop.DBus.Error.AccessDenied" then PermissionDenied
  else if (number =? ETIMEDOUT) || has_name error $"org.freedesktop.DBus.Error.NoReply" then Timeout
  else if (number =? ENOENT) || has_name error $"org.freedesktop.systemd1.NoSuchUnit" ||
          has_name error $"org.freedesktop.systemd1.NoUnitForPID" then NotFound
  else if (number =? ECONNREFUSED) || (number =? ENOTCONN) ||
          has_name error $"org.freedesktop.DBus.Error.ServiceUnknown" ||
          has_name error $"org.freedesktop.DBus.Error.NameHasNoOwner" then Unavailable
  else OperationFailed.

Definition busError (error : bus_error) (status : Z) (operation : str) : Error :=
  let number := Z.abs status in
  let message :=
    match be_message error with
    | Some text => text
    | None => if negb (number =? 0) then system_message number else $"systemd D-Bus operation failed"
    end in
  mkError (bus_code error number) message number $"systemd" operation.

(** A method of the manager that answers with one string. *)
Definition getUnitPath (unit : str) : prog busE (Result str) :=
  reply <- trigger (CallMethod $"GetUnit" [ArgString (c_str unit)]) ;;
  if reply.1.1 <? 0 then Ret (Failure (busError reply.1.2 reply.1.1 $"get unit"))
  else
    path <- trigger (MessageRead "o"%char) ;;
    Ret (match path with
         | (status, Some path) =>
             if status <? 0 then
               Failure (mkError ProtocolError $"GetUnit returned no object path" 0 $"systemd" $"get unit")
             else Success path
         | (_, None) =>
             Failure (mkError ProtocolError $"GetUnit returned no object path" 0 $"systemd" $"get unit")
         end).

Definition stringProperty (path interface property : str) : prog busE (Result str) :=
  answer <- trigger (GetPropertyString (c_str path) interface property) ;;
  Ret (if answer.1.1 <? 0 then Failure (busError answer.1.2 answer.1.1 $"read service property")
       else Success (default [] answer.2)).

Definition trivialProperty (path interface property : str) : prog busE (Result Z) :=
  answer <- trigger (GetPropertyTrivial (c_str path) interface property) ;;
  Ret (if answer.1.1 <? 0 then Failure (busError answer.1.2 answer.1.1 $"read service property")
       else Success answer.2).

Definition unitFileState (unit : str) : prog busE (Result str) :=
  reply <- trigger (CallMethod $"GetUnitFileState" [ArgString (c_str unit)]) ;;
  if reply.1.1 <? 0 then Ret (Failure (busError reply.1.2 reply.1.1 $"get unit file state"))
  else
    state <- trigger (MessageRead "s"%char) ;;
    Ret (match state with
         | (status, Some state) =>
             if status <? 0 then
               Failure (mkError ProtocolError $"GetUnitFileState returned no state" 0 $"systemd"
                          $"get unit file state")
             else Success state
         | (_, None) =>
             Failure (mkError ProtocolError $"GetUnitFileState returned no state" 0 $"systemd"
                        $"get unit file state")
         end).

(** The connection is closed when the scope of [body] ends. *)
Definition with_bus {A} (body : prog busE (Result A)) : prog busE (Result A) :=
  status <- trigger BusOpenSystem ;;
  if status <? 0 then Ret (Failure (openError status))
  else
    result <- body ;;
    trigger BusUnref ;;
    Ret result.

Definition controlUnit (unit method operation : str) : prog busE (Result Datatypes.unit) :=
  with_bus
    (reply <- trigger (CallMethod method [ArgString (c_str unit); ArgString $"replace"]) ;;
     if reply.1.1 <? 0 then Ret (Failure (busError reply.1.2 reply.1.1 operation))
     else
       job <- trigger (MessageRead "o"%char) ;;
       Ret (match job with
            | (status, Some _) =>
                if status <? 0 then
                  Failure (mkError ProtocolError $"systemd returned no job object path" 0 $"systemd" operation)
                else Success tt
            | (_, None) =>
                Failure (mkError ProtocolError $"systemd returned no job object path" 0 $"systemd" operation)
            end)).

Definition probe : prog busE (Result unit) :=
  with_bus
    (answer <- trigger (GetManagerProperty $"Version") ;;
     Ret (if answer.1 <? 0 then Failure (busError answer.2 answer.1 $"probe") else Success tt)).

Definition set_unitFileState (state : str) (s : ServiceInfo) : ServiceInfo :=
  mkServiceInfo (svc_unitName s) (svc_description s) (svc_loadState s) (svc_activeState s)
    (svc_subState s) state (svc_mainPid s) (svc_activeEnterTimestampUsec s).
Definition set_mainPid (pid : option Z) (s : ServiceInfo) : ServiceInfo :=
  mkServiceInfo (svc_unitName s) (svc_description s) (svc_loadState s) (svc_activeState s)
    (svc_subState s) (svc_unitFileState s) pid (svc_activeEnterTimestampUsec s).

(** [static_cast<pid_t>] of a [uint32_t]. *)
Definition to_pid (n : Z) : Z := if n <=? PID_MAX then n else n - 2 ^ 32.

(** One turn of the loop of [list]: the service completed, and its warnings. *)
Definition complete (service : ServiceInfo) : prog busE (ServiceInfo * list Warning) :=
  fileState <- unitFileState (svc_unitName service) ;;
  let '(service, warnings) :=
    match fileState with
    | Success state => (set_unitFileState state service, [])
    | Failure error =>
        (service, if negb (bool_decide (err_code error = NotFound)) then [warningFrom error] else [])
    end in
  path <- getUnitPath (svc_unitName service) ;;
  match path with
  | Failure error => Ret (service, warnings ++ [warningFrom error])
  | Success path =>
      mainPid <- trivialProperty path serviceInterface $"MainPID" ;;
      Ret (match mainPid with
           | Success pid =>
               (if negb (pid =? 0) then set_mainPid (Some (to_pid pid)) service else service, warnings)
           | Failure error => (service, warnings ++ [warningFrom error])
           end)
  end.

Definition complete_step (observation : Observation (list ServiceInfo)) (service : ServiceInfo) :
  prog busE (Observation (list ServiceInfo)) :=
  completed <- complete service ;;
  Ret (Observed (obs_value observation ++ [completed.1]) (obs_warnings observation ++ completed.2)).

Definition list_ : prog busE (Result (Observation (list ServiceInfo))) :=
  with_bus
    (reply <- trigger (CallMethod $"ListUnits" []) ;;
     if reply.1.1 <? 0 then Ret (Failure (busError reply.1.2 reply.1.1 $"list services"))
     else
       parsed <-? parseListUnitsMessage reply.2 ;;
       observation <- for_each complete_step parsed (Observed [] []) ;;
       Ret (Success observation)).

(** A value, or the warning that it could not be read. *)
Definition or_warning {A} (answer : Result A) : list Warning :=
  match answer with Success _ => [] | Failure error => [warningFrom error] end.
Definition success {A} (answer : Result A) : option A :=
  match answer with Success value => Some value | Failure _ => None end.

(** The four properties are read before the first failure is reported. *)
Definition get (unit : str) : prog busE (Result (Observation ServiceInfo)) :=
  with_bus
    (path <-? getUnitPath unit ;;
     description <- stringProperty path unitInterface $"Description" ;;
     loadState <- stringProperty path unitInterface $"LoadState" ;;
     activeState <- stringProperty path unitInterface $"ActiveState" ;;
     subState <- stringProperty path unitInterface $"SubState" ;;
     match description, loadState, activeState, subState with
     | Failure error, _, _, _ | Success _, Failure error, _, _
     | Success _, Success _, Failure error, _ | Success _, Success _, Success _, Failure error =>
         Ret (Failure error)
     | Success description, Success loadState, Success activeState, Success subState =>
         fileState <- unitFileState unit ;;
         mainPid <- trivialProperty path serviceInterface $"MainPID" ;;
         timestamp <- trivialProperty path unitInterface $"ActiveEnterTimestamp" ;;
         Ret (Success (Observed
           (mkServiceInfo unit description loadState activeState subState
              (default [] (success fileState))
              (pid ← success mainPid; if negb (pid =? 0) then Some (to_pid pid) else None)
              (default 0 (success timestamp)))
           (or_warning fileState ++ or_warning mainPid ++ or_warning timestamp)))
     end).

Definition unitByPid (pid : Z) : prog busE (Result (option str)) :=
  if pid <=? 0 then
    Ret (Failure (mkError InvalidArgument $"PID must be greater than zero" 0 $"systemd" $"resolve PID"))
  else
    with_bus
      (reply <- trigger (CallMethod $"GetUnitByPID" [ArgUint32 pid]) ;;
       if reply.1.1 <? 0 then
         let mapped := busError reply.1.2 reply.1.1 $"resolve PID" in
         Ret (if bool_decide (err_code mapped = NotFound) then Success None else Failure mapped)
       else
         path <- trigger (MessageRead "o"%char) ;;
         let no_path := Failure (mkError ProtocolError $"GetUnitByPID returned no object path" 0
                                   $"systemd" $"resolve PID") in
         match path with
         | (status, Some path) =>
             if status <? 0 then Ret no_path
             else
               id <- stringProperty path unitInterface $"Id" ;;
               Ret (match id with
                    | Failure error =>
                        if bool_decide (err_code error = NotFound) then Success None else Failure error
                    | Success id => Success (if isService id then Some id else None)
                    end)
         | (_, None) => Ret no_path
         end).

Definition start (unit : str) : prog busE (Result Datatypes.unit) :=
  controlUnit unit $"StartUnit" $"start service".
Definition stop (unit : str) : prog busE (Result Datatypes.unit) :=
  controlUnit unit $"StopUnit" $"stop service".
Definition restart (unit : str) : prog busE (Result Datatypes.unit) :=
  controlUnit unit $"RestartUnit" $"restart service".
End Provider.

(** ** UnavailableServiceProvider.cpp, UnavailableJournalProvider.cpp

The providers of a build without libsystemd: every operation fails. *)

Definition unavailable (component reason operation : str) : Error :=
  mkError Unavailable reason 0 component operation.

Inductive service_operation := OpProbe | OpList | OpGet | OpUnitByPid | OpStart | OpStop | OpRestart.
Definition service_operation_name (op : service_operation) : str :=
  match op with
  | OpProbe => $"probe" | OpList => $"list services" | OpGet => $"get service"
  | OpUnitByPid => $"resolve PID" | OpStart => $"start service" | OpStop => $"stop service"
  | OpRestart => $"restart service"
  end.
Definition unavailable_service {A} (reason : str) (op : service_operation) : Result A :=
  Failure (unavailable $"systemd" reason (service_operation_name op)).

Inductive journal_operation := OpJournalProbe | OpQuery | OpFollow.
Definition journal_operation_name (op : journal_operation) : str :=
  match op with OpJournalProbe => $"probe" | OpQuery => $"query" | OpFollow => $"follow" end.
Definition unavailable_journal {A} (reason : str) (op : journal_operation) : Result A :=
  Failure (unavailable $"journal" reason (journal_operation_name op)).

(** ** Facts *)

(** The unit records a run decoded. *)
Definition unit_of (ev : event busE) : option unit_fields :=
  match ev with
  | Ev e x => match e in busE X return X -> option unit_fields with
              | ReadUnit => fun a => if a.1 <? 0 then None else Some a.2
              | _ => fun _ => None
              end x
  end.
Definition units_read (tr : trace busE) : list unit_fields := omap unit_of tr.

(** The jobs a run asked the manager for: the method and the unit. *)
Definition bus_job_of (ev : event busE) : option (str * str) :=
  match ev with
  | Ev e _ => match e with
              | CallMethod method [ArgString unit; ArgString _] => Some (method, unit)
              | _ => None
              end
  end.
Definition bus_jobs (tr : trace busE) : list (str * str) := omap bus_job_of tr.

Lemma units_read_app tr1 tr2 : units_read (tr1 ++ tr2) = units_read tr1 ++ units_read tr2.
Proof. apply omap_app. Qed.
Lemma bus_jobs_app tr1 tr2 : bus_jobs (tr1 ++ tr2) = bus_jobs tr1 ++ bus_jobs tr2.
Proof. apply omap_app. Qed.

(** What [ListUnits] listed as services. *)
Definition services_of (records : list unit_fields) : list ServiceInfo :=
  omap (fun f => serviceFromUnitRecord (record_of f)) records.

Section Facts.
Context {messages : Messages}.

Lemma runs_units_loop fuel services tr r :
  runs (units_loop fuel services) tr r ->
  bus_jobs tr = [] /\
  forall out, r = Success out -> out = services ++ services_of (units_read tr).
Proof.
  revert services tr. induction fuel as [|fuel IH]; intros services tr; cbn [units_loop];
    [by intros ?%runs_bus_forever|].
  intros (t1 & s & t2 & -> & ->%runs_trigger & H)%runs_bind. destruct (0 <? s).
  - apply runs_bind in H as (t3 & record & t4 & -> & ->%runs_trigger & H).
    destruct (record.1 <? 0) eqn:Hrec; [by destruct H as [-> ->]|].
    apply runs_bind in H as (t5 & s2 & t6 & -> & ->%runs_trigger & H).
    destruct (s2 <? 0); [by destruct H as [-> ->]|]. apply IH in H as [Hj Ho].
    rewrite !bus_jobs_app, Hj. split; [done|]. intros out Hr. rewrite (Ho out Hr), !units_read_app.
    unfold units_read at 2 3 4. cbn [omap list_omap unit_of app]. rewrite Hrec. cbn [app].
    unfold services_of. cbn [omap list_omap]. rewrite <- app_assoc. f_equal.
    by destruct (serviceFromUnitRecord _).
  - destruct (s <? 0); [by destruct H as [-> ->]|].
    apply runs_bind in H as (t3 & s2 & t4 & -> & ->%runs_trigger & [-> ->]). split; [done|].
    intros out. destruct (s2 <? 0); [done|]. intros [= <-]. by rewrite app_nil_r.
Qed.

Lemma runs_parse units has_message tr r :
  runs (parseListUnitsMessage units has_message) tr r ->
  bus_jobs tr = [] /\ forall out, r = Success out -> out = services_of (units_read tr).
Proof.
  unfold parseListUnitsMessage. destruct has_message; [|by intros [-> ->]].
  intros (t1 & s & t2 & -> & ->%runs_trigger & H)%runs_bind.
  destruct (s <? 0); [by destruct H as [-> ->]|]. by apply runs_units_loop in H.
Qed.

(** The answers about one unit are calls of this run. *)
Definition answered_by (tr : trace busE) (service : ServiceInfo) : Prop :=
  (svc_unitFileState service <> [] ->
   exists status, 0 <= status /\ Ev (MessageRead "s"%char) (status, Some (svc_unitFileState service)) ∈ tr) /\
  (forall pid, svc_mainPid service = Some pid ->
   exists path answer, Ev (GetPropertyTrivial path serviceInterface $"MainPID") answer ∈ tr /\
     0 <= answer.1.1 /\ answer.2 <> 0 /\ pid = to_pid answer.2).

Lemma answered_by_mono tr tr' service :
  (forall ev, ev ∈ tr -> ev ∈ tr') -> answered_by tr service -> answered_by tr' service.
Proof.
  intros Hsub [H1 H2]. split.
  - intros Hne. destruct (H1 Hne) as (s & ? & ?). eauto.
  - intros pid Hpid. destruct (H2 pid Hpid) as (path & a & ? & ?). eauto.
Qed.

(** What [ListUnits] reported of a service. *)
Definition reported (s : ServiceInfo) : str * str * str * str * str :=
  (svc_unitName s, svc_description s, svc_loadState s, svc_activeState s, svc_subState s).
Definition reported_unit (f : unit_fields) : str * str * str * str * str :=
  (default [] (uf_name f), default [] (uf_description f), default [] (uf_loadState f),
   default [] (uf_activeState f), default [] (uf_subState f)).

Lemma reported_services records :
  map reported (services_of records) =
  map reported_unit (List.filter (fun f => isService (default [] (uf_name f))) records).
Proof.
  unfold services_of, serviceFromUnitRecord. cbn [record_of ur_name].
  induction records as [|f l IH]; simpl; [done|].
  destruct (isService _); simpl; [f_equal; exact IH|exact IH].
Qed.

Lemma runs_unitFileState unit tr r :
  runs (unitFileState unit) tr r ->
  units_read tr = [] /\ bus_jobs tr = [] /\
  forall state, r = Success state ->
    exists status, 0 <= status /\ Ev (MessageRead "s"%char) (status, Some state) ∈ tr.
Proof.
  intros (t1 & reply & t2 & -> & ->%runs_trigger & H)%runs_bind.
  destruct (reply.1.1 <? 0); [by destruct H as [-> ->]|].
  apply runs_bind in H as (t3 & [status [state|]] & t4 & -> & ->%runs_trigger & [-> ->]);
    [|split_and!; done].
  split_and!; [done..|]. destruct (Z.ltb_spec status 0); [done|]. intros ? [= <-].
  exists status. split; [done|]. right. left.
Qed.

Lemma runs_getUnitPath unit tr r :
  runs (getUnitPath unit) tr r -> units_read tr = [] /\ bus_jobs tr = [].
Proof.
  intros (t1 & reply & t2 & -> & ->%runs_trigger & H)%runs_bind.
  destruct (reply.1.1 <? 0); [by destruct H as [-> ->]|].
  by apply runs_bind in H as (t3 & state & t4 & -> & ->%runs_trigger & [-> ->]).
Qed.

Lemma runs_trivialProperty path interface property tr r :
  runs (trivialProperty path interface property) tr r ->
  units_read tr = [] /\ bus_jobs tr = [] /\
  forall value, r = Success value -> exists answer,
    Ev (GetPropertyTrivial (c_str path) interface property) answer ∈ tr /\ 0 <= answer.1.1 /\ value = answer.2.
Proof.
  intros (t1 & answer & t2 & -> & ->%runs_trigger & [-> ->])%runs_bind. split_and!; [done..|].
  destruct (Z.ltb_spec answer.1.1 0); [done|]. intros ? [= <-]. exists answer. split; [left|done].
Qed.

Lemma runs_complete service tr r :
  svc_unitFileState service = [] -> svc_mainPid service = None ->
  runs (complete service) tr r ->
  units_read tr = [] /\ bus_jobs tr = [] /\ reported r.1 = reported service /\
  svc_activeEnterTimestampUsec r.1 = svc_activeEnterTimestampUsec service /\ answered_by tr r.1.
Proof.
  intros Hf Hp. unfold complete. intros (t1 & file & t2 & -> & H1 & H)%runs_bind.
  apply runs_unitFileState in H1 as (U1 & B1 & A1).
  set (known := match file with Success state => set_unitFileState state service | Failure _ => service end).
  assert (Hk : reported known = reported service /\ svc_mainPid known = None /\
            svc_activeEnterTimestampUsec known = svc_activeEnterTimestampUsec service /\
            answered_by t1 known).
  { unfold known. destruct file as [state|error]; split_and!; try done; split; try (cbn; congruence).
    intros _. cbn. by apply A1. }
  destruct Hk as (Hk1 & Hk2 & Hk3 & Hk4).
  assert (H' : exists ws, runs (path <- getUnitPath (svc_unitName service) ;;
     match path with
     | Failure error => Ret (known, ws ++ [warningFrom error])
     | Success path =>
         mainPid <- trivialProperty path serviceInterface $"MainPID" ;;
         Ret (match mainPid with
              | Success pid =>
                  (if negb (pid =? 0) then set_mainPid (Some (to_pid pid)) known else known, ws)
              | Failure error => (known, ws ++ [warningFrom error])
              end)
     end) t2 r).
  { unfold known. destruct file as [state|error]; eexists; exact H. }
  clear H. destruct H' as (ws & (t3 & path & t4 & -> & H3 & H)%runs_bind).
  apply runs_getUnitPath in H3 as [U3 B3]. rewrite !units_read_app, !bus_jobs_app, U1, B1, U3, B3.
  destruct path as [path|error].
  - apply runs_bind in H as (t5 & pid & t6 & -> & H5 & [-> ->]).
    apply runs_trivialProperty in H5 as (U5 & B5 & A5).
    rewrite units_read_app, bus_jobs_app, U5, B5. split_and!; [done|done|..].
    + destruct pid as [pid|error]; [by destruct (negb _)|done].
    + destruct pid as [pid|error]; [by destruct (negb _)|done].
    + destruct pid as [pid|error]; cbn [fst].
      2:{ eapply answered_by_mono; [|exact Hk4]. set_solver. }
      destruct (Z.eqb_spec pid 0); simpl.
      { eapply answered_by_mono; [|exact Hk4]. set_solver. }
      destruct Hk4 as [Hs _]. split.
      * intros Hne. destruct (Hs Hne) as (s & ? & ?). exists s. split; [done|set_solver].
      * cbn. intros ? [= <-]. destruct (A5 pid eq_refl) as (answer & Hin & ? & ->).
        exists (c_str path), answer. split_and!; [set_solver|done..].
  - destruct H as [-> ->]. split_and!; [done|done|done|done|].
    eapply answered_by_mono; [|exact Hk4]. set_solver.
Qed.

Lemma runs_complete_all services tr o :
  Forall (fun s => svc_unitFileState s = [] /\ svc_mainPid s = None /\ svc_activeEnterTimestampUsec s = 0)
    services ->
  runs (for_each complete_step services (Observed [] [])) tr o ->
  units_read tr = [] /\ bus_jobs tr = [] /\ map reported (obs_value o) = map reported services /\
  Forall (fun s => svc_activeEnterTimestampUsec s = 0 /\ answered_by tr s) (obs_value o).
Proof.
  intros Hall Hr.
  enough (H : Forall (fun s => svc_unitFileState s = [] /\ svc_mainPid s = None /\
                 svc_activeEnterTimestampUsec s = 0) services ->
      units_read tr = [] /\ bus_jobs tr = [] /\ map reported (obs_value o) = map reported services /\
      Forall (fun s => svc_activeEnterTimestampUsec s = 0 /\ answered_by tr s) (obs_value o)) by auto.
  clear Hall. revert services tr o Hr.
  apply (for_each_ind complete_step (fun services tr o =>
      Forall (fun s => svc_unitFileState s = [] /\ svc_mainPid s = None /\
                 svc_activeEnterTimestampUsec s = 0) services ->
      units_read tr = [] /\ bus_jobs tr = [] /\ map reported (obs_value o) = map reported services /\
      Forall (fun s => svc_activeEnterTimestampUsec s = 0 /\ answered_by tr s) (obs_value o))).
  - intros _. by split_and!.
  - intros visited tr o s tr' o' IH Hstep [Hv [(Hf & Hp & Ht) _]%Forall_cons]%Forall_app.
    destruct (IH Hv) as (U & B & M & F).
    apply runs_bind in Hstep as (t1 & c & t2 & -> & H1 & [-> ->]). rewrite app_nil_r.
    apply runs_complete in H1 as (U1 & B1 & M1 & T1 & A1); [|done..].
    rewrite units_read_app, bus_jobs_app, U, B, U1, B1. cbn [obs_value]. rewrite !map_app, M. simpl.
    rewrite M1. split_and!; [done..|]. apply Forall_app. split.
    + eapply Forall_impl; [exact F|]. intros x [? Hx]. split; [done|].
      eapply answered_by_mono; [|exact Hx]. set_solver.
    + apply Forall_singleton. split; [congruence|]. eapply answered_by_mono; [|exact A1]. set_solver.
Qed.

(** The connection is opened first and, when that worked, closed last. *)
Lemma runs_with_bus {A} (body : prog busE (Result A)) tr r :
  runs (with_bus body) tr r ->
  (exists status, tr = [Ev BusOpenSystem status] /\ status < 0 /\ exists error, r = Failure error) \/
  exists status tr1, 0 <= status /\ tr = [Ev BusOpenSystem status] ++ tr1 ++ [Ev BusUnref tt] /\ runs body tr1 r.
Proof.
  intros (t1 & status & t2 & -> & ->%runs_trigger & H)%runs_bind.
  destruct (Z.ltb_spec status 0).
  - destruct H as [-> ->]. left. exists status. split_and!; [done|done|by eexists].
  - apply runs_bind in H as (t3 & x & t4 & -> & Hb & H).
    apply runs_bind in H as (t5 & [] & t6 & -> & ->%runs_trigger & [-> ->]).
    right. by exists status, t3.
Qed.

Lemma services_of_fresh records :
  Forall (fun s => svc_unitFileState s = [] /\ svc_mainPid s = None /\ svc_activeEnterTimestampUsec s = 0)
    (services_of records).
Proof.
  unfold services_of. induction records as [|f records IH]; simpl; [done|].
  unfold serviceFromUnitRecord at 1. by destruct (negb _); simpl; [|constructor].
Qed.

Lemma runs_controlUnit unit method operation tr r :
  runs (controlUnit unit method operation) tr r ->
  (bus_jobs tr = [] /\ exists error, r = Failure error) \/
  (bus_jobs tr = [(method, c_str unit)] /\
   (r = Success tt -> exists status job, 0 <= status /\ Ev (MessageRead "o"%char) (status, Some job) ∈ tr)).
Proof.
  intros [(status & -> & _ & Hf)|(status & tr1 & _ & -> & H)]%runs_with_bus; [by left|right].
  apply runs_bind in H as (t1 & reply & t2 & -> & ->%runs_trigger & H).
  destruct (reply.1.1 <? 0); [by destruct H as [-> ->]|].
  apply runs_bind in H as (t3 & [s [job|]] & t4 & -> & ->%runs_trigger & [-> ->]); [|done].
  split; [done|]. destruct (Z.ltb_spec s 0); [done|]. intros _. exists s, job. split; [done|set_solver].
Qed.
End Facts.

(** ** Operations that submit no job *)

Definition no_job (X : Type) (e : busE X) : Prop :=
  match e with CallMethod _ [ArgString _; ArgString _] => False | _ => True end.

Lemma no_job_runs {A} (t : prog busE A) tr a : calls_ok no_job t -> runs t tr a -> bus_jobs tr = [].
Proof.
  intros Hc Hr. eapply calls_ok_runs in Hr; [|exact Hc].
  induction Hr as [|[X e x] tr He _ IH]; [done|].
  change (bus_jobs ([Ev e x] ++ tr) = []). rewrite bus_jobs_app, IH, app_nil_r.
  unfold bus_jobs. cbn [omap list_omap]. unfold ev_ok, no_job in He.
  destruct e; try done. simpl. repeat (case_match; try done).
Qed.

Section NoJob.
Context {messages : Messages}.

Lemma no_job_with_bus {A} (body : prog busE (Result A)) : calls_ok no_job body -> calls_ok no_job (with_bus body).
Proof.
  intros H. apply calls_ok_bind; [by split|]. intros s. case_match; [done|].
  apply calls_ok_bind; [done|]. intros r. apply calls_ok_bind; [by split|done].
Qed.
Lemma no_job_string path interface property : calls_ok no_job (stringProperty path interface property).
Proof. by split. Qed.
Lemma no_job_trivial path interface property : calls_ok no_job (trivialProperty path interface property).
Proof. by split. Qed.
Lemma no_job_file unit : calls_ok no_job (unitFileState unit).
Proof. apply calls_ok_bind; [by split|]. intros r. case_match; [done|]. by split. Qed.
Lemma no_job_path unit : calls_ok no_job (getUnitPath unit).
Proof. apply calls_ok_bind; [by split|]. intros r. case_match; [done|]. by split. Qed.
Hint Resolve no_job_string no_job_trivial no_job_file no_job_path : calls.

Lemma no_job_probe : calls_ok no_job probe.
Proof. apply no_job_with_bus. by split. Qed.

Lemma no_job_units fuel services : calls_ok no_job (units_loop fuel services).
Proof.
  revert services. induction fuel as [|fuel IH]; intros services; cbn [units_loop]; [by split|].
  apply calls_ok_bind; [by split|]. intros s. case_match.
  - apply calls_ok_bind; [by split|]. intros r. case_match; [done|].
    apply calls_ok_bind; [by split|]. intros x. case_match; [done|auto].
  - case_match; [done|]. by split.
Qed.

Lemma no_job_complete s : calls_ok no_job (complete s).
Proof.
  unfold complete. apply calls_ok_bind; [apply no_job_file|]. intros f.
  destruct f; (apply calls_ok_bind; [apply no_job_path|]; intros [p|e]; [|done];
    (apply calls_ok_bind; [apply no_job_trivial|done])).
Qed.

Lemma no_job_list units : calls_ok no_job (list_ units).
Proof.
  apply no_job_with_bus. apply calls_ok_bind; [by split|]. intros r. case_match; [done|].
  apply calls_ok_bindR.
  - unfold parseListUnitsMessage. case_match; [done|]. apply calls_ok_bind; [by split|].
    intros s. case_match; [done|]. apply no_job_units.
  - intros parsed. apply calls_ok_bind; [|done].
    generalize (Observed (@nil ServiceInfo) []) as o. induction parsed as [|s parsed IH]; intros o; [done|].
    cbn [for_each]. apply calls_ok_bind; [|auto]. apply calls_ok_bind; [apply no_job_complete|done].
Qed.

Lemma no_job_get unit : calls_ok no_job (get unit).
Proof.
  apply no_job_with_bus. apply calls_ok_bindR; [apply no_job_path|]. intros path.
  do 4 (apply calls_ok_bind; [apply no_job_string|intros ?]).
  repeat (case_match; try done).
  apply calls_ok_bind; [apply no_job_file|intros ?].
  do 2 (apply calls_ok_bind; [apply no_job_trivial|intros ?]). done.
Qed.

Lemma no_job_unitByPid pid : calls_ok no_job (unitByPid pid).
Proof.
  unfold unitByPid. case_match; [done|]. apply no_job_with_bus.
  apply calls_ok_bind; [by split|]. intros r. case_match; [done|].
  apply calls_ok_bind; [by split|]. intros [s [path|]]; [|done]. case_match; [done|].
  apply calls_ok_bind; [apply no_job_string|done].
Qed.
End NoJob.

(** Listing services shows exactly the units that systemd listed whose name is
longer than the suffix [.service] and ends with it, in their order, with the
name, description and states it reported; the unit-file state and the main PID of
each, where present, were answered by systemd within the run (a PID of zero is
none); no job is submitted, and the connection is closed. *)
Theorem services_listed {messages : Messages} units tr o :
  runs (list_ units) tr (Success o) ->
  map reported (obs_value o) =
    map reported_unit
      (List.filter (fun f => isService (default [] (uf_name f))) (units_read tr)) /\
  Forall (answered_by tr) (obs_value o) /\ bus_jobs tr = [] /\
  exists status tr1, tr = [Ev BusOpenSystem status] ++ tr1 ++ [Ev BusUnref tt].
Proof.
  intros [(? & _ & _ & ? & ?)|(status & tr1 & _ & -> & H)]%runs_with_bus; [done|].
  apply runs_bind in H as (t1 & reply & t2 & -> & ->%runs_trigger & H).
  destruct (reply.1.1 <? 0); [by destruct H|].
  apply runs_bindR in H as [(? & _ & ?)|(t3 & parsed & t4 & -> & Hp & H)]; [done|].
  apply runs_parse in Hp as [B1 Hparsed]. rewrite (Hparsed parsed eq_refl) in H.
  apply runs_bind in H as (t5 & o' & t6 & -> & H & [-> [= ->]]).
  apply runs_complete_all in H as (U & B & M & F); [|apply services_of_fresh].
  assert (Eu : units_read ([Ev BusOpenSystem status] ++
      ([Ev (CallMethod $"ListUnits" []) reply] ++ t3 ++ t5 ++ []) ++ [Ev BusUnref tt]) = units_read t3).
  { rewrite !units_read_app, U, !app_nil_r. done. }
  rewrite Eu, M. split_and!.
  - apply reported_services.
  - eapply Forall_impl; [exact F|]. intros x [_ Hx]. eapply answered_by_mono; [|exact Hx]. set_solver.
  - rewrite !bus_jobs_app, B1, B. done.
  - by eexists _, _.
Qed.

(** A process is attributed only to a service that systemd names: a unit that
[unitByPid] returns is the [Id] answered for the path answered for that PID, and
is the name of a service; [None] is returned only when systemd knows no such unit
or the unit is no service; a PID that is not positive is refused without a call. *)
Theorem unitByPid_sound {messages : Messages} pid tr r :
  runs (unitByPid pid) tr r ->
  bus_jobs tr = [] /\
  (pid <= 0 -> tr = [] /\ exists error, r = Failure error /\ err_code error = InvalidArgument) /\
  (forall unit, r = Success (Some unit) -> isService unit = true /\
     exists s reply status path answer,
       0 <= s /\ 0 <= status /\ 0 <= answer.1.1 /\ default [] answer.2 = unit /\
       tr = [Ev BusOpenSystem s; Ev (CallMethod $"GetUnitByPID" [ArgUint32 pid]) reply;
             Ev (MessageRead "o"%char) (status, Some path);
             Ev (GetPropertyString (c_str path) unitInterface $"Id") answer; Ev BusUnref tt]).
Proof.
  unfold unitByPid. destruct (Z.leb_spec pid 0) as [Hp|Hp].
  { intros [-> ->]. split_and!; [done| |done]. intros _. split; [done|]. by eexists. }
  intros [(? & -> & _ & ? & ->)|(s & tr1 & Hs & -> & H)]%runs_with_bus; [split_and!; done || lia|].
  apply runs_bind in H as (t1 & reply & t2 & -> & ->%runs_trigger & H).
  destruct (reply.1.1 <? 0).
  { destruct H as [-> ->]. split_and!; [done|lia|]. intros unit. by case_bool_decide. }
  apply runs_bind in H as (t3 & [status [path|]] & t4 & -> & ->%runs_trigger & H);
    [|destruct H as [-> ->]; split_and!; done || lia].
  destruct (Z.ltb_spec status 0); [destruct H as [-> ->]; split_and!; done || lia|].
  apply runs_bind in H as (t5 & id & t6 & -> & Hid & [-> ->]).
  apply runs_bind in Hid as (t7 & answer & t8 & -> & ->%runs_trigger & [-> ->]).
  split_and!; [done|lia|]. intros unit.
  destruct (Z.ltb_spec answer.1.1 0); [by case_bool_decide|].
  destruct (isService (default [] answer.2)) eqn:E; [|done]. intros [= <-]. split; [done|].
  exists s, reply, status, path, answer. done.
Qed.

(** ** A simulated manager, for the examples *)

Record manager := mkManager {
  bm_units : list unit_fields; bm_queue : list unit_fields; bm_reply : str; bm_jobs : list (str * str) }.

Definition manager_sim (X : Type) (e : busE X) (m : manager) : option (X * manager) :=
  let reply text := mkManager (bm_units m) (bm_units m) text (bm_jobs m) in
  match e in busE X return option (X * manager) with
  | BusOpenSystem => Some (0, m)
  | BusUnref => Some (tt, m)
  | CallMethod method args =>
      if bool_decide (method = $"GetUnitFileState") then Some ((0, no_bus_error, true), reply $"enabled")
      else
        match args with
        | [ArgString unit; ArgString _] =>
            Some ((0, no_bus_error, true),
                  mkManager (bm_units m) [] $"/job/1" (bm_jobs m ++ [(method, unit)]))
        | [ArgUint32 pid] =>
            if pid =? 300 then Some ((0, no_bus_error, true), reply $"/unit/web")
            else Some ((-3, mkBusError (Some $"org.freedesktop.systemd1.NoUnitForPID") None, false), m)
        | _ => Some ((0, no_bus_error, true), reply $"/unit/web")
        end
  | GetManagerProperty _ => Some ((0, no_bus_error), m)
  | GetPropertyString _ _ _ => Some ((0, no_bus_error, Some $"web.service"), m)
  | GetPropertyTrivial _ _ _ => Some ((0, no_bus_error, 300), m)
  | MessageRead _ => Some ((1, Some (bm_reply m)), m)
  | EnterArray => Some (1, m)
  | EnterStruct => Some (match bm_queue m with [] => 0 | _ => 1 end, m)
  | ExitContainer => Some (0, m)
  | ReadUnit =>
      match bm_queue m with
      | [] => None
      | f :: fs => Some ((1, f), mkManager (bm_units m) fs (bm_reply m) (bm_jobs m))
      end
  | BusForever => None
  end.

Definition sim_unit (name : str) : unit_fields :=
  mkUnitFields (Some name) (Some $"A unit") (Some $"loaded") (Some $"active") (Some $"running") None
    (Some $"/unit") 0 None None.
Definition sim_manager : manager :=
  mkManager [sim_unit $"web.service"; sim_unit $"web.socket"; sim_unit $".service"; sim_unit $"db.service"] [] [] [].

Definition manager_run {A} (t : prog busE A) : option (A * trace busE) := fst <$> exec manager_sim t sim_manager.
Lemma manager_run_runs {A} (t : prog busE A) a tr : manager_run t = Some (a, tr) -> runs t tr a.
Proof.
  unfold manager_run. destruct (exec manager_sim t sim_manager) as [[[b tr'] s]|] eqn:E; [|done].
  intros [= <- <-]. by apply exec_runs in E.
Qed.

Lemma services_listed_witness :
  exists tr o, runs (list_ (messages := plain_messages) 9) tr (Success o) /\
    map (fun r => r.1.1.1.1) (map reported (obs_value o)) = [$"web.service"; $"db.service"] /\
    map svc_mainPid (obs_value o) = [Some 300; Some 300].
Proof.
  destruct (manager_run (list_ (messages := plain_messages) 9)) as [[r tr]|] eqn:E; [|vm_compute in E; congruence].
  assert (Hr := manager_run_runs _ _ _ E). destruct r as [o|error]; [|vm_compute in E; congruence].
  exists tr, o. split; [done|].
  destruct (services_listed (messages := plain_messages) 9 tr o Hr) as (H & _). rewrite H. clear H Hr.
  vm_compute in E. injection E as <- <-. vm_compute. done.
Defined.

Lemma unitByPid_sound_witness :
  exists tr, runs (unitByPid (messages := plain_messages) 300) tr (Success (Some $"web.service")) /\
    isService $"web.service" = true.
Proof.
  destruct (manager_run (unitByPid (messages := plain_messages) 300)) as [[r tr]|] eqn:E; [|vm_compute in E; congruence].
  assert (Hr := manager_run_runs _ _ _ E).
  assert (r = Success (Some $"web.service")) as -> by (clear Hr; vm_compute in E; by injection E as <- _).
  exists tr. split; [done|].
  by apply (unitByPid_sound (messages := plain_messages) 300 tr _ Hr).
Defined.
