(* ===== verification/LinuxAdapters.v ===== *)
(** * The services on the Linux adapters

The provider calls implemented by the adapters of [src/linux/]: sockets by
netlink, owners, processes and samples by procfs, signals by process handles, services and
the journal by libsystemd (or refused, in a build without it).  This composition
keeps the contract the services rely on ([SocketContract]), so the guarantees of
[PortService] hold down to the signals the kernel accepts and the jobs systemd is
asked for.  The clocks of the services and the following of the journal, which
needs the callbacks of its caller, stay calls of the upper layer ([CliFollow] and
[Main] complete the latter). *)

From S2P Require Import Prelude CppStd CppString Prog Domain Contracts OsCalls.
From S2P Require Import ServiceService ProcessService PortService PortServiceProofs.
From S2P Require Import InetDiagCodec NetlinkSocketProvider LinuxSignalProvider.
From S2P Require Import PortServiceTheorems.
From S2P Require ProcfsParsers ProcFsProvider SocketInodeResolver.
From S2P Require SystemdServiceProvider SystemdJournalProvider.
From Stdlib Require Import Ascii.

Variant sysE : Type -> Type :=
| Os {X} (e : osE X) : sysE X
| Sg {X} (e : signalE X) : sysE X
| Bs {X} (e : SystemdServiceProvider.busE X) : sysE X
| Jn {X} (e : SystemdJournalProvider.journalE X) : sysE X
| Pv {X} (e : provE X) : sysE X.

(** What the adapters are built with. *)
Record config := mkConfig {
  cfg_root : str;                                         (* /proc *)
  cfg_inet_ntop : AddressFamily -> list Z -> option str;
  cfg_policy : PidFdPolicy;
  cfg_systemd : bool;                                     (* LX_HAS_SYSTEMD *)
  cfg_retries : nat; cfg_datagrams : nat; cfg_rounds : nat; (* fuel of the loops *)
}.

(** What [main] tells the providers of a build without systemd. *)
Definition systemd_reason : str := $"LX was built without libsystemd support".

Section Linux.
Context {messages : Messages} {socket_sort : SocketSort}.
Context (cfg : config).

(** A provider call answered by libsystemd, or refused. *)
Definition service_call {A} (op : SystemdServiceProvider.service_operation)
  (t : prog SystemdServiceProvider.busE (Result A)) : prog sysE (Result A) :=
  if cfg_systemd cfg then lift (@Bs) t
  else Ret (SystemdServiceProvider.unavailable_service systemd_reason op).
Definition journal_call {A} (op : SystemdServiceProvider.journal_operation)
  (t : prog SystemdJournalProvider.journalE (Result A)) : prog sysE (Result A) :=
  if cfg_systemd cfg then lift (@Jn) t
  else Ret (SystemdServiceProvider.unavailable_journal systemd_reason op).

(** A sample whose uptime has no defined conversion does not return. *)
Definition defined_sample : prog osE (Result SystemMetricsSample) :=
  sample <- ProcFsProvider.system_sample (cfg_root cfg) ;;
  match sample with Some result => Ret result | None => uncaught end.

Definition linux (X : Type) (e : provE X) : prog sysE X :=
  match e in provE X return prog sysE X with
  | SocketProvider_query q =>
      lift (@Os) (query (cfg_inet_ntop cfg) (cfg_retries cfg) (cfg_datagrams cfg) q)
  | OwnerResolver_resolve inodes => lift (@Os) (SocketInodeResolver.resolve (cfg_root cfg) inodes)
  | ProcessProvider_get pid => lift (@Os) (ProcFsProvider.get (cfg_root cfg) pid)
  | ProcessProvider_list => lift (@Os) (ProcFsProvider.list_ (cfg_root cfg))
  | ProcessMetrics_sample => lift (@Os) (ProcFsProvider.sample (cfg_root cfg))
  | SignalProvider_send pid s => lift (@Sg) (send (cfg_policy cfg) pid s)
  | SignalProvider_waitForExit pid timeout =>
      lift (@Sg) (waitForExit (cfg_policy cfg) (cfg_retries cfg) (cfg_rounds cfg) pid timeout)
  | SignalProvider_capabilities => lift (@Sg) (capabilities (cfg_policy cfg))
  | SystemMetrics_sample => lift (@Os) defined_sample
  | ServiceProvider_probe => service_call SystemdServiceProvider.OpProbe SystemdServiceProvider.probe
  | ServiceProvider_list =>
      service_call SystemdServiceProvider.OpList (SystemdServiceProvider.list_ (cfg_rounds cfg))
  | ServiceProvider_get unit =>
      service_call SystemdServiceProvider.OpGet (SystemdServiceProvider.get unit)
  | ServiceProvider_unitByPid pid =>
      service_call SystemdServiceProvider.OpUnitByPid (SystemdServiceProvider.unitByPid pid)
  | ServiceProvider_start unit =>
      service_call SystemdServiceProvider.OpStart (SystemdServiceProvider.start unit)
  | ServiceProvider_stop unit =>
      service_call SystemdServiceProvider.OpStop (SystemdServiceProvider.stop unit)
  | ServiceProvider_restart unit =>
      service_call SystemdServiceProvider.OpRestart (SystemdServiceProvider.restart unit)
  | JournalProvider_probe =>
      journal_call SystemdServiceProvider.OpJournalProbe SystemdJournalProvider.probe
  | JournalProvider_query q =>
      journal_call SystemdServiceProvider.OpQuery (SystemdJournalProvider.query_ (cfg_rounds cfg) q)
  | e => trigger (Pv e)
  end.

(** The socket adapters keep their contract. *)
#[export] Instance linux_contract : SocketContract linux.
Proof.
  intros X e tr x H. destruct e; try exact I.
  - apply runs_lift in H as (tr0 & H & _). intros o ->. by eapply query_no_owners.
  - apply runs_lift in H as (tr0 & H & _). intros o ->.
    apply SocketInodeResolver.runs_resolve in H as [(_ & _ & [= ->])|[(? & _ & ?)|(s & _ & [= ->])]]; [|done|].
    + cbn [obs_value]. apply map_Forall_empty.
    + intros i l. cbn [obs_value]. rewrite lookup_fmap, fmap_Some. intros (l0 & _ & ->).
      apply sort_unique_sorted.
Qed.

(** ** Signals down to the kernel *)

Definition signal_event (ev : event sysE) : option (event signalE) :=
  match ev with
  | Ev e x => match e in sysE X return X -> option (event signalE) with
              | Sg e => fun x => Some (Ev e x)
              | _ => fun _ => None
              end x
  end.
Definition signal_part (tr : trace sysE) : trace signalE := omap signal_event tr.

(** The signals the kernel accepted in a run. *)
Definition kernel_signals (tr : trace sysE) : list (Z * Z) := delivered None (signal_part tr).

Lemma signal_part_app tr1 tr2 : signal_part (tr1 ++ tr2) = signal_part tr1 ++ signal_part tr2.
Proof. apply omap_app. Qed.
Lemma signal_part_sg tr : signal_part (map (lift_event (@Sg)) tr) = tr.
Proof. induction tr as [|[X e x] tr IH]; simpl; [done|]. unfold signal_part in *. simpl. by rewrite IH. Qed.
Lemma signal_part_os tr : signal_part (map (lift_event (@Os)) tr) = [].
Proof. induction tr as [|[X e x] tr IH]; simpl; [done|]. by unfold signal_part in *. Qed.

Lemma signal_part_bs tr : signal_part (map (lift_event (@Bs)) tr) = [].
Proof. induction tr as [|[X e x] tr IH]; simpl; [done|]. by unfold signal_part in *. Qed.
Lemma signal_part_jn tr : signal_part (map (lift_event (@Jn)) tr) = [].
Proof. induction tr as [|[X e x] tr IH]; simpl; [done|]. by unfold signal_part in *. Qed.

Lemma runs_service_call {A} op (t : prog _ (Result A)) tr r :
  runs (service_call op t) tr r ->
  (tr = [] /\ exists error, r = Failure error) \/ exists tr0, runs t tr0 r /\ tr = map (lift_event (@Bs)) tr0.
Proof.
  unfold service_call. destruct (cfg_systemd cfg); [intros H%runs_lift; by right|].
  intros [-> ->]. left. split; [done|by eexists].
Qed.
Lemma runs_journal_call {A} op (t : prog _ (Result A)) tr r :
  runs (journal_call op t) tr r ->
  (tr = [] /\ exists error, r = Failure error) \/ exists tr0, runs t tr0 r /\ tr = map (lift_event (@Jn)) tr0.
Proof.
  unfold journal_call. destruct (cfg_systemd cfg); [intros H%runs_lift; by right|].
  intros [-> ->]. left. split; [done|by eexists].
Qed.

(** The signals a provider run was answered positively for. *)
Definition accepted_of (ev : event provE) : option (Z * Z) :=
  match ev with
  | Ev e x =>
      match e in provE X return X -> option (Z * Z) with
      | SignalProvider_send pid s => fun r =>
          match r with Success _ => Some (pid, nativeSignal s) | Failure _ => None end
      | _ => fun _ => None
      end x
  end.
Definition accepted (tr : trace provE) : list (Z * Z) := omap accepted_of tr.

Lemma accepted_cons ev tr : accepted (ev :: tr) = option_list (accepted_of ev) ++ accepted tr.
Proof. unfold accepted. cbn [omap list_omap]. by destruct (accepted_of ev). Qed.

(** A run of calls adds these signals, whatever handle was open before. *)
Definition adds (tr : trace signalE) (sent : list (Z * Z)) : Prop :=
  forall handle, exists handle', forall rest,
    delivered handle (tr ++ rest) = sent ++ delivered handle' rest.

Lemma adds_nil : adds [] [].
Proof. intros handle. by exists handle. Qed.
Lemma adds_app tr1 tr2 l1 l2 : adds tr1 l1 -> adds tr2 l2 -> adds (tr1 ++ tr2) (l1 ++ l2).
Proof.
  intros H1 H2 handle. destruct (H1 handle) as [h1 E1]. destruct (H2 h1) as [h2 E2].
  exists h2. intros rest. by rewrite <- !app_assoc, E1, E2.
Qed.
Lemma adds_observing tr : Forall observing tr -> adds tr [].
Proof. intros H handle. exists handle. intros rest. by apply (observing_trace tr []). Qed.
Lemma adds_open pid a : adds [Ev (PidfdOpen pid) a] [].
Proof. intros handle. by eexists. Qed.
Lemma adds_close fd a : adds [Ev (Close fd) a] [].
Proof. intros handle. by exists handle. Qed.

Lemma sendWithKill_adds pid s tr r :
  runs (sendWithKill pid s) tr r ->
  adds tr (match r with Success _ => [(pid, nativeSignal s)] | Failure _ => [] end).
Proof.
  intros (t1 & sent & t2 & -> & ->%runs_trigger & [-> ->])%runs_bind handle. exists handle.
  intros rest. destruct sent as [errno|[]]; simpl; [done|]. by destruct s.
Qed.

Lemma send_adds policy pid s tr r :
  runs (send policy pid s) tr r ->
  adds tr (match r with Success _ => [(pid, nativeSignal s)] | Failure _ => [] end).
Proof.
  unfold send. destruct policy; [|apply sendWithKill_adds].
  intros (t1 & handle & t2 & -> & H1 & H)%runs_bind.
  apply runs_bind in H1 as (t3 & fd & t4 & -> & ->%runs_trigger & [-> ->]). rewrite app_nil_r.
  destruct fd as [errno|fd].
  - apply (adds_app _ _ []); [apply adds_open|].
    destruct (negb _); [destruct H as [-> ->]; apply adds_nil|by apply sendWithKill_adds in H].
  - apply runs_bind in H as (t5 & sent & t6 & -> & H2 & H).
    apply runs_bind in H2 as (t7 & ans & t8 & -> & ->%runs_trigger & [-> ->]).
    apply runs_bind in H as (t9 & u & t10 & -> & ->%runs_trigger & H).
    destruct ans as [errno|[]].
    + assert (H3 : adds t10 (match r with Success _ => [(pid, nativeSignal s)] | Failure _ => [] end)).
      { destruct (negb _); [destruct H as [-> ->]; apply adds_nil|by apply sendWithKill_adds in H]. }
      intros h. destruct (H3 (Some pid)) as [h' E]. exists h'. intros rest. simpl. by apply E.
    + destruct H as [-> ->]. intros h. exists (Some pid). intros rest. done.
Qed.

Lemma waitForExit_adds policy retries rounds pid timeout tr r :
  runs (waitForExit policy retries rounds pid timeout) tr r -> adds tr [].
Proof.
  assert (Hkill : forall tr r, runs (wait_with_kill rounds pid timeout) tr r -> adds tr []).
  { intros t r0 (t1 & start & t2 & -> & ->%runs_trigger & H)%runs_bind.
    apply runs_wait_loop in H as [Ho _]. apply adds_observing. by constructor. }
  unfold waitForExit. destruct policy; [|apply Hkill].
  intros (t1 & handle & t2 & -> & H1 & H)%runs_bind.
  apply runs_bind in H1 as (t3 & fd & t4 & -> & ->%runs_trigger & [-> ->]). rewrite app_nil_r.
  apply (adds_app _ _ [] []); [apply adds_open|]. destruct fd as [errno|fd].
  - case_bool_decide; [destruct H as [-> ->]; apply adds_nil|].
    destruct (negb _); [destruct H as [-> ->]; apply adds_nil|by eapply Hkill].
  - apply runs_bind in H as (t5 & exited & t6 & -> & H2 & H).
    apply (runs_poll_loop _ _ _ pid) in H2 as [Ho _]; [|apply bounded_timeout_range].
    apply runs_bind in H as (t7 & u & t8 & -> & ->%runs_trigger & [-> ->]).
    apply (adds_app _ _ [] []); [by apply adds_observing|apply adds_close].
Qed.

Lemma capabilities_adds policy tr r : runs (capabilities policy) tr r -> adds tr [].
Proof.
  unfold capabilities. destruct policy; [|intros [-> ->]; apply adds_nil].
  intros (t1 & pid & t2 & -> & ->%runs_trigger & H)%runs_bind.
  apply runs_bind in H as (t3 & handle & t4 & -> & H1 & H).
  apply runs_bind in H1 as (t5 & fd & t6 & -> & ->%runs_trigger & [-> ->]). rewrite app_nil_r.
  apply (adds_app _ _ [] []); [by apply adds_observing; repeat constructor|].
  apply (adds_app _ _ [] []); [apply adds_open|]. destruct fd as [|fd].
  - destruct H as [-> ->]. apply adds_nil.
  - apply runs_bind in H as (t7 & u & t8 & -> & ->%runs_trigger & [-> ->]). apply adds_close.
Qed.

(** Every provider call adds exactly the signal it reports. *)
Lemma linux_adds X (e : provE X) tr x :
  runs (linux X e) tr x -> adds (signal_part tr) (option_list (accepted_of (Ev e x))).
Proof.
  intros H. destruct e; cbn [linux] in H; cbn [accepted_of option_list];
    try (apply runs_service_call in H as [(-> & _)|(tr0 & H & ->)]; rewrite ?signal_part_bs);
    try (apply runs_journal_call in H as [(-> & _)|(tr0 & H & ->)]; rewrite ?signal_part_jn);
    try (apply runs_lift in H as (tr0 & H & ->); rewrite ?signal_part_os, ?signal_part_sg).
  all: try apply adds_nil.
  all: try (apply runs_trigger in H as ->; apply adds_nil).
  - apply send_adds in H. by destruct x.
  - by eapply waitForExit_adds.
  - by eapply capabilities_adds.
Qed.

(** The kernel accepted exactly the signals the upper layer was told about. *)
Lemma kernel_signals_accepted trE trF : realizes linux trE trF -> kernel_signals trF = accepted trE.
Proof.
  intros H. assert (Ha : adds (signal_part trF) (accepted trE)).
  { induction H as [|X e x trE trF1 trF2 H1 _ IH]; [apply adds_nil|].
    rewrite signal_part_app, accepted_cons. apply linux_adds in H1.
    by apply adds_app. }
  destruct (Ha None) as [h E]. specialize (E []). rewrite !app_nil_r in E. exact E.
Qed.

Definition native (sent : Z * ProcessSignal) : Z * Z := (sent.1, nativeSignal sent.2).

Lemma accepted_sublist tr : sublist (accepted tr) (map native (signals tr)).
Proof.
  induction tr as [|[X e x] tr IH]; [constructor|]. rewrite accepted_cons, signals_cons, map_app.
  destruct e; cbn [accepted_of signal_of option_list map app]; try exact IH.
  destruct x; cbn [option_list app]; by constructor.
Qed.

(** C28. End to end: on the Linux adapters, with no assumption about the system,
the signals the kernel accepts while a prepared port is terminated are SIGTERM to
owners of the prepared plan, each at most once and in order; and when what remains
is then forced, they are SIGKILL to owners of that same plan. *)
Theorem release_on_linux {HO : HashOrder} (S : PortService.PortService) port tr0 plan tr1 o tr2 after r :
  runs (interp linux (prepareRelease S port)) tr0 (Success plan) ->
  runs (interp linux (terminate S (obs_value plan))) tr1 (Success o) ->
  rel_remaining (obs_value o) = Some after ->
  runs (interp linux (force S after)) tr2 r ->
  let owners := plan_ownerPids (obs_value plan) in
  sublist (kernel_signals tr1) (map (fun pid => (pid, SIGTERM)) owners) /\
  Forall (fun sent => sent.1 ∈ owners /\ sent.2 = SIGKILL) (kernel_signals tr2).
Proof.
  intros (u0 & H0 & R0)%runs_interp (u1 & H1 & R1)%runs_interp Hafter (u2 & H2 & R2)%runs_interp.
  pose proof (contract_answers linux _ _ R0) as C0. pose proof (contract_answers linux _ _ R1) as C1.
  rewrite (kernel_signals_accepted _ _ R1), (kernel_signals_accepted _ _ R2).
  pose proof (prepareRelease_ordered _ _ _ _ H0 C0) as Hord.
  apply prepareRelease_inv in H0 as (i & _ & _ & Hwf).
  assert (Hwf' : wf_plan S (plan_localPort (obs_value plan)) (obs_value plan))
    by (by rewrite (wf_port _ _ _ Hwf)).
  cbv zeta. split.
  - apply terminate_signals_plan in H1 as (_ & (k & Hk) & _).
    pose proof (accepted_sublist u1) as Hs. rewrite Hk in Hs.
    etransitivity; [exact Hs|]. rewrite map_map.
    rewrite <- (take_drop k (plan_ownerPids (obs_value plan))) at 2. rewrite map_app.
    by apply sublist_inserts_r.
  - destruct (terminate_remaining _ _ _ _ _ Hord C1 H1 Hafter) as (Hin & _ & Hwfa).
    apply force_signals_plan in H2 as (_ & (k & Hk) & _).
    pose proof (accepted_sublist u2) as Hs. rewrite Hk, map_map in Hs.
    apply Forall_forall. intros sent Hsent.
    apply sublist_submseteq in Hs. pose proof (elem_of_submseteq _ _ _ Hsent Hs) as Hin'.
    apply list_elem_of_In, in_map_iff in Hin' as (pid & <- & Hpid%list_elem_of_In).
    split; [|done]. apply (targets_within_owners S (obs_value plan) after); [done..|].
    rewrite <- (take_drop k (plan_ownerPids after)). set_solver.
Qed.

(** ** Jobs down to systemd *)

Definition bus_event (ev : event sysE) : option (event SystemdServiceProvider.busE) :=
  match ev with
  | Ev e x => match e in sysE X return X -> option (event SystemdServiceProvider.busE) with
              | Bs e => fun x => Some (Ev e x)
              | _ => fun _ => None
              end x
  end.
(** The jobs systemd was asked for in a run. *)
Definition manager_jobs (tr : trace sysE) : list (str * str) :=
  SystemdServiceProvider.bus_jobs (omap bus_event tr).

Lemma manager_jobs_app tr1 tr2 : manager_jobs (tr1 ++ tr2) = manager_jobs tr1 ++ manager_jobs tr2.
Proof. unfold manager_jobs. by rewrite omap_app, SystemdServiceProvider.bus_jobs_app. Qed.
Lemma manager_jobs_bs tr : manager_jobs (map (lift_event (@Bs)) tr) = SystemdServiceProvider.bus_jobs tr.
Proof.
  unfold manager_jobs. f_equal. induction tr as [|[X e x] tr IH]; simpl; [done|]. by f_equal.
Qed.
Lemma manager_jobs_other {E} (inj : forall X, E X -> sysE X) tr :
  (forall X (e : E X) x, bus_event (Ev (inj X e) x) = None) -> manager_jobs (map (lift_event inj) tr) = [].
Proof.
  intros H. unfold manager_jobs.
  replace (omap bus_event (map (lift_event inj) tr)) with (@nil (event SystemdServiceProvider.busE)); [done|].
  induction tr as [|[X e x] tr IH]; [done|]. cbn [map lift_event omap list_omap]. by rewrite H.
Qed.

(** The job of the manager for a job of the services. *)
Definition manager_job (j : service_job) : str * str :=
  match j with
  | StartJob u => ($"StartUnit", c_str u)
  | StopJob u => ($"StopUnit", c_str u)
  | RestartJob u => ($"RestartUnit", c_str u)
  end.

Lemma control_jobs op j operation tr r :
  runs (service_call op (SystemdServiceProvider.controlUnit (snd j) (fst j) operation)) tr r ->
  sublist (manager_jobs tr) [(fst j, c_str (snd j))] /\
  (r = Success tt -> manager_jobs tr = [(fst j, c_str (snd j))]).
Proof.
  intros [(-> & error & ->)|(tr0 & H & ->)]%runs_service_call; [split; [apply sublist_nil_l|done]|].
  rewrite manager_jobs_bs.
  apply SystemdServiceProvider.runs_controlUnit in H as [(-> & error & ->)|(-> & _)];
    [split; [apply sublist_nil_l|done]|done].
Qed.

Lemma quiet_service_call {A} op (t : prog _ (Result A)) tr r :
  calls_ok SystemdServiceProvider.no_job t -> runs (service_call op t) tr r -> manager_jobs tr = [].
Proof.
  intros Hc [(-> & _)|(tr0 & H & ->)]%runs_service_call; [done|].
  rewrite manager_jobs_bs. by eapply SystemdServiceProvider.no_job_runs.
Qed.

(** Every provider call submits at most the job it stands for, and submits it when
it reports success. *)
Lemma linux_jobs X (e : provE X) tr x :
  runs (linux X e) tr x ->
  sublist (manager_jobs tr) (map manager_job (option_list (job_of (Ev e x)))).
Proof.
  intros H.
  assert (Hnil : manager_jobs tr = [] -> sublist (manager_jobs tr) (map manager_job (option_list (job_of (Ev e x)))))
    by (intros ->; apply sublist_nil_l).
  destruct e; cbn [linux] in H;
    try (apply Hnil; apply runs_lift in H as (tr0 & H & ->); by apply manager_jobs_other);
    try (apply Hnil; by apply runs_trigger in H as ->);
    try (apply Hnil; apply runs_journal_call in H as [(-> & _)|(tr0 & H & ->)];
         [done|by apply manager_jobs_other]).
  - by eapply Hnil, quiet_service_call, H; apply SystemdServiceProvider.no_job_probe.
  - by eapply Hnil, quiet_service_call, H; apply SystemdServiceProvider.no_job_list.
  - by eapply Hnil, quiet_service_call, H; apply SystemdServiceProvider.no_job_get.
  - by eapply Hnil, quiet_service_call, H; apply SystemdServiceProvider.no_job_unitByPid.
  - by apply (control_jobs _ ($"StartUnit", unit)) in H as [H _].
  - by apply (control_jobs _ ($"StopUnit", unit)) in H as [H _].
  - by apply (control_jobs _ ($"RestartUnit", unit)) in H as [H _].
Qed.

Lemma manager_jobs_submitted trE trF :
  realizes linux trE trF -> sublist (manager_jobs trF) (map manager_job (jobs trE)).
Proof.
  induction 1 as [|X e x trE trF1 trF2 H1 _ IH]; [done|].
  rewrite manager_jobs_app, jobs_cons, map_app. apply sublist_app; [|done]. by apply linux_jobs.
Qed.

(** End to end: stopping the managed service behind a port, on the Linux
adapters and with no assumption about the system, lets the kernel accept no signal
and asks systemd for no job but one: the stop of the unit the confirmed plan
recommends, by its normalised name. *)
Theorem managed_stop_on_linux {HO : HashOrder} (S : PortService.PortService) fuel plan tr r :
  runs (interp linux (stopManagedService S fuel plan)) tr r ->
  kernel_signals tr = [] /\
  (manager_jobs tr = [] \/
   exists unit v, plan_recommendedUnit plan = Some unit /\ normalizeUnit unit = Success v /\
     manager_jobs tr = [($"StopUnit", v)]).
Proof.
  intros (u & H & R)%runs_interp. rewrite (kernel_signals_accepted _ _ R).
  apply stopManagedService_submits in H as [Hs Hj].
  pose proof (accepted_sublist u) as Hacc. rewrite Hs in Hacc. apply sublist_nil_r in Hacc.
  split; [done|]. pose proof (manager_jobs_submitted _ _ R) as Hm.
  destruct Hj as [Hj|(unit & v & Hu & Hv & Hj & _)]; rewrite Hj in Hm.
  - left. by apply sublist_nil_r in Hm.
  - simpl in Hm. inversion Hm as [|? ? ? Hm'|? ? ? Hm']; subst.
    + right. exists unit, v. split_and!; [done..|]. apply sublist_nil_r in Hm' as ->.
      by rewrite (wf_unit_c_str v) by (by eapply normalizeUnit_wf).
    + left. by apply sublist_nil_r in Hm'.
Qed.
End Linux.

(** ** A simulated Linux, for the example

One process, PID 300, which listens on port 8080 with the socket 71, ignores
SIGTERM and dies of SIGKILL. *)

Record sys_machine := mkSysMachine {
  sys_alive : bool; sys_queue : list (list Z); sys_now : Z;
  sys_manager : SystemdServiceProvider.manager }.

(** The job that stops the unit of the process ends the process. *)
Definition after_bus (m : sys_machine) (manager : SystemdServiceProvider.manager) : sys_machine :=
  mkSysMachine
    (sys_alive m && negb (bool_decide
       (($"StopUnit", $"web.service") ∈ SystemdServiceProvider.bm_jobs manager)))
    (sys_queue m) (sys_now m) manager.

Definition sys_files : os_machine :=
  mkOsMachine
    [([$"/proc"; $"300"; $"stat"],
        Contents (ProcfsParsers.stat_line 300 $"server" "S"%char 1 []) false 0);
     ([$"/proc"; $"300"; $"status"],
        Contents (ProcfsParsers.status_text
          [($"Uid", $" 1000"); ($"Gid", $" 1000"); ($"Threads", $" 1")]) false 0);
     ([$"/proc"; $"300"; $"cmdline"], Contents [] false 0)]
    [([$"/proc"; $"300"; $"fd"; $"3"], inr $"socket:[71]")]
    [([$"/proc"], Entries [$"300"] None); ([$"/proc"; $"300"; $"fd"], Entries [$"3"] None)] [] [].

(** The answer to a dump request: the socket for TCP over IPv4. *)
Definition sys_dump (alive : bool) (request : list Z) : list Z :=
  let sequence := get_le (field_at request 8 4) in
  (if alive && (get_le (field_at request 16 1) =? AF_INET) &&
      (get_le (field_at request 17 1) =? IPPROTO_TCP)
   then encode_socket sequence example_diag else []) ++ encode_done sequence.

Definition keep {X} (m : sys_machine) (r : option (X * os_machine)) : option (X * sys_machine) :=
  match r with Some (x, _) => Some (x, m) | None => None end.

Definition sys_sim (X : Type) (e : sysE X) (m : sys_machine) : option (X * sys_machine) :=
  match e in sysE X return option (X * sys_machine) with
  | Os e =>
      match e in osE X return option (X * sys_machine) with
      | NetlinkSend request =>
          Some ((72, 0), mkSysMachine (sys_alive m) [sys_dump (sys_alive m) request] (sys_now m)
                            (sys_manager m))
      | NetlinkReceive =>
          match sys_queue m with
          | [] => None
          | d :: ds => Some (inr d, mkSysMachine (sys_alive m) ds (sys_now m) (sys_manager m))
          end
      | e =>
          keep m (os_sim _ e (if sys_alive m then sys_files
                              else mkOsMachine [] [] [([$"/proc"], Entries [] None)] [] []))
      end
  | Sg e =>
      match e in signalE X return option (X * sys_machine) with
      | PidfdSendSignal _ number =>
          Some (inr tt, mkSysMachine (negb (number =? SIGKILL)) (sys_queue m) (sys_now m)
                          (sys_manager m))
      | PidfdOpen _ => Some (if sys_alive m then inr 5 else inl ESRCH, m)
      | Poll _ _ => Some ((if sys_alive m then 0 else 1, 0), m)
      | Close _ => Some (tt, m)
      | _ => None
      end
  | Bs e =>
      match SystemdServiceProvider.manager_sim _ e (sys_manager m) with
      | Some (x, manager) => Some (x, after_bus m manager)
      | None => None
      end
  | Jn _ => None
  | Pv e =>
      match e in provE X return option (X * sys_machine) with
      | GetPid => Some (999, m)
      | SteadyClock_now => Some (sys_now m, mkSysMachine (sys_alive m) (sys_queue m) (sys_now m + 1) (sys_manager m))
      | _ => None
      end
  end.

Definition sys_config : config := mkConfig $"/proc" dotted Auto true 3 8 3.
Definition sys_ports : PortService.PortService := mkPortService (mkProcessService 999 true) true 3000.

Definition sys_run {A} (t : prog provE A) (alive : bool) : option (A * trace sysE) :=
  fst <$> exec sys_sim (interp (@linux plain_messages stable_sockets sys_config) t)
            (mkSysMachine alive [] 0 SystemdServiceProvider.sim_manager).

Lemma sys_run_runs {A} (t : prog provE A) alive a tr :
  sys_run t alive = Some (a, tr) ->
  runs (interp (@linux plain_messages stable_sockets sys_config) t) tr a.
Proof.
  unfold sys_run. destruct (exec _ _ _) as [[[b tr'] s]|] eqn:E; [|done].
  intros [= <- <-]. by apply exec_runs in E.
Qed.

#[local] Existing Instance elements_order.


(** The plan, what SIGTERM left, and the kernel's view of both steps. *)
Lemma release_on_linux_witness :
  exists tr0 plan tr1 o tr2 after r,
    sys_run (prepareRelease sys_ports 8080) true = Some (Success plan, tr0) /\
    sys_run (terminate sys_ports (obs_value plan)) true = Some (Success o, tr1) /\
    rel_remaining (obs_value o) = Some after /\
    sys_run (force sys_ports after) true = Some (Success r, tr2) /\
    kernel_signals tr1 = [(300, SIGTERM)] /\ kernel_signals tr2 = [(300, SIGKILL)] /\
    Forall (fun sent => sent.1 ∈ plan_ownerPids (obs_value plan) /\ sent.2 = SIGKILL)
      (kernel_signals tr2).
Proof.
  destruct (sys_run (prepareRelease sys_ports 8080) true) as [[[plan|] tr0]|] eqn:E0;
    [|vm_compute in E0; congruence..].
  destruct (sys_run (terminate sys_ports (obs_value plan)) true) as [[[o|] tr1]|] eqn:E1;
    [|vm_compute in E0; injection E0 as <- _; vm_compute in E1; congruence..].
  destruct (rel_remaining (obs_value o)) as [after|] eqn:Ea;
    [|vm_compute in E0; injection E0 as <- _; vm_compute in E1; injection E1 as <- _;
      vm_compute in Ea; congruence].
  destruct (sys_run (force sys_ports after) true) as [[[r|] tr2]|] eqn:E2;
    [|vm_compute in E0; injection E0 as <- _; vm_compute in E1; injection E1 as <- _;
      vm_compute in Ea; injection Ea as <-; vm_compute in E2; congruence..].
  exists tr0, plan, tr1, o, tr2, after, r.
  destruct (@release_on_linux plain_messages stable_sockets sys_config elements_order sys_ports
    8080 tr0 plan tr1 o tr2 after (Success r) (sys_run_runs _ _ _ _ E0) (sys_run_runs _ _ _ _ E1)
    Ea (sys_run_runs _ _ _ _ E2)) as [_ Hk].
  assert (Hs : kernel_signals tr1 = [(300, SIGTERM)] /\ kernel_signals tr2 = [(300, SIGKILL)]).
  { vm_compute in E0. injection E0 as <- _. vm_compute in E1. injection E1 as <- <-.
    vm_compute in Ea. injection Ea as <-. vm_compute in E2. injection E2 as _ <-.
    vm_compute. split; reflexivity. }
  destruct Hs as [Hs1 Hs2]. split_and!; done.
Defined.

(** The plan recommends the unit of the owner; its stop is the only job. *)
Lemma managed_stop_on_linux_witness :
  exists tr0 plan tr r,
    sys_run (prepareRelease sys_ports 8080) true = Some (Success plan, tr0) /\
    sys_run (stopManagedService sys_ports 5 (obs_value plan)) true = Some (Some (Success r), tr) /\
    rel_released (obs_value r) = true /\
    kernel_signals tr = [] /\ manager_jobs tr = [($"StopUnit", $"web.service")].
Proof.
  destruct (sys_run (prepareRelease sys_ports 8080) true) as [[[plan|] tr0]|] eqn:E0;
    [|vm_compute in E0; congruence..].
  destruct (sys_run (stopManagedService sys_ports 5 (obs_value plan)) true) as [[[[r|]|] tr]|] eqn:E1;
    [|vm_compute in E0; injection E0 as <- _; vm_compute in E1; congruence..].
  exists tr0, plan, tr, r.
  destruct (@managed_stop_on_linux plain_messages stable_sockets sys_config elements_order sys_ports
    5 (obs_value plan) tr _ (sys_run_runs _ _ _ _ E1)) as [Hk _].
  split_and!; [done|done| |done|];
    vm_compute in E0; injection E0 as <- _; vm_compute in E1; injection E1 as <- <-; by vm_compute.
Defined.
