(* ===== verification/JsonSerializer.v ===== *)
(** * [cli::JsonSerializer] ([src/cli/JsonSerializer.cpp])

The machine-readable output: JSON values of the domain data inside a versioned
envelope, with the secrets of command lines redacted.  A JSON value of the JSON
library is the inductive type [json]; its [dump] to text is the library's own and
a parameter of the program that prints. *)

From S2P Require Import Prelude CppStd CppString Prog Domain.
From Stdlib Require Import Ascii.

Inductive json :=
| JNull
| JInt (n : Z)
| JFloat (d : double)
| JString (s : str)
| JArray (l : list json)
| JObject (fields : list (str * json)).

Definition errorCodeName (code : ErrorCode) : str :=
  match code with
  | InvalidArgument => $"invalid_argument"
  | NotFound => $"not_found"
  | PermissionDenied => $"permission_denied"
  | Unsupported => $"unsupported"
  | Unavailable => $"unavailable"
  | IoError => $"io_error"
  | ProtocolError => $"protocol_error"
  | ParseError => $"parse_error"
  | OperationFailed => $"operation_failed"
  | Timeout => $"timeout"
  | Conflict => $"conflict"
  | Interrupted => $"interrupted"
  end.

Definition errorValue (error : Error) : json :=
  JObject [($"code", JString (errorCodeName (err_code error)));
           ($"message", JString (err_message error));
           ($"system_error", JInt (err_systemError error));
           ($"component", JString (err_component error));
           ($"operation", JString (err_operation error))].

Definition warningValue (warning : Warning) : json :=
  JObject [($"code", JString (errorCodeName (warn_code warning)));
           ($"message", JString (warn_message warning));
           ($"system_error", JInt (warn_systemError warning));
           ($"component", JString (warn_component warning));
           ($"operation", JString (warn_operation warning))].

Definition warningValues (warnings : list Warning) : json := JArray (map warningValue warnings).

(** ** Redaction of command lines *)

Definition secretKey (value : str) : bool :=
  let key := to_lower value in
  bool_decide (key = $"password") || bool_decide (key = $"passwd") || bool_decide (key = $"token") ||
  bool_decide (key = $"api-key") || bool_decide (key = $"apikey") || bool_decide (key = $"secret") ||
  bool_decide (key = $"database_url").

Definition redacted : str := $"<redacted>".

(** The name of an option: the text before [=], without leading dashes. *)
Definition argument_key (argument : str) : str :=
  drop_while (is_char "-"%char)
    (match find_char "="%char argument with Some equal => take equal argument | None => argument end).

Fixpoint redact (redactNext : bool) (source : list str) : list str :=
  match source with
  | [] => []
  | argument :: rest =>
      if redactNext then redacted :: redact false rest
      else if secretKey (argument_key argument) then
        match find_char "="%char argument with
        | None => argument :: redact true rest
        | Some equal => (take (equal + 1) argument ++ redacted) :: redact false rest
        end
      else argument :: redact false rest
  end.

Definition arguments (source : list str) (raw : bool) : list str :=
  if raw then source else redact false source.

(** ** Values *)

Definition or_null {A} (f : A -> json) (value : option A) : json :=
  match value with Some x => f x | None => JNull end.
Definition optionalString : option str -> json := or_null JString.
Definition optionalPid : option Z -> json := or_null JInt.

Definition processValue (process : ProcessInfo) (raw : bool) : json :=
  JObject [($"pid", JInt (pi_pid process)); ($"ppid", JInt (pi_ppid process));
           ($"name", JString (pi_name process)); ($"state", JString (pi_state process));
           ($"uid", JInt (pi_uid process)); ($"gid", JInt (pi_gid process));
           ($"user", JString (pi_user process));
           ($"executable", optionalString (pi_executable process));
           ($"cwd", optionalString (pi_cwd process));
           ($"argv", JArray (map JString (arguments (pi_argv process) raw)));
           ($"rss_bytes", JInt (pi_rssBytes process)); ($"threads", JInt (pi_threads process));
           ($"cpu_percent", or_null JFloat (pi_cpuPercent process));
           ($"systemd_unit", optionalString (pi_systemdUnit process))].

Definition endpointValue (endpoint : Endpoint) : json :=
  JObject [($"address", JString (ep_address endpoint)); ($"port", JInt (ep_port endpoint))].

Definition socketValue (socket : SocketInfo) : json :=
  JObject [($"protocol", JString (match si_protocol socket with Tcp => $"tcp" | Udp => $"udp" end));
           ($"family", JString (match si_family socket with IPv4 => $"ipv4" | IPv6 => $"ipv6" end));
           ($"local", endpointValue (si_local socket));
           ($"remote", or_null endpointValue (si_remote socket));
           ($"state", JString (si_state socket)); ($"uid", JInt (si_uid socket));
           ($"inode", JInt (si_inode socket));
           ($"owner_pids", JArray (map JInt (si_ownerPids socket)))].

Definition portValue (port : PortInfo) : json :=
  JObject [($"socket", socketValue (port_socket port));
           ($"owners", JArray (map (fun owner => processValue owner false) (port_owners port)))].

Definition serviceValue (service : ServiceInfo) : json :=
  JObject [($"unit_name", JString (svc_unitName service));
           ($"description", JString (svc_description service));
           ($"load_state", JString (svc_loadState service));
           ($"active_state", JString (svc_activeState service));
           ($"sub_state", JString (svc_subState service));
           ($"unit_file_state", JString (svc_unitFileState service));
           ($"main_pid", optionalPid (svc_mainPid service));
           ($"active_enter_timestamp_usec", JInt (svc_activeEnterTimestampUsec service))].

(** [duration_cast] to microseconds truncates toward zero. *)
Definition journalValue (entry : JournalEntry) : json :=
  JObject [($"timestamp_unix_usec", JInt (Z.quot (je_timestamp entry) 1000));
           ($"cursor", JString (je_cursor entry));
           ($"systemd_unit", optionalString (je_systemdUnit entry));
           ($"pid", optionalPid (je_pid entry));
           ($"command", optionalString (je_command entry));
           ($"message", JString (je_message entry));
           ($"priority", or_null JInt (je_priority entry))].

Definition portValues (source : list PortInfo) : json := JArray (map portValue source).
Definition processValues (source : list ProcessInfo) : json :=
  JArray (map (fun value => processValue value false) source).
Definition serviceValues (source : list ServiceInfo) : json := JArray (map serviceValue source).
Definition journalValues (source : list JournalEntry) : json := JArray (map journalValue source).

Definition resourceTargetValue (target : ResourceTarget) : json :=
  match target with
  | PortTarget port => JObject [($"type", JString $"port"); ($"value", JInt port)]
  | ProcessTarget pid => JObject [($"type", JString $"pid"); ($"value", JInt pid)]
  | ServiceTarget unit => JObject [($"type", JString $"service"); ($"value", JString unit)]
  end.

Definition capabilityName (status : CapabilityStatus) : str :=
  match status with
  | Available => $"available" | CapUnavailable => $"unavailable" | NotImplemented => $"not_implemented"
  end.

(** ** Documents *)

Definition schemaVersion : Z := 1.

Definition envelope (command operation : str) (data : json) (warnings : list Warning) : json :=
  JObject [($"schema_version", JInt schemaVersion); ($"command", JString command);
           ($"operation", JString operation); ($"data", data); ($"warnings", warningValues warnings)].

Definition error (command operation : str) (value : Error) : json :=
  JObject [($"schema_version", JInt schemaVersion); ($"command", JString command);
           ($"operation", JString operation); ($"error", errorValue value)].

Definition emptySuccess (command operation : str) (warnings : list Warning) : json :=
  JObject [($"schema_version", JInt schemaVersion); ($"command", JString command);
           ($"operation", JString operation); ($"data", JObject []); ($"warnings", warningValues warnings)].

Definition process (value : Observation ProcessInfo) (rawCommand : bool) : json :=
  envelope $"process" $"inspect" (JObject [($"process", processValue (obs_value value) rawCommand)])
    (obs_warnings value).
Definition processes (value : Observation (list ProcessInfo)) : json :=
  envelope $"process" $"list" (JObject [($"processes", processValues (obs_value value))])
    (obs_warnings value).
Definition ports (value : Observation (list PortInfo)) (operation : str) : json :=
  envelope $"port" operation (JObject [($"ports", portValues (obs_value value))]) (obs_warnings value).
Definition service (value : Observation ServiceInfo) : json :=
  envelope $"service" $"inspect" (JObject [($"service", serviceValue (obs_value value))])
    (obs_warnings value).
Definition services (value : Observation (list ServiceInfo)) : json :=
  envelope $"service" $"list" (JObject [($"services", serviceValues (obs_value value))])
    (obs_warnings value).
Definition logs (value : Observation (list JournalEntry)) : json :=
  envelope $"log" $"read" (JObject [($"entries", journalValues (obs_value value))]) (obs_warnings value).
Definition logEvent (value : Observation JournalEntry) : json :=
  envelope $"log" $"follow" (JObject [($"entry", journalValue (obs_value value))]) (obs_warnings value).
Definition checkValue (check : CapabilityCheck) : json :=
  JObject [($"name", JString (cap_name check)); ($"status", JString (capabilityName (cap_status check)));
           ($"detail", JString (cap_detail check))].
Definition doctor (value : DoctorReport) : json :=
  envelope $"doctor" $"inspect" (JObject [($"checks", JArray (map checkValue (checks value)))]) [].
Definition inspect (value : ResourceGraph) : json :=
  envelope $"inspect" $"inspect"
    (JObject [($"root", resourceTargetValue (rg_root value)); ($"ports", portValues (rg_ports value));
              ($"processes", processValues (rg_processes value));
              ($"services", serviceValues (rg_services value));
              ($"recent_logs", journalValues (rg_recentLogs value))])
    (rg_warnings value).
Definition find (value : FindResult) : json :=
  envelope $"find" $"search"
    (JObject [($"services", serviceValues (fr_services value));
              ($"processes", processValues (fr_processes value));
              ($"ports", portValues (fr_ports value));
              ($"executables", JArray (map JString (fr_executables value)))])
    (fr_warnings value).
Definition status (value : HostStatus) : json :=
  envelope $"status" $"read"
    (JObject [($"status",
       JObject [($"hostname", JString (hs_hostname value));
                ($"cpu_percent", or_null JFloat (hs_cpuPercent value));
                ($"memory_total_bytes", JInt (hs_memoryTotalBytes value));
                ($"memory_used_bytes", JInt (hs_memoryUsedBytes value));
                ($"uptime_milliseconds", JInt (hs_uptime value))])]) [].

(** ** Reading a document back

What a consumer of the documents does: look up the fields by name. *)

Definition field (name : str) (j : json) : option json :=
  match j with
  | JObject fields => snd <$> List.find (fun f => bool_decide (f.1 = name)) fields
  | _ => None
  end.
Definition as_int (j : json) : option Z := match j with JInt n => Some n | _ => None end.
Definition as_float (j : json) : option double := match j with JFloat d => Some d | _ => None end.
Definition as_string (j : json) : option str := match j with JString s => Some s | _ => None end.
Definition as_list {A} (f : json -> option A) (j : json) : option (list A) :=
  match j with JArray l => mapM f l | _ => None end.
(** [null] is the absent value. *)
Definition as_optional {A} (f : json -> option A) (j : json) : option (option A) :=
  match j with JNull => Some None | _ => Some <$> f j end.
Definition get {A} (name : str) (f : json -> option A) (j : json) : option A := v ← field name j; f v.

Definition code_of (name : str) : option ErrorCode :=
  snd <$> List.find (fun e => bool_decide (e.1 = name))
    (map (fun c => (errorCodeName c, c))
       [InvalidArgument; NotFound; PermissionDenied; Unsupported; Unavailable; IoError; ProtocolError;
        ParseError; OperationFailed; Timeout; Conflict; Interrupted]).
Definition one_of_two {A} (n1 : str) (a1 : A) (n2 : str) (a2 : A) (j : json) : option A :=
  s ← as_string j;
  if bool_decide (s = n1) then Some a1 else if bool_decide (s = n2) then Some a2 else None.

Definition read_warning (j : json) : option Warning :=
  code ← get $"code" as_string j ≫= code_of;
  message ← get $"message" as_string j; number ← get $"system_error" as_int j;
  component ← get $"component" as_string j; operation ← get $"operation" as_string j;
  Some (mkWarning code message number component operation).
Definition read_error (j : json) : option Error :=
  w ← read_warning j;
  Some (mkError (warn_code w) (warn_message w) (warn_systemError w) (warn_component w) (warn_operation w)).

Definition read_process (j : json) : option ProcessInfo :=
  pid ← get $"pid" as_int j; ppid ← get $"ppid" as_int j; name ← get $"name" as_string j;
  state ← get $"state" as_string j; uid ← get $"uid" as_int j; gid ← get $"gid" as_int j;
  user ← get $"user" as_string j; executable ← get $"executable" (as_optional as_string) j;
  cwd ← get $"cwd" (as_optional as_string) j; argv ← get $"argv" (as_list as_string) j;
  rss ← get $"rss_bytes" as_int j; threads ← get $"threads" as_int j;
  cpu ← get $"cpu_percent" (as_optional as_float) j;
  unit ← get $"systemd_unit" (as_optional as_string) j;
  Some (mkProcessInfo pid ppid name state uid gid user executable cwd argv rss threads cpu unit).

Definition read_endpoint (j : json) : option Endpoint :=
  address ← get $"address" as_string j; port ← get $"port" as_int j; Some (mkEndpoint address port).

Definition read_socket (j : json) : option SocketInfo :=
  protocol ← get $"protocol" (one_of_two $"tcp" Tcp $"udp" Udp) j;
  family ← get $"family" (one_of_two $"ipv4" IPv4 $"ipv6" IPv6) j;
  local ← get $"local" read_endpoint j; remote ← get $"remote" (as_optional read_endpoint) j;
  state ← get $"state" as_string j; uid ← get $"uid" as_int j; inode ← get $"inode" as_int j;
  owners ← get $"owner_pids" (as_list as_int) j;
  Some (mkSocketInfo protocol family local remote state uid inode owners).

Definition read_port (j : json) : option PortInfo :=
  socket ← get $"socket" read_socket j; owners ← get $"owners" (as_list read_process) j;
  Some (mkPortInfo socket owners).

Definition read_service (j : json) : option ServiceInfo :=
  unit ← get $"unit_name" as_string j; description ← get $"description" as_string j;
  load ← get $"load_state" as_string j; active ← get $"active_state" as_string j;
  sub ← get $"sub_state" as_string j; file ← get $"unit_file_state" as_string j;
  pid ← get $"main_pid" (as_optional as_int) j;
  since ← get $"active_enter_timestamp_usec" as_int j;
  Some (mkServiceInfo unit description load active sub file pid since).

Definition read_entry (j : json) : option JournalEntry :=
  usec ← get $"timestamp_unix_usec" as_int j; cursor ← get $"cursor" as_string j;
  unit ← get $"systemd_unit" (as_optional as_string) j; pid ← get $"pid" (as_optional as_int) j;
  command ← get $"command" (as_optional as_string) j; message ← get $"message" as_string j;
  priority ← get $"priority" (as_optional as_int) j;
  Some (mkJournalEntry (usec * 1000) cursor unit pid command message priority).

Definition read_target (j : json) : option ResourceTarget :=
  type ← get $"type" as_string j;
  if bool_decide (type = $"port") then PortTarget <$> get $"value" as_int j
  else if bool_decide (type = $"pid") then ProcessTarget <$> get $"value" as_int j
  else if bool_decide (type = $"service") then ServiceTarget <$> get $"value" as_string j
  else None.

Definition read_graph (document : json) : option ResourceGraph :=
  data ← field $"data" document;
  root ← get $"root" read_target data; ports ← get $"ports" (as_list read_port) data;
  processes ← get $"processes" (as_list read_process) data;
  services ← get $"services" (as_list read_service) data;
  logs ← get $"recent_logs" (as_list read_entry) data;
  warnings ← get $"warnings" (as_list read_warning) document;
  Some (mkResourceGraph root ports processes services logs warnings).

(** ** Facts *)

Lemma get_here {A} name (f : json -> option A) v rest : get name f (JObject ((name, v) :: rest)) = f v.
Proof. unfold get, field. cbn [List.find fst]. by rewrite bool_decide_eq_true_2. Qed.
Lemma get_later {A} name (f : json -> option A) n v rest :
  n <> name -> get name f (JObject ((n, v) :: rest)) = get name f (JObject rest).
Proof. intros H. unfold get, field. cbn [List.find fst]. by rewrite bool_decide_eq_false_2. Qed.

(** Look up the fields of an object, one after the other. *)
Ltac other_name := let H := fresh in intros H; vm_compute in H; congruence.
Ltac get_fields :=
  repeat first
    [ rewrite get_here
    | rewrite get_later by other_name ].

Lemma optional_null {A} (f : json -> option A) (g : A -> json) value :
  (forall x, g x <> JNull /\ f (g x) = Some x) -> as_optional f (or_null g value) = Some value.
Proof.
  intros H. destruct value as [x|]; [|done]. destruct (H x) as [Hn E]. unfold or_null, as_optional.
  destruct (g x); by rewrite ?E.
Qed.
Lemma optional_string value : as_optional as_string (optionalString value) = Some value.
Proof. by apply optional_null. Qed.
Lemma optional_pid value : as_optional as_int (optionalPid value) = Some value.
Proof. by apply optional_null. Qed.
Lemma optional_int value : as_optional as_int (or_null JInt value) = Some value.
Proof. by apply optional_null. Qed.
Lemma optional_float value : as_optional as_float (or_null JFloat value) = Some value.
Proof. by apply optional_null. Qed.

Lemma list_map {A B} (f : json -> option B) (g : A -> json) (h : A -> B) l :
  (forall x, x ∈ l -> f (g x) = Some (h x)) -> as_list f (JArray (map g l)) = Some (map h l).
Proof.
  intros H. simpl. induction l as [|x l IH]; simpl; [done|].
  rewrite H by set_solver. simpl. rewrite IH by set_solver. done.
Qed.
Lemma list_strings l : as_list as_string (JArray (map JString l)) = Some l.
Proof. rewrite (list_map _ _ id) by done. by rewrite map_id. Qed.
Lemma list_ints l : as_list as_int (JArray (map JInt l)) = Some l.
Proof. rewrite (list_map _ _ id) by done. by rewrite map_id. Qed.

(** What a document shows of a process, of a port. *)
Definition redact_process (p : ProcessInfo) : ProcessInfo :=
  mkProcessInfo (pi_pid p) (pi_ppid p) (pi_name p) (pi_state p) (pi_uid p) (pi_gid p) (pi_user p)
    (pi_executable p) (pi_cwd p) (redact false (pi_argv p)) (pi_rssBytes p) (pi_threads p)
    (pi_cpuPercent p) (pi_systemdUnit p).
Definition redact_port (p : PortInfo) : PortInfo :=
  mkPortInfo (port_socket p) (map redact_process (port_owners p)).
Definition redact_graph (g : ResourceGraph) : ResourceGraph :=
  mkResourceGraph (rg_root g) (map redact_port (rg_ports g)) (map redact_process (rg_processes g))
    (rg_services g) (rg_recentLogs g) (rg_warnings g).

Ltac read_value := get_fields; cbn [as_int as_string as_float mbind option_bind].

Lemma read_processValue p : read_process (processValue p false) = Some (redact_process p).
Proof.
  unfold read_process, processValue, arguments. do 7 read_value.
  rewrite optional_string. do 1 read_value. rewrite optional_string. read_value.
  rewrite list_strings. do 3 read_value. rewrite optional_float. read_value.
  by rewrite optional_string.
Qed.

Lemma read_endpointValue e : read_endpoint (endpointValue e) = Some e.
Proof. unfold read_endpoint, endpointValue. do 2 read_value. by destruct e. Qed.

Lemma read_socketValue s : read_socket (socketValue s) = Some s.
Proof.
  unfold read_socket, socketValue. read_value.
  assert (E1 : one_of_two $"tcp" Tcp $"udp" Udp
            (JString (match si_protocol s with Tcp => $"tcp" | Udp => $"udp" end)) = Some (si_protocol s))
    by (by destruct (si_protocol s)).
  assert (E2 : one_of_two $"ipv4" IPv4 $"ipv6" IPv6
            (JString (match si_family s with IPv4 => $"ipv4" | IPv6 => $"ipv6" end)) = Some (si_family s))
    by (by destruct (si_family s)).
  rewrite E1. read_value. rewrite E2. read_value. rewrite read_endpointValue. read_value.
  rewrite optional_null by (intros x; split; [done|apply read_endpointValue]).
  do 3 read_value. rewrite list_ints. by destruct s.
Qed.

Lemma read_portValue p : read_port (portValue p) = Some (redact_port p).
Proof.
  unfold read_port, portValue. read_value. rewrite read_socketValue. read_value.
  rewrite (list_map _ _ redact_process) by (intros; apply read_processValue). done.
Qed.

Lemma read_serviceValue s : read_service (serviceValue s) = Some s.
Proof.
  unfold read_service, serviceValue. do 6 read_value. rewrite optional_pid. read_value. by destruct s.
Qed.

Lemma read_journalValue e :
  je_timestamp e mod 1000 = 0 -> read_entry (journalValue e) = Some e.
Proof.
  intros Ht. unfold read_entry, journalValue. do 2 read_value. rewrite optional_string. read_value.
  rewrite optional_pid. read_value. rewrite optional_string. do 2 read_value. rewrite optional_int.
  cbn [mbind option_bind]. f_equal.
  assert (E : Z.quot (je_timestamp e) 1000 * 1000 = je_timestamp e).
  { rewrite Z.mul_comm. symmetry. apply Z.quot_exact; [done|].
    apply Z.rem_mod_eq_0; [done|exact Ht]. }
  rewrite E. by destruct e.
Qed.

Lemma code_of_name c : code_of (errorCodeName c) = Some c.
Proof. by destruct c; vm_compute. Qed.

Lemma read_warningValue w : read_warning (warningValue w) = Some w.
Proof. unfold read_warning, warningValue. read_value. rewrite code_of_name. do 4 read_value. by destruct w. Qed.

Lemma read_targetValue t : read_target (resourceTargetValue t) = Some t.
Proof. destruct t; unfold read_target, resourceTargetValue; read_value; [by vm_compute..|]. by cbn. Qed.



(** ** Redaction *)

(** A secret option without a value of its own: its value is the next argument. *)
Definition bare_secret (argument : str) : bool :=
  secretKey (argument_key argument) &&
  match find_char "="%char argument with None => true | Some _ => false end.
(** Whether the next argument is redacted, after these. *)
Fixpoint armed (next : bool) (source : list str) : bool :=
  match source with
  | [] => next
  | argument :: rest => armed (negb next && bare_secret argument) rest
  end.

Lemma redact_cons next argument rest :
  redact next (argument :: rest) =
  (if next then redacted
   else if secretKey (argument_key argument) then
     match find_char "="%char argument with
     | None => argument
     | Some equal => take (equal + 1) argument ++ redacted
     end
   else argument) :: redact (negb next && bare_secret argument) rest.
Proof.
  simpl. unfold bare_secret. destruct next; [done|].
  destruct (secretKey _); [|done]. by destruct (find_char _ _).
Qed.

Lemma redact_app next l k : redact next (l ++ k) = redact next l ++ redact (armed next l) k.
Proof.
  revert next. induction l as [|x l IH]; intros next; [done|].
  cbn [app]. rewrite !redact_cons. cbn [armed app]. by rewrite IH.
Qed.

Lemma length_redact next l : length (redact next l) = length l.
Proof. revert next. induction l as [|x l IH]; intros next; [done|]. rewrite redact_cons. simpl. by rewrite IH. Qed.

Lemma armed_snoc next l x : armed next (l ++ [x]) = negb (armed next l) && bare_secret x.
Proof. revert next. induction l as [|y l IH]; intros next; [done|]. apply IH. Qed.

(** C12. Redaction hides the values of secret options and nothing else: the value
after [=] of a secret option, and the argument after a secret option without [=],
unless that option is itself the value of the one before; all other arguments are
shown as they are, one for one.  The exception is a gap: in
[--token --password hunter2] the second option is hidden and its value shown. *)
Theorem redaction_hides before argument after :
  let shown := arguments (before ++ argument :: after) false in
  length shown = length (before ++ argument :: after) /\
  shown !! length before = Some
    (if armed false before then redacted
     else match find_char "="%char argument with
          | Some equal => if secretKey (argument_key argument) then take (equal + 1) argument ++ redacted else argument
          | None => argument
          end) /\
  armed false (before ++ [argument]) = negb (armed false before) && bare_secret argument /\
  arguments [$"--token"; $"--password"; $"hunter2"] false = [$"--token"; redacted; $"hunter2"].
Proof.
  cbv zeta. unfold arguments. split_and!.
  - apply length_redact.
  - rewrite redact_app, redact_cons, <- (length_redact false before) at 1.
    rewrite list_lookup_middle by done. f_equal. destruct (armed false before); [done|].
    destruct (find_char _ _), (secretKey _); done.
  - apply armed_snoc.
  - by vm_compute.
Qed.
