(* ===== verification/CliText.v ===== *)
(** * The text output of the command line ([src/cli/CliApp.cpp], first part)

Everything the command line prints for people: tables, a process, a port
release plan, journal entries, the resource graph; the confirmation of a prompt;
the redaction of displayed command lines; the exit codes.  The lines of a text are
its bytes; the [fmt] library (the display width of a text, a number with one
decimal) and the conversion of an instant to local time are parameters. *)

From S2P Require Import Prelude CppStd CppString Prog Domain Float.
From S2P Require JsonSerializer.
From Stdlib Require Import Ascii SpecFloat.

Class Formats := {
  display_width : str -> nat;          (* the columns fmt counts for a text *)
  fixed1 : double -> str;              (* {:.1f} *)
  local_text : Z -> option str;        (* localtime_r, then put_time with %F %T *)
}.

(** One column per byte, for examples. *)
Definition plain_formats : Formats :=
  {| display_width := length; fixed1 := fun _ => $"0.0"; local_text := fun _ => Some $"2026-01-01 00:00:00" |}.

Definition nl : ascii := chr 10.
Definition spaces (n : nat) : str := replicate n " "%char.
Definition lines (ls : list str) : str := concat (map (fun l => l ++ [nl]) ls).

(** [{:<w}] and [{:>w}] of a number. *)
Definition number_left (w : nat) (n : Z) : str := to_string n ++ spaces (w - length (to_string n)).
Definition number_right (w : nat) (text : str) : str := spaces (w - length text) ++ text.
(** [{:02}] *)
Definition two_digits (n : Z) : str :=
  if (0 <=? n) && (n <? 10) then "0"%char :: to_string n else to_string n.

(** ** Pieces *)

Definition statusText (status : CapabilityStatus) : str :=
  match status with
  | Available => $"OK" | CapUnavailable => $"unavailable" | NotImplemented => $"not implemented"
  end.

(** What [confirm] makes of the line read after its prompt; [None]: no line. *)
Definition trim (answer : str) : str := drop_last_while isspace (drop_while isspace answer).
Definition confirmed (answer : option str) (defaultYes : bool) : bool :=
  match answer with
  | None => false
  | Some answer =>
      match trim answer with
      | [] => defaultYes
      | text =>
          let normalized := to_lower text in
          bool_decide (normalized = $"y") || bool_decide (normalized = $"yes")
      end
  end.

Definition mechanismName (mechanism : SignalMechanism) : str :=
  match mechanism with ByPidFd => $"pidfd" | ByKill => $"kill(2)" end.

Definition isSecretKey (key : str) : bool :=
  let normalized := to_lower key in
  bool_decide (normalized = $"password") || bool_decide (normalized = $"passwd") ||
  bool_decide (normalized = $"token") || bool_decide (normalized = $"api-key") ||
  bool_decide (normalized = $"apikey") || bool_decide (normalized = $"secret") ||
  bool_decide (normalized = $"database_url").

(** One turn of the loop of [displayedArguments]: the argument as displayed and
the new [redactNext]. *)
Definition displayed (redactNext : bool) (argument : str) : str * bool :=
  if redactNext then ($"<redacted>", false)
  else
    let equal := find_char "="%char argument in
    let key := match equal with None => argument | Some equal => substr argument 0 equal end in
    if isSecretKey (drop_while (is_char "-"%char) key) then
      match equal with
      | None => (argument, true)
      | Some equal => (substr argument 0 (equal + 1) ++ $"<redacted>", false)
      end
    else (argument, false).

Definition displayedArguments (arguments : list str) (raw : bool) : list str :=
  if raw then arguments
  else
    (foldl (fun (acc : list str * bool) argument =>
        let '(text, next) := displayed acc.2 argument in (acc.1 ++ [text], next))
      ([], false) arguments).1.

(** The loops [if (index != 0) joined << separator; joined << item]. *)
Definition join (separator : str) (items : list str) : str :=
  match items with
  | [] => []
  | item :: rest => item ++ concat (map (fun x => separator ++ x) rest)
  end.
Definition joinArguments (arguments : list str) : str := join $" " arguments.

(** A comma is written when something was written before ([tellp]). *)
Definition ownerNames (port : PortInfo) : str :=
  match si_ownerPids (port_socket port) with
  | [] => $"unresolved"
  | pids =>
      foldl (fun joined pid =>
          (match joined with [] => [] | _ => joined ++ $"," end) ++
          match find_if (fun process => pi_pid process =? pid) (port_owners port) with
          | None => $"<unavailable>"
          | Some owner => pi_name owner
          end)
        [] pids
  end.

Definition ownerPids (port : PortInfo) : str :=
  match si_ownerPids (port_socket port) with
  | [] => $"-"
  | pids => join $"," (map to_string pids)
  end.

Definition add_unit (units : list str) (owner : ProcessInfo) : list str :=
  match pi_systemdUnit owner with
  | Some unit => if bool_decide (unit ∈ units) then units else units ++ [unit]
  | None => units
  end.
Definition ownerServices (port : PortInfo) : str :=
  match foldl add_unit [] (port_owners port) with
  | [] => $"-"
  | units => join $"," units
  end.

Fixpoint process_in (ports : list PortInfo) (pid : Z) : str :=
  match ports with
  | [] => $"<unavailable>"
  | port :: rest =>
      match find_if (fun process => pi_pid process =? pid) (port_owners port) with
      | Some owner => pi_name owner
      | None => process_in rest pid
      end
  end.
Definition processName (plan : PortReleasePlan) (pid : Z) : str := process_in (plan_ports plan) pid.

Definition tableCell (value : str) (width : nat) : str :=
  let cell :=
    if (length value <=? width)%nat then value
    else if (3 <? width)%nat then substr value 0 (width - 3) ++ $"..."
    else substr value 0 width in
  cell ++ spaces (width - length cell).

Definition shortened (value : str) (width : nat) : str :=
  if (length value <=? width)%nat then value
  else if (3 <? width)%nat then substr value 0 (width - 3) ++ $"..." else substr value 0 width.

(** [{:02x}] of a byte. *)
Definition hex_digit (n : Z) : ascii := chr (if n <? 10 then 48 + n else 87 + n).
Definition hex2 (n : Z) : str := [hex_digit (n / 16); hex_digit (n mod 16)].

(** What a byte of a log message becomes. *)
Definition safe_byte (character : ascii) : str :=
  if byte character =? 10 then $"\n"
  else if byte character =? 13 then $"\r"
  else if byte character =? 9 then $"\t"
  else if (byte character <? 32) || (byte character =? 127) then $"\x" ++ hex2 (byte character)
  else [character].

Fixpoint safe_from (result value : str) (limit : nat) : str :=
  match value with
  | [] => result
  | character :: rest =>
      if (limit <=? length result)%nat then result ++ $"..."
      else safe_from (result ++ safe_byte character) rest limit
  end.
Definition safeLogText (value : str) (limit : nat) : str := safe_from [] value limit.
(** The default of the second argument. *)
Definition logTextLimit : nat := 4096.

Definition priorityText (priority : option Z) : str :=
  match priority with
  | None => $"unknown"
  | Some n =>
      match [$"emerg"; $"alert"; $"crit"; $"err"; $"warning"; $"notice"; $"info"; $"debug"]
              !! Z.to_nat n with
      | Some name => name
      | None => $"unknown"
      end
  end.

Definition exitCode (code : ErrorCode) : Z :=
  match code with
  | InvalidArgument => 2
  | NotFound => 3
  | PermissionDenied => 4
  | Unsupported | Unavailable => 6
  | Conflict => 7
  | Timeout => 8
  | Interrupted => 130
  | IoError | ProtocolError | ParseError | OperationFailed => 5
  end.

(** ** Printing

A stream is what writing a text to it does; the diagnostics are muted by
[--quiet]. *)

Variant streamE : Type -> Type :=
| Output (text : str) : streamE unit
| Diagnostic (text : str) : streamE unit.

Abbreviation stream := (str -> prog streamE unit).
Definition output_stream : stream := fun text => trigger (Output text).
Definition error_stream : stream := fun text => trigger (Diagnostic text).
Definition muted_stream : stream := fun _ => Ret tt.

Definition each {A} (f : A -> prog streamE unit) (l : list A) : prog streamE unit :=
  foldr (fun a rest => f a ;; rest) (Ret tt) l.

Definition print_warnings (error : stream) : list Warning -> prog streamE unit :=
  each (fun warning => error ($"Warning: " ++ warn_message warning ++ [nl])).

Section Print.
Context {formats : Formats}.

(** [{:<w}] and [{:>w}] of a text. *)
Definition text_left (w : nat) (text : str) : str := text ++ spaces (w - display_width text).
Definition text_right (w : nat) (text : str) : str := spaces (w - display_width text) ++ text.

Definition mebibytes (bytes : Z) : double := fdiv (of_Z bytes) (of_Z (1024 * 1024)).
Definition percent (value : option double) (suffix : str) : str :=
  match value with Some v => fixed1 v ++ suffix | None => $"-" end.

Definition printDoctorReport (report : DoctorReport) (output : stream) : prog streamE unit :=
  output (lines [$"LX Doctor"; []]) ;;
  each (fun check =>
      output (lines [text_left 20 (cap_name check) ++ $" " ++ statusText (cap_status check)]) ;;
      output (lines [$"  " ++ cap_detail check]))
    (checks report).

Definition printReleasePlan (plan : PortReleasePlan) (output : stream) : prog streamE unit :=
  output (lines [$"Port " ++ to_string (plan_localPort plan) ++ $" is owned by:"; []]) ;;
  output (lines [$"PID      PROCESS"]) ;;
  each (fun pid => output (lines [number_left 8 pid ++ $" " ++ processName plan pid]))
    (plan_ownerPids plan) ;;
  output (lines [[]]) ;;
  match plan_recommendedUnit plan with
  | Some unit =>
      output (lines [$"All owners belong to " ++ unit ++ $".";
        $"Recommended action: stop the service instead of signaling its processes."; []])
  | None => Ret tt
  end.

Definition printProcess (observed : Observation ProcessInfo) (raw : bool) (output : stream)
    (quiet : bool) : prog streamE unit :=
  let process := obs_value observed in
  output (lines [$"Process " ++ to_string (pi_pid process); []]) ;;
  output (lines [$"Name        " ++ pi_name process; $"State       " ++ pi_state process;
                 $"PPID        " ++ to_string (pi_ppid process)]) ;;
  output (lines [$"User        " ++ pi_user process ++ $" (" ++ to_string (pi_uid process) ++ $")";
                 $"Threads     " ++ to_string (pi_threads process);
                 $"RSS         " ++ fixed1 (mebibytes (pi_rssBytes process)) ++ $" MiB"]) ;;
  output (lines [$"CPU         " ++ percent (pi_cpuPercent process) $"%"]) ;;
  output (lines [$"Executable  " ++ default $"<unavailable>" (pi_executable process);
                 $"CWD         " ++ default $"<unavailable>" (pi_cwd process)]) ;;
  output (lines [[]; $"Command"; $"  " ++ joinArguments (displayedArguments (pi_argv process) raw)]) ;;
  output (lines [[]; $"Service"; $"  " ++ default $"<none>" (pi_systemdUnit process)]) ;;
  match obs_warnings observed with
  | [] => Ret tt
  | warnings =>
      if quiet then Ret tt
      else
        output (lines [[]; $"Warnings"]) ;;
        each (fun warning => output (lines [$"  " ++ warn_message warning])) warnings
  end.

Definition printProcesses (observed : Observation (list ProcessInfo)) (output error : stream) :
    prog streamE unit :=
  output (lines
    [$"PID      USER             STATE          CPU %   RSS MiB   THREADS  NAME                     SERVICE"]) ;;
  each (fun process =>
      output (lines [number_left 8 (pi_pid process) ++ $" " ++
        text_left 16 (shortened (pi_user process) 16) ++ $" " ++
        text_left 14 (shortened (pi_state process) 14) ++ $" " ++
        text_right 6 (percent (pi_cpuPercent process) []) ++ $" " ++
        number_right 9 (fixed1 (mebibytes (pi_rssBytes process))) ++ $" " ++
        number_right 8 (to_string (pi_threads process)) ++ $"  " ++
        text_left 24 (shortened (pi_name process) 24) ++ $" " ++
        default $"-" (pi_systemdUnit process)]))
    (obs_value observed) ;;
  print_warnings error (obs_warnings observed).

Definition printStatus (status : HostStatus) (output : stream) : prog streamE unit :=
  let uptimeSeconds := Z.quot (hs_uptime status) 1000 in
  let days := Z.quot uptimeSeconds 86400 in
  let hours := Z.quot (Z.rem uptimeSeconds 86400) 3600 in
  let minutes := Z.quot (Z.rem uptimeSeconds 3600) 60 in
  output (lines [$"Host      " ++ hs_hostname status;
    $"CPU       " ++ percent (hs_cpuPercent status) $"%";
    $"Memory    " ++ fixed1 (mebibytes (hs_memoryUsedBytes status)) ++ $" / " ++
      fixed1 (mebibytes (hs_memoryTotalBytes status)) ++ $" MiB (" ++
      fixed1 (if hs_memoryTotalBytes status =? 0 then S754_zero false
              else fdiv (fmul (of_Z 100) (of_Z (hs_memoryUsedBytes status)))
                     (of_Z (hs_memoryTotalBytes status))) ++ $"%)";
    $"Uptime    " ++ to_string days ++ $"d " ++ two_digits hours ++ $"h " ++ two_digits minutes ++ $"m"]).

Definition timestampText (timestampUsec : Z) : str :=
  if timestampUsec =? 0 then $"-" else default $"-" (local_text (timestampUsec / 1000000)).

(** [to_time_t] truncates the nanoseconds toward zero. *)
Definition logTimestamp (timestamp : Z) : str := default $"-" (local_text (Z.quot timestamp 1000000000)).

Definition journal_line (entry : JournalEntry) : str :=
  let source := default $"-" (je_systemdUnit entry) in
  let source :=
    match je_pid entry with Some pid => source ++ ($"[" ++ to_string pid ++ $"]") | None => source end in
  let source :=
    match je_command entry with Some command => source ++ ($" " ++ shortened command 24) | None => source end in
  logTimestamp (je_timestamp entry) ++ $" " ++ text_left 7 (priorityText (je_priority entry)) ++ $" " ++
  shortened source 56 ++ $": " ++ safeLogText (je_message entry) logTextLimit.

Definition printJournalEntry (observed : Observation JournalEntry) (output error : stream) :
    prog streamE unit :=
  output (lines [journal_line (obs_value observed)]) ;;
  print_warnings error (obs_warnings observed).

Definition printJournalEntries (observed : Observation (list JournalEntry)) (output error : stream) :
    prog streamE unit :=
  each (fun entry => printJournalEntry (Observed entry []) output error) (obs_value observed) ;;
  print_warnings error (obs_warnings observed).

Definition or_dash (text : str) : str := match text with [] => $"-" | _ => text end.
Definition pid_or_dash (pid : option Z) : str :=
  match pid with Some pid => to_string pid | None => $"-" end.

Definition printServices (observed : Observation (list ServiceInfo)) (output error : stream) :
    prog streamE unit :=
  output (lines [tableCell $"SERVICE" 40 ++ $" " ++ tableCell $"ACTIVE" 12 ++ $" " ++
                 tableCell $"SUB" 16 ++ $" " ++ tableCell $"ENABLED" 16 ++ $" MAIN PID"]) ;;
  each (fun service =>
      output (lines [tableCell (svc_unitName service) 40 ++ $" " ++
        tableCell (svc_activeState service) 12 ++ $" " ++ tableCell (svc_subState service) 16 ++ $" " ++
        tableCell (or_dash (svc_unitFileState service)) 16 ++ $" " ++ pid_or_dash (svc_mainPid service)]))
    (obs_value observed) ;;
  print_warnings error (obs_warnings observed).

Definition printService (observed : Observation ServiceInfo) (output error : stream) : prog streamE unit :=
  let service := obs_value observed in
  output (lines [svc_unitName service; []]) ;;
  output (lines [$"Description  " ++ svc_description service; $"Load         " ++ svc_loadState service;
    $"Active       " ++ svc_activeState service; $"Sub          " ++ svc_subState service;
    $"Enabled      " ++ or_dash (svc_unitFileState service);
    $"Main PID     " ++ pid_or_dash (svc_mainPid service);
    $"Since        " ++ timestampText (svc_activeEnterTimestampUsec service)]) ;;
  print_warnings error (obs_warnings observed).

Definition protocol_text (port : PortInfo) : str :=
  match si_protocol (port_socket port) with Tcp => $"TCP" | Udp => $"UDP" end.
Definition local_endpoint (port : PortInfo) : str :=
  ep_address (si_local (port_socket port)) ++ $":" ++ to_string (ep_port (si_local (port_socket port))).

(** A headed section, left out when it is empty. *)
Definition section_of {A} (output : stream) (heading : list str) (item : A -> prog streamE unit) (l : list A) :
    prog streamE unit :=
  match l with [] => Ret tt | _ => output (lines heading) ;; each item l end.

Definition printResourceGraph (graph : ResourceGraph) (output error : stream) : prog streamE unit :=
  output (lines [match rg_root graph with
                 | PortTarget port => $"Port " ++ to_string port
                 | ProcessTarget pid => $"Process " ++ to_string pid
                 | ServiceTarget unit => unit
                 end]) ;;
  section_of output [[]; $"Ports"] (fun port =>
      output (lines [$"  " ++ protocol_text port ++ $" " ++ local_endpoint port ++ $" " ++
        text_left 10 (si_state (port_socket port)) ++ $" PID " ++ ownerPids port]))
    (rg_ports graph) ;;
  section_of output [[]; $"Processes"] (fun process =>
      output (lines [$"  " ++ number_left 8 (pi_pid process) ++ $" " ++
        text_left 24 (shortened (pi_name process) 24) ++ $" " ++
        text_left 14 (shortened (pi_state process) 14) ++ $" " ++ pi_user process]))
    (rg_processes graph) ;;
  section_of output [[]; $"Services"] (fun service =>
      output (lines [$"  " ++ text_left 40 (shortened (svc_unitName service) 40) ++ $" " ++
        svc_activeState service ++ $" / " ++ svc_subState service]))
    (rg_services graph) ;;
  section_of output [[]; $"Recent logs"]
    (fun entry => printJournalEntry (Observed entry []) output error) (rg_recentLogs graph) ;;
  print_warnings error (rg_warnings graph).

Definition printFindResult (result : FindResult) (output error : stream) : prog streamE unit :=
  section_of output [$"SERVICES"] (fun service => output (lines [$"  " ++ svc_unitName service]))
    (fr_services result) ;;
  section_of output [[]; $"PROCESSES"] (fun process =>
      output (lines [$"  " ++ number_left 8 (pi_pid process) ++ $" " ++ pi_name process]))
    (fr_processes result) ;;
  section_of output [[]; $"PORTS"] (fun port =>
      output (lines [$"  " ++ protocol_text port ++ $" " ++ local_endpoint port]))
    (fr_ports result) ;;
  section_of output [[]; $"EXECUTABLES"] (fun executable => output (lines [$"  " ++ executable]))
    (fr_executables result) ;;
  print_warnings error (fr_warnings result).

(** The table of [lx port]. *)
Definition printPorts (observed : Observation (list PortInfo)) (output error : stream) : prog streamE unit :=
  output (lines
    [$"PROTO  ADDRESS                                  PORT   STATE        UID     INODE       PROCESS          PID          SERVICE"]) ;;
  each (fun portInfo =>
      let socket := port_socket portInfo in
      output (lines [text_left 6 (protocol_text portInfo) ++ $" " ++
        text_left 40 (ep_address (si_local socket)) ++ $" " ++ number_left 6 (ep_port (si_local socket)) ++ $" " ++
        text_left 12 (si_state socket) ++ $" " ++ number_left 7 (si_uid socket) ++ $" " ++
        number_left 11 (si_inode socket) ++ $" " ++ text_left 16 (ownerNames portInfo) ++ $" " ++
        text_left 12 (ownerPids portInfo) ++ $" " ++ ownerServices portInfo]))
    (obs_value observed) ;;
  print_warnings error (obs_warnings observed).
End Print.

(** The first owner has an empty name: one comma between three names. *)
Lemma empty_name_loses_comma port p q r :
  pi_pid p = 1 -> pi_pid q = 2 -> pi_pid r = 3 -> pi_name p = [] ->
  port_owners port = [p; q; r] -> si_ownerPids (port_socket port) = [1; 2; 3] ->
  ownerNames port = match pi_name q with [] => pi_name r | _ => pi_name q ++ $"," ++ pi_name r end.
Proof.
  intros Hp Hq Hr Hn Ho Hs. unfold ownerNames. rewrite Hs, Ho.
  assert (forall x, find_if (fun process => pi_pid process =? x) [p; q; r] =
    if 1 =? x then Some p else if 2 =? x then Some q else if 3 =? x then Some r else None) as Hf
    by (intros x; cbn; by rewrite Hp, Hq, Hr).
  cbn [foldl]. rewrite !Hf. cbn. rewrite Hn. cbn. destruct (pi_name q); [done|]. by rewrite <- app_assoc.
Qed.

(** ** Facts *)

Definition is_control (c : ascii) : bool := (byte c <? 32) || (byte c =? 127).

(** The unit of a journal entry is shown as it is. *)
Lemma unit_shown_raw {formats : Formats} entry :
  je_systemdUnit entry = Some [chr 27] -> je_pid entry = None -> je_command entry = None ->
  chr 27 ∈ journal_line entry /\ is_control (chr 27) = true.
Proof.
  intros Hu Hp Hc. split; [|reflexivity]. unfold journal_line. rewrite Hu, Hp, Hc. set_solver.
Qed.
Definition printable (s : str) : Prop := Forall (fun c => is_control c = false) s.

Definition printableb (s : str) : bool := forallb (fun c => negb (is_control c)) s.
Lemma printableb_spec s : printableb s = true -> printable s.
Proof.
  unfold printableb. rewrite forallb_forall. intros H. apply Forall_forall. intros c Hc.
  apply negb_true_iff, H. by apply list_elem_of_In.
Qed.

Lemma safe_byte_printable c : printable (safe_byte c).
Proof. apply printableb_spec. by destruct c as [[] [] [] [] [] [] [] []]. Qed.
Lemma safe_byte_length c : (length (safe_byte c) <= 4)%nat.
Proof. destruct c as [[] [] [] [] [] [] [] []]; vm_compute; lia. Qed.
Lemma safe_byte_same c : is_control c = false -> safe_byte c = [c].
Proof.
  unfold is_control, safe_byte. intros H. rewrite H. bool_facts.
  rewrite !(proj2 (Z.eqb_neq _ _)) by lia. done.
Qed.

Definition escaped (value : str) : str := concat (map safe_byte value).

Lemma escaped_printable value : printable (escaped value).
Proof. induction value as [|c v IH]; [constructor|]. apply Forall_app. split; [apply safe_byte_printable|done]. Qed.
Lemma escaped_same value : printable value -> escaped value = value.
Proof. induction 1 as [|c v Hc _ IH]; [done|]. unfold escaped in *. simpl. by rewrite IH, safe_byte_same. Qed.

(** The text is cut after the first bytes whose escaped form reaches the limit. *)
Lemma safe_from_spec value result limit :
  exists k, (k <= length value)%nat /\
    safe_from result value limit =
      result ++ escaped (take k value) ++ (if (k <? length value)%nat then $"..." else []) /\
    (forall j, (j < k)%nat -> (length (result ++ escaped (take j value)) < limit)%nat) /\
    ((k < length value)%nat -> (limit <= length (result ++ escaped (take k value)))%nat).
Proof.
  revert result. induction value as [|c v IH]; intros result; cbn [safe_from].
  - exists O. split_and!; [done| |lia|simpl; lia]. by rewrite !app_nil_r.
  - destruct (Nat.leb_spec limit (length result)) as [Hle|Hlt].
    + exists O. split_and!; [lia| |lia|]; [done|]. intros _. by rewrite app_nil_r.
    + destruct (IH (result ++ safe_byte c)) as (k & Hk & E & Hb & Hc). exists (S k).
      assert (Ha : forall m, result ++ escaped (take (S m) (c :: v)) = (result ++ safe_byte c) ++ escaped (take m v))
        by (intros m; by rewrite <- app_assoc).
      split_and!; [simpl; lia| | |].
      * rewrite E, app_assoc, <- Ha, <- app_assoc. done.
      * intros [|j] Hj; [by rewrite app_nil_r|]. rewrite Ha. apply Hb. lia.
      * intros Hk'. rewrite Ha. apply Hc. simpl in Hk'. lia.
Qed.

Lemma length_escaped_snoc value k :
  (k < length value)%nat -> (length (escaped (take (S k) value)) <= length (escaped (take k value)) + 4)%nat.
Proof.
  intros Hk. destruct (lookup_lt_is_Some_2 value k Hk) as [c Hc].
  rewrite (take_S_r _ _ c Hc). unfold escaped. rewrite map_app, concat_app, length_app. simpl.
  rewrite app_nil_r. pose proof (safe_byte_length c). lia.
Qed.

(** C14. A log message cannot forge lines or drive the terminal: the text shown of a
message holds no control byte whatever the message was, has at most six bytes more
than the limit, is the message itself when that is short and printable, and is always
the escaped form of a prefix of it, followed by dots exactly when the prefix is
proper. *)
Theorem safeLogText_safe value limit :
  printable (safeLogText value limit) /\
  (length (safeLogText value limit) <= limit + 6)%nat /\
  (printable value -> (length value <= limit)%nat -> safeLogText value limit = value) /\
  exists k, (k <= length value)%nat /\
    safeLogText value limit = escaped (take k value) ++ (if (k <? length value)%nat then $"..." else []).
Proof.
  unfold safeLogText. destruct (safe_from_spec value [] limit) as (k & Hk & E & Hb & Hc).
  cbn [app] in *. rewrite E. split_and!.
  - apply Forall_app. split; [apply escaped_printable|]. by apply printableb_spec; destruct (_ <? _)%nat.
  - rewrite length_app.
    assert (length (if (k <? length value)%nat then $"..." else []) <= 3)%nat by (destruct (_ <? _)%nat; vm_compute; lia).
    destruct k as [|k]; [simpl; lia|]. specialize (Hb k ltac:(lia)).
    pose proof (length_escaped_snoc value k Hk). lia.
  - intros Hp Hl. destruct (Nat.ltb_spec k (length value)) as [Hlt|Hge].
    + specialize (Hc Hlt). rewrite escaped_same, length_take in Hc; [lia|]. by apply Forall_take.
    + rewrite take_ge, escaped_same by done. apply app_nil_r.
  - by exists k.
Qed.

(** The columns of the service table line up: a cell has exactly the bytes of its
column, and shows the value itself when it fits. *)
Theorem tableCell_width value width :
  length (tableCell value width) = width /\
  ((length value <= width)%nat -> tableCell value width = value ++ spaces (width - length value)).
Proof.
  unfold tableCell, spaces, substr. split.
  - rewrite length_app, length_replicate. destruct (Nat.leb_spec (length value) width); [lia|].
    rewrite drop_0. destruct (Nat.ltb_spec 3 width).
    + rewrite !length_app, !length_take. change (length $"...") with 3%nat. lia.
    + rewrite !length_take. lia.
  - intros H. by rewrite (proj2 (Nat.leb_le _ _) H).
Qed.

Lemma displayed_redact next argument :
  displayed next argument =
  (if next then JsonSerializer.redacted
   else if JsonSerializer.secretKey (JsonSerializer.argument_key argument) then
     match find_char "="%char argument with
     | None => argument
     | Some equal => take (equal + 1) argument ++ JsonSerializer.redacted
     end
   else argument, negb next && JsonSerializer.bare_secret argument).
Proof.
  unfold displayed, JsonSerializer.bare_secret, JsonSerializer.argument_key. destruct next; [done|].
  change isSecretKey with JsonSerializer.secretKey. unfold substr. rewrite drop_0.
  destruct (find_char "="%char argument) as [equal|]; destruct (JsonSerializer.secretKey _); done.
Qed.

(** C13. The two outputs hide the same secrets: the arguments the text output displays
are the arguments of the JSON output. *)
Theorem displayedArguments_as_json source raw :
  displayedArguments source raw = JsonSerializer.arguments source raw.
Proof.
  unfold displayedArguments, JsonSerializer.arguments. destruct raw; [done|].
  assert (H : forall l shown next,
    (foldl (fun (acc : list str * bool) argument =>
        let '(text, next) := displayed acc.2 argument in (acc.1 ++ [text], next)) (shown, next) l).1 =
    shown ++ JsonSerializer.redact next l).
  { induction l as [|x l IH]; intros shown next; simpl foldl; [by rewrite app_nil_r|].
    rewrite displayed_redact, IH, <- app_assoc, JsonSerializer.redact_cons. done. }
  apply (H source [] false).
Qed.

Lemma drop_while_all p (s : str) : forallb p s = true -> drop_while p s = [].
Proof.
  intros H. unfold drop_while. destruct (find_index _ s) as [i|] eqn:E; [|done].
  apply find_index_Some in E as (s1 & c & s2 & -> & _ & Hc & _).
  rewrite forallb_app in H. apply andb_true_iff in H as [_ H]. simpl in H.
  apply andb_true_iff in H as [H _]. by rewrite H in Hc.
Qed.

Lemma trim_empty line : forallb isspace line = true -> trim line = [].
Proof. intros H. unfold trim. by rewrite (drop_while_all _ _ H). Qed.

Lemma drop_while_prefix p (s : str) : exists a, s = a ++ drop_while p s /\ forallb p a = true.
Proof.
  unfold drop_while. destruct (find_index _ s) as [i|] eqn:E.
  - exists (take i s). split; [by rewrite take_drop|]. apply find_index_Some in E as (s1 & c & s2 & -> & <- & _ & H).
    rewrite take_app_length. apply forallb_forall. intros d Hd. apply list_elem_of_In in Hd.
    specialize (H d Hd). by apply negb_false_iff in H.
  - exists s. split; [by rewrite app_nil_r|]. apply forallb_forall. intros d Hd. apply list_elem_of_In in Hd.
    rewrite find_index_None in E. specialize (E d Hd). by apply negb_false_iff in E.
Qed.

Lemma drop_last_while_suffix p (s : str) : exists b, s = drop_last_while p s ++ b /\ forallb p b = true.
Proof.
  unfold drop_last_while. destruct (drop_while_prefix p (reverse s)) as (a & E & Ha).
  exists (reverse a). split.
  - by rewrite <- reverse_app, <- E, reverse_involutive.
  - rewrite forallb_forall in *. intros d Hd. apply Ha. apply list_elem_of_In in Hd.
    by apply list_elem_of_In, elem_of_reverse.
Qed.

Lemma trim_split line :
  exists a b, line = a ++ trim line ++ b /\ forallb isspace a = true /\ forallb isspace b = true.
Proof.
  unfold trim. destruct (drop_while_prefix isspace line) as (a & E & Ha).
  destruct (drop_last_while_suffix isspace (drop_while isspace line)) as (b & E' & Hb).
  exists a, b. by rewrite <- E'.
Qed.

Lemma trim_core a w b :
  forallb isspace a = true -> forallb isspace b = true ->
  w <> [] -> forallb (fun c => negb (isspace c)) w = true -> trim (a ++ w ++ b) = w.
Proof.
  intros Ha Hb Hne Hw. rewrite !forallb_elem_of in *. unfold trim. destruct w as [|c w']; [done|].
  assert (Hc : isspace c = false) by (apply negb_true_iff, Hw; set_solver).
  cbn [app]. rewrite drop_while_skip by done.
  change (c :: w' ++ b) with ((c :: w') ++ b).
  destruct (c :: w') as [|d v _] using rev_ind; [done|].
  apply drop_last_while_app; [|done]. apply negb_true_iff, Hw. set_solver.
Qed.

Lemma lower_not_space c : isspace (tolower c) = false -> isspace c = false.
Proof. by destruct c as [[] [] [] [] [] [] [] []]. Qed.

Definition says_yes (word : str) : Prop := to_lower word = $"y" \/ to_lower word = $"yes".

Lemma says_yes_word w : says_yes w -> w <> [] /\ forallb (fun c => negb (isspace c)) w = true.
Proof.
  intros H. split; [by intros ->; destruct H|].
  assert (Hl : forallb (fun c => negb (isspace c)) (to_lower w) = true) by (by destruct H as [-> | ->]).
  rewrite forallb_elem_of in *. intros c Hc. apply negb_true_iff, lower_not_space, negb_true_iff, Hl.
  apply list_elem_of_fmap. eauto.
Qed.

(** A prompt is accepted by [y] or [yes] in any case, with blanks around it, or by a
blank line when the prompt offers yes as its default; by nothing else, and never by
the end of the input. *)
Theorem confirmed_spec answer defaultYes :
  confirmed answer defaultYes = true <->
  exists line, answer = Some line /\
    ((forallb isspace line = true /\ defaultYes = true) \/
     exists a w b, line = a ++ w ++ b /\ forallb isspace a = true /\ forallb isspace b = true /\ says_yes w).
Proof.
  unfold confirmed, says_yes. split.
  - destruct answer as [line|]; [|done]. intros H. exists line. split; [done|].
    destruct (trim_split line) as (a & b & E & Ha & Hb). destruct (trim line) as [|c w] eqn:Et.
    + left. split; [|done]. by rewrite E, forallb_app, Ha.
    + right. exists a, (c :: w), b. split_and!; [done..|]. bool_facts. destruct H; bool_facts; auto.
  - intros (line & -> & [[H ->]|(a & w & b & -> & Ha & Hb & Hw)]).
    + by rewrite trim_empty.
    + destruct (says_yes_word w Hw) as [Hne Hs]. rewrite trim_core by done.
      destruct w; [done|]. apply orb_true_iff. destruct Hw; [left|right]; by apply bool_decide_eq_true_2.
Qed.
