(* ===== verification/CliApp.v ===== *)
(** * The command line ([src/cli/CliApp.cpp], [CliApp::run])

From the parsed options to the exit code: which service a command calls, what it
asks before it changes anything, what it prints.  The option parser is the CLI11
library: a parameter that turns the arguments into [Options] or a [ParseFailure].
The command reads its input line by line, writes to two streams, and follows the
journal through the interface [JournalFollow], whose two callbacks it supplies. *)

From S2P Require Import Prelude CppStd CppString Prog Domain Contracts OsCalls Sim.
From S2P Require Import ProcessService PortService PortServiceProofs PortServiceTheorems CliText.
From S2P Require JsonSerializer ServiceService LogService MetricsService FindService InspectService DoctorService.
From Stdlib Require Import Ascii.

(** ** The calls of a command *)

(** [IJournalProvider::follow]: its own calls, and the two callbacks of its caller. *)
Variant callbackE (F : Type -> Type) : Type -> Type :=
| Sink (entry : Observation JournalEntry) : callbackE F (Result unit)
| StopRequested : callbackE F bool
| Own {X} (e : F X) : callbackE F X.
Arguments Sink {F} entry.
Arguments StopRequested {F}.
Arguments Own {F X} e.

Class JournalFollow := {
  followE : Type -> Type;
  provider_follow : LogQuery -> prog (callbackE followE) (Result unit);
}.

Variant cliE {JF : JournalFollow} : Type -> Type :=
| Io {X} (e : streamE X) : cliE X
| Svc {X} (e : provE X) : cliE X
| Fl {X} (e : followE X) : cliE X
| ReadLine : cliE (option str)          (* std::getline; None: end of input *)
| RunTui : cliE (Result unit)
| InstallInterrupt : cliE Z             (* sigaction: 0 or errno *)
| RemoveInterrupt : cliE unit
| InterruptRequested : cliE bool
(* an exception that leaves [run], undefined behaviour, the end of the fuel *)
| CliUncaught : cliE Empty_set
| CliUndefined : cliE Empty_set
| CliForever : cliE Empty_set.

Definition cli_stuck {JF : JournalFollow} {A} (e : cliE Empty_set) : prog cliE A :=
  Vis e (fun x : Empty_set => match x with end).

(** ** Options

The local variables [run] binds to the options; an option that was given carries
its value, [count() != 0]. *)
Record Options := mkOptions {
  o_json : bool; o_quiet : bool; o_noColor : bool;
  o_doctor : bool; o_status : bool; o_tui : bool; o_process : bool; o_stopProcess : bool;
  o_killProcess : bool; o_port : bool; o_freePort : bool; o_service : bool; o_log : bool;
  o_inspect : bool; o_find : bool;
  processPid : option Z; rawCommand : bool; processNameFilter : option str;
  processUserFilter : option str; processServiceFilter : option str;
  stopPid : Z; killPid : Z; confirmKill : bool;
  portNumber : option Z; freePortNumber : Z; confirmRelease : bool;
  serviceUnit : option str; serviceAction : str; confirmServiceAction : bool;
  logUnit : option str; logPid : option Z; logLines : Z; logSince : option str; followLog : bool;
  inspectExpression : str; findQuery : str;
}.

(** The options of the bare command. *)
Definition no_options : Options :=
  mkOptions false false false false false false false false false false false false false false false
    None false None None None (-1) (-1) false None 0 false None [] false None None 50 None false [] [].

(** [CLI::ParseError] with the value of [--json] it was thrown at, and what
[app.exit] writes for it and returns. *)
Record ParseFailure := mkParseFailure {
  pf_json : bool; pf_exitCode : Z; pf_what : str;
  pf_output : str; pf_diagnostic : str; pf_exit : Z;
}.

(** What [main] builds the application from. *)
Record App := mkApp {
  app_processes : ProcessService.ProcessService;
  app_ports : PortService.PortService;
  hasStatusService : bool;     (* statusService_ != nullptr *)
  hasTuiRunner : bool;         (* tuiRunner_ != nullptr *)
  release_turns : nat;         (* fuel of the wait for a stopped service *)
}.

Section Run.
Context {formats : Formats} {messages : Messages} {HO : HashOrder} {JF : JournalFollow}.
Variable A : App.
(** [nlohmann::json::dump]; [None]: it throws. *)
Variable dump : JsonSerializer.json -> option str.
(** The C library's times, as in [LogService]. *)
Variable get_time : str -> option (LogService.tm * str).
Variable mktime : LogService.tm -> Z.
Variable localtime_r : Z -> option LogService.tm.

Definition io (t : prog streamE unit) : prog cliE unit := lift (@Io JF) t.
Definition svc {X} (t : prog provE X) : prog cliE X := lift (@Svc JF) t.

(** [output << JsonSerializer::...(...) << '\n';] *)
Definition print_json (document : JsonSerializer.json) : prog cliE unit :=
  match dump document with
  | Some text => io (output_stream (text ++ [nl]))
  | None => cli_stuck CliUncaught
  end.

Definition confirm (prompt : str) (defaultYes : bool) : prog cliE bool :=
  _ <- io (output_stream prompt) ;;
  answer <- trigger ReadLine ;;
  Ret (confirmed answer defaultYes).

Definition attachCpu (metrics : MetricsView) (process : ProcessInfo) : ProcessInfo :=
  match mv_processCpuPercent metrics !! pi_pid process with
  | Some value => set_cpuPercent (Some value) process
  | None => process
  end.

(** The service calls of a command that follows the journal: following runs the
provider with the callbacks of the command. *)
Definition callbacks (sink : Observation JournalEntry -> prog cliE (Result unit)) (stop : prog cliE bool)
    (X : Type) (e : callbackE followE X) : prog cliE X :=
  match e in callbackE _ X return prog cliE X with
  | Sink entry => sink entry
  | StopRequested => stop
  | Own e => trigger (Fl e)
  end.
Definition following (sink : Observation JournalEntry -> prog cliE (Result unit)) (stop : prog cliE bool)
    (X : Type) (e : provE X) : prog cliE X :=
  match e in provE X return prog cliE X with
  | JournalProvider_follow query => interp (callbacks sink stop) (provider_follow query)
  | e => trigger (Svc e)
  end.

Definition cli_error (code : ErrorCode) (message operation : str) : Error :=
  mkError code message 0 $"cli" operation.

Section Command.
Variable o : Options.

Definition diagnostics : stream := if o_quiet o then muted_stream else error_stream.

(** The local function [fail]. *)
Definition fail (command operation : str) (failure : Error) : prog cliE Z :=
  _ <- (if o_json o then print_json (JsonSerializer.error command operation failure)
        else io (error_stream (err_message failure ++ [nl]))) ;;
  Ret (exitCode (err_code failure)).

(** [if (!result) return fail(command, operation, result.error());] *)
Definition or_fail {B} (command operation : str) (t : prog cliE (Result B)) (k : B -> prog cliE Z) :
    prog cliE Z :=
  result <- t ;;
  match result with
  | Failure error => fail command operation error
  | Success value => k value
  end.

Definition print (document : JsonSerializer.json) (text : prog streamE unit) : prog cliE Z :=
  _ <- (if o_json o then print_json document else io text) ;; Ret 0.

(** A line that [--quiet] suppresses. *)
Definition say (text : str) : prog cliE unit :=
  if o_quiet o then Ret tt else io (output_stream (lines [text])).

(** [if (!skip && !confirm(...)) { ... "Cancelled." ... return 0; }] *)
Definition unless_cancelled (skip : bool) (prompt : str) (defaultYes : bool) (k : prog cliE Z) :
    prog cliE Z :=
  agreed <- (if skip then Ret true else confirm prompt defaultYes) ;;
  if agreed : bool then k else _ <- say $"Cancelled." ;; Ret 0.

(** ** The commands *)

Definition run_tui : prog cliE Z :=
  if negb (hasTuiRunner A) then
    fail $"tui" $"run" (cli_error Unavailable $"LX was built without terminal UI support" $"tui")
  else or_fail $"tui" $"run" (trigger RunTui) (fun _ => Ret 0).

Definition run_doctor : prog cliE Z :=
  report <- svc DoctorService.inspect ;;
  print (JsonSerializer.doctor report) (printDoctorReport report output_stream).

Definition run_status : prog cliE Z :=
  if negb (hasStatusService A) then
    fail $"status" $"read" (cli_error Unavailable $"Status metrics are unavailable" $"status")
  else
    or_fail $"status" $"read" (svc (MetricsService.status_get 250)) (fun status =>
    print (JsonSerializer.status status) (printStatus status output_stream)).

Definition run_inspect : prog cliE Z :=
  or_fail $"inspect" $"inspect" (svc (InspectService.inspect (app_ports A) (inspectExpression o))) (fun graph =>
  print (JsonSerializer.inspect graph) (printResourceGraph graph output_stream diagnostics)).

Definition run_find : prog cliE Z :=
  or_fail $"find" $"search" (svc (FindService.find (app_ports A) (findQuery o))) (fun found =>
  print (JsonSerializer.find found) (printFindResult found output_stream diagnostics)).

Definition run_stopProcess : prog cliE Z :=
  or_fail $"process" $"stop" (svc (ProcessService.stop (app_processes A) (stopPid o))) (fun delivery =>
  _ <- say ($"Sent SIGTERM to PID " ++ to_string (stopPid o) ++ $" via " ++
            mechanismName (sd_mechanism delivery)) ;;
  Ret 0).

Definition run_killProcess : prog cliE Z :=
  or_fail $"process" $"kill" (Ret (validateSignalTarget (app_processes A) (killPid o))) (fun _ =>
  or_fail $"process" $"kill" (svc (ProcessService.inspect (app_processes A) (killPid o))) (fun target =>
  unless_cancelled (confirmKill o)
    ($"Force termination of PID " ++ to_string (killPid o) ++ $" (" ++ pi_name (obs_value target) ++
     $") with SIGKILL? [y/N] ") false
    (or_fail $"process" $"kill" (svc (ProcessService.kill (app_processes A) (killPid o))) (fun delivery =>
     _ <- say ($"Sent SIGKILL to PID " ++ to_string (killPid o) ++ $" via " ++
               mechanismName (sd_mechanism delivery)) ;;
     Ret 0)))).

(** [if (metrics) attachCpu(...)], when there is a status service. *)
Definition with_cpu : prog cliE (ProcessInfo -> ProcessInfo) :=
  if negb (hasStatusService A) then Ret id
  else
    metrics <- svc (MetricsService.status_measure 250) ;;
    Ret (match metrics with Success metrics => attachCpu metrics | Failure _ => id end).

Definition run_process : prog cliE Z :=
  let hasFilters := bool_decide (is_Some (processNameFilter o)) ||
                    bool_decide (is_Some (processUserFilter o)) ||
                    bool_decide (is_Some (processServiceFilter o)) in
  if bool_decide (is_Some (processPid o)) && hasFilters then
    fail $"process" $"validate"
      (cli_error InvalidArgument $"Process PID cannot be combined with list filters" $"validate")
  else
    match processPid o with
    | None =>
        if rawCommand o then
          fail $"process" $"validate"
            (cli_error InvalidArgument $"--raw-command requires a process PID" $"validate")
        else
          let query := mkProcessQuery (processNameFilter o) (processUserFilter o) (processServiceFilter o) in
          or_fail $"process" $"list" (svc (ProcessService.list_ (app_processes A) query)) (fun result =>
          attach <- with_cpu ;;
          let result := Observed (map attach (obs_value result)) (obs_warnings result) in
          print (JsonSerializer.processes result) (printProcesses result output_stream diagnostics))
    | Some pid =>
        or_fail $"process" $"inspect" (svc (ProcessService.inspect (app_processes A) pid)) (fun result =>
        attach <- with_cpu ;;
        let result := Observed (attach (obs_value result)) (obs_warnings result) in
        print (JsonSerializer.process result (rawCommand o))
          (printProcess result (rawCommand o) output_stream (o_quiet o)))
    end.

Definition service_action (unit : str) : prog provE (Result Datatypes.unit) :=
  if bool_decide (serviceAction o = $"start") then ServiceService.start unit
  else if bool_decide (serviceAction o = $"stop") then ServiceService.stop unit
  else ServiceService.restart unit.

Definition run_service : prog cliE Z :=
  match serviceUnit o with
  | None =>
      or_fail $"service" $"list" (svc ServiceService.list_) (fun result =>
      print (JsonSerializer.services result) (printServices result output_stream diagnostics))
  | Some unit =>
      if bool_decide (serviceAction o = []) then
        or_fail $"service" $"inspect" (svc (ServiceService.inspect unit)) (fun result =>
        print (JsonSerializer.service result) (printService result output_stream diagnostics))
      else
        unless_cancelled
          (negb (bool_decide (serviceAction o = $"stop") || bool_decide (serviceAction o = $"restart")) ||
           confirmServiceAction o)
          ((if bool_decide (serviceAction o = $"stop") then $"Stop" else $"Restart") ++ $" " ++ unit ++
           $"? [y/N] ") false
          (or_fail $"service" (serviceAction o) (svc (service_action unit)) (fun _ =>
           _ <- say (serviceAction o ++ $" submitted for " ++ unit) ;;
           Ret 0))
  end.

Definition log_sink (entry : Observation JournalEntry) : prog cliE (Result unit) :=
  _ <- (if o_json o then print_json (JsonSerializer.logEvent entry)
        else io (printJournalEntry entry output_stream diagnostics)) ;;
  Ret (Success tt).

Definition follow_journal (query : LogQuery) : prog cliE Z :=
  installed <- trigger InstallInterrupt ;;
  if negb (installed =? 0) then
    fail $"log" $"follow"
      (mkError OperationFailed ($"Unable to install SIGINT handler: " ++ system_message installed)
         installed $"cli" $"install SIGINT handler")
  else
    result <- interp (following log_sink (trigger InterruptRequested)) (LogService.follow query) ;;
    code <- match result with
            | Success _ => Ret 0
            | Failure error =>
                if bool_decide (err_code error = Interrupted) then Ret 130
                else fail $"log" $"follow" error
            end ;;
    _ <- trigger RemoveInterrupt ;;
    Ret code.

Definition with_since (k : option Z -> prog cliE Z) : prog cliE Z :=
  match logSince o with
  | None => k None
  | Some text =>
      now <- svc (trigger SystemClock_now) ;;
      match LogService.parseSince get_time mktime localtime_r text now with
      | None => cli_stuck CliUndefined
      | Some (Failure error) => fail $"log" $"read" error
      | Some (Success since) => k (Some since)
      end
  end.

Definition run_log : prog cliE Z :=
  with_since (fun since =>
    let query := mkLogQuery (logUnit o) (logPid o) since (logLines o) false in
    if followLog o then follow_journal query
    else
      or_fail $"log" $"read" (svc (LogService.read query)) (fun result =>
      print (JsonSerializer.logs result) (printJournalEntries result output_stream diagnostics))).

Definition diagnose (warnings : list Warning) : prog cliE unit := io (print_warnings diagnostics warnings).

Definition run_managed (plan : PortReleasePlan) (unit : str) : prog cliE Z :=
  unless_cancelled (confirmRelease o) ($"Stop " ++ unit ++ $"? [Y/n] ") true
    (stopped <- svc (stopManagedService (app_ports A) (release_turns A) plan) ;;
     match stopped with
     | None => cli_stuck CliForever
     | Some stopped =>
         or_fail $"port" $"free" (Ret stopped) (fun stopped =>
         _ <- diagnose (obs_warnings stopped) ;;
         _ <- say ($"Port " ++ to_string (freePortNumber o) ++ $" released by stopping " ++ unit ++ $".") ;;
         Ret 0)
     end).

Definition run_signals (plan : PortReleasePlan) : prog cliE Z :=
  unless_cancelled (confirmRelease o) $"Send SIGTERM to all owners? [Y/n] " true
    (or_fail $"port" $"free" (svc (terminate (app_ports A) plan)) (fun terminated =>
     _ <- diagnose (obs_warnings terminated) ;;
     if rel_released (obs_value terminated) then
       _ <- say ($"Port " ++ to_string (freePortNumber o) ++ $" released with SIGTERM.") ;; Ret 0
     else
       _ <- io (output_stream (lines [$"Port is still occupied."])) ;;
       unless_cancelled (confirmRelease o) $"Force remaining owners with SIGKILL? [y/N] " false
         (match rel_remaining (obs_value terminated) with
          | None => cli_stuck CliUndefined
          | Some remaining =>
              or_fail $"port" $"free" (svc (force (app_ports A) remaining)) (fun forced =>
              _ <- diagnose (obs_warnings forced) ;;
              _ <- say ($"Port " ++ to_string (freePortNumber o) ++ $" released with SIGKILL.") ;;
              Ret 0)
          end))).

Definition run_freePort : prog cliE Z :=
  or_fail $"port" $"free" (svc (prepareRelease (app_ports A) (freePortNumber o mod 2 ^ 16))) (fun plan =>
  _ <- io (printReleasePlan (obs_value plan) output_stream) ;;
  match plan_recommendedUnit (obs_value plan) with
  | Some unit => run_managed (obs_value plan) unit
  | None => run_signals (obs_value plan)
  end).

Definition run_port : prog cliE Z :=
  let query := mkSocketQuery ((fun port => port mod 2 ^ 16) <$> portNumber o) None true in
  let operation := if bool_decide (is_Some (portNumber o)) then $"inspect" else $"list" in
  or_fail $"port" operation (svc (PortService.inspect (app_ports A) query)) (fun result =>
  match obs_value result, portNumber o with
  | [], Some port =>
      fail $"port" $"inspect"
        (cli_error NotFound ($"No socket found for port " ++ to_string port) $"inspect")
  | _, _ => print (JsonSerializer.ports result operation) (printPorts result output_stream diagnostics)
  end).

Definition mutating : bool :=
  o_stopProcess o || o_killProcess o || o_freePort o ||
  (o_service o && negb (bool_decide (serviceAction o = []))) || o_tui o.

Definition dispatch : prog cliE Z :=
  if o_json o && mutating then
    fail (if o_freePort o then $"port" else if o_service o then $"service" else $"process") $"mutate"
      (cli_error InvalidArgument $"--json is only supported by read-only commands" $"validate")
  else if o_tui o then run_tui
  else if o_doctor o then run_doctor
  else if o_status o then run_status
  else if o_inspect o then run_inspect
  else if o_find o then run_find
  else if o_stopProcess o then run_stopProcess
  else if o_killProcess o then run_killProcess
  else if o_process o then run_process
  else if o_service o then run_service
  else if o_log o then run_log
  else if o_freePort o then run_freePort
  else if o_port o then run_port
  else Ret 0.
End Command.

(** The option parser, given the value of [--json] found by the scan. *)
Variable parse : bool -> list str -> ParseFailure + Options.

(** [arguments] without the name of the program. *)
Definition run_ (arguments : list str) : prog cliE Z :=
  let jsonOutput := existsb (fun argument => bool_decide (argument = $"--json")) arguments in
  match parse jsonOutput arguments with
  | inr o => dispatch o
  | inl failure =>
      if negb (pf_exitCode failure =? 0) && pf_json failure then
        _ <- print_json (JsonSerializer.error $"cli" $"parse"
               (cli_error InvalidArgument (pf_what failure) $"parse")) ;;
        Ret 2
      else
        _ <- io (_ <- output_stream (pf_output failure) ;; error_stream (pf_diagnostic failure)) ;;
        Ret (if pf_exit failure =? 0 then 0 else 2)
  end.
(** ** Boundary cases *)

(** [lx --json tui] is refused in the name of another command. *)
Lemma json_tui_refused o :
  o_json o = true -> o_tui o = true -> o_freePort o = false -> o_service o = false ->
  dispatch o = fail o $"process" $"mutate"
    (cli_error InvalidArgument $"--json is only supported by read-only commands" $"validate").
Proof. intros Hj Ht Hf Hs. unfold dispatch, mutating. by rewrite Hj, Ht, Hf, Hs, !orb_true_r. Qed.

(** [lx --json] does nothing, successfully. *)
Lemma json_alone_silent :
  dispatch (mkOptions true false false false false false false false false false false false false false false
    None false None None None (-1) (-1) false None 0 false None [] false None None 50 None false [] []) = Ret 0.
Proof. reflexivity. Qed.

(** The scan finds [--json] wherever it is, also after [--]. *)
Lemma json_found_after_dashes rest o :
  parse true ([$"find"; $"--"; $"--json"] ++ rest) = inr o ->
  run_ ([$"find"; $"--"; $"--json"] ++ rest) = dispatch o.
Proof. unfold run_. cbn [app existsb]. simpl orb. by intros ->. Qed.

End Run.
