(* ===== verification/CliOptions.v ===== *)
(** * The options of the command line ([src/cli/CliApp.cpp], [CliApp::run])

What [run] declares to the option parser: the commands with their options, the
variables the options are bound to, which of them are required and what their values
are checked for.  The parser is the CLI11 library; [OptionParser] states what its
documentation says about the options it lets through.  The declarations then bound
every value the commands use. *)

From S2P Require Import Prelude CppStd CppString Prog Domain Contracts.
From S2P Require Import ProcessService CliText CliApp.
From S2P Require LogService ServiceService.
From Stdlib Require Import Ascii.

(** ** Declarations *)

(** The local variables the options are bound to. *)
Inductive variable :=
| V_jsonOutput | V_quietOutput | V_noColor
| V_processPid | V_rawCommand | V_processNameFilter | V_processUserFilter | V_processServiceFilter
| V_stopPid | V_killPid | V_confirmKill
| V_portNumber | V_freePortNumber | V_confirmRelease
| V_serviceUnit | V_serviceAction | V_confirmServiceAction
| V_logUnit | V_logPid | V_logLines | V_logSince | V_followLog
| V_inspectExpression | V_findQuery.

Inductive value_check := Range (low high : Z) | IsMember (allowed : list str).

Record option_spec := mkOptionSpec {
  op_name : str; op_variable : variable; op_flag : bool;
  op_required : bool; op_check : option value_check }.

Inductive command := Command (name : str) (aliases : list str) (options : list option_spec) (subcommands : list command).

Definition add_flag (name : str) (v : variable) : option_spec := mkOptionSpec name v true false None.
Definition add_option (name : str) (v : variable) : option_spec := mkOptionSpec name v false false None.
Definition required (s : option_spec) : option_spec :=
  mkOptionSpec (op_name s) (op_variable s) (op_flag s) true (op_check s).
Definition check (c : value_check) (s : option_spec) : option_spec :=
  mkOptionSpec (op_name s) (op_variable s) (op_flag s) (op_required s) (Some c).

(** [CLI::Range(1, std::numeric_limits<pid_t>::max())] *)
Definition pid_max : Z := 2 ^ 31 - 1.
Definition pid_range : value_check := Range 1 pid_max.
Definition port_range : value_check := Range 1 65535.

Definition addOutputFlags : list option_spec :=
  [add_flag $"--json" V_jsonOutput; add_flag $"--quiet" V_quietOutput; add_flag $"--no-color" V_noColor].

Definition stopProcess : command :=
  Command $"stop" [] (addOutputFlags ++ [check pid_range (required (add_option $"pid" V_stopPid))]) [].
Definition killProcess : command :=
  Command $"kill" [] (addOutputFlags ++
    [check pid_range (required (add_option $"pid" V_killPid)); add_flag $"--yes" V_confirmKill]) [].
Definition process : command :=
  Command $"process" [] (addOutputFlags ++
    [check pid_range (add_option $"pid" V_processPid); add_flag $"--raw-command" V_rawCommand;
     add_option $"--name" V_processNameFilter; add_option $"--user" V_processUserFilter;
     add_option $"--service" V_processServiceFilter])
    [stopProcess; killProcess].
Definition freePort : command :=
  Command $"free" [] (addOutputFlags ++
    [check port_range (required (add_option $"port" V_freePortNumber)); add_flag $"--yes" V_confirmRelease]) [].
Definition port : command :=
  Command $"port" [] (addOutputFlags ++ [check port_range (add_option $"port" V_portNumber)]) [freePort].
Definition service : command :=
  Command $"service" [$"svc"] (addOutputFlags ++
    [add_option $"unit" V_serviceUnit;
     check (IsMember [$"start"; $"stop"; $"restart"]) (add_option $"action" V_serviceAction);
     add_flag $"--yes" V_confirmServiceAction]) [].
Definition log : command :=
  Command $"log" [] (addOutputFlags ++
    [add_option $"unit" V_logUnit; check pid_range (add_option $"--pid" V_logPid);
     check (Range 1 10000) (add_option $"--lines" V_logLines); add_option $"--since" V_logSince;
     add_flag $"--follow" V_followLog]) [].
Definition inspect : command :=
  Command $"inspect" [] (addOutputFlags ++ [required (add_option $"resource" V_inspectExpression)]) [].
Definition find : command :=
  Command $"find" [] (addOutputFlags ++ [required (add_option $"query" V_findQuery)]) [].
(** [app] itself; the terminal interface has no flags of its own. *)
Definition lx : command :=
  Command $"lx" [] (addOutputFlags)
    [Command $"doctor" [] addOutputFlags []; Command $"status" [] addOutputFlags []; Command $"tui" [] [] [];
     process; port; service; log; inspect; find].

(** The options of a command and of the commands below it, with their paths. *)
Fixpoint declared (path : list str) (c : command) : list (list str * option_spec) :=
  match c with
  | Command name _ options subcommands =>
      map (fun s => (path ++ [name], s)) options ++ concat (map (declared (path ++ [name])) subcommands)
  end.
Definition declarations : list (list str * option_spec) := declared [] lx.

(** ** Values *)

Inductive value := Number (n : Z) | Text (s : str) | Given (b : bool).

(** What is in a variable after parsing; [None] for an option whose presence the code
asks for and that was not given. *)
Definition bound (o : Options) (v : variable) : option value :=
  match v with
  | V_jsonOutput => Some (Given (o_json o)) | V_quietOutput => Some (Given (o_quiet o))
  | V_noColor => Some (Given (o_noColor o))
  | V_processPid => Number <$> processPid o | V_rawCommand => Some (Given (rawCommand o))
  | V_processNameFilter => Text <$> processNameFilter o | V_processUserFilter => Text <$> processUserFilter o
  | V_processServiceFilter => Text <$> processServiceFilter o
  | V_stopPid => Some (Number (stopPid o)) | V_killPid => Some (Number (killPid o))
  | V_confirmKill => Some (Given (confirmKill o))
  | V_portNumber => Number <$> portNumber o | V_freePortNumber => Some (Number (freePortNumber o))
  | V_confirmRelease => Some (Given (confirmRelease o))
  | V_serviceUnit => Text <$> serviceUnit o | V_serviceAction => Some (Text (serviceAction o))
  | V_confirmServiceAction => Some (Given (confirmServiceAction o))
  | V_logUnit => Text <$> logUnit o | V_logPid => Number <$> logPid o
  | V_logLines => Some (Number (logLines o)) | V_logSince => Text <$> logSince o
  | V_followLog => Some (Given (followLog o))
  | V_inspectExpression => Some (Text (inspectExpression o)) | V_findQuery => Some (Text (findQuery o))
  end.

(** The commands with whether they were parsed, [*command]. *)
Definition commands (o : Options) : list (list str * bool) :=
  [([$"lx"], true); ([$"lx"; $"doctor"], o_doctor o); ([$"lx"; $"status"], o_status o); ([$"lx"; $"tui"], o_tui o);
   ([$"lx"; $"process"], o_process o); ([$"lx"; $"process"; $"stop"], o_stopProcess o);
   ([$"lx"; $"process"; $"kill"], o_killProcess o); ([$"lx"; $"port"], o_port o);
   ([$"lx"; $"port"; $"free"], o_freePort o); ([$"lx"; $"service"], o_service o); ([$"lx"; $"log"], o_log o);
   ([$"lx"; $"inspect"], o_inspect o); ([$"lx"; $"find"], o_find o)].
Definition chosen (o : Options) (path : list str) : bool :=
  existsb (fun e => bool_decide (e.1 = path) && e.2) (commands o).

Definition passes (c : value_check) (v : value) : bool :=
  match c, v with
  | Range low high, Number n => (low <=? n) && (n <=? high)
  | IsMember allowed, Text s => bool_decide (s ∈ allowed)
  | _, _ => false
  end.

(** What the documentation of CLI11 says of a parse that does not throw: a value that was
given has passed its check, a required option of a parsed command was given, and a
command is parsed below its parent only. *)
Class OptionParser (parse : bool -> list str -> ParseFailure + Options) : Prop := {
  parse_checks : forall json arguments o path s c,
    parse json arguments = inr o -> (path, s) ∈ declarations -> op_check s = Some c ->
    bound o (op_variable s) = bound no_options (op_variable s) \/
    exists v, bound o (op_variable s) = Some v /\ passes c v = true;
  parse_required : forall json arguments o path s c,
    parse json arguments = inr o -> (path, s) ∈ declarations -> op_required s = true ->
    chosen o path = true -> op_check s = Some c ->
    exists v, bound o (op_variable s) = Some v /\ passes c v = true;
  parse_parents : forall json arguments o path name,
    parse json arguments = inr o -> path <> [] -> chosen o (path ++ [name]) = true -> chosen o path = true;
}.

(** ** What reaches the commands *)

(** The commands with a checked argument, and their parents. *)
Lemma chosen_stop o : chosen o [$"lx"; $"process"; $"stop"] = o_stopProcess o.
Proof. destruct o. vm_compute. by case_match. Qed.
Lemma chosen_kill o : chosen o [$"lx"; $"process"; $"kill"] = o_killProcess o.
Proof. destruct o. vm_compute. by case_match. Qed.
Lemma chosen_process o : chosen o [$"lx"; $"process"] = o_process o.
Proof. destruct o. vm_compute. by case_match. Qed.
Lemma chosen_free o : chosen o [$"lx"; $"port"; $"free"] = o_freePort o.
Proof. destruct o. vm_compute. by case_match. Qed.
Lemma chosen_port o : chosen o [$"lx"; $"port"] = o_port o.
Proof. destruct o. vm_compute. by case_match. Qed.

(** A declaration is found in the list. *)
Ltac declaration := vm_compute; repeat first [apply list_elem_of_here | apply list_elem_of_further].

Lemma passes_range low high v : passes (Range low high) v = true -> exists n, v = Number n /\ low <= n <= high.
Proof. destruct v as [n| |]; [|done..]. intros H. exists n. split; [done|]. cbn in H. bool_facts. lia. Qed.

Section Parsed.
Context (parse : bool -> list str -> ParseFailure + Options) {parser : OptionParser parse}.
Variables (json : bool) (arguments : list str) (o : Options).
Hypothesis parsed : parse json arguments = inr o.

Lemma checked path s c :
  (path, s) ∈ declarations -> op_check s = Some c ->
  bound o (op_variable s) = bound no_options (op_variable s) \/
  exists v, bound o (op_variable s) = Some v /\ passes c v = true.
Proof. intros Hd Hc. by eapply parse_checks. Qed.

(** A number that is checked for a range is in it, or was not given. *)
Lemma range_of path name v low high req :
  (path, mkOptionSpec name v false req (Some (Range low high))) ∈ declarations ->
  bound o v = bound no_options v \/ exists n, bound o v = Some (Number n) /\ low <= n <= high.
Proof.
  intros Hd. destruct (checked _ _ _ Hd eq_refl) as [H|(x & H & (n & -> & Hn)%passes_range)]; eauto.
Qed.
Lemma required_range path name v low high :
  (path, mkOptionSpec name v false true (Some (Range low high))) ∈ declarations ->
  chosen o path = true -> exists n, bound o v = Some (Number n) /\ low <= n <= high.
Proof.
  intros Hd Hc. destruct (parse_required _ _ _ _ _ _ parsed Hd eq_refl Hc eq_refl)
    as (x & H & (n & -> & Hn)%passes_range); eauto.
Qed.

(** A PID of a signal command was given and is the PID of one process, not of a group. *)
Lemma parsed_stop : o_stopProcess o = true -> 1 <= stopPid o <= pid_max /\ o_process o = true.
Proof.
  rewrite <- chosen_stop. intros H. split.
  - destruct (required_range _ $"pid" V_stopPid 1 pid_max ltac:(declaration) H) as (n & [= ->] & Hn). exact Hn.
  - rewrite <- chosen_process. by eapply (parse_parents _ _ _ [$"lx"; $"process"] $"stop").
Qed.
Lemma parsed_kill : o_killProcess o = true -> 1 <= killPid o <= pid_max /\ o_process o = true.
Proof.
  rewrite <- chosen_kill. intros H. split.
  - destruct (required_range _ $"pid" V_killPid 1 pid_max ltac:(declaration) H) as (n & [= ->] & Hn). exact Hn.
  - rewrite <- chosen_process. by eapply (parse_parents _ _ _ [$"lx"; $"process"] $"kill").
Qed.
Lemma parsed_free : o_freePort o = true -> 1 <= freePortNumber o <= 65535 /\ o_port o = true.
Proof.
  rewrite <- chosen_free. intros H. split.
  - destruct (required_range _ $"port" V_freePortNumber 1 65535 ltac:(declaration) H) as (n & [= ->] & Hn). exact Hn.
  - rewrite <- chosen_port. by eapply (parse_parents _ _ _ [$"lx"; $"port"] $"free").
Qed.
Lemma parsed_port p : portNumber o = Some p -> 1 <= p <= 65535.
Proof.
  intros E. destruct (range_of _ $"port" V_portNumber 1 65535 false ltac:(declaration)) as [H|(n & H & Hn)];
    cbn in H; rewrite E in H; [done|]. by injection H as ->.
Qed.
Lemma parsed_pid p : processPid o = Some p \/ logPid o = Some p -> 1 <= p <= pid_max.
Proof.
  intros [E|E].
  - destruct (range_of _ $"pid" V_processPid 1 pid_max false ltac:(declaration)) as [H|(n & H & Hn)];
      cbn in H; rewrite E in H; [done|]. by injection H as ->.
  - destruct (range_of _ $"--pid" V_logPid 1 pid_max false ltac:(declaration)) as [H|(n & H & Hn)];
      cbn in H; rewrite E in H; [done|]. by injection H as ->.
Qed.
Lemma parsed_lines : 1 <= logLines o <= 10000.
Proof.
  destruct (range_of _ $"--lines" V_logLines 1 10000 false ltac:(declaration)) as [H|(n & H & Hn)];
    cbn in H; injection H as ->; lia.
Qed.
Lemma parsed_action : serviceAction o ∈ [[]; $"start"; $"stop"; $"restart"].
Proof.
  destruct (checked [$"lx"; $"service"]
    (mkOptionSpec $"action" V_serviceAction false false (Some (IsMember [$"start"; $"stop"; $"restart"]))) _
    ltac:(declaration) eq_refl) as [H|(x & H & Hp)]; cbn in H; injection H as H.
  - rewrite H. apply elem_of_cons. by left.
  - rewrite <- H in Hp. cbn in Hp. apply bool_decide_eq_true in Hp. apply elem_of_cons. by right.
Qed.

(** C20. What the parser lets through is what the services accept.  The ports that are narrowed
to 16 bits are not changed by it, and not zero; a signal is never refused for a PID
that is not positive, only to protect init and LX itself; a journal query that names a
unit or a PID is refused for the unit's name only; and a service action is one of the
three the command knows. *)
Theorem parsed_values_fit :
  (o_freePort o = true -> 1 <= freePortNumber o /\ freePortNumber o mod 2 ^ 16 = freePortNumber o) /\
  (forall p, portNumber o = Some p -> 1 <= p /\ p mod 2 ^ 16 = p) /\
  (forall P e,
     o_stopProcess o = true /\ validateSignalTarget P (stopPid o) = Failure e \/
     o_killProcess o = true /\ validateSignalTarget P (killPid o) = Failure e -> err_code e = Conflict) /\
  (forall since follow e,
     LogService.normalize (mkLogQuery (logUnit o) (logPid o) since (logLines o) follow) = Failure e ->
     logUnit o = None /\ logPid o = None \/
     exists unit, logUnit o = Some unit /\ ServiceService.normalizeUnit unit = Failure e) /\
  serviceAction o ∈ [[]; $"start"; $"stop"; $"restart"].
Proof.
  split_and!; [| | | |apply parsed_action].
  - intros [H _]%parsed_free. split; [lia|]. apply Z.mod_small. lia.
  - intros p H%parsed_port. split; [lia|]. apply Z.mod_small. lia.
  - intros P e [[[H _]%parsed_stop He]|[[H _]%parsed_kill He]];
      apply validateSignalTarget_error in He as (_ & _ & Hc); apply Hc; lia.
  - intros since follow e. pose proof parsed_lines as Hl. unfold LogService.normalize. cbn [lq_unit lq_pid lq_limit].
    destruct (bool_decide (logUnit o = None) && bool_decide (logPid o = None)) eqn:E1.
    { intros _. left. by bool_facts. }
    assert (match logPid o with Some pid => pid <=? 0 | None => false end = false) as ->.
    { destruct (logPid o) as [pid|] eqn:Ep; [|done]. pose proof (parsed_pid pid (or_intror Ep)). lia. }
    replace ((logLines o =? 0) || (10000 <? logLines o)) with false by lia.
    destruct (logUnit o) as [unit|]; [|done].
    destruct (ServiceService.normalizeUnit unit) as [v|e'] eqn:En; [done|]. intros [= ->]. right. eauto.
Qed.
End Parsed.

(** ** Parsers for examples *)

#[export] Instance value_eq_dec : EqDecision value.
Proof. solve_decision. Defined.

(** Options a parser may return. *)
Definition well_parsed (o : Options) : bool :=
  forallb (fun d : list str * option_spec =>
    match op_check d.2 with
    | None => true
    | Some c =>
        let passed := match bound o (op_variable d.2) with Some v => passes c v | None => false end in
        (bool_decide (bound o (op_variable d.2) = bound no_options (op_variable d.2)) || passed) &&
        (negb (op_required d.2 && chosen o d.1) || passed)
    end) declarations &&
  forallb (fun e : list str * bool => negb e.2 || (length e.1 <=? 1)%nat || chosen o (removelast e.1)) (commands o).

(** A parser that knows one command line. *)
Definition parse_one (line : list str) (o : Options) (_ : bool) (arguments : list str) : ParseFailure + Options :=
  if bool_decide (arguments = line) then inr o else inl (mkParseFailure false 109 $"unknown" [] $"unknown" 109).

Lemma parse_one_parser line o : well_parsed o = true -> OptionParser (parse_one line o).
Proof.
  intros [Hd Hc]%andb_true_iff. rewrite forallb_forall in Hd, Hc.
  assert (Hone : forall json arguments o', parse_one line o json arguments = inr o' -> o' = o).
  { intros json arguments o'. unfold parse_one. case_bool_decide; [by intros [= ->]|done]. }
  split.
  - intros json arguments o' path s c Hp%Hone Hin Hs. subst o'. apply list_elem_of_In, Hd in Hin. cbn [fst snd] in Hin. rewrite Hs in Hin.
    apply andb_true_iff in Hin as [[H|H]%orb_true_iff _]; [left; by bool_facts|].
    right. destruct (bound o (op_variable s)) as [v|]; [eauto|done].
  - intros json arguments o' path s c Hp%Hone Hin Hr Hch Hs. subst o'. apply list_elem_of_In, Hd in Hin. cbn [fst snd] in Hin.
    rewrite Hs, Hr, Hch in Hin. apply andb_true_iff in Hin as [_ H]. cbn [negb orb andb] in H.
    destruct (bound o (op_variable s)) as [v|]; [eauto|done].
  - intros json arguments o' path name Hp%Hone Hne Hch. subst o'. unfold chosen in Hch.
    apply existsb_exists in Hch as ([p b] & Hin & [E%bool_decide_eq_true Hb]%andb_true_iff). cbn in E, Hb. subst p b.
    apply Hc in Hin. cbn [fst snd negb orb] in Hin. rewrite length_app in Hin. cbn [length] in Hin.
    apply orb_true_iff in Hin as [H|H]; [|by rewrite removelast_last in H].
    destruct path; [done|]. rewrite Nat.add_comm in H. done.
Qed.

(** [lx port free 8080 --yes] *)
Definition free_8080 : Options :=
  mkOptions false false false false false false false false false true true false false false false
    None false None None None (-1) (-1) false None 8080 true None [] false None None 50 None false [] [].

Lemma parsed_values_fit_witness :
  freePortNumber free_8080 mod 2 ^ 16 = 8080.
Proof.
  assert (HP := parse_one_parser [$"port"; $"free"; $"8080"; $"--yes"] free_8080 ltac:(vm_compute; reflexivity)).
  destruct (parsed_values_fit _ (parser := HP) true [$"port"; $"free"; $"8080"; $"--yes"] free_8080) as [H _].
  - unfold parse_one. by rewrite bool_decide_eq_true_2.
  - exact (proj2 (H eq_refl)).
Defined.
