(* ===== verification/CliAppTheorems.v ===== *)
(** * What the command line guarantees

Theorems about [CliApp]: what a command may change and with whose consent, what
it prints in JSON mode, how failures are reported. *)

From S2P Require Import Prelude CppStd CppString Prog Domain Contracts OsCalls Sim.
From S2P Require Import ProcessService PortService PortServiceProofs CliText CliApp.
From S2P Require JsonSerializer ServiceService LogService MetricsService FindService InspectService DoctorService.
From Stdlib Require Import Ascii.

(** ** What services call *)

(** Signals of one kind, no service jobs. *)
Definition sends (pids : Z -> Prop) (s : ProcessSignal) (X : Type) (e : provE X) : Prop :=
  match e with
  | SignalProvider_send pid s' => pids pid /\ s' = s
  | ServiceProvider_start _ | ServiceProvider_stop _ | ServiceProvider_restart _ => False
  | _ => True
  end.
(** Stops of one unit, no signals. *)
Definition stops (unit : str) (X : Type) (e : provE X) : Prop :=
  match e with
  | ServiceProvider_stop u => ServiceService.normalizeUnit unit = Success u
  | e => quiet _ e
  end.

Lemma quiet_sends pids s X (e : provE X) : quiet X e -> sends pids s X e.
Proof. by destruct e. Qed.
Lemma quiet_stops u X (e : provE X) : quiet X e -> stops u X e.
Proof. by destruct e. Qed.
Lemma quiet_calls_sends pids s {A} (t : prog provE A) : calls_ok quiet t -> calls_ok (sends pids s) t.
Proof. apply calls_ok_mono, quiet_sends. Qed.
Lemma quiet_calls_stops u {A} (t : prog provE A) : calls_ok quiet t -> calls_ok (stops u) t.
Proof. apply calls_ok_mono, quiet_stops. Qed.

Lemma signal_sends P pid s :
  calls_ok (sends (fun q => q = pid /\ signal_allowed P q) s) (ProcessService.signal P pid s).
Proof.
  unfold ProcessService.signal. destruct (validateSignalTarget P pid) as [[]|] eqn:E; [|done].
  apply validateSignalTarget_Success in E. done.
Qed.

Lemma signal_all_sends P send s pids (all : list Z) ds :
  (forall pid, pid ∈ pids -> pid ∈ all) ->
  (forall pid, calls_ok (sends (fun q => q = pid /\ signal_allowed P q) s) (send pid)) ->
  calls_ok (sends (fun q => q ∈ all /\ signal_allowed P q) s) (signal_all send pids ds).
Proof.
  intros Hin Hs. revert ds Hin. induction pids as [|pid pids IH]; intros ds Hin; simpl; [done|].
  apply calls_ok_bind.
  - eapply calls_ok_mono; [|apply Hs]. intros X [] H; try exact H. destruct H as [[-> Ha] ->].
    split; [split; [apply Hin; set_solver|done]|done].
  - intros [d|e]; [|done]. apply IH. intros q Hq. apply Hin. set_solver.
Qed.

Section Release.
Context {HO : HashOrder} (S : PortService.PortService).

Lemma terminate_sends plan :
  calls_ok (sends (fun pid => pid ∈ plan_ownerPids plan /\ signal_allowed (processService S) pid) Terminate) (terminate S plan).
Proof.
  unfold terminate. apply calls_ok_bind.
  - apply quiet_calls_sends, read_only_calls_quiet, prepareRelease_read_only.
  - intros [current|e]; [|by case_match]. case_match; [done|]. apply calls_ok_bindR.
    + apply signal_all_sends; [done|]. intros pid. apply signal_sends.
    + intros ds. apply quiet_calls_sends, read_only_calls_quiet, terminate_quiet_rest.
Qed.

Lemma force_sends plan :
  calls_ok (sends (fun pid => pid ∈ plan_ownerPids plan /\ signal_allowed (processService S) pid) Kill) (force S plan).
Proof.
  unfold force. apply calls_ok_bind.
  - apply quiet_calls_sends, read_only_calls_quiet, prepareRelease_read_only.
  - intros [current|e]; [|by case_match]. case_match; [done|]. apply calls_ok_bindR.
    + apply signal_all_sends; [done|]. intros pid. apply signal_sends.
    + intros ds. apply quiet_calls_sends, read_only_calls_quiet, force_quiet_rest.
Qed.

Lemma stopManagedService_stops fuel plan unit :
  plan_recommendedUnit plan = Some unit -> calls_ok (stops unit) (stopManagedService S fuel plan).
Proof.
  intros Hu. unfold stopManagedService. rewrite Hu. case_match; [done|]. apply calls_ok_bind.
  - apply quiet_calls_stops, read_only_calls_quiet, prepareRelease_read_only.
  - intros [current|e]; [|by case_match]. case_match; [done|]. apply calls_ok_bind.
    + unfold ServiceService.stop. destruct (ServiceService.normalizeUnit unit) eqn:E; [|done]. by split.
    + intros [u|e]; [|done]. simpl. split; [done|]. intros now.
      apply quiet_calls_stops, await_release_quiet.
Qed.
End Release.

(** ** Prompts and streams *)

Section Trace.
Context {JF : JournalFollow}.

Definition is_prompt (ev : event cliE) : bool :=
  match ev with Ev e _ => match e with ReadLine => true | _ => false end end.

(** The last line read answers [prompt], which was just written, and accepts. *)
Definition accepted (prompt : str -> Prop) (defaultYes : bool) (h : trace cliE) : Prop :=
  exists before text answer later,
    h = before ++ [Ev (Io (Output text)) tt; Ev ReadLine answer] ++ later /\
    prompt text /\ confirmed answer defaultYes = true /\
    forallb (fun ev => negb (is_prompt ev)) later = true.

Definition written (ev : event cliE) : str :=
  match ev with
  | Ev e _ => match e with Io e => match e with Output text => text | Diagnostic _ => [] end | _ => [] end
  end.
Definition diagnosed (ev : event cliE) : str :=
  match ev with
  | Ev e _ => match e with Io e => match e with Output _ => [] | Diagnostic text => text end | _ => [] end
  end.
(** What a run wrote to its two streams. *)
Definition stdout (tr : trace cliE) : str := concat (map written tr).
Definition stderr (tr : trace cliE) : str := concat (map diagnosed tr).

Lemma stdout_app tr1 tr2 : stdout (tr1 ++ tr2) = stdout tr1 ++ stdout tr2.
Proof. unfold stdout. by rewrite map_app, concat_app. Qed.
Lemma stderr_app tr1 tr2 : stderr (tr1 ++ tr2) = stderr tr1 ++ stderr tr2.
Proof. unfold stderr. by rewrite map_app, concat_app. Qed.

(** Calls that write nothing. *)
Definition silent (X : Type) (e : cliE X) : Prop := match e with Io _ => False | _ => True end.
Lemma silent_trace tr : Forall (ev_ok silent) tr -> stdout tr = [] /\ stderr tr = [].
Proof.
  induction 1 as [|[X e x] tr He _ [IH1 IH2]]; [done|]. unfold stdout, stderr in *. simpl.
  rewrite IH1, IH2. by destruct e.
Qed.
Lemma silent_runs {A} (t : prog cliE A) tr a : calls_ok silent t -> runs t tr a -> stdout tr = [] /\ stderr tr = [].
Proof. intros Hc Hr. eapply silent_trace, calls_ok_runs; done. Qed.
Lemma svc_silent {A} (t : prog provE A) : calls_ok silent (svc t).
Proof. apply calls_ok_lift, calls_ok_True. done. Qed.

(** Calls that change nothing and ask nothing. *)
Definition harmless (X : Type) (e : cliE X) : Prop :=
  match e with Svc e => quiet _ e | RunTui | ReadLine => False | _ => True end.
Lemma svc_harmless {A} (t : prog provE A) : calls_ok quiet t -> calls_ok harmless (svc t).
Proof. intros H. apply (calls_ok_lift _ harmless). exact H. Qed.
Lemma io_harmless t : calls_ok harmless (io t).
Proof. apply calls_ok_lift, calls_ok_True. done. Qed.
Lemma stuck_harmless {A} (e : cliE Empty_set) : harmless _ e -> calls_ok harmless (cli_stuck (A := A) e).
Proof. by intros; split. Qed.
End Trace.
#[export] Hint Resolve svc_silent svc_harmless io_harmless : calls.
#[export] Hint Resolve ResourceResolver.resolve_read_only FindService.find_read_only InspectService.inspect_read_only
  port_inspect_read_only prepareRelease_read_only ServiceService.service_inspect_read_only
  ServiceService.services_list_read_only LogService.read_read_only : calls.

Section Guarantees.
Context {formats : Formats} {messages : Messages} {HO : HashOrder} {JF : JournalFollow}.
Variable A : App.
Variable dump : JsonSerializer.json -> option str.
Variable get_time : str -> option (LogService.tm * str).
Variable mktime : LogService.tm -> Z.
Variable localtime_r : Z -> option LogService.tm.
Abbreviation dispatch := (dispatch A dump get_time mktime localtime_r).
Abbreviation print_json := (print_json dump).

(** ** Read-only commands change nothing *)

Lemma print_json_harmless j : calls_ok harmless (print_json j).
Proof. unfold CliApp.print_json. destruct (dump j); [apply io_harmless|by apply stuck_harmless]. Qed.
Lemma fail_harmless o c op e : calls_ok harmless (fail dump o c op e).
Proof.
  apply calls_ok_bind; [|done]. destruct (o_json o); [apply print_json_harmless|apply io_harmless].
Qed.
Lemma print_harmless o j t : calls_ok harmless (print dump o j t).
Proof.
  apply calls_ok_bind; [|done]. destruct (o_json o); [apply print_json_harmless|apply io_harmless].
Qed.
Lemma or_fail_harmless {B} o c op (t : prog cliE (Result B)) k :
  calls_ok harmless t -> (forall a, calls_ok harmless (k a)) -> calls_ok harmless (or_fail dump o c op t k).
Proof. intros Ht Hk. apply calls_ok_bind; [done|]. intros [a|e]; [done|]. apply fail_harmless. Qed.
Lemma say_harmless o text : calls_ok harmless (say o text).
Proof. unfold say. destruct (o_quiet o); [done|]. apply io_harmless. Qed.
Hint Resolve print_json_harmless fail_harmless print_harmless or_fail_harmless say_harmless : calls.

Lemma with_cpu_harmless : calls_ok harmless (with_cpu A).
Proof.
  unfold with_cpu. destruct (negb _); [done|]. apply calls_ok_bind; [|done].
  apply svc_harmless, MetricsService.measure_quiet.
Qed.

Lemma follow_harmless o q : calls_ok harmless (follow_journal dump o q).
Proof.
  unfold follow_journal. apply calls_ok_bind; [done|]. intros installed.
  destruct (negb (installed =? 0)); [apply fail_harmless|].
  apply calls_ok_bind; [|intros r; apply calls_ok_bind; [|done]].
  - unfold LogService.follow. destruct (LogService.normalize q); [|done]. apply calls_ok_bind; [|done].
    apply calls_ok_interp. intros X [entry| |Y e]; cbn [callbacks]; [|done..].
    apply calls_ok_bind; [|done]. destruct (o_json o); [apply print_json_harmless|apply io_harmless].
  - destruct r as [|e]; [done|]. destruct (bool_decide _); [done|]. apply fail_harmless.
Qed.

Lemma doctor_harmless o : calls_ok harmless (run_doctor dump o).
Proof. apply calls_ok_bind; [by apply svc_harmless|]. intros. apply print_harmless. Qed.
Lemma status_harmless o : calls_ok harmless (run_status A dump o).
Proof.
  unfold run_status. destruct (negb _); [apply fail_harmless|]. apply or_fail_harmless.
  - apply svc_harmless, calls_ok_bindR; [apply MetricsService.measure_quiet|done].
  - intros. apply print_harmless.
Qed.
Lemma inspect_harmless o : calls_ok harmless (run_inspect A dump o).
Proof. apply or_fail_harmless; [auto with calls|]. intros. apply print_harmless. Qed.
Lemma find_harmless o : calls_ok harmless (run_find A dump o).
Proof. apply or_fail_harmless; [auto with calls|]. intros. apply print_harmless. Qed.
Lemma process_harmless o : calls_ok harmless (run_process A dump o).
Proof.
  unfold run_process. destruct (_ && _); [apply fail_harmless|]. destruct (processPid o) as [pid|].
  - apply or_fail_harmless; [auto with calls|]. intros. apply calls_ok_bind; [apply with_cpu_harmless|].
    intros. apply print_harmless.
  - destruct (rawCommand o); [apply fail_harmless|]. apply or_fail_harmless; [auto with calls|].
    intros. apply calls_ok_bind; [apply with_cpu_harmless|]. intros. apply print_harmless.
Qed.
Lemma service_harmless o : serviceAction o = [] -> calls_ok harmless (run_service dump o).
Proof.
  intros Ha. unfold run_service. destruct (serviceUnit o) as [unit|].
  - case_bool_decide; [|done]. apply or_fail_harmless; [auto with calls|]. intros. apply print_harmless.
  - apply or_fail_harmless; [auto with calls|]. intros. apply print_harmless.
Qed.
Lemma log_harmless o : calls_ok harmless (run_log dump get_time mktime localtime_r o).
Proof.
  assert (Hk : forall since, calls_ok harmless
    (let query := mkLogQuery (logUnit o) (logPid o) since (logLines o) false in
     if followLog o then follow_journal dump o query
     else or_fail dump o $"log" $"read" (svc (LogService.read query)) (fun result =>
       print dump o (JsonSerializer.logs result) (printJournalEntries result output_stream (diagnostics o))))).
  { intros since. cbv zeta. destruct (followLog o); [apply follow_harmless|].
    apply or_fail_harmless; [apply svc_harmless, read_only_calls_quiet, LogService.read_read_only|].
    intros. apply print_harmless. }
  unfold run_log, with_since. destruct (logSince o) as [text|]; [|apply Hk].
  apply calls_ok_bind; [by apply svc_harmless|]. intros now.
  destruct (LogService.parseSince _ _ _ _ _) as [[since|e]|]; [apply Hk|apply fail_harmless|by apply stuck_harmless].
Qed.
Lemma port_harmless o : calls_ok harmless (run_port A dump o).
Proof.
  apply or_fail_harmless; [auto with calls|]. intros result.
  destruct (obs_value result), (portNumber o); apply print_harmless || apply fail_harmless.
Qed.

(** ** Changes need consent *)

Definition term_prompt : str := $"Send SIGTERM to all owners? [Y/n] ".
Definition force_prompt : str := $"Force remaining owners with SIGKILL? [y/N] ".
Definition kill_prompt (pid : Z) (text : str) : Prop :=
  exists name, text = $"Force termination of PID " ++ to_string pid ++ $" (" ++ name ++ $") with SIGKILL? [y/N] ".
Definition action_prompt (verb unit choice text : str) : Prop := text = verb ++ $" " ++ unit ++ choice.

(** What a command may do after the calls of [h]. *)
Definition granted (o : Options) (h : trace cliE) (X : Type) (e : cliE X) : Prop :=
  match e with
  | RunTui => o_json o = false /\ o_tui o = true
  | ReadLine => o_json o = false
  | Svc e =>
      match e with
      | SignalProvider_send pid Terminate =>
          o_json o = false /\
          (o_stopProcess o = true /\ pid = stopPid o /\ signal_allowed (app_processes A) pid \/
           o_freePort o = true /\ signal_allowed (processService (app_ports A)) pid /\
             (confirmRelease o = true \/ accepted (eq term_prompt) true h))
      | SignalProvider_send pid Kill =>
          o_json o = false /\
          (o_killProcess o = true /\ pid = killPid o /\ signal_allowed (app_processes A) pid /\
             (confirmKill o = true \/ accepted (kill_prompt pid) false h) \/
           o_freePort o = true /\ signal_allowed (processService (app_ports A)) pid /\
             (confirmRelease o = true \/ accepted (eq force_prompt) false h))
      | ServiceProvider_start v =>
          o_json o = false /\ o_service o = true /\ serviceAction o = $"start" /\
          exists unit, serviceUnit o = Some unit /\ ServiceService.normalizeUnit unit = Success v
      | ServiceProvider_stop v =>
          o_json o = false /\ exists unit, ServiceService.normalizeUnit unit = Success v /\
          (o_service o = true /\ serviceAction o = $"stop" /\ serviceUnit o = Some unit /\
             (confirmServiceAction o = true \/ accepted (action_prompt $"Stop" unit $"? [y/N] ") false h) \/
           o_freePort o = true /\
             (confirmRelease o = true \/ accepted (action_prompt $"Stop" unit $"? [Y/n] ") true h))
      | ServiceProvider_restart v =>
          o_json o = false /\ exists unit, ServiceService.normalizeUnit unit = Success v /\
          o_service o = true /\ serviceAction o = $"restart" /\ serviceUnit o = Some unit /\
          (confirmServiceAction o = true \/ accepted (action_prompt $"Restart" unit $"? [y/N] ") false h)
      | _ => True
      end
  | _ => True
  end.

Lemma harmless_granted o h X (e : cliE X) : harmless X e -> granted o h X e.
Proof. destruct e as [Y e|Y e|Y e| | | | | | | |]; try done. by destruct e. Qed.

Lemma harmless_after o h {B} (t : prog cliE B) : calls_ok harmless t -> calls_after (granted o) h t.
Proof. apply calls_ok_after. intros. by apply harmless_granted. Qed.

Lemma accepted_later (p : str -> Prop) d h (later : trace cliE) :
  forallb (fun ev => negb (is_prompt ev)) later = true -> accepted p d h -> accepted p d (h ++ later).
Proof.
  intros Hl (before & text & answer & l & -> & Hp & Hc & Hn). exists before, text, answer, (l ++ later).
  rewrite <- !app_assoc. split_and!; [done..|]. by rewrite forallb_app, Hn.
Qed.
Lemma accepted_svc (p : str -> Prop) d h (tr : trace provE) :
  accepted p d h -> accepted p d (h ++ map (lift_event (@Svc JF)) tr).
Proof. apply accepted_later. induction tr as [|[X e x] tr IH]; [done|]. simpl. exact IH. Qed.
Lemma accepted_mono (p q : str -> Prop) d (h : trace cliE) :
  (forall text, p text -> q text) -> accepted p d h -> accepted q d h.
Proof. intros H (before & text & answer & l & -> & Hp & Hc & Hn). exists before, text, answer, l. auto. Qed.

Lemma svc_after o h (Q : forall X, provE X -> Prop) {B} (t : prog provE B) :
  (forall tr X (e : provE X), Q X e -> granted o (h ++ map (lift_event (@Svc JF)) tr) X (Svc e)) ->
  calls_ok Q t -> calls_after (granted o) h (svc t).
Proof. apply calls_after_lift. Qed.

Lemma or_fail_after {B} o c op h (t : prog cliE (Result B)) k :
  calls_after (granted o) h t -> (forall tr a, runs t tr (Success a) -> calls_after (granted o) (h ++ tr) (k a)) ->
  calls_after (granted o) h (or_fail dump o c op t k).
Proof.
  intros Ht Hk. apply calls_after_bind; [done|]. intros tr [a|e] Hr; [by apply Hk|].
  apply harmless_after, fail_harmless.
Qed.

Lemma say_after o h text : calls_after (granted o) h (_ <- say o text ;; Ret 0).
Proof. apply harmless_after, calls_ok_bind; [apply say_harmless|done]. Qed.

(** The rest of a command after a prompt runs with the consent of the user. *)
Lemma unless_cancelled_after o skip prompt d k h :
  o_json o = false ->
  (forall h', skip = true \/ accepted (eq prompt) d h' -> calls_after (granted o) h' k) ->
  calls_after (granted o) h (unless_cancelled o skip prompt d k).
Proof.
  intros Hj Hk. unfold unless_cancelled. destruct skip.
  - apply (Hk h). by left.
  - apply calls_after_bind.
    + split; [done|]. intros u. split; [done|]. done.
    + intros tr agreed (u & t1 & -> & answer & t2 & -> & -> & ->). destruct (confirmed answer d) eqn:E.
      * apply Hk. right. exists h, prompt, answer, []. destruct u. by rewrite app_nil_r.
      * apply harmless_after, calls_ok_bind; [apply say_harmless|done].
Qed.

Lemma diagnose_after o h {B} ws (k : prog cliE B) :
  (forall h', calls_after (granted o) h' k) -> calls_after (granted o) h (_ <- diagnose o ws ;; k).
Proof. intros Hk. apply calls_after_bind; [apply harmless_after, io_harmless|]. intros tr u _. apply Hk. Qed.

Lemma stopProcess_after o h :
  o_json o = false -> o_stopProcess o = true -> calls_after (granted o) h (run_stopProcess A dump o).
Proof.
  intros Hj Hs. apply or_fail_after; [|intros; apply say_after].
  eapply svc_after; [|apply signal_sends]. intros tr X [] H; try done. destruct H as [[-> Ha] ->]. simpl. auto.
Qed.

Lemma killProcess_after o h :
  o_json o = false -> o_killProcess o = true -> calls_after (granted o) h (run_killProcess A dump o).
Proof.
  intros Hj Hs. unfold run_killProcess. apply or_fail_after; [done|]. intros t1 _ _.
  apply or_fail_after; [apply harmless_after, svc_harmless, read_only_calls_quiet, process_inspect_read_only|].
  intros t2 target _. apply unless_cancelled_after; [done|]. intros h' Hc.
  apply or_fail_after; [|intros; apply say_after].
  eapply svc_after; [|apply signal_sends]. intros tr X [] H; try done. destruct H as [[-> Ha] ->]. simpl.
  split; [done|]. left. split_and!; [done..|]. destruct Hc as [|Hc]; [by left|right].
  apply accepted_svc. eapply accepted_mono; [|exact Hc]. intros text <-. by eexists.
Qed.

Lemma service_after o h :
  o_json o = false -> o_service o = true ->
  serviceAction o ∈ [[]; $"start"; $"stop"; $"restart"] ->
  calls_after (granted o) h (run_service dump o).
Proof.
  intros Hj Hs Hin. unfold run_service. destruct (serviceUnit o) as [unit|] eqn:Eu.
  2: { apply harmless_after, or_fail_harmless; [by apply svc_harmless|]. intros. apply print_harmless. }
  case_bool_decide as Ha.
  { apply harmless_after, or_fail_harmless; [|intros; apply print_harmless].
    apply svc_harmless, read_only_calls_quiet, ServiceService.service_inspect_read_only. }
  apply unless_cancelled_after; [done|]. intros h' Hc.
  apply or_fail_after; [|intros; apply say_after].
  unfold service_action, ServiceService.start, ServiceService.stop, ServiceService.restart.
  rewrite !elem_of_cons, elem_of_nil in Hin.
  destruct Hin as [|[E|[E|[E|[]]]]]; [done|..]; rewrite E in *; cbn [bool_decide negb orb] in *;
    destruct (ServiceService.normalizeUnit unit) as [v|] eqn:En; try done.
  all: split; [|done]; simpl; split; [done|]; try (by eauto).
  - exists unit. split; [done|]. left. split_and!; [done..|].
    destruct Hc as [Hc|Hc]; [by left|right]. eapply accepted_mono; [|exact Hc]. by intros text <-.
  - exists unit. split_and!; [done..|].
    destruct Hc as [Hc|Hc]; [by left|right]. eapply accepted_mono; [|exact Hc]. by intros text <-.
Qed.

Lemma managed_after o h plan unit :
  o_json o = false -> o_freePort o = true -> plan_recommendedUnit plan = Some unit ->
  calls_after (granted o) h (run_managed A dump o plan unit).
Proof.
  intros Hj Hf Hu. apply unless_cancelled_after; [done|]. intros h' Hc.
  apply calls_after_bind.
  - eapply svc_after; [|by apply stopManagedService_stops]. intros tr X [] H; try done. simpl.
    split; [done|]. exists unit. split; [done|]. right. split; [done|].
    destruct Hc as [|Hc]; [by left|right]. apply accepted_svc.
    eapply accepted_mono; [|exact Hc]. by intros text <-.
  - intros tr [stopped|] _; [|by apply harmless_after, stuck_harmless].
    apply or_fail_after; [done|]. intros t2 s _. apply diagnose_after. intros h2. apply say_after.
Qed.

Lemma signals_after o h plan :
  o_json o = false -> o_freePort o = true -> calls_after (granted o) h (run_signals A dump o plan).
Proof.
  intros Hj Hf. apply unless_cancelled_after; [done|]. intros h1 Hc1. apply or_fail_after.
  - eapply svc_after; [|apply terminate_sends]. intros tr X [] H; try done. destruct H as [[_ Hg] ->]. simpl.
    split; [done|]. right. split; [done|]. split; [exact Hg|]. destruct Hc1 as [|Hc]; [by left|right]. by apply accepted_svc.
  - intros t1 terminated _. apply diagnose_after. intros h2.
    destruct (rel_released _); [apply say_after|].
    apply calls_after_bind; [apply harmless_after, io_harmless|]. intros t2 u _.
    apply unless_cancelled_after; [done|]. intros h3 Hc3.
    destruct (rel_remaining _) as [remaining|]; [|by apply harmless_after, stuck_harmless].
    apply or_fail_after; [|intros t3 forced _; apply diagnose_after; intros; apply say_after].
    eapply svc_after; [|apply force_sends]. intros tr X [] H; try done. destruct H as [[_ Hg] ->]. simpl.
    split; [done|]. right. split; [done|]. split; [exact Hg|]. destruct Hc3 as [|Hc]; [by left|right]. by apply accepted_svc.
Qed.

Lemma freePort_after o h :
  o_json o = false -> o_freePort o = true -> calls_after (granted o) h (run_freePort A dump o).
Proof.
  intros Hj Hf. apply or_fail_after; [apply harmless_after; auto with calls|]. intros t1 plan _.
  apply calls_after_bind; [apply harmless_after, io_harmless|]. intros t2 u _.
  destruct (plan_recommendedUnit (obs_value plan)) eqn:E; [by apply managed_after|by apply signals_after].
Qed.

Lemma tui_after o h : o_json o = false -> o_tui o = true -> calls_after (granted o) h (run_tui A dump o).
Proof.
  intros Hj Ht. unfold run_tui. destruct (negb _); [apply harmless_after, fail_harmless|].
  apply or_fail_after; done.
Qed.

(** What a command does after the calls of [h] is what it may do. *)
Lemma dispatch_after o h :
  serviceAction o ∈ [[]; $"start"; $"stop"; $"restart"] ->
  calls_after (granted o) h (dispatch o).
Proof.
  intros Hin. unfold CliApp.dispatch, mutating.
  destruct (o_json o) eqn:Hj; cbn [andb].
  - destruct (_ || o_tui o) eqn:Hm; [apply harmless_after, fail_harmless|]. bool_facts.
    repeat match goal with H : ?b = false |- context [if ?b then _ else _] => rewrite H end.
    apply harmless_after.
    repeat match goal with |- context [if ?b then _ else _] => destruct b eqn:? end;
      auto using doctor_harmless, status_harmless, inspect_harmless, find_harmless, process_harmless,
        log_harmless, port_harmless with calls; [|done].
    apply service_harmless. match goal with H : _ \/ _ |- _ => destruct H; bool_facts; congruence end.
  - repeat match goal with |- context [if ?b then _ else _] => destruct b eqn:? end.
    all: try done.
    all: auto using tui_after, stopProcess_after, killProcess_after, service_after, freePort_after,
      harmless_after, doctor_harmless, status_harmless, inspect_harmless, find_harmless, process_harmless,
      log_harmless, port_harmless with calls.
Qed.

(** C2. Nothing changes without consent.  Whatever the environment answers, and also in a
run that is cut short, a command sends a signal or submits a service job only when it
was asked to: SIGTERM for [process stop] to that PID, or for [port free] after its
prompt was accepted; SIGKILL for [process kill] to that PID or for the second stage of
[port free], only with [--yes] or after a prompt that names SIGKILL was answered with
yes; a service is started, stopped or restarted under the name that was given, the
latter two only with [--yes] or an accepted prompt that names the unit.  In JSON mode
nothing is changed, nothing asked and the terminal interface is not entered. *)
Theorem changes_need_consent o :
  serviceAction o ∈ [[]; $"start"; $"stop"; $"restart"] ->
  calls_after (granted o) [] (dispatch o).
Proof. apply dispatch_after. Qed.

(** ** One document *)

(** What a command in JSON mode leaves: one document on the output, nothing on the
diagnostics, and the exit code that goes with it. *)
Definition one_document (tr : trace cliE) (code : Z) : Prop :=
  exists document text,
    dump document = Some text /\ stdout tr = text ++ [nl] /\ stderr tr = [] /\
    ((exists command operation data ws,
        document = JsonSerializer.envelope command operation data ws /\ code = 0) \/
     (exists command operation failure,
        document = JsonSerializer.error command operation failure /\ code = exitCode (err_code failure))).

Definition documents (t : prog cliE Z) : Prop := forall tr code, runs t tr code -> one_document tr code.

Lemma stdout_one (text : str) : stdout [Ev (Io (Output text)) tt] = text.
Proof. apply app_nil_r. Qed.

Lemma runs_print_json j tr u :
  runs (print_json j) tr u -> exists text, dump j = Some text /\ stdout tr = text ++ [nl] /\ stderr tr = [].
Proof.
  unfold CliApp.print_json. destruct (dump j) as [text|].
  - intros ([] & tr' & -> & -> & ->). exists text. split_and!; [done| |done]. apply stdout_one.
  - by intros ([] & _).
Qed.

Lemma documents_silent {B} (t : prog cliE B) (k : B -> prog cliE Z) :
  calls_ok silent t -> (forall tr b, runs t tr b -> documents (k b)) -> documents (bind t k).
Proof.
  intros Hs Hk tr code (t1 & b & t2 & -> & H1 & H2)%runs_bind.
  destruct (silent_runs _ _ _ Hs H1) as [So Se].
  destruct (Hk _ _ H1 _ _ H2) as (j & text & Hd & Ho & He & Hc).
  exists j, text. by rewrite stdout_app, stderr_app, So, Se, Ho, He.
Qed.

Section Json.
Variable o : Options.
Hypothesis json : o_json o = true.

Lemma fail_documents command operation failure : documents (fail dump o command operation failure).
Proof.
  unfold fail. rewrite json. intros tr code (t1 & u & t2 & -> & H & -> & ->)%runs_bind.
  rewrite app_nil_r. apply runs_print_json in H as (text & Hd & Ho & He).
  eexists _, text. split_and!; [done..|]. right. eauto.
Qed.
Lemma print_documents command operation data ws text :
  documents (print dump o (JsonSerializer.envelope command operation data ws) text).
Proof.
  unfold print. rewrite json. intros tr code (t1 & u & t2 & -> & H & -> & ->)%runs_bind.
  rewrite app_nil_r. apply runs_print_json in H as (text' & Hd & Ho & He).
  eexists _, text'. split_and!; [done..|]. left. eauto 10.
Qed.
Lemma or_fail_documents {B} c op (t : prog cliE (Result B)) k :
  calls_ok silent t -> (forall b, documents (k b)) -> documents (or_fail dump o c op t k).
Proof. intros Hs Hk. apply documents_silent; [done|]. intros tr [b|e] _; [done|]. apply fail_documents. Qed.

Lemma with_cpu_silent : calls_ok silent (with_cpu A).
Proof. unfold with_cpu. destruct (negb _); [done|]. apply calls_ok_bind; [apply svc_silent|done]. Qed.

Ltac one_print := intros; apply print_documents.

Lemma process_documents : documents (run_process A dump o).
Proof.
  unfold run_process. destruct (_ && _); [apply fail_documents|]. destruct (processPid o) as [pid|].
  - apply or_fail_documents; [apply svc_silent|]. intros. apply documents_silent; [apply with_cpu_silent|one_print].
  - destruct (rawCommand o); [apply fail_documents|]. apply or_fail_documents; [apply svc_silent|].
    intros. apply documents_silent; [apply with_cpu_silent|one_print].
Qed.
Lemma service_documents : serviceAction o = [] -> documents (run_service dump o).
Proof.
  intros Ha. unfold run_service. destruct (serviceUnit o); [case_bool_decide; [|done]|];
    (apply or_fail_documents; [apply svc_silent|one_print]).
Qed.
Lemma log_documents : followLog o = false -> documents (run_log dump get_time mktime localtime_r o).
Proof.
  intros Hf. unfold run_log, with_since. rewrite Hf. destruct (logSince o) as [text|].
  - apply documents_silent; [apply svc_silent|]. intros tr now _.
    destruct (LogService.parseSince _ _ _ _ _) as [[since|e]|]; [|apply fail_documents|by intros ? ? ([] & _)].
    apply or_fail_documents; [apply svc_silent|one_print].
  - apply or_fail_documents; [apply svc_silent|one_print].
Qed.
Lemma port_documents : documents (run_port A dump o).
Proof.
  apply or_fail_documents; [apply svc_silent|]. intros result.
  destruct (obs_value result), (portNumber o); apply print_documents || apply fail_documents.
Qed.

Definition selected : bool :=
  o_tui o || o_doctor o || o_status o || o_inspect o || o_find o || o_stopProcess o || o_killProcess o ||
  o_process o || o_service o || o_log o || o_freePort o || o_port o.

Lemma dispatch_documents :
  selected = true -> o_log o && followLog o = false -> documents (dispatch o).
Proof.
  intros Hsel Hlog. unfold CliApp.dispatch. rewrite json. cbn [andb].
  destruct (mutating o) eqn:Hm; [apply fail_documents|]. unfold mutating in Hm. unfold selected in Hsel.
  apply orb_false_iff in Hm as [Hm Ht]. apply orb_false_iff in Hm as [Hm Hsv].
  apply orb_false_iff in Hm as [Hm Hfp]. apply orb_false_iff in Hm as [Hsp Hkp].
  rewrite Ht, Hsp, Hkp, Hfp in *.
  destruct (o_doctor o). { apply documents_silent; [apply svc_silent|one_print]. }
  destruct (o_status o).
  { unfold run_status. destruct (negb (hasStatusService A)); [apply fail_documents|]. apply or_fail_documents; [apply svc_silent|one_print]. }
  destruct (o_inspect o). { apply or_fail_documents; [apply svc_silent|one_print]. }
  destruct (o_find o). { apply or_fail_documents; [apply svc_silent|one_print]. }
  destruct (o_process o); [apply process_documents|].
  destruct (o_service o). { apply service_documents. cbn in Hsv. by bool_facts. }
  destruct (o_log o); [by apply log_documents|].
  destruct (o_port o); [apply port_documents|done].
Qed.
End Json.

(** C7. [--json] promises one document.  A run with [--json] (anywhere in the arguments)
that reaches a command other than [log --follow] writes to its output exactly one
document followed by a newline, and nothing to its diagnostics, whatever the
environment answers: an envelope with exit code 0, or an error document whose error
determines the exit code.  That includes commands refused in JSON mode and arguments
the parser refuses. *)
Theorem json_one_document parse arguments tr code :
  $"--json" ∈ arguments ->
  match parse true arguments with
  | inr o => o_json o = true /\ selected o = true /\ o_log o && followLog o = false
  | inl failure => pf_json failure = true /\ pf_exitCode failure <> 0
  end ->
  runs (run_ A dump get_time mktime localtime_r parse arguments) tr code ->
  one_document tr code.
Proof.
  intros Hin Hp. unfold run_.
  assert (existsb (fun argument => bool_decide (argument = $"--json")) arguments = true) as ->.
  { apply existsb_exists. exists $"--json". split; [by apply list_elem_of_In|]. by apply bool_decide_eq_true_2. }
  destruct (parse true arguments) as [failure|o].
  - destruct Hp as [Hj Hc]. rewrite Hj, (proj2 (Z.eqb_neq _ _) Hc).
    intros (t1 & u & t2 & -> & H & -> & ->)%runs_bind. rewrite app_nil_r.
    apply runs_print_json in H as (text & Hd & Ho & He). eexists _, text. split_and!; [done..|].
    right. by eexists _, _, _.
  - destruct Hp as (Hj & Hs & Hl). by apply dispatch_documents.
Qed.

(** ** Failures are reported *)

Section Failures.
Variable o : Options.

(** The error the run ended with is the last thing it wrote. *)
Definition reported (tr : trace cliE) (failure : Error) : Prop :=
  if o_json o then
    exists command operation text before,
      dump (JsonSerializer.error command operation failure) = Some text /\
      stdout tr = before ++ text ++ [nl]
  else exists before, stderr tr = before ++ err_message failure ++ [nl].

Definition interrupted_follow (code : Z) : Prop := o_log o = true /\ followLog o = true /\ code = 130.

Definition accounted (tr : trace cliE) (code : Z) : Prop :=
  code = 0 \/ interrupted_follow code \/
  exists failure, code = exitCode (err_code failure) /\ reported tr failure.

Definition reports (t : prog cliE Z) : Prop := forall tr code, runs t tr code -> accounted tr code.

Lemma reported_after tr1 tr2 failure : reported tr2 failure -> reported (tr1 ++ tr2) failure.
Proof.
  unfold reported. rewrite stdout_app, stderr_app. destruct (o_json o).
  - intros (c & op & text & before & Hd & ->). exists c, op, text, (stdout tr1 ++ before). by rewrite <- app_assoc.
  - intros (before & ->). exists (stderr tr1 ++ before). by rewrite <- app_assoc.
Qed.

Lemma reports_bind {B} (t : prog cliE B) k : (forall b, reports (k b)) -> reports (bind t k).
Proof.
  intros Hk tr code (t1 & b & t2 & -> & _ & H)%runs_bind.
  destruct (Hk b _ _ H) as [H0|[H0|(failure & Hc & Hr)]]; [by left|by right; left|right; right].
  exists failure. split; [done|]. by apply reported_after.
Qed.
Lemma reports_done : reports (Ret 0).
Proof. intros tr code [_ ->]. by left. Qed.
Lemma reports_stuck e : reports (cli_stuck e).
Proof. by intros tr code ([] & _). Qed.
Lemma fail_reports command operation failure : reports (fail dump o command operation failure).
Proof.
  intros tr code (t1 & u & t2 & -> & H & -> & ->)%runs_bind. rewrite app_nil_r.
  right. right. exists failure. split; [done|]. unfold reported. destruct (o_json o).
  - apply runs_print_json in H as (text & Hd & Ho & _). by exists command, operation, text, [].
  - destruct H as ([] & t & -> & -> & _). exists []. apply app_nil_r.
Qed.
Lemma reports_or_fail {B} c op (t : prog cliE (Result B)) k :
  (forall b, reports (k b)) -> reports (or_fail dump o c op t k).
Proof. intros Hk. apply reports_bind. intros [b|e]; [apply Hk|apply fail_reports]. Qed.
Lemma reports_unless skip prompt d k : reports k -> reports (unless_cancelled o skip prompt d k).
Proof. intros Hk. apply reports_bind. intros [|]; [done|]. apply reports_bind. intros _. apply reports_done. Qed.

Lemma reports_follow q : o_log o = true -> followLog o = true -> reports (follow_journal dump o q).
Proof.
  intros Hl Hf. apply reports_bind. intros installed. destruct (negb (installed =? 0)); [apply fail_reports|].
  apply reports_bind. intros result tr code (t1 & c & t2 & -> & H & H')%runs_bind.
  destruct H' as (u & t3 & -> & -> & ->).
  assert (Hw : forall failure, reported t1 failure -> reported (t1 ++ [Ev RemoveInterrupt u]) failure).
  { intros failure. unfold reported. by rewrite stdout_app, stderr_app, !app_nil_r. }
  destruct result as [|e]; [destruct H as [-> ->]; by left|].
  case_bool_decide.
  - destruct H as [-> ->]. right. by left.
  - destruct (fail_reports _ _ _ _ _ H) as [Hz|[Hz|(failure & Hc & Hr)]]; [by left|by right; left|right; right].
    exists failure. auto.
Qed.
End Failures.

Ltac report :=
  repeat first
    [ apply fail_reports | apply reports_done | apply reports_stuck | apply reports_unless
    | apply reports_or_fail; intros ?
    | match goal with
      | |- reports _ (print _ _ _ _) => apply reports_bind; intros _
      | |- reports _ (bind _ _) => apply reports_bind; intros ?
      | |- reports _ (if ?b then _ else _) => destruct b eqn:?
      | |- reports _ (match ?x with _ => _ end) => destruct x
      end ].

End Guarantees.

(** ** Example runs *)

(** No provider to follow with. *)
Definition no_follow : JournalFollow := {| followE := fun _ => Empty_set; provider_follow _ := Ret (Success tt) |}.

(** The services on a machine, and the lines a user will type. *)
Definition cli_sim (X : Type) (e : @cliE no_follow X) (s : machine * list str) : option (X * (machine * list str)) :=
  match e in cliE X return option (X * (machine * list str)) with
  | Io e => match e in streamE X return option (X * (machine * list str)) with Output _ | Diagnostic _ => Some (tt, s) end
  | Svc e => let '(x, m) := sim _ e s.1 in Some (x, (m, s.2))
  | ReadLine => Some (head s.2, (s.1, tail s.2))
  | InstallInterrupt => Some (0, s)
  | RemoveInterrupt => Some (tt, s)
  | _ => None
  end.

Definition sim_app : App :=
  mkApp (ProcessService.mkProcessService 999 true)
    (PortService.mkPortService (ProcessService.mkProcessService 999 true) true 3000) true false 121.

Definition kill_400 : Options :=
  mkOptions false false false false false false true false true false false false false false false
    None false None None None (-1) 400 false None 0 false None [] false None None 50 None false [] [].
Definition json_doctor : Options :=
  mkOptions true false false true false false false false false false false false false false false
    None false None None None (-1) (-1) false None 0 false None [] false None None 50 None false [] [].

Definition sim_dispatch (o : Options) : prog (@cliE no_follow) Z :=
  dispatch (formats := plain_formats) (messages := plain_messages) (HO := elements_order) (JF := no_follow) sim_app
    (fun _ => Some $"{}") (fun _ => None) (fun _ => 0) (fun _ => None) o.

Lemma changes_need_consent_witness :
  exists tr before r after,
    runs (sim_dispatch kill_400) tr 0 /\ tr = before ++ Ev (Svc (SignalProvider_send 400 Kill)) r :: after /\
    accepted (kill_prompt 400) false before.
Proof.
  destruct (exec cli_sim (sim_dispatch kill_400) (sim_machine, [$" Yes "])) as [[[code tr] s]|] eqn:E;
    [|vm_compute in E; congruence].
  assert (Hr := exec_runs _ _ _ _ _ _ E).
  assert (Hg : calls_after (granted sim_app kill_400) [] (sim_dispatch kill_400)).
  { unfold sim_dispatch. apply changes_need_consent, elem_of_cons. by left. }
  vm_compute in E. injection E as <- <- _.
  eexists _, [_; _; _; _], _, [_]. split_and!; [exact Hr|reflexivity|].
  destruct (calls_after_runs _ _ _ _ _ [_; _; _; _] _ [_] Hg Hr eq_refl) as [_ [(_ & _ & _ & [H|H])|(H & _)]]; [done|exact H|done].
Defined.

Lemma json_one_document_witness :
  exists tr, runs (run_ (formats := plain_formats) (messages := plain_messages) (HO := elements_order) (JF := no_follow)
      sim_app (fun _ => Some $"{}") (fun _ => None) (fun _ => 0) (fun _ => None) (fun _ _ => inr json_doctor)
      [$"--json"; $"doctor"]) tr 0 /\
    one_document (fun _ => Some $"{}") tr 0.
Proof.
  destruct (exec cli_sim (sim_dispatch json_doctor) (sim_machine, [])) as [[[code tr] s]|] eqn:E;
    [|vm_compute in E; congruence].
  assert (Hr := exec_runs _ _ _ _ _ _ E).
  assert (code = 0) as -> by (vm_compute in E; by injection E as <- _ _).
  exists tr. split; [exact Hr|].
  apply (json_one_document (formats := plain_formats) (messages := plain_messages) (HO := elements_order) (JF := no_follow)
    sim_app (fun _ => Some $"{}") (fun _ => None) (fun _ => 0) (fun _ => None) (fun _ _ => inr json_doctor)
    [$"--json"; $"doctor"]); [apply elem_of_cons; by left|done|exact Hr].
Defined.

