(* ===== verification/CliFollow.v ===== *)
(** * [lx log --follow] on the systemd journal

The journal adapter as an instance of the interface the command line follows
through, and what a user then sees: the output of the command is the documents (or
lines) of a gapless stretch of the journal. *)

From S2P Require Import Prelude CppStd CppString Prog Domain Contracts OsCalls JournalSpec.
From S2P Require Import CliText CliApp CliAppTheorems.
From S2P Require JsonSerializer LogService SystemdJournalProvider.
From Stdlib Require Import Ascii.

Module Journal := SystemdJournalProvider.

Definition split_callbacks (X : Type) (e : Journal.journalE X) : prog (callbackE Journal.journalE) X :=
  match e in Journal.journalE X return prog (callbackE Journal.journalE) X with
  | Journal.Sink entry => trigger (Sink entry)
  | Journal.StopRequested => trigger StopRequested
  | e => trigger (Own e)
  end.

Section Follow.
Context {formats : Formats} {messages : Messages}.
Variable rounds : nat.

Definition systemd_follow : JournalFollow := {|
  followE := Journal.journalE;
  provider_follow query := interp split_callbacks (Journal.follow rounds true true query);
|}.
#[local] Existing Instance systemd_follow.

(** The journal calls of a run of the command, its stop requests included. *)
Definition journal_call_of (ev : event cliE) : option (event Journal.journalE) :=
  match ev with
  | Ev e x =>
      match e in cliE X return X -> option (event Journal.journalE) with
      | Fl e => fun x => Some (Ev e x)
      | InterruptRequested => fun stop => Some (Ev Journal.StopRequested stop)
      | _ => fun _ => None
      end x
  end.
Definition journal_part (tr : trace cliE) : trace Journal.journalE := omap journal_call_of tr.

Variable dump : JsonSerializer.json -> option str.
Variable o : Options.

(** What the output shows of a followed entry. *)
Definition shown (entry : Observation JournalEntry) : option str :=
  if o_json o then (fun text => text ++ [nl]) <$> dump (JsonSerializer.logEvent entry)
  else Some (lines [journal_line (obs_value entry)]).

Definition observed_of (ev : event Journal.journalE) : option (Observation JournalEntry) :=
  match ev with
  | Ev e _ => match e with Journal.Sink entry => Some entry | _ => None end
  end.
Definition observed (tr : trace Journal.journalE) : list (Observation JournalEntry) := omap observed_of tr.

Lemma sunk_observed tr : sunk tr = obs_value <$> observed tr.
Proof.
  unfold sunk, observed. induction tr as [|[X e x] tr IH]; [done|]. cbn [omap list_omap]. rewrite IH.
  by destruct e.
Qed.

Lemma journal_part_app tr1 tr2 : journal_part (tr1 ++ tr2) = journal_part tr1 ++ journal_part tr2.
Proof. apply omap_app. Qed.

(** Printing an entry. *)
Lemma io_trace (t : prog streamE unit) tr u :
  runs (io (JF := systemd_follow) t) tr u -> journal_part tr = [].
Proof.
  intros (tr0 & _ & ->)%runs_lift. induction tr0 as [|[X e x] tr0 IH]; [done|]. exact IH.
Qed.

(** Writing to the diagnostics leaves the output alone. *)
Definition diagnosing (X : Type) (e : streamE X) : Prop := match e with Output _ => False | Diagnostic _ => True end.
Lemma diagnosing_stdout (tr : trace streamE) :
  Forall (ev_ok diagnosing) tr -> stdout (map (lift_event (@Io systemd_follow)) tr) = [].
Proof. induction 1 as [|[X e x] tr He _ IH]; [done|]. destruct e; [done|]. exact IH. Qed.
Lemma warnings_diagnosing ws : calls_ok diagnosing (print_warnings (diagnostics o) ws).
Proof.
  induction ws as [|w ws IH]; [done|]. apply calls_ok_bind; [|done].
  unfold diagnostics. by destruct (o_quiet o).
Qed.

Lemma runs_log_sink entry tr r :
  runs (log_sink (JF := systemd_follow) dump o entry) tr r ->
  r = Success tt /\ journal_part tr = [] /\ shown entry = Some (stdout tr).
Proof.
  intros (t1 & u & t2 & -> & H & -> & ->)%runs_bind. rewrite app_nil_r. split; [done|].
  unfold shown. destruct (o_json o).
  - destruct (runs_print_json _ _ _ _ H) as (text & Hd & Ho & _). rewrite Hd, Ho. split; [|done].
    unfold print_json in H. rewrite Hd in H. by apply io_trace in H.
  - split; [by apply io_trace in H|]. f_equal. apply runs_lift in H as (tr0 & H & ->).
    unfold printJournalEntry in H. apply runs_bind in H as (t1 & v & t2 & -> & ->%runs_trigger & H).
    destruct v. rewrite map_app, stdout_app. cbn [map lift_event]. rewrite stdout_one.
    rewrite diagnosing_stdout; [by rewrite app_nil_r|]. eapply calls_ok_runs; [apply warnings_diagnosing|exact H].
Qed.

(** A run of the command against the calls of the adapter. *)
Abbreviation handler := (fun X (e : Journal.journalE X) =>
  interp (callbacks (JF := systemd_follow) (log_sink dump o) (trigger InterruptRequested)) (split_callbacks X e)).

Lemma handler_event X (e : Journal.journalE X) tr x :
  runs (handler X e) tr x ->
  (exists entry, observed_of (Ev e x) = Some entry /\ journal_part tr = [] /\ shown entry = Some (stdout tr)) \/
  (observed_of (Ev e x) = None /\ stdout tr = [] /\ journal_part tr = [Ev e x]).
Proof.
  destruct e; cbn; intros H.
  all: try (destruct H as (y & t & -> & -> & ->); right; split_and!; done).
  apply runs_bind in H as (t1 & r & t2 & -> & H & -> & ->). rewrite app_nil_r.
  apply runs_log_sink in H as (-> & ? & ?). left. eauto.
Qed.

Lemma serve_sink J h (ev : event Journal.journalE) entry : observed_of ev = Some entry -> serve J h ev = Some h.
Proof. by destruct ev as [X [] x]. Qed.

Lemma followed jtr tr :
  realizes handler jtr tr ->
  (exists texts, Forall2 (fun entry text => shown entry = Some text) (observed jtr) texts /\ stdout tr = concat texts) /\
  (forall J h J' h', served J h (journal_part tr) J' h' -> served J h jtr J' h') /\
  (forall ev, ev ∈ journal_part tr -> ev ∈ jtr).
Proof.
  induction 1 as [|X e x jtr t1 t2 H _ (IH1 & IH2 & IH3)].
  - split_and!; [|done..]. exists []. by split; [constructor|].
  - destruct IH1 as (texts & Ht & Eo). rewrite journal_part_app, stdout_app, Eo.
    apply handler_event in H as [(entry & Ho & Hj & Hs)|(Ho & Hs & Hj)].
    + rewrite Hj. split_and!.
      * exists (stdout t1 :: texts). split; [|done]. unfold observed in *. cbn [omap list_omap]. rewrite Ho. by constructor.
      * intros J h J' h' Hsv. eapply served_call; [by eapply serve_sink|by apply IH2].
      * intros ev Hev. apply elem_of_cons. right. by apply IH3.
    + rewrite Hj, Hs. split_and!.
      * exists texts. split; [|done]. unfold observed in *. cbn [omap list_omap]. by rewrite Ho.
      * intros J h J' h' Hsv. apply served_app in Hsv as (J1 & h1 & S1 & S2).
        apply (served_trans _ _ [Ev e x] _ _ _ _ _ S1), IH2, S2.
      * intros ev [Hev|Hev]%elem_of_app; apply elem_of_cons; [left|right; by apply IH3].
        by apply list_elem_of_singleton in Hev.
Qed.

Lemma matches_set_follow b q : matches_of (LogService.set_follow b q) = matches_of q.
Proof. done. Qed.

Lemma runs_fail command operation failure tr code :
  runs (fail (JF := systemd_follow) dump o command operation failure) tr code ->
  exists e, tr = [Ev (Io e) tt] /\ (err_code failure <> Interrupted -> code <> 0 /\ code <> 130).
Proof.
  intros (t1 & u & t2 & -> & H & -> & ->)%runs_bind. unfold print_json in H.
  assert (exists e, t1 = [Ev (Io e) tt]) as [e ->].
  { destruct (o_json o); [destruct (dump _)|]; [|by destruct H as ([] & _)|];
      (destruct H as ([] & t & -> & -> & _); by eexists). }
  exists e. split; [done|]. by destruct (err_code failure).
Qed.

Lemma runs_follow_provider query normalized tr r :
  LogService.normalize query = Success normalized ->
  runs (interp (following (JF := systemd_follow) (log_sink dump o) (trigger InterruptRequested))
          (LogService.follow query)) tr r ->
  runs (interp handler (Journal.follow rounds true true (LogService.set_follow true normalized))) tr r.
Proof.
  intros Hn. unfold LogService.follow. rewrite Hn. cbn [interp trigger following].
  intros H. apply (proj1 (bind_ret_r _ _ _)) in H.
  exact (proj1 (runs_interp_interp split_callbacks _ _ _ _) H).
Qed.

Lemma interrupt_noticed (tr : trace cliE) :
  Ev InterruptRequested true ∈ tr -> Ev Journal.StopRequested true ∈ journal_part tr.
Proof. intros H. apply list_elem_of_omap. by exists (Ev InterruptRequested true). Qed.

End Follow.

(** ** An example run *)

(** A command following the journal of an example machine. *)
Definition follow_sim (messages : Messages) (rounds : nat) (X : Type)
    (e : @cliE (systemd_follow (messages := messages) rounds) X) (m : journal_machine) : option (X * journal_machine) :=
  match e in cliE X return option (X * journal_machine) with
  | Fl e => journal_sim _ e m
  | InterruptRequested => journal_sim _ Journal.StopRequested m
  | Io e => match e in streamE X return option (X * journal_machine) with Output _ | Diagnostic _ => Some (tt, m) end
  | InstallInterrupt => Some (0, m)
  | RemoveInterrupt => Some (tt, m)
  | _ => None
  end.

Lemma follow_sim_served messages rounds {A} (t : prog cliE A) m a tr m' :
  exec (follow_sim messages rounds) t m = Some (a, tr, m') ->
  served (jm_entries m) (jm_handle m) (journal_part rounds tr) (jm_entries m') (jm_handle m').
Proof.
  revert m tr. induction t as [b|X e k IH]; intros m tr; simpl; [intros [= _ <- <-]; constructor|].
  destruct (follow_sim messages rounds X e m) as [[x m1]|] eqn:E; [|done].
  destruct (exec _ (k x) m1) as [[[b tr'] m2]|] eqn:E2; [|done].
  intros [= -> <- ->]. apply IH in E2.
  destruct e as [X [text|text]|X e|X e| | | | | | | |]; try done; cbn [follow_sim] in E.
  all: try (injection E as <- <-; exact E2).
  all: apply journal_sim_step in E as [Es Ee]; rewrite Ee in E2; by eapply served_call.
Qed.

Definition web_query : LogQuery := mkLogQuery (Some $"web") None None 2 false.
Definition web_follow : prog (@cliE (systemd_follow (messages := plain_messages) 10)) Z :=
  follow_journal (formats := plain_formats) (messages := plain_messages)
    (JF := systemd_follow (messages := plain_messages) 10) (fun _ => None) no_options web_query.

