(* ===== verification/InterruptGuard.v ===== *)
(** * Ctrl-C while following ([src/cli/CliApp.cpp], [InterruptGuard])

The object that turns SIGINT into a request to stop while [log --follow] runs: what it
does to the process, what becomes of signals that arrive at any moment of a run, and how
soon the command stops. *)

From S2P Require Import Prelude CppStd CppString Prog Domain Contracts OsCalls JournalSpec.
From S2P Require Import CliText CliApp CliAppTheorems CliFollow.
From S2P Require JsonSerializer LogService SystemdJournalProvider.
From Stdlib Require Import Ascii.

(** ** The guard *)

(** What the process does on SIGINT; [Previous n]: a handler that is not LX's. *)
Inductive disposition := Default | Ignored | Previous (n : nat) | Guarded.
#[export] Instance disposition_eq_dec : EqDecision disposition.
Proof. solve_decision. Defined.

Record InterruptGuard := mkGuard { previous_ : disposition; installed_ : bool }.
(** The process, with the static [requested_] and the guard of the command. *)
Record process := mkProcess { sigint : disposition; requested_ : bool; guard : InterruptGuard }.

(** The result of [sigaction], 0 or [errno], is the system's. *)
Definition install (status : Z) (p : process) : process :=
  if status =? 0 then mkProcess Guarded false (mkGuard (sigint p) true)
  else mkProcess (sigint p) false (guard p).
Definition requested (p : process) : bool := requested_ p.
(** The destructor. *)
Definition restore (p : process) : process :=
  if installed_ (guard p) then mkProcess (previous_ (guard p)) (requested_ p) (mkGuard (previous_ (guard p)) false)
  else p.

(** SIGINT arrives; [None]: the process ends. *)
Definition interrupt (p : process) : option process :=
  match sigint p with
  | Default => None
  | Ignored | Previous _ => Some p
  | Guarded => Some (mkProcess Guarded true (guard p))
  end.

Section Guard.
Context {formats : Formats} {messages : Messages}.
Variable rounds : nat.
#[local] Instance follow_instance : JournalFollow := systemd_follow rounds.
Variable dump : JsonSerializer.json -> option str.
Variable o : Options.

(** A call of the command, answered by the guard where it is the guard's. *)
Definition answer (ev : event cliE) (p : process) : option process :=
  match ev with
  | Ev e x =>
      match e in cliE X return X -> option process with
      | InstallInterrupt => fun status => Some (install status p)
      | InterruptRequested => fun b => if bool_decide (b = requested p) then Some p else None
      | RemoveInterrupt => fun _ => Some (restore p)
      | _ => fun _ => Some p
      end x
  end.

(** A run with the signals that arrive in it, [None]. *)
Abbreviation moment := (option (event cliE)).
Definition at_moment (m : moment) (p : process) : option process :=
  match m with Some ev => answer ev p | None => interrupt p end.
Fixpoint during (p : process) (ms : list moment) : option process :=
  match ms with
  | [] => Some p
  | m :: ms' => at_moment m p ≫= fun p' => during p' ms'
  end.
Definition calls_of (ms : list moment) : trace cliE := omap id ms.

Lemma during_app p ms1 ms2 : during p (ms1 ++ ms2) = during p ms1 ≫= fun p' => during p' ms2.
Proof. revert p. induction ms1 as [|m ms1 IH]; intros p; cbn; [done|]. destruct (at_moment m p); cbn; auto. Qed.
Lemma calls_of_app ms1 ms2 : calls_of (ms1 ++ ms2) = calls_of ms1 ++ calls_of ms2.
Proof. apply omap_app. Qed.

Lemma calls_of_some (tr : trace cliE) : calls_of (map Some tr) = tr.
Proof. induction tr as [|ev tr IH]; [done|]. cbn. by f_equal. Qed.

(** ** The pace of following

Between two questions whether to stop at most one entry is shown, and none after the
answer yes. *)
Inductive pace := Armed | Spent | Stopped.
Definition ask (b : bool) (s : pace) : pace := match s with Stopped => Stopped | _ => if b then Stopped else Armed end.
Definition show (s : pace) : pace := match s with Stopped => Stopped | _ => Spent end.

Definition journal_next (s : pace) (ev : event Journal.journalE) : pace :=
  match ev with
  | Ev e x =>
      match e in Journal.journalE X return X -> pace with
      | Journal.StopRequested => fun b => ask b s
      | Journal.Sink _ => fun _ => show s
      | _ => fun _ => s
      end x
  end.
Definition journal_ok (s : pace) (X : Type) (e : Journal.journalE X) : Prop :=
  match e with Journal.Sink _ => s = Armed | _ => True end.
Definition console_next (s : pace) (ev : event cliE) : pace :=
  match ev with
  | Ev e x =>
      match e in cliE X return X -> pace with
      | InterruptRequested => fun b => ask b s
      | Io e => fun _ => match e with Output _ => show s | Diagnostic _ => s end
      | _ => fun _ => s
      end x
  end.
Definition console_ok (s : pace) (X : Type) (e : cliE X) : Prop :=
  match e with Io e => match e with Output _ => s = Armed | Diagnostic _ => True end | _ => True end.

Abbreviation paced := (tracks journal_next journal_ok).

(** One call of a program. *)
Ltac steps := cbn [bind trigger tracks journal_next ask show].

Lemma quiet_paced {A} s (t : prog Journal.journalE A) (Q : pace -> A -> Prop) :
  calls_ok no_callback t -> (forall a, Q s a) -> paced s t Q.
Proof.
  intros Hc HQ. eapply tracks_mono; [eapply (tracks_ok _ _ no_callback); [|exact Hc]|by intros ? ? ->].
  intros X e. by destruct e.
Qed.

(** What must hold where a program goes on after another. *)
Definition going {A} (s : pace) (r : Result A) : Prop := match r with Success _ => s <> Stopped | Failure _ => True end.

Lemma paced_bindR {A B} s (t : prog Journal.journalE (Result A)) (f : A -> prog Journal.journalE (Result B)) Q :
  paced s t going -> (forall s' a, s' <> Stopped -> paced s' (f a) Q) -> (forall s' e, Q s' (Failure e)) ->
  paced s (bindR t f) Q.
Proof.
  intros Ht Hf HQ. apply tracks_bind. eapply tracks_mono; [exact Ht|].
  intros s' [a|e] H; [by apply Hf|by apply HQ].
Qed.

Lemma quiet_going {A} s (t : prog Journal.journalE (Result A)) : s <> Stopped -> calls_ok no_callback t -> paced s t going.
Proof. intros Hs Hc. apply quiet_paced; [done|]. by intros [a|e]. Qed.

Lemma send_initial_paced s ws es : s <> Stopped -> paced s (Journal.send_initial ws es) going.
Proof.
  revert s ws. induction es as [|entry es IH]; intros s ws Hs; cbn [Journal.send_initial]; [done|].
  split; [done|]. intros [|]; cbn; [done|]. destruct s; [|..|done]; (split; [done|]);
    intros [[]|e]; cbn; [by apply IH|done|by apply IH|done].
Qed.

Lemma follow_error_paced s status operation : paced s (Journal.follow_error status operation) (fun _ _ => True).
Proof. unfold Journal.follow_error. case_match; [|done]. split; [done|]. by intros []. Qed.

Lemma drain_paced fuel : paced Armed (Journal.drain fuel) (fun s r => r = None -> s <> Stopped).
Proof.
  induction fuel as [|fuel IH]; cbn [Journal.drain]; [by split|]. split; [done|]. intros status. steps.
  destruct (status <? 0).
  { apply tracks_bind. eapply tracks_mono; [apply follow_error_paced|done]. }
  destruct (status =? 0); [done|]. apply tracks_bind.
  apply quiet_paced; [apply no_callback_current|]. intros [entry|e]; [|done].
  split; [done|]. intros [[]|e]; steps; [|done]. split; [done|]. intros [|]; steps; [done|exact IH].
Qed.

Lemma follow_loop_paced fuel s : s <> Stopped -> paced s (Journal.follow_loop rounds fuel) (fun _ _ => True).
Proof.
  revert s. induction fuel as [|fuel IH]; intros s Hs; cbn [Journal.follow_loop]; [by split|].
  split; [done|]. intros [|]; steps; [done|].
  assert (Hd : paced Armed
    (drained <- Journal.drain rounds ;;
     match drained with
     | Some result => Ret result
     | None =>
         waited <- trigger (Journal.JournalWait Journal.waitUsec) ;;
         if waited <? 0 then Journal.follow_error waited $"wait for journal entries" else Journal.follow_loop rounds fuel
     end) (fun _ _ => True)); [|by destruct s].
  apply tracks_bind. eapply tracks_mono; [apply drain_paced|]. intros s' [r|] H; [done|].
  split; [done|]. intros waited. steps. destruct (waited <? 0); [apply follow_error_paced|by apply IH, H].
Qed.

Lemma follow_paced query : paced Spent (Journal.follow rounds true true query) (fun _ _ => True).
Proof.
  unfold Journal.follow. cbn [negb orb]. unfold Journal.with_journal.
  apply paced_bindR; [|intros s j Hs|done].
  { apply quiet_going; [done|]. unfold Journal.openLocal. repeat (split; [done|]; intros; cbn; repeat case_match; try done). }
  apply tracks_bind. apply tracks_mono with (Q := fun _ _ => True); [|intros s' r _; split; [done|]; by intros []].
  apply paced_bindR; [apply quiet_going; [done|apply no_callback_configure]| |done]. intros s1 [] H1.
  apply paced_bindR; [apply quiet_going; [done|apply no_callback_initial]| |done]. intros s2 initial H2.
  apply paced_bindR; [apply quiet_going; [done|apply no_callback_position]| |done]. intros s3 [] H3.
  apply paced_bindR; [by apply send_initial_paced| |done]. intros s4 [] H4. by apply follow_loop_paced.
Qed.

Definition no_output (X : Type) (e : cliE X) : Prop :=
  match e with
  | Io e => match e with Output _ => False | Diagnostic _ => True end
  | InterruptRequested => False
  | _ => True
  end.

(** The pace on the console. *)
Lemma log_sink_paced entry :
  tracks console_next console_ok Armed (log_sink dump o entry) (fun s r => s = Spent).
Proof.
  unfold log_sink. apply tracks_bind. destruct (o_json o).
  - unfold print_json. destruct (dump _); [|by split]. split; [done|]. by intros [].
  - unfold printJournalEntry, io. split; [done|]. intros []. cbn [console_next show].
    eapply tracks_mono; [apply (tracks_ok _ _ no_output)|by intros s r ->].
    + intros X e He. destruct e; try done. by destruct e.
    + cbn [bind]. apply calls_ok_lift. eapply calls_ok_mono; [|apply warnings_diagnosing]. by intros X [].
Qed.

Abbreviation handler := (fun X (e : Journal.journalE X) =>
  interp (callbacks (JF := follow_instance) (log_sink dump o) (trigger InterruptRequested)) (split_callbacks X e)).

Lemma handler_paced s X (e : Journal.journalE X) :
  journal_ok s X e ->
  tracks console_next console_ok s (handler X e) (fun s' x => s' = journal_next s (Ev e x)).
Proof.
  destruct e; cbn [journal_ok]; intros H; try (split; [done|]; intros x; reflexivity).
  subst s. apply tracks_bind. eapply tracks_mono; [apply log_sink_paced|]. by intros s r ->.
Qed.

Definition shows (ev : event cliE) : bool :=
  match ev with Ev e _ => match e with Io e => match e with Output _ => true | Diagnostic _ => false end | _ => false end end.
(** How often something was written to the output. *)
Definition outputs (tr : trace cliE) : nat := length (List.filter shows tr).

Lemma outputs_app tr1 tr2 : outputs (tr1 ++ tr2) = (outputs tr1 + outputs tr2)%nat.
Proof. unfold outputs. by rewrite List.filter_app, length_app. Qed.

Lemma outputs_one ev : (outputs [ev] <= 1)%nat.
Proof. unfold outputs. cbn. destruct (shows ev); cbn; lia. Qed.

(** When every question is answered yes, at most one more output follows. *)
Lemma paced_outputs s (tr : trace cliE) :
  (forall before ev after, tr = before ++ ev :: after -> ev_ok (console_ok (foldl console_next s before)) ev) ->
  Ev InterruptRequested false ∉ tr ->
  (outputs tr <= match s with Armed => 1 | _ => 0 end)%nat.
Proof.
  revert s. induction tr as [|ev tr IH]; intros s Hok Hno; [cbn; lia|].
  apply not_elem_of_cons in Hno as [Hev Hno].
  specialize (IH (console_next s ev)). assert (Hrest := IH ltac:(intros before ev' after ->; by apply (Hok (ev :: before) ev' after)) Hno).
  specialize (Hok [] ev tr eq_refl). unfold outputs in *. destruct ev as [X e x]. destruct e; cbn in *; try (exact Hrest).
  - destruct e; cbn in *; [subst s; cbn in Hrest; lia|exact Hrest].
  - destruct x; [|done]. destruct s; cbn in Hrest; lia.
Qed.

(** ** Moments of a run *)

(** Calls between the installation and the removal of the handler. *)
Definition inner (X : Type) (e : cliE X) : Prop :=
  match e with InstallInterrupt | RemoveInterrupt => False | _ => True end.

Lemma during_inner p ms p' :
  during p ms = Some p' -> Forall (ev_ok inner) (calls_of ms) ->
  sigint p' = sigint p /\ guard p' = guard p /\ (requested p = true -> requested p' = true).
Proof.
  revert p. induction ms as [|m ms IH]; intros p; cbn [during]; [by intros [= ->]|].
  destruct (at_moment m p) as [p1|] eqn:E; [|done]. cbn [mbind option_bind]. intros H Hin.
  assert (H1 : sigint p1 = sigint p /\ guard p1 = guard p /\ (requested p = true -> requested p1 = true) /\
    Forall (ev_ok inner) (calls_of ms)).
  { destruct m as [ev|].
    - apply Forall_cons in Hin as [Hev Hin]. destruct ev as [X e x]. destruct e; cbn in Hev, E; try done; simplify_eq; try done.
      case_bool_decide; by simplify_eq.
    - cbn in E. unfold interrupt in E. destruct p as [si r g]. cbn in *. destruct si; by simplify_eq/=. }
  destruct H1 as (Hs & Hg & Hr & Hin'). destruct (IH _ H Hin') as (-> & -> & Hr'). split_and!; [done..|].
  intros Hq. by apply Hr', Hr.
Qed.

(** Once SIGINT has arrived every question is answered yes. *)
Lemma during_asked p ms p' :
  during p ms = Some p' -> requested p = true -> Forall (ev_ok inner) (calls_of ms) ->
  Ev InterruptRequested false ∉ calls_of ms.
Proof.
  intros H Hr Hin Hno. apply list_elem_of_omap in Hno as (m & Hm & Hid). cbn in Hid. subst m.
  apply list_elem_of_split in Hm as (ms1 & ms2 & ->). rewrite during_app in H.
  destruct (during p ms1) as [p1|] eqn:E; [|done]. rewrite calls_of_app in Hin. apply Forall_app in Hin as [Hin _].
  destruct (during_inner _ _ _ E Hin) as (_ & _ & Hr1). specialize (Hr1 Hr).
  cbn [mbind option_bind during at_moment answer] in H. by rewrite bool_decide_eq_false_2 in H by (by rewrite Hr1).
Qed.

(** The parts of a run: the handler is installed, what follows leaves it alone, and it
is removed at the end. *)
Definition reports (report : trace cliE) (code : Z) : Prop :=
  report = [] \/ exists f, report = [Ev (Io f) tt] /\ code <> 130.

Abbreviation follow_run := (fun query tr result =>
  runs (interp (CliApp.following (log_sink dump o) (trigger InterruptRequested)) (LogService.follow query)) tr result).

Lemma follow_parts query tr code :
  runs (follow_journal dump o query) tr code ->
  (exists status rest, status <> 0 /\ tr = Ev InstallInterrupt status :: rest /\
     Forall (ev_ok inner) rest /\ Ev InterruptRequested true ∉ rest) \/
  exists following result report u,
    tr = Ev InstallInterrupt 0 :: (following ++ report) ++ [Ev RemoveInterrupt u] /\
    follow_run query following result /\ reports report code /\ (result = Journal.interrupted -> code = 130) /\
    Forall (ev_ok inner) (following ++ report).
Proof.
  intros (t1 & status & t2 & -> & ->%runs_trigger & H)%runs_bind. destruct (Z.eqb_spec status 0) as [->|Hn]; cbn [negb] in H.
  - right. apply runs_bind in H as (t3 & result & t4 & -> & H1 & H).
    apply runs_bind in H as (t5 & c & t6 & -> & H2 & (u & t7 & -> & -> & ->)).
    assert (Hreport : reports t5 c /\ (result = Journal.interrupted -> c = 130)).
    { destruct result as [|e]; [destruct H2 as [-> _]; split; [by left|done]|]. case_bool_decide as He.
      - destruct H2 as [-> ->]. split; [by left|done].
      - destruct (runs_fail _ _ _ _ _ _ _ _ H2) as (f & -> & Hc). split; [|by intros [= ->]].
        right. exists f. split; [done|]. by apply Hc. }
    destruct Hreport as [Hreport Hi]. exists t3, result, t5, u. rewrite <- app_assoc. split_and!; [done..|].
    apply Forall_app. split; [|by destruct Hreport as [->|(f & -> & _)]; repeat constructor].
    eapply calls_ok_runs; [|exact H1]. apply calls_ok_interp. intros X e. destruct e; try by split.
    apply calls_ok_interp. intros Y f. destruct f; try by split. apply calls_ok_bind; [|done].
    unfold print_json, io, printJournalEntry. destruct (o_json o); [destruct (dump _); by split|].
    apply calls_ok_lift, calls_ok_True. done.
  - left. destruct (runs_fail _ _ _ _ _ _ _ _ H) as (f & -> & _). exists status, [Ev (Io f) tt].
    split_and!; [done..|by repeat constructor|]. by intros ?%list_elem_of_singleton.
Qed.

Lemma following_paced query following result before ev after :
  runs (interp (CliApp.following (log_sink dump o) (trigger InterruptRequested)) (LogService.follow query)) following result ->
  following = before ++ ev :: after -> ev_ok (console_ok (foldl console_next Spent before)) ev.
Proof.
  intros H. destruct (LogService.normalize query) as [normalized|e] eqn:En.
  - apply (runs_follow_provider _ _ _ _ normalized) in H; [|exact En].
    eapply tracks_allowed; [|exact H]. eapply tracks_interp; [intros s X e; apply handler_paced|apply follow_paced].
  - unfold LogService.follow in H. rewrite En in H. destruct H as [-> _]. intros E. by destruct before.
Qed.

Lemma following_asked query following result :
  follow_run query following result -> Ev InterruptRequested true ∈ following -> result = Journal.interrupted.
Proof.
  intros H Hin. destruct (LogService.normalize query) as [normalized|e] eqn:En.
  - apply (runs_follow_provider _ _ _ _ normalized) in H; [|exact En]. apply runs_interp in H as (jtr & Hr & Hre).
    destruct (followed _ _ _ _ _ Hre) as (_ & _ & Hev). apply interrupt_noticed, Hev, list_elem_of_split in Hin as (l1 & l2 & ->).
    by eapply stops_follow.
  - unfold LogService.follow in H. rewrite En in H. destruct H as [-> _]. by apply elem_of_nil in Hin.
Qed.

(** Moments of a part of the calls. *)
Lemma calls_of_cons ms ev tr :
  calls_of ms = ev :: tr ->
  exists ms0 ms1, ms = ms0 ++ Some ev :: ms1 /\ calls_of ms0 = [] /\ calls_of ms1 = tr.
Proof.
  induction ms as [|[ev'|] ms IH]; cbn; [done| |].
  - intros [= -> <-]. by exists [], ms.
  - intros (ms0 & ms1 & -> & H0 & H1)%IH. by exists (None :: ms0), ms1.
Qed.
Lemma calls_of_split ms tr1 tr2 :
  calls_of ms = tr1 ++ tr2 -> exists ms1 ms2, ms = ms1 ++ ms2 /\ calls_of ms1 = tr1 /\ calls_of ms2 = tr2.
Proof.
  revert ms. induction tr1 as [|ev tr1 IH]; intros ms H; [by exists [], ms|].
  apply calls_of_cons in H as (ms0 & ms1 & -> & H0 & (ms2 & ms3 & -> & H2 & H3)%IH).
  exists (ms0 ++ Some ev :: ms2), ms3. rewrite <- app_assoc. split_and!; [done| |done].
  rewrite calls_of_app, H0. cbn. by rewrite <- H2.
Qed.

Lemma during_none p ms p' : during p ms = Some p' -> calls_of ms = [] -> sigint p' = sigint p /\ guard p' = guard p.
Proof. intros H E. destruct (during_inner _ _ _ H) as (? & ? & _); [by rewrite E|done]. Qed.

(** From the installation on. *)
Lemma during_installed p ms status tr p' :
  during p ms = Some p' -> calls_of ms = Ev InstallInterrupt status :: tr -> Forall (ev_ok inner) tr ->
  if status =? 0 then sigint p' = Guarded /\ guard p' = mkGuard (sigint p) true
  else sigint p' = sigint p /\ guard p' = guard p.
Proof.
  intros H (ms0 & ms1 & -> & H0 & H1)%calls_of_cons Hin. rewrite during_app in H.
  destruct (during p ms0) as [p0|] eqn:E0; [|done]. apply during_none in E0 as [Es Eg]; [|exact H0].
  cbn [mbind option_bind during at_moment answer] in H. apply during_inner in H as (-> & -> & _); [|by rewrite H1].
  unfold install. destruct (status =? 0); cbn; by rewrite ?Es, ?Eg.
Qed.

(** The handler is gone at the end, whichever way it is reached. *)
Lemma follow_restores p query ms code p' :
  installed_ (guard p) = false -> runs (follow_journal dump o query) (calls_of ms) code -> during p ms = Some p' ->
  sigint p' = sigint p /\ installed_ (guard p') = false.
Proof.
  intros Hp [(status & rest & Hs & E & Hin & _)|(following & result & report & u & E & _ & _ & _ & Hin)]%follow_parts H.
  - pose proof (during_installed _ _ _ _ _ H E Hin) as Hd. rewrite (proj2 (Z.eqb_neq _ _) Hs) in Hd.
    destruct Hd as [-> ->]. done.
  - apply (calls_of_split _ (_ :: _)) in E as (ms1 & ms2 & -> & E1 & (ms3 & ms4 & -> & E3 & E4)%calls_of_cons).
    rewrite during_app in H. destruct (during p ms1) as [p1|] eqn:H1; [|done].
    pose proof (during_installed _ _ _ _ _ H1 E1 Hin) as [Hs1 Hg1].
    cbn [mbind option_bind] in H. rewrite during_app in H. destruct (during p1 ms3) as [p3|] eqn:H3; [|done].
    apply during_none in H3 as [Hs3 Hg3]; [|done]. cbn [mbind option_bind during at_moment answer] in H.
    apply during_none in H as [-> ->]; [|done]. unfold restore. rewrite Hg3, Hg1. done.
Qed.

(** The calls before a moment between installation and removal, and those after. *)
Lemma follow_split query before after code :
  runs (follow_journal dump o query) (calls_of before ++ calls_of after) code ->
  Ev InstallInterrupt 0 ∈ calls_of before -> (forall u, Ev RemoveInterrupt u ∉ calls_of before) ->
  exists following result report u done_ left_,
    calls_of before = Ev InstallInterrupt 0 :: done_ /\ calls_of after = left_ ++ [Ev RemoveInterrupt u] /\
    done_ ++ left_ = following ++ report /\ Forall (ev_ok inner) done_ /\ Forall (ev_ok inner) left_ /\
    follow_run query following result /\ reports report code.
Proof.
  intros [(status & rest & Hs & E & Hin & _)|(following & result & report & u & E & Hf & Hr & _ & Hin)]%follow_parts Hi Hno.
  - exfalso. assert (Hi' : Ev InstallInterrupt 0 ∈ Ev InstallInterrupt status :: rest)
      by (rewrite <- E; apply elem_of_app; by left).
    apply elem_of_cons in Hi' as [Hi'|Hi'].
    + apply (f_equal (fun ev : event cliE => match ev with Ev e x =>
        match e in cliE X return X -> Z with InstallInterrupt => fun n => n | _ => fun _ => 0 end x end)) in Hi'.
      cbn in Hi'. done.
    + rewrite Forall_forall in Hin. exact (Hin _ Hi').
  - destruct (calls_of before) as [|ev done_]; [by apply elem_of_nil in Hi|]. cbn [app] in E. injection E as -> E.
    apply app_eq_inv in E as [(k & E & Ek)|(k & E & Ek)].
    + destruct k as [|ev k].
      * exists following, result, report, u, done_, []. cbn in Ek. rewrite app_nil_r in *. subst done_.
        by split_and!; [..|constructor| |].
      * exfalso. cbn in Ek. injection Ek as <- _. apply (Hno u). rewrite E. clear. set_solver.
    + exists following, result, report, u, done_, k. rewrite E in Hin. apply Forall_app in Hin as [Hin1 Hin2].
      by split_and!.
Qed.

Lemma reports_outputs report code :
  reports report code -> (outputs report <= if (code =? 130)%Z then 0 else 1)%nat.
Proof.
  intros [->|(f & -> & Hc)]; [destruct (code =? 130); cbn; lia|].
  rewrite (proj2 (Z.eqb_neq _ _) Hc). apply outputs_one.
Qed.

(** What is still written when SIGINT has arrived. *)
Lemma few_outputs query following result report code done_ left_ :
  follow_run query following result -> reports report code -> done_ ++ left_ = following ++ report ->
  Ev InterruptRequested false ∉ left_ -> (outputs left_ <= if (code =? 130)%Z then 1 else 2)%nat.
Proof.
  intros Hf Hr E Hno. pose proof (reports_outputs _ _ Hr) as Ho.
  apply app_eq_inv in E as [(k & -> & ->)|(k & -> & ->)].
  - rewrite outputs_app in Ho. destruct (code =? 130); lia.
  - rewrite outputs_app. assert (outputs k <= 1)%nat; [|destruct (code =? 130); lia].
    etransitivity; [apply (paced_outputs (foldl console_next Spent done_))|destruct (foldl console_next Spent done_); lia].
    + intros before ev after ->. rewrite <- foldl_app.
      eapply (following_paced query (done_ ++ before ++ ev :: after)); [exact Hf|by rewrite app_assoc].
    + intros Hin. apply Hno, elem_of_app. by left.
Qed.

(** C10. Ctrl-C ends [log --follow], and nothing else.  Whatever the system answers and
whenever SIGINT arrives: the disposition of SIGINT is the one from before when the
command returns, on every path; between the installation of the handler and its
removal SIGINT does not end the process; once it has arrived there every question
whether to stop is answered yes, at most one more entry is written (and the report of
an error, if there was one); and an answer yes makes the exit code 130. *)
Theorem interrupt_ends_following p query ms code p' :
  installed_ (guard p) = false -> runs (follow_journal dump o query) (calls_of ms) code -> during p ms = Some p' ->
  sigint p' = sigint p /\ installed_ (guard p') = false /\
  (Ev InterruptRequested true ∈ calls_of ms -> code = 130) /\
  forall before rest, ms = before ++ rest ->
    Ev InstallInterrupt 0 ∈ calls_of before -> (forall u, Ev RemoveInterrupt u ∉ calls_of before) ->
    (exists p1, during p before = Some p1 /\ interrupt p1 <> None) /\
    forall after, rest = None :: after ->
      Ev InterruptRequested false ∉ calls_of after /\
      (outputs (calls_of after) <= if (code =? 130)%Z then 1 else 2)%nat.
Proof.
  intros Hp Hr Hd. destruct (follow_restores _ _ _ _ _ Hp Hr Hd) as [Hs Hg]. split_and!; [done|done| |].
  - intros Hin. apply follow_parts in Hr as [(status & rest & _ & E & _ & Hno)|(following & result & report & u & E & Hf & Hrep & Hi & _)];
      rewrite E in Hin; apply elem_of_cons in Hin as [Hin|Hin]; try done.
    apply elem_of_app in Hin as [Hin|Hin]; [|by apply list_elem_of_singleton in Hin].
    apply elem_of_app in Hin as [Hin|Hin]; [by eapply Hi, following_asked|].
    destruct Hrep as [->|(f & -> & _)]; [by apply elem_of_nil in Hin|by apply list_elem_of_singleton in Hin].
  - intros before rest -> Hi Hno. rewrite during_app in Hd. destruct (during p before) as [p1|] eqn:H1; [|done].
    rewrite calls_of_app in Hr.
    destruct (follow_split _ _ _ _ Hr Hi Hno) as (following & result & report & u & done_ & left_ & Eb & Er & E & Hin1 & Hin2 & Hf & Hrep).
    destruct (during_installed _ _ _ _ _ H1 Eb Hin1) as [Hs1 Hg1]. split.
    { exists p1. split; [done|]. unfold interrupt. by rewrite Hs1. }
    intros after ->. cbn [mbind option_bind during at_moment] in Hd. unfold interrupt in Hd. rewrite Hs1 in Hd.
    cbn [mbind option_bind] in Hd. change (calls_of (None :: after)) with (calls_of after) in Er.
    apply calls_of_split in Er as (ms1 & ms2 & -> & E1 & E2). rewrite during_app in Hd.
    destruct (during _ ms1) as [p2|] eqn:H2 in Hd; [|done].
    apply during_asked in H2; [|done|by rewrite E1]. rewrite calls_of_app, E1, E2. rewrite E1 in H2. split.
    + intros [Hin|Hin]%elem_of_app; [done|by apply list_elem_of_singleton in Hin].
    + rewrite outputs_app. pose proof (few_outputs _ _ _ _ _ _ _ Hf Hrep E H2) as Ho. cbn. lia.
Qed.
End Guard.

(** ** An example: SIGINT while the second entry is read *)

Definition shell : process := mkProcess Default false (mkGuard Default false).
Definition moments {E} (n : nat) (tr : trace E) : list (option (event E)) :=
  map Some (take n tr) ++ None :: map Some (drop n tr).

Lemma interrupt_ends_following_witness :
  exists tr p',
    runs web_follow tr 130 /\ during 10 shell (moments 27 tr) = Some p' /\ sigint p' = Default /\
    (exists p1, during 10 shell (map Some (take 27 tr)) = Some p1 /\ interrupt p1 <> None) /\
    (outputs 10 (drop 27 tr) <= 1)%nat.
Proof.
  assert (Hall : (fun r => (r.1.1, during 10 shell (moments 27 r.1.2),
      match r.1.2 with Ev e x :: _ => match e in cliE X return X -> Z with InstallInterrupt => fun s => s | _ => fun _ => 1 end x | [] => 1 end,
      forallb (fun ev => match ev with Ev e _ => match e with RemoveInterrupt => false | _ => true end end) (take 27 r.1.2))) <$>
    exec (follow_sim plain_messages 10) web_follow journal_machine_1 =
    Some (130, Some (mkProcess Default true (mkGuard Default false)), 0, true)) by (vm_compute; reflexivity).
  destruct (exec (follow_sim plain_messages 10) web_follow journal_machine_1) as [[[code tr] m]|] eqn:E; [|discriminate].
  apply exec_runs in E as Hr. clear E. cbn [fmap option_fmap option_map fst snd] in Hall.
  injection Hall as -> Hd Hfirst Hnone.
  assert (Hcalls : calls_of 10 (moments 27 tr) = tr).
  { unfold moments. rewrite calls_of_app, calls_of_some.
    change (calls_of 10 (None :: map Some (drop 27 tr))) with (calls_of 10 (map Some (drop 27 tr))).
    rewrite calls_of_some. apply take_drop. }
  destruct (interrupt_ends_following (formats := plain_formats) (messages := plain_messages) 10 (fun _ => None) no_options
    shell web_query (moments 27 tr) 130 _ eq_refl ltac:(rewrite Hcalls; exact Hr) Hd) as (Hs & _ & _ & Hk).
  destruct (Hk (map Some (take 27 tr)) (None :: map Some (drop 27 tr)) eq_refl) as [Hp Hafter].
  - rewrite calls_of_some. destruct tr as [|[X e x] tr]; [discriminate|]. destruct e; try discriminate.
    subst x. cbn. apply elem_of_cons. by left.
  - intros u. rewrite calls_of_some. intros Hin. apply list_elem_of_In in Hin.
    apply (proj1 (forallb_forall _ _) Hnone) in Hin. discriminate.
  - destruct (Hafter _ eq_refl) as [_ Hout]. rewrite calls_of_some in Hout.
    exists tr. eexists. split; [exact Hr|]. split; [exact Hd|]. split; [exact Hs|]. split; [exact Hp|exact Hout].
Defined.
