(* ===== verification/Tui.v ===== *)
(** * [tui::FtxuiTuiRunner] ([src/tui/FtxuiTuiRunner.cpp])

The terminal interface without its drawing (that is [TuiScreen]): the texts it shows, the background
worker that runs one task at a time, and the handler of keyboard events, a state
machine over the local variables of [run].  The event loop, the layout and the
search input are the FTXUI library's: an event the handler leaves to the library may
edit the search text, a parameter.  [None] stands for an access out of range. *)

From S2P Require Import Prelude CppStd CppString Prog Domain Contracts Float.
From S2P Require Import CliText.
From S2P Require ServiceService ProcessService PortService LogService FindService InspectService Sim.
From Stdlib Require Import Ascii.

(** ** Texts *)

Definition clipped (value : str) (width : nat) : str :=
  if (length value <=? width)%nat then value
  else if (3 <? width)%nat then substr value 0 (width - 3) ++ $"..." else substr value 0 width.

(** The rows of the panel: the selected one is drawn inverted. *)
Inductive row := Text (text : str) | Inverted (text : str) | Separator | Dim (text : str).

Section Panel.
Context {formats : Formats}.

Definition service_row (service : ServiceInfo) : str :=
  $" " ++ text_left 40 (clipped (svc_unitName service) 40) ++ $" " ++
  text_left 12 (clipped (svc_activeState service) 12) ++ $" " ++
  text_left 15 (clipped (svc_subState service) 15) ++ $" " ++
  match svc_mainPid service with Some pid => to_string pid | None => $"-" end.
Definition port_row (port : PortInfo) : str :=
  let socket := port_socket port in
  let pid := match si_ownerPids socket with [] => $"-" | pid :: _ => to_string pid end in
  let owner := match port_owners port with [] => $"-" | owner :: _ => pi_name owner end in
  $" " ++ text_left 6 (match si_protocol socket with Tcp => $"TCP" | Udp => $"UDP" end) ++ $" " ++
  text_left 40 (clipped (ep_address (si_local socket)) 40) ++ $" " ++
  number_left 6 (ep_port (si_local socket)) ++ $" " ++ text_left 9 pid ++ $" " ++ clipped owner 24.
Definition process_row (process : ProcessInfo) : str :=
  $" " ++ number_left 8 (pi_pid process) ++ $" " ++
  text_right 6 (match pi_cpuPercent process with Some v => fixed1 v | None => $"-" end) ++ $" " ++
  number_right 9 (fixed1 (mebibytes (pi_rssBytes process))) ++ $" " ++
  text_left 16 (clipped (pi_user process) 16) ++ $" " ++ text_left 24 (clipped (pi_name process) 24) ++ $" " ++
  default $"-" (pi_systemdUnit process).

Definition panel_values (snapshot : DashboardSnapshot) (tab : nat) : str * list str :=
  match tab with
  | 0%nat => ($" SERVICE                                  ACTIVE       SUB             PID",
              map service_row (ds_services snapshot))
  | 1%nat => ($" PROTO  ADDRESS                                  PORT   PID       PROCESS",
              map port_row (ds_ports snapshot))
  | _ => ($" PID      CPU %   RSS MiB   USER             NAME                     SERVICE",
          map process_row (ds_processes snapshot))
  end.

(** The rows from [begin] on, up to [count] of them. *)
Fixpoint panel_rows (values : list str) (index selected : Z) (count : nat) : list row :=
  match count, values with
  | S count', value :: rest =>
      (if index =? selected then Inverted value else Text value) :: panel_rows rest (index + 1) selected count'
  | _, _ => []
  end.

Definition resourcePanel (snapshot : DashboardSnapshot) (tab : nat) (selected : Z) : list row :=
  let '(header, values) := panel_values snapshot tab in
  let begin := Z.max 0 (selected - 10) in
  [Text header; Separator] ++ panel_rows (drop (Z.to_nat begin) values) begin selected 22 ++
  match values with [] => [Dim $" No resources available"] | _ => [] end.
End Panel.

Definition size {A} (l : list A) : Z := Z.of_nat (length l).
Definition itemCount (snapshot : DashboardSnapshot) (tab : nat) : Z :=
  match tab with
  | 0%nat => size (ds_services snapshot)
  | 1%nat => size (ds_ports snapshot)
  | _ => size (ds_processes snapshot)
  end.

(** [v[static_cast<std::size_t>(i)]] *)
Definition at_index {A} (l : list A) (i : Z) : option A := if i <? 0 then None else l !! Z.to_nat i.

(** The empty text: nothing is selected. *)
Definition selectedResource (snapshot : DashboardSnapshot) (tab : nat) (selected : Z) : option str :=
  if (selected <? 0) || (itemCount snapshot tab <=? selected) then Some []
  else
    match tab with
    | 0%nat => (fun service => $"service:" ++ svc_unitName service) <$> at_index (ds_services snapshot) selected
    | 1%nat => (fun port => $"port:" ++ to_string (ep_port (si_local (port_socket port)))) <$>
                 at_index (ds_ports snapshot) selected
    | _ => (fun process => $"pid:" ++ to_string (pi_pid process)) <$> at_index (ds_processes snapshot) selected
    end.

(** The lines [std::getline] reads from a text. *)
Fixpoint lines_from (line value : str) : list str :=
  match value with
  | [] => match line with [] => [] | _ => [line] end
  | c :: rest => if is_char nl c then line :: lines_from [] rest else lines_from (line ++ [c]) rest
  end.
Definition lines (value : str) : list str := lines_from [] value.

Definition each_line {A} (f : A -> str) (l : list A) : str := concat (map (fun a => nl :: f a) l).

Definition inspectText (result : Result ResourceGraph) : str :=
  match result with
  | Failure error => $"Inspect failed: " ++ err_message error
  | Success graph =>
      $"Inspect result" ++ [nl] ++ $"Processes: " ++ to_string (size (rg_processes graph)) ++ [nl] ++
      $"Ports: " ++ to_string (size (rg_ports graph)) ++ [nl] ++
      $"Services: " ++ to_string (size (rg_services graph)) ++ [nl] ++
      $"Recent logs: " ++ to_string (size (rg_recentLogs graph)) ++
      each_line (fun p => $"PID " ++ to_string (pi_pid p) ++ $"  " ++ pi_name p) (rg_processes graph) ++
      each_line (fun s => svc_unitName s ++ $"  " ++ svc_activeState s) (rg_services graph)
  end.

Definition findText (result : Result FindResult) : str :=
  match result with
  | Failure error => $"Find failed: " ++ err_message error
  | Success found =>
      $"Find results" ++ [nl] ++ $"Services: " ++ to_string (size (fr_services found)) ++
      $"  Processes: " ++ to_string (size (fr_processes found)) ++ $"  Ports: " ++ to_string (size (fr_ports found)) ++
      each_line (fun s => $"service  " ++ svc_unitName s) (fr_services found) ++
      each_line (fun p => $"process  " ++ to_string (pi_pid p) ++ $" " ++ pi_name p) (fr_processes found) ++
      each_line (fun p => $"port     " ++ to_string (ep_port (si_local (port_socket p)))) (fr_ports found) ++
      each_line (fun e => $"exe      " ++ e) (fr_executables found)
  end.

(** ** Background tasks *)

(** [PendingAction] without [None], which is the absent action. *)
Inductive PendingAction := StopService | RestartService | TerminateProcess | KillProcess.
#[export] Instance PendingAction_eq_dec : EqDecision PendingAction.
Proof. solve_decision. Defined.

(** The closures the handler submits. *)
Inductive Task :=
| FindTask (query : str)
| ActionTask (action : PendingAction) (unit : str) (pid : Z)
| InspectTask (resource : str)
| LogsTask (query : LogQuery)
| NoteTask.

Section Tasks.
Context {HO : HashOrder} (S : PortService.PortService) (P : ProcessService.ProcessService).

Definition service_text (unit : str) (result : Result Datatypes.unit) : str :=
  match result with
  | Success _ => $"Service action submitted for " ++ unit
  | Failure error => $"Service action failed: " ++ err_message error
  end.
Definition signal_text (pid : Z) (result : Result SignalDelivery) : str :=
  match result with
  | Success _ => $"Signal sent to PID " ++ to_string pid
  | Failure error => $"Signal failed: " ++ err_message error
  end.

Definition run_task (task : Task) : prog provE str :=
  match task with
  | FindTask query => result <- FindService.find S query ;; Ret (findText result)
  | ActionTask StopService unit _ => result <- ServiceService.stop unit ;; Ret (service_text unit result)
  | ActionTask RestartService unit _ => result <- ServiceService.restart unit ;; Ret (service_text unit result)
  | ActionTask TerminateProcess _ pid => result <- ProcessService.stop P pid ;; Ret (signal_text pid result)
  | ActionTask KillProcess _ pid => result <- ProcessService.kill P pid ;; Ret (signal_text pid result)
  | InspectTask resource => result <- InspectService.inspect S resource ;; Ret (inspectText result)
  | LogsTask query =>
      result <- LogService.read query ;;
      Ret match result with
          | Failure error => $"Logs failed: " ++ err_message error
          | Success logs =>
              $"Recent logs (" ++ to_string (size (obs_value logs)) ++ $")" ++ each_line je_message (obs_value logs)
          end
  | NoteTask => Ret $"Select a service or process to view logs"
  end.
End Tasks.

(** [TaskWorker]: what its mutex protects, and its critical sections. *)
Record TaskWorker := mkTaskWorker {
  pending_ : option Task; result_ : str; busy_ : bool; stopping_ : bool }.

Definition new_worker : TaskWorker := mkTaskWorker None [] false false.
Definition submit (task : Task) (w : TaskWorker) : bool * TaskWorker :=
  if bool_decide (is_Some (pending_ w)) || busy_ w then (false, w)
  else (true, mkTaskWorker (Some task) $"Loading..." (busy_ w) (stopping_ w)).
Definition clear (w : TaskWorker) : TaskWorker := mkTaskWorker (pending_ w) [] (busy_ w) (stopping_ w).
Definition stop_worker (w : TaskWorker) : TaskWorker := mkTaskWorker (pending_ w) (result_ w) (busy_ w) true.
(** The worker thread: [None] while it waits; no task once it leaves its loop. *)
Definition wake (w : TaskWorker) : option (option Task * TaskWorker) :=
  if stopping_ w then Some (None, w)
  else match pending_ w with
       | Some task => Some (Some task, mkTaskWorker None (result_ w) true false)
       | None => None
       end.
Definition publish (value : str) (w : TaskWorker) : TaskWorker :=
  mkTaskWorker (pending_ w) value false (stopping_ w).

(** ** The event handler *)

Inductive Event :=
| Character (c : str) | Return | Escape | F1 | TabKey | ArrowLeft | ArrowRight | ArrowUp | ArrowDown
| OtherEvent (name : str).
#[export] Instance Event_eq_dec : EqDecision Event.
Proof. solve_decision. Defined.
Definition is_character (e : Event) : bool := match e with Character _ => true | _ => false end.
Abbreviation is_key e key := (bool_decide (e = key)).

(** The local variables of [run] the handler changes. *)
Record Ui := mkUi {
  tab : nat; selected : list Z; searching : bool; help : bool;
  pendingAction : option PendingAction; confirmationStep : Z; actionTarget : str; actionPid : Z;
  searchQuery : str;
}.
Definition initial : Ui := mkUi 0 [0; 0; 0] false false None 0 [] (-1) [].

Definition set_tab (n : nat) (u : Ui) : Ui :=
  mkUi n (selected u) (searching u) (help u) (pendingAction u) (confirmationStep u) (actionTarget u) (actionPid u) (searchQuery u).
Definition set_selected (s : list Z) (u : Ui) : Ui :=
  mkUi (tab u) s (searching u) (help u) (pendingAction u) (confirmationStep u) (actionTarget u) (actionPid u) (searchQuery u).
Definition set_view (is_searching shows_help : bool) (u : Ui) : Ui :=
  mkUi (tab u) (selected u) is_searching shows_help (pendingAction u) (confirmationStep u) (actionTarget u) (actionPid u) (searchQuery u).
Definition set_action (action : option PendingAction) (step : Z) (target : str) (pid : Z) (u : Ui) : Ui :=
  mkUi (tab u) (selected u) (searching u) (help u) action step target pid (searchQuery u).
Definition set_query (q : str) (u : Ui) : Ui :=
  mkUi (tab u) (selected u) (searching u) (help u) (pendingAction u) (confirmationStep u) (actionTarget u) (actionPid u) q.

(** What the handler returns, with the variables and the worker after it; whether it
asked the loop to exit. *)
Record Reply := mkReply { handled : bool; r_ui : Ui; r_tasks : TaskWorker; r_exit : bool }.
Definition done (u : Ui) (w : TaskWorker) : option Reply := Some (mkReply true u w false).

Definition cancel (u : Ui) : Ui := set_action None 0 (actionTarget u) (actionPid u) u.
Definition submitted (task : Task) (u : Ui) (w : TaskWorker) : option Reply := done u (submit task w).2.

Definition log_query (unit : option str) (pid : option Z) : LogQuery := mkLogQuery unit pid None 20 false.

(** [fmt::format("PID {} ({})", process.pid, process.name)] *)
Definition process_target (process : ProcessInfo) : str :=
  $"PID " ++ to_string (pi_pid process) ++ $" (" ++ pi_name process ++ $")".

(** The keys that need a snapshot; [None]: not one of them. *)
Definition on_snapshot (s : DashboardSnapshot) (event : Event) (u : Ui) (w : TaskWorker) (i : Z) :
    option (option Reply) :=
  if negb (searching u) && (tab u =? 0)%nat &&
     (is_key event (Character $"s") || is_key event (Character $"r")) && (i <? itemCount s (tab u)) then
    Some (service ← at_index (ds_services s) i;
          done (set_action (Some (if is_key event (Character $"s") then StopService else RestartService)) 1
                  (svc_unitName service) (actionPid u) u) (clear w))
  else if negb (searching u) && (tab u =? 2)%nat &&
     (is_key event (Character $"k") || is_key event (Character $"K")) && (i <? itemCount s (tab u)) then
    Some (process ← at_index (ds_processes s) i;
          done (set_action (Some (if is_key event (Character $"k") then TerminateProcess else KillProcess)) 1
                  (process_target process) (pi_pid process) u) (clear w))
  else if negb (searching u) && is_key event Return then
    Some (resource ← selectedResource s (tab u) i;
          if bool_decide (resource = []) then done u w else submitted (InspectTask resource) u w)
  else if negb (searching u) && is_key event (Character $"l") then
    Some (if (tab u =? 0)%nat && (i <? itemCount s (tab u)) then
            service ← at_index (ds_services s) i;
            submitted (LogsTask (log_query (Some (svc_unitName service)) None)) u w
          else if (tab u =? 2)%nat && (i <? itemCount s (tab u)) then
            process ← at_index (ds_processes s) i;
            submitted (LogsTask (log_query None (Some (pi_pid process)))) u w
          else submitted NoteTask u w)
  else if is_key event ArrowUp then
    Some (done (set_selected (<[tab u := Z.max 0 (i - 1)]> (selected u)) u) w)
  else if is_key event ArrowDown then
    Some (done (set_selected (<[tab u := Z.min (Z.max 0 (itemCount s (tab u) - 1)) (i + 1)]> (selected u)) u) w)
  else None.

Definition handle (snapshot : option DashboardSnapshot) (event : Event) (u : Ui) (w : TaskWorker) : option Reply :=
  if searching u && is_key event Return then
    done (set_view false (help u) u)
      (if bool_decide (searchQuery u = []) then w else (submit (FindTask (searchQuery u)) w).2)
  else
    match pendingAction u with
    | Some action =>
        if is_key event (Character $"n") || is_key event Escape then done (cancel u) w
        else if is_key event (Character $"y") then
          if bool_decide (action = KillProcess) && (confirmationStep u =? 1) then
            done (set_action (Some action) 2 (actionTarget u) (actionPid u) u) w
          else submitted (ActionTask action (actionTarget u) (actionPid u)) (cancel u) w
        else done u w
    | None =>
        if is_key event Escape && (searching u || help u || negb (bool_decide (result_ w = []))) then
          done (set_view false false u) (clear w)
        else if negb (searching u) && (is_key event (Character $"q") || is_key event Escape) then
          Some (mkReply true u w true)
        else if negb (searching u) && is_key event F1 then done (set_view (searching u) (negb (help u)) u) (clear w)
        else if negb (searching u) && is_key event (Character $"/") then
          done (set_query [] (set_view true false u)) w
        else if is_key event TabKey then done (set_tab ((tab u + 1) mod 3) u) w
        else if is_key event ArrowLeft then done (set_tab ((tab u + 2) mod 3) u) w
        else if is_key event ArrowRight then done (set_tab ((tab u + 1) mod 3) u) w
        else
          let rest := Some (mkReply (negb (searching u) && is_character event) u w false) in
          match snapshot with
          | None => rest
          | Some s =>
              i ← selected u !! tab u;
              match on_snapshot s event u w i with Some reply => reply | None => rest end
          end
    end.

(** ** Reachable states

A key, with the snapshot of that moment.  The library may edit the search text on an
event the handler leaves to it; the worker may do anything in between. *)
Abbreviation key := (option DashboardSnapshot * Event)%type.

Section Reach.
(** The text input of the library. *)
Variable edit : Event -> str -> str.

Definition after_input (event : Event) (r : Reply) : Ui :=
  if handled r then r_ui r else set_query (edit event (searchQuery (r_ui r))) (r_ui r).

Inductive reach : list key -> Ui -> Prop :=
| reach_start : reach [] initial
| reach_key ks u snapshot event w r :
  reach ks u -> handle snapshot event u w = Some r ->
  reach (ks ++ [(snapshot, event)]) (after_input event r).

(** Keys that leave a pending action as it is. *)
Definition ignored (k : key) : bool :=
  negb (bool_decide (k.2 = Character $"n") || bool_decide (k.2 = Escape) || bool_decide (k.2 = Character $"y")).

Definition action_key (action : PendingAction) : Event :=
  match action with
  | StopService => Character $"s" | RestartService => Character $"r"
  | TerminateProcess => Character $"k" | KillProcess => Character $"K"
  end.

(** What an action is about: the resource selected in [s] when its key was pressed. *)
Definition about (action : PendingAction) (s : DashboardSnapshot) (i : Z) (target : str) (pid : Z) : Prop :=
  match action with
  | StopService | RestartService =>
      exists service, at_index (ds_services s) i = Some service /\ svc_unitName service = target
  | TerminateProcess | KillProcess =>
      exists process, at_index (ds_processes s) i = Some process /\ pi_pid process = pid /\
        target = process_target process
  end.
Definition action_tab (action : PendingAction) : nat :=
  match action with StopService | RestartService => 0 | TerminateProcess | KillProcess => 2 end.

(** The keys that chose the action, and those confirmations of it that came before. *)
Definition chosen (action : PendingAction) (target : str) (pid : Z) (ks : list key) (later : list key) : Prop :=
  exists before s u i,
    ks = before ++ (Some s, action_key action) :: later /\
    reach before u /\ tab u = action_tab action /\ selected u !! tab u = Some i /\ about action s i target pid.

Definition armed (u : Ui) (action : PendingAction) (ks : list key) : Prop :=
  exists later, chosen action (actionTarget u) (actionPid u) ks later /\
    (confirmationStep u = 1 /\ forallb ignored later = true \/
     confirmationStep u = 2 /\ action = KillProcess /\
     exists k1 snapshot k2, later = k1 ++ (snapshot, Character $"y") :: k2 /\
       forallb ignored k1 = true /\ forallb ignored k2 = true).

Definition wf_ui (u : Ui) : Prop :=
  (tab u < 3)%nat /\ length (selected u) = 3%nat /\ Forall (fun i => 0 <= i) (selected u).

Definition invariant (ks : list key) (u : Ui) : Prop :=
  wf_ui u /\
  match pendingAction u with
  | Some action => searching u = false /\ armed u action ks
  | None => True
  end.

Lemma at_index_range {A} (l : list A) i : 0 <= i < size l -> is_Some (at_index l i).
Proof.
  intros H. unfold at_index, size in *. destruct (Z.ltb_spec i 0); [lia|]. apply lookup_lt_is_Some. lia.
Qed.

Lemma selectedResource_defined s n i : is_Some (selectedResource s n i).
Proof.
  unfold selectedResource. destruct (_ || _) eqn:E; [done|]. bool_facts.
  destruct n as [|[|n]]; apply fmap_is_Some, at_index_range; cbn in *; lia.
Qed.

Lemma wf_selected u : wf_ui u -> exists i, selected u !! tab u = Some i /\ 0 <= i.
Proof.
  intros (Ht & Hl & Hp). destruct (lookup_lt_is_Some_2 (selected u) (tab u)) as [i Hi]; [lia|].
  exists i. split; [done|]. by eapply Forall_lookup_1.
Qed.

Lemma wf_initial : wf_ui initial.
Proof. split_and!; cbn; [lia|done|repeat constructor; lia]. Qed.
Lemma wf_move u i : wf_ui u -> 0 <= i -> wf_ui (set_selected (<[tab u := i]> (selected u)) u).
Proof.
  intros (Ht & Hl & Hp) Hi. split_and!; cbn; [done|by rewrite length_insert|]. by apply Forall_insert.
Qed.
Lemma wf_tab u n : wf_ui u -> wf_ui (set_tab (n mod 3) u).
Proof.
  intros (Ht & Hl & Hp). split_and!; cbn [tab selected set_tab]; [|done..]. by apply Nat.mod_upper_bound.
Qed.
Lemma wf_input event r : wf_ui (r_ui r) -> wf_ui (after_input event r).
Proof. unfold after_input. by destruct (handled r). Qed.

Lemma input_action event r ks :
  invariant ks (r_ui r) -> invariant ks (after_input event r).
Proof. unfold after_input. by destruct (handled r). Qed.

Lemma invariant_none ks u : wf_ui u -> pendingAction u = None -> invariant ks u.
Proof. intros Hw Hp. split; [done|]. by rewrite Hp. Qed.

(** Choosing an action arms it. *)
Lemma invariant_chosen ks u s action target pid i :
  reach ks u -> wf_ui u -> searching u = false -> tab u = action_tab action ->
  selected u !! tab u = Some i -> about action s i target pid ->
  invariant (ks ++ [(Some s, action_key action)]) (set_action (Some action) 1 target pid u).
Proof.
  intros Hr Hw Hs Ht Hi Ha. split; [exact Hw|]. split; [exact Hs|].
  exists []. split; [by exists ks, s, u, i|]. by left.
Qed.

Lemma key_guard u n a b s i :
  negb (searching u) && (tab u =? n)%nat && (a || b) && (i <? itemCount s (tab u)) = true ->
  searching u = false /\ tab u = n /\ a || b = true /\ i < itemCount s n.
Proof.
  intros H. apply andb_true_iff in H as [H Hi]. apply andb_true_iff in H as [H Hab].
  apply andb_true_iff in H as [H Hn]. apply Nat.eqb_eq in Hn as <-.
  split_and!; [by apply negb_true_iff|done|done|by apply Z.ltb_lt].
Qed.

(** The keys that need a snapshot. *)
Lemma on_snapshot_invariant ks u s event w i reply :
  reach ks u -> wf_ui u -> pendingAction u = None -> selected u !! tab u = Some i -> 0 <= i ->
  on_snapshot s event u w i = Some reply ->
  exists r, reply = Some r /\ invariant (ks ++ [(Some s, event)]) (r_ui r) /\
    forall action unit pid, pending_ (r_tasks r) = Some (ActionTask action unit pid) -> r_tasks r = w \/ r_tasks r = clear w.
Proof.
  intros Hr Hw Hn Hi Hi0. unfold on_snapshot.
  destruct (negb (searching u) && (tab u =? 0)%nat && _ && _) eqn:E1.
  { apply key_guard in E1 as (Hs & Ht & Hk & Hc). intros [= <-].
    destruct (at_index_range (ds_services s) i) as [service Es]; [done|]. rewrite Es.
    eexists. split; [reflexivity|]. split; [|by right]. cbn [r_ui done].
    case_bool_decide as He.
    - rewrite He. apply (invariant_chosen _ _ s StopService _ _ i); try done. by exists service.
    - destruct (bool_decide (event = Character $"r")) eqn:Er; [|done]. bool_facts. rewrite Er.
      apply (invariant_chosen _ _ s RestartService _ _ i); try done. by exists service. }
  clear E1. destruct (negb (searching u) && (tab u =? 2)%nat && _ && _) eqn:E2.
  { apply key_guard in E2 as (Hs & Ht & Hk & Hc). intros [= <-].
    destruct (at_index_range (ds_processes s) i) as [process Es]; [done|]. rewrite Es.
    eexists. split; [reflexivity|]. split; [|by right]. cbn [r_ui done].
    case_bool_decide as He.
    - rewrite He. apply (invariant_chosen _ _ s TerminateProcess _ _ i); try done. by exists process.
    - destruct (bool_decide (event = Character $"K")) eqn:Er; [|done]. bool_facts. rewrite Er.
      apply (invariant_chosen _ _ s KillProcess _ _ i); try done. by exists process. }
  clear E2.
  assert (Hsub : forall task, (forall a b c, task <> ActionTask a b c) -> exists r, submitted task u w = Some r /\
      invariant (ks ++ [(Some s, event)]) (r_ui r) /\
      forall action unit pid, pending_ (r_tasks r) = Some (ActionTask action unit pid) ->
        r_tasks r = w \/ r_tasks r = clear w).
  { intros task Htask. eexists. split; [reflexivity|]. split; [by apply invariant_none|].
    cbn [r_tasks done submitted]. unfold submit. destruct (_ || _); [by left|]. intros a b c [= E]. by destruct (Htask a b c). }
  destruct (negb (searching u) && is_key event Return).
  { intros [= <-]. destruct (selectedResource_defined s (tab u) i) as [resource ->]. cbn [mbind option_bind].
    case_bool_decide; [|by apply Hsub]. eexists. split; [reflexivity|]. split; [by apply invariant_none|by left]. }
  destruct (negb (searching u) && is_key event (Character $"l")).
  { intros [= <-]. destruct ((tab u =? 0)%nat && _) eqn:E3.
    { apply andb_true_iff in E3 as [Ht Hc]. apply Nat.eqb_eq in Ht. rewrite Ht in Hc. bool_facts.
      destruct (at_index_range (ds_services s) i) as [service ->]; [done|]. by apply Hsub. }
    destruct ((tab u =? 2)%nat && _) eqn:E4; [|by apply Hsub].
    apply andb_true_iff in E4 as [Ht Hc]. apply Nat.eqb_eq in Ht. rewrite Ht in Hc. bool_facts.
    destruct (at_index_range (ds_processes s) i) as [process ->]; [done|]. by apply Hsub. }
  destruct (is_key event ArrowUp); [|destruct (is_key event ArrowDown); [|done]];
    intros [= <-]; (eexists; split; [reflexivity|]; split; [|by left]);
    (apply invariant_none; [apply wf_move; [done|]|done]); [lia|].
  unfold itemCount, size. destruct (tab u) as [|[|?]]; lia.
Qed.

(** A task of the user's actions is submitted by a final [y] only. *)
Definition confirms (u : Ui) (event : Event) (w : TaskWorker) (action : PendingAction) (target : str) (pid : Z) : Prop :=
  event = Character $"y" /\ busy_ w = false /\ pendingAction u = Some action /\
  target = actionTarget u /\ pid = actionPid u /\ (action = KillProcess -> confirmationStep u <> 1).

Definition accounted (u : Ui) (event : Event) (w : TaskWorker) (r : Reply) : Prop :=
  forall action target pid, pending_ w = None -> pending_ (r_tasks r) = Some (ActionTask action target pid) ->
    confirms u event w action target pid.

Lemma accounted_quiet u event w v handled x :
  pending_ v = pending_ w \/ (exists task, v = (submit task w).2 /\ forall a b c, task <> ActionTask a b c) ->
  accounted u event w (mkReply handled x v false) /\ accounted u event w (mkReply handled x v true).
Proof.
  intros H. split; intros action target pid Hn Hp; cbn in Hp.
  all: destruct H as [H|(task & -> & H)]; [by rewrite H, Hn in Hp|].
  all: unfold submit in Hp; destruct (_ || _); cbn in Hp; [congruence|].
  all: injection Hp as Hp; by destruct (H action target pid).
Qed.

Lemma handle_pending ks u snapshot event w action :
  wf_ui u -> pendingAction u = Some action -> searching u = false -> armed u action ks ->
  exists r, handle snapshot event u w = Some r /\ invariant (ks ++ [(snapshot, event)]) (r_ui r) /\ accounted u event w r.
Proof.
  intros Hw Hp Hs (later & (before & s & u0 & i & -> & Hc) & Hst). unfold handle. rewrite Hs, Hp. cbn [andb].
  assert (Hkeep : forall k later', ((before ++ (Some s, action_key action) :: later) ++ [k]) =
      before ++ (Some s, action_key action) :: later' <-> later' = later ++ [k]).
  { intros k later'. rewrite <- app_assoc. cbn [app]. split; [|by intros ->]. intros E.
    apply app_inv_head in E. by injection E as <-. }
  destruct (is_key event (Character $"n") || is_key event Escape) eqn:En.
  { eexists. split; [reflexivity|]. split; [by apply invariant_none|]. apply accounted_quiet. by left. }
  destruct (decide (event = Character $"y")) as [Hy|Hy];
    [rewrite (bool_decide_eq_true_2 _ Hy)|rewrite (bool_decide_eq_false_2 _ Hy)].
  - destruct (bool_decide (action = KillProcess) && (confirmationStep u =? 1)) eqn:Ek.
    + eexists. split; [reflexivity|]. split; [|apply accounted_quiet; by left].
      bool_facts. split; [exact Hw|]. cbn. split; [done|]. subst event.
      exists (later ++ [(snapshot, Character $"y")]). split.
      { exists before, s, u0, i. split; [by apply Hkeep|done]. }
      right. split_and!; [done..|]. exists later, snapshot, []. split_and!; [done| |done].
      by destruct Hst as [[_ Hl]|(Hl & _)]; [|lia].
    + eexists. split; [reflexivity|]. split; [by apply invariant_none|].
      intros a b c Hn Hsub. cbn [r_tasks done submitted] in Hsub. unfold submit in Hsub.
      destruct (bool_decide (is_Some (pending_ w)) || busy_ w) eqn:Eb; cbn in Hsub; [congruence|].
      injection Hsub as <- <- <-. bool_facts. split_and!; try done.
      intros ->. destruct Ek as [Ek|Ek]; bool_facts; done.
  - eexists. split; [reflexivity|]. split; [|apply accounted_quiet; by left].
    split; [exact Hw|]. cbn [r_ui done]. rewrite Hp. split; [done|].
    assert (Hi : ignored (snapshot, event) = true).
    { unfold ignored. cbn [snd]. rewrite En, bool_decide_eq_false_2 by done. done. }
    exists (later ++ [(snapshot, event)]). split.
    { exists before, s, u0, i. split; [by apply Hkeep|done]. }
    destruct Hst as [[H1 H2]|(H1 & H2 & k1 & sn & k2 & -> & H3 & H4)].
    + left. split; [done|]. by rewrite forallb_app, H2; cbn; rewrite Hi.
    + right. split_and!; [done..|]. exists k1, sn, (k2 ++ [(snapshot, event)]).
      split_and!; [by rewrite <- app_assoc|done|]. by rewrite forallb_app, H4; cbn; rewrite Hi.
Qed.

Lemma handle_free ks u snapshot event w :
  reach ks u -> wf_ui u -> pendingAction u = None ->
  exists r, handle snapshot event u w = Some r /\ invariant (ks ++ [(snapshot, event)]) (r_ui r) /\ accounted u event w r.
Proof.
  intros Hr Hw Hp. unfold handle. rewrite Hp.
  destruct (searching u && is_key event Return).
  { eexists. split; [reflexivity|]. split; [by apply invariant_none|]. apply accounted_quiet.
    case_bool_decide; [by left|right]. by eexists. }
  destruct (is_key event Escape && _).
  { eexists. split; [reflexivity|]. split; [by apply invariant_none|]. apply accounted_quiet. by left. }
  destruct (negb (searching u) && (_ || _)).
  { eexists. split; [reflexivity|]. split; [by apply invariant_none|].
    apply (accounted_quiet _ _ _ _ true). by left. }
  destruct (negb (searching u) && is_key event F1).
  { eexists. split; [reflexivity|]. split; [by apply invariant_none|]. apply accounted_quiet. by left. }
  destruct (negb (searching u) && is_key event (Character $"/")).
  { eexists. split; [reflexivity|]. split; [by apply invariant_none|]. apply accounted_quiet. by left. }
  destruct (is_key event TabKey); [|destruct (is_key event ArrowLeft); [|destruct (is_key event ArrowRight)]].
  1-3: (eexists; split; [reflexivity|]; split; [apply invariant_none; [by apply wf_tab|done]|];
    apply accounted_quiet; by left).
  assert (Hrest : exists r, Some (mkReply (negb (searching u) && is_character event) u w false) = Some r /\
    invariant (ks ++ [(snapshot, event)]) (r_ui r) /\ accounted u event w r).
  { eexists. split; [reflexivity|]. split; [by apply invariant_none|]. apply accounted_quiet. by left. }
  destruct snapshot as [s|]; [|exact Hrest].
  destruct (wf_selected u Hw) as (i & Hi & Hi0). rewrite Hi. cbn [mbind option_bind].
  destruct (on_snapshot s event u w i) as [reply|] eqn:E; [|exact Hrest].
  destruct (on_snapshot_invariant ks u s event w i reply) as (r & -> & Hinv & Hsub); try done.
  exists r. split_and!; [done..|]. intros action target pid Hn Hpd.
  destruct (Hsub _ _ _ Hpd) as [E'|E']; rewrite E' in Hpd; cbn in Hpd; congruence.
Qed.

Lemma handle_step ks u snapshot event w :
  reach ks u -> invariant ks u ->
  exists r, handle snapshot event u w = Some r /\ invariant (ks ++ [(snapshot, event)]) (r_ui r) /\ accounted u event w r.
Proof.
  intros Hr [Hw Hp]. destruct (pendingAction u) as [action|] eqn:E.
  - destruct Hp as [Hs Ha]. by eapply handle_pending.
  - by apply handle_free.
Qed.

Lemma reach_invariant ks u : reach ks u -> invariant ks u.
Proof.
  induction 1 as [|ks u snapshot event w r Hr IH H].
  - apply invariant_none; [apply wf_initial|done].
  - destruct (handle_step _ _ snapshot event w Hr IH) as (r' & H' & Hinv & _).
    rewrite H in H'. injection H' as <-. by apply input_action.
Qed.

(** C17. The handler never reads out of range: after any keys, whatever the snapshots were
(they shrink and grow between keys) and whatever the worker did, the tab is one of
three, the three selections are not negative, and handling any further key is
defined. *)
Theorem tui_in_range ks u snapshot event w :
  reach ks u -> wf_ui u /\ is_Some (handle snapshot event u w).
Proof.
  intros Hr. pose proof (reach_invariant _ _ Hr) as Hi. split; [apply Hi|].
  destruct (handle_step _ _ snapshot event w Hr Hi) as (r & H & _). by exists r.
Qed.

(** An action is what the user chose and confirmed.  When a key hands the worker a
task that stops or restarts a service or signals a process, the key is [y], the
worker was free, and the target is the one selected when the key of that action was
pressed earlier, on the right tab, however the snapshots and the selection changed
since; between that key and this [y] nothing cancelled the action, and for SIGKILL
there was exactly one further [y] in between. *)
Lemma actions_confirmed ks u snapshot event w r action target pid :
  reach ks u -> handle snapshot event u w = Some r ->
  pending_ w = None -> pending_ (r_tasks r) = Some (ActionTask action target pid) ->
  event = Character $"y" /\ busy_ w = false /\
  exists later, chosen action target pid ks later /\
    if bool_decide (action = KillProcess) then
      exists k1 s k2, later = k1 ++ (s, Character $"y") :: k2 /\ forallb ignored k1 = true /\ forallb ignored k2 = true
    else forallb ignored later = true.
Proof.
  intros Hr H Hn Hp. pose proof (reach_invariant _ _ Hr) as Hi.
  destruct (handle_step _ _ snapshot event w Hr Hi) as (r' & H' & _ & Hacc).
  rewrite H in H'. injection H' as <-.
  destruct (Hacc _ _ _ Hn Hp) as (-> & Hb & Hact & -> & -> & Hk). split_and!; [done..|].
  destruct Hi as [_ Hi]. rewrite Hact in Hi. destruct Hi as (_ & later & Hc & Hst). exists later. split; [done|].
  case_bool_decide as Ek; destruct Hst as [[H1 H2]|(H1 & H2 & H3)]; try done. by destruct (Hk Ek).
Qed.
(** What a key does to the worker: nothing, clears its text, or submits one task. *)
Definition follows (w : TaskWorker) (o : option Reply) : Prop :=
  forall r, o = Some r ->
    r_tasks r = w \/ r_tasks r = clear w \/ exists task, r_tasks r = (submit task w).2.

Lemma follows_done w u v :
  v = w \/ v = clear w \/ (exists task, v = (submit task w).2) -> follows w (done u v).
Proof. intros H r [= <-]. exact H. Qed.
Lemma follows_reply w handled u exit : follows w (Some (mkReply handled u w exit)).
Proof. intros r [= <-]. by left. Qed.
Lemma follows_bind {A} w (o : option A) f : (forall a, follows w (f a)) -> follows w (o ≫= f).
Proof. intros Hf. destruct o; [apply Hf|done]. Qed.
Lemma follows_if w (b : bool) o1 o2 : follows w o1 -> follows w o2 -> follows w (if b then o1 else o2).
Proof. by destruct b. Qed.

Ltac follow :=
  repeat first
    [ apply follows_if | apply follows_bind; intros ? | apply follows_reply
    | apply follows_done; solve [eauto] ].

Lemma on_snapshot_follows s event u w i o : on_snapshot s event u w i = Some o -> follows w o.
Proof.
  unfold on_snapshot, submitted.
  repeat match goal with |- (if ?b then _ else _) = _ -> _ => destruct b end; try done; intros [= <-]; follow.
Qed.

Lemma handle_follows snapshot event u w : follows w (handle snapshot event u w).
Proof.
  unfold handle. apply follows_if.
  - apply follows_done. case_bool_decide; eauto.
  - destruct (pendingAction u) as [action|]; [unfold submitted; follow|]. follow.
    destruct snapshot as [s|]; [|follow]. follow.
    destruct (on_snapshot s event u w a) as [o|] eqn:E; [|follow].
    apply on_snapshot_follows in E. by destruct o.
Qed.

(** A key leaves a worker that has a task with that task. *)
Lemma handle_tasks snapshot event u w r :
  handle snapshot event u w = Some r ->
  busy_ (r_tasks r) = busy_ w /\ stopping_ (r_tasks r) = stopping_ w /\
  (pending_ (r_tasks r) = pending_ w \/ pending_ w = None /\ busy_ w = false).
Proof.
  intros [-> |[-> |[task ->]]]%handle_follows; [by auto|by cbn; auto|].
  unfold submit. destruct (bool_decide (is_Some (pending_ w)) || busy_ w) eqn:E; [auto|].
  apply orb_false_iff in E as [E1 E2]. bool_facts. rewrite eq_None_not_Some. auto.
Qed.
End Reach.

(** An action confirmed while the worker has a task is lost: the handler forgets it
and the worker does not change. *)
Lemma confirmed_action_dropped snapshot u w action :
  searching u = false -> pendingAction u = Some action -> action <> KillProcess -> busy_ w = true ->
  handle snapshot (Character $"y") u w = Some (mkReply true (cancel u) w false).
Proof.
  intros Hs Hp Hk Hb. unfold handle, submitted, submit. rewrite Hs, Hp, Hb, orb_true_r. cbn [andb].
  rewrite (bool_decide_eq_false_2 (action = KillProcess)) by done. done.
Qed.

(** ** An example *)

(** The state after keys pressed with an idle worker. *)
Fixpoint press (edit : Event -> str -> str) (ks : list key) (u : Ui) : option Ui :=
  match ks with
  | [] => Some u
  | (snapshot, event) :: rest =>
      r ← handle snapshot event u new_worker; press edit rest (after_input edit event r)
  end.

Lemma press_reach edit ks0 u0 ks u :
  reach edit ks0 u0 -> press edit ks u0 = Some u -> reach edit (ks0 ++ ks) u.
Proof.
  revert ks0 u0. induction ks as [|[snapshot event] ks IH]; intros ks0 u0 Hr; cbn [press].
  - intros [= <-]. by rewrite app_nil_r.
  - destruct (handle snapshot event u0 new_worker) as [r|] eqn:E; [|done]. cbn [mbind option_bind].
    intros H. rewrite cons_middle, app_assoc. eapply IH; [|exact H]. by eapply reach_key.
Qed.

Definition two_processes : DashboardSnapshot :=
  mkDashboardSnapshot default_HostStatus [Sim.sim_process 300 $"web"; Sim.sim_process 400 $"dev"] [] []
    false false false false [] 0.
(** To the processes, down to the second, [K], [y]. *)
Definition kill_keys : list key :=
  map (fun event => (Some two_processes, event))
    [ArrowLeft; ArrowDown; Character $"K"; Character $"y"].

Lemma tui_in_range_witness :
  exists u, reach (fun _ q => q) kill_keys u /\ wf_ui u.
Proof.
  destruct (press (fun _ q => q) kill_keys initial) as [u|] eqn:E; [|vm_compute in E; congruence].
  assert (Hr := press_reach _ [] initial kill_keys u (reach_start _) E).
  exists u. split; [exact Hr|]. apply (tui_in_range _ _ u None Return new_worker Hr).
Defined.

Lemma actions_confirmed_example :
  exists u r target later, reach (fun _ q => q) kill_keys u /\
    handle None (Character $"y") u new_worker = Some r /\
    pending_ (r_tasks r) = Some (ActionTask KillProcess target 400) /\
    chosen (fun _ q => q) KillProcess target 400 kill_keys later.
Proof.
  destruct (press (fun _ q => q) kill_keys initial) as [u|] eqn:E; [|vm_compute in E; congruence].
  assert (Hr := press_reach _ [] initial kill_keys u (reach_start _) E).
  destruct (handle None (Character $"y") u new_worker) as [r|] eqn:Eh;
    [|vm_compute in E; injection E as <-; vm_compute in Eh; congruence].
  assert (Hp : pending_ (r_tasks r) = Some (ActionTask KillProcess $"PID 400 (dev)" 400)).
  { clear Hr. vm_compute in E. injection E as <-. vm_compute in Eh. by injection Eh as <-. }
  destruct (actions_confirmed _ _ _ _ _ _ _ _ _ _ Hr Eh eq_refl Hp) as (_ & _ & later & Hc & _).
  by exists u, r, $"PID 400 (dev)", later.
Defined.
