(* ===== verification/TuiScreen.v ===== *)
(** * The screen of the terminal interface ([src/tui/FtxuiTuiRunner.cpp])

What [run] draws for a snapshot, the text of the last task and the state of the event
handler ([Tui]): a tree of FTXUI elements.  The constructors are the functions of
[ftxui::dom] the code calls; what they look like on a terminal, and the rendering of
the search input, are the library's. *)

From S2P Require Import Prelude CppStd CppString Prog Domain Contracts Float.
From S2P Require Import CliText Tui.
From S2P Require Sim.
From Stdlib Require Import Ascii.

Inductive decorator := Bold | Center | Flex | DimText | Border | InvertedText | Yellow | Frame.
Inductive element :=
| text (s : str)
| separator
| hbox (children : list element)
| vbox (children : list element)
| decorate (e : element) (ds : list decorator)
| search_input (query : str).     (* searchInput->Render() *)

Section Screen.
Context {formats : Formats}.

(** The rows of [resourcePanel] as elements. *)
Definition draw_row (r : row) : element :=
  match r with
  | Text s => text s
  | Inverted s => decorate (text s) [InvertedText]
  | Separator => separator
  | Dim s => decorate (text s) [DimText]
  end.
Definition draw_panel (snapshot : DashboardSnapshot) (tab : nat) (selected : Z) : element :=
  decorate (vbox (map draw_row (resourcePanel snapshot tab selected))) [Frame; Flex].

Definition host_line (host : HostStatus) : element :=
  text ($" " ++ hs_hostname host ++ $"   CPU " ++
        match hs_cpuPercent host with Some v => fixed1 v ++ $"%" | None => $"-" end ++
        $"   Memory " ++ fixed1 (mebibytes (hs_memoryUsedBytes host)) ++ $"/" ++
        fixed1 (mebibytes (hs_memoryTotalBytes host)) ++ $" MiB ").

Definition tabs : list str := [$"Services"; $"Ports"; $"Processes"].
Definition tab_label (snapshot : DashboardSnapshot) (current index : nat) (name : str) : element :=
  let label := text ($" " ++ name ++ $" (" ++ to_string (itemCount snapshot index) ++ $") ") in
  if (index =? current)%nat then decorate label [InvertedText; Bold] else label.
Definition tab_line (snapshot : DashboardSnapshot) (current : nat) : element :=
  hbox (imap (tab_label snapshot current) tabs).

(** ** The dialog of a pending action *)

Definition action_text (action : PendingAction) : str :=
  match action with
  | StopService => $"Stop service"
  | RestartService => $"Restart service"
  | TerminateProcess => $"Send SIGTERM to process"
  | KillProcess => $"Send SIGKILL to process"
  end.
Definition warning_text (action : PendingAction) (step : Z) : str :=
  if bool_decide (action = KillProcess) && (step =? 2) then $"FINAL CONFIRMATION: this cannot be undone"
  else $"Confirm the selected action".
Definition dialog (action : PendingAction) (step : Z) (target : str) : element :=
  decorate (vbox [decorate (text (action_text action)) [Bold]; text target; separator;
                  decorate (text (warning_text action step)) [Yellow];
                  text $"Press y to continue or n/Esc to cancel"])
    [Border; Center; Flex].

Definition help_view : element :=
  decorate (vbox (decorate (text $"Keyboard help") [Bold] ::
    map text [$"Tab/Left/Right  switch panel"; $"Up/Down         select resource";
              $"Enter           inspect selected resource"; $"/               find resources";
              $"l               recent logs for selected resource";
              $"Esc             close view / quit"; $"q               quit"])) [Border; Flex].
Definition result_view (result : str) : element :=
  decorate (vbox (map text (lines result))) [Border; Flex].

(** ** The whole screen *)

(** What fills the middle of the screen. *)
Definition main_view (snapshot : DashboardSnapshot) (result : str) (u : Ui) : option element :=
  match pendingAction u with
  | Some action => Some (dialog action (confirmationStep u) (actionTarget u))
  | None =>
      if help u then Some help_view
      else if negb (bool_decide (result = [])) then Some (result_view result)
      else draw_panel snapshot (tab u) <$> selected u !! tab u
  end.

Definition snapshot_rows (snapshot : DashboardSnapshot) (result : str) (u : Ui) : option (list element) :=
  view ← main_view snapshot result u;
  Some ([host_line (ds_host snapshot); separator; tab_line snapshot (tab u); view] ++
        match ds_warnings snapshot with
        | [] => []
        | warning :: _ => [separator; decorate (text ($"Warning: " ++ warn_message warning)) [Yellow]]
        end).

Definition key_hints : str :=
  $" Tab/arrows navigate  Enter inspect  / find  l logs  s/r service  k/K process  F1 help  q quit ".

(** [None]: an access out of range. *)
Definition screen (snapshot : option DashboardSnapshot) (result : str) (u : Ui) : option element :=
  rows ← match snapshot with
         | None => Some [separator; decorate (text $"Loading resources...") [Center; Flex]]
         | Some snapshot => snapshot_rows snapshot result u
         end;
  Some (decorate (vbox
    ([decorate (text $" LX resource dashboard ") [Bold; Center]] ++ rows ++
     (if searching u then [decorate (hbox [text $" Find: "; search_input (searchQuery u)]) [Border]] else []) ++
     [separator; decorate (text key_hints) [DimText]])) [Border]).

(** ** What is on the screen *)

(** The texts on the screen, in order. *)
Fixpoint texts (e : element) : list str :=
  match e with
  | text s => [s]
  | separator => []
  | hbox l | vbox l => concat (map texts l)
  | decorate e _ => texts e
  | search_input query => [query]
  end.

Lemma texts_member (x : str) (e : element) (l : list element) :
  e ∈ l -> x ∈ texts e -> x ∈ concat (map texts l).
Proof.
  intros He Hx. apply list_elem_of_In, in_concat. exists (texts e).
  split; [by apply in_map, list_elem_of_In|by apply list_elem_of_In].
Qed.

Lemma screen_view s result u view x :
  main_view s result u = Some view -> x ∈ texts view ->
  exists e, screen (Some s) result u = Some e /\ x ∈ texts e.
Proof.
  intros Hv Hx. unfold screen, snapshot_rows. rewrite Hv. cbn [mbind option_bind].
  eexists. split; [reflexivity|]. cbn [texts]. apply (texts_member _ view); [|done].
  rewrite !elem_of_app. right. left. left. rewrite !elem_of_cons. auto 10.
Qed.

Section Reachable.
Variable edit : Event -> str -> str.

(** Whatever the keys were and whatever the snapshot is, the screen can be drawn. *)
Lemma screen_in_range ks u snapshot result :
  reach edit ks u -> is_Some (screen snapshot result u).
Proof.
  intros Hr. destruct (wf_selected u (proj1 (reach_invariant _ _ _ Hr))) as (i & Hi & _).
  unfold screen. destruct snapshot as [s|]; [|done]. unfold snapshot_rows, main_view.
  destruct (pendingAction u); [done|]. destruct (help u); [done|].
  destruct (negb _); [done|]. by rewrite Hi.
Qed.

(** C16. What the user saw when pressing the [y] that hands an action to the worker: the
screen named the action and its target, for a process by the PID that will be
signalled; and for SIGKILL it said that this was the final confirmation. *)
Theorem confirmed_target_shown ks u s result snapshot event w r action target pid :
  reach edit ks u -> handle snapshot event u w = Some r ->
  pending_ w = None -> pending_ (r_tasks r) = Some (ActionTask action target pid) ->
  exists e, screen (Some s) result u = Some e /\
    action_text action ∈ texts e /\ target ∈ texts e /\
    (action = KillProcess -> $"FINAL CONFIRMATION: this cannot be undone" ∈ texts e) /\
    (action = TerminateProcess \/ action = KillProcess ->
     exists name, target = $"PID " ++ to_string pid ++ $" (" ++ name ++ $")").
Proof.
  intros Hr H Hn Hp. pose proof (reach_invariant _ _ _ Hr) as Hi.
  destruct (handle_step _ _ _ snapshot event w Hr Hi) as (r' & H' & _ & Hacc).
  rewrite H in H'. injection H' as <-.
  destruct (Hacc _ _ _ Hn Hp) as (_ & _ & Hact & -> & -> & Hk).
  destruct Hi as [_ Hi]. rewrite Hact in Hi. destruct Hi as (_ & later & Hc & Hst).
  assert (Hv : main_view s result u = Some (dialog action (confirmationStep u) (actionTarget u)))
    by (unfold main_view; by rewrite Hact).
  assert (Hs : forall x, x ∈ texts (dialog action (confirmationStep u) (actionTarget u)) ->
            exists e, screen (Some s) result u = Some e /\ x ∈ texts e) by (intros x; by apply screen_view).
  destruct (Hs (action_text action)) as (e & He & Ha); [by apply elem_of_cons; left|].
  exists e. split; [done|]. split; [done|].
  assert (Hin : forall x, x ∈ texts (dialog action (confirmationStep u) (actionTarget u)) -> x ∈ texts e).
  { intros x Hx. destruct (Hs x Hx) as (e' & He' & Hx'). congruence. }
  split_and!.
  - apply Hin. cbn [texts dialog map concat app]. rewrite !elem_of_cons. auto.
  - intros ->. apply Hin. cbn [texts dialog map concat app]. rewrite !elem_of_cons. right. right. left.
    unfold warning_text. rewrite (bool_decide_eq_true_2 _ eq_refl).
    destruct Hst as [[H1 _]|(-> & _)]; [by destruct (Hk eq_refl)|done].
  - destruct Hc as (before & s0 & u0 & i & _ & _ & _ & _ & Hab).
    intros [-> | ->]; destruct Hab as (process & _ & <- & Ht); by exists (pi_name process).
Qed.
End Reachable.

(** ** The panel *)

Definition inverted (r : row) : bool := match r with Inverted _ => true | _ => false end.

Lemma panel_rows_none values index selected count :
  selected < index -> List.filter inverted (panel_rows values index selected count) = [].
Proof.
  revert values index. induction count as [|count IH]; intros [|v values] index H; cbn [panel_rows]; try done.
  cbn [List.filter]. rewrite (proj2 (Z.eqb_neq index selected)) by lia. cbn [inverted]. apply IH. lia.
Qed.

Lemma panel_rows_selected values index selected count v :
  index <= selected < index + Z.of_nat count -> values !! Z.to_nat (selected - index) = Some v ->
  List.filter inverted (panel_rows values index selected count) = [Inverted v].
Proof.
  revert values index. induction count as [|count IH]; intros [|x values] index H Hv; cbn [panel_rows]; try lia; [done|].
  cbn [List.filter]. destruct (Z.eqb_spec index selected) as [E|E]; cbn [inverted].
  - rewrite E, Z.sub_diag in Hv. injection Hv as ->. f_equal. apply panel_rows_none. lia.
  - apply IH; [lia|]. replace (Z.to_nat (selected - index)) with (S (Z.to_nat (selected - (index + 1)))) in Hv by lia.
    exact Hv.
Qed.

(** The selected resource is always in the window of 22 rows, and the only one marked. *)
Lemma panel_shows_selection s n selected v :
  0 <= selected -> (panel_values s n).2 !! Z.to_nat selected = Some v ->
  List.filter inverted (resourcePanel s n selected) = [Inverted v].
Proof.
  intros H0 Hv. unfold resourcePanel. destruct (panel_values s n) as [header values]. cbn [snd] in Hv.
  rewrite !List.filter_app. cbn [List.filter inverted app].
  rewrite (panel_rows_selected _ _ _ _ v); [by destruct values|lia|].
  rewrite lookup_drop. rewrite <- Hv. f_equal. lia.
Qed.

(** After the resources have become fewer the selection may be far behind them: the
panel is then empty, without a word. *)
Lemma panel_blank s n selected :
  (panel_values s n).2 <> [] -> Z.of_nat (length (panel_values s n).2) <= selected - 10 ->
  resourcePanel s n selected = [Text (panel_values s n).1; Separator].
Proof.
  unfold resourcePanel. destruct (panel_values s n) as [header values]. cbn [fst snd]. intros Hn Hl.
  rewrite drop_ge by lia. by destruct values.
Qed.
End Screen.

(** ** An example *)

(** Before the last [y] of [kill_keys] the dialog shows the process that is killed. *)
Lemma confirmed_target_shown_witness :
  exists u r e, reach (fun _ q => q) kill_keys u /\
    handle None (Character $"y") u new_worker = Some r /\
    pending_ (r_tasks r) = Some (ActionTask KillProcess $"PID 400 (dev)" 400) /\
    @screen plain_formats (Some two_processes) [] u = Some e /\ $"PID 400 (dev)" ∈ texts e.
Proof.
  destruct (press (fun _ q => q) kill_keys initial) as [u|] eqn:E; [|vm_compute in E; congruence].
  assert (Hr := press_reach _ [] initial kill_keys u (reach_start _) E).
  destruct (handle None (Character $"y") u new_worker) as [r|] eqn:Eh;
    [|vm_compute in E; injection E as <-; vm_compute in Eh; congruence].
  assert (Hp : pending_ (r_tasks r) = Some (ActionTask KillProcess $"PID 400 (dev)" 400)).
  { clear Hr. vm_compute in E. injection E as <-. vm_compute in Eh. by injection Eh as <-. }
  destruct (@confirmed_target_shown plain_formats _ _ _ two_processes [] _ _ _ _ _ _ _ Hr Eh eq_refl Hp)
    as (e & He & _ & Ht & _).
  by exists u, r, e.
Defined.
