(* ===== verification/TaskWorker.v ===== *)
(** * [TaskWorker] ([src/tui/FtxuiTuiRunner.cpp])

The thread behind the event loop, step by step: its mutex, its condition variable, the
tasks that return or throw, and the destructor that ends it.  [Tui] has the critical
sections on what the mutex protects; here they are taken by two threads in any order,
and the sessions of [TuiRun] see the same worker without its waiting.  The scheduler,
the results of the tasks and the wake-ups of the condition variable are labels. *)

From S2P Require Import Prelude CppStd CppString Prog Domain Contracts Tui.
From Stdlib Require Import Ascii.

(** Where the worker stands in [work]; [task] is moved out of [pending_]. *)
Inductive worker_pc :=
| Locking                                     (* before the lock of the wait *)
| Asleep                                      (* in wake_.wait, lock released *)
| Working (task : Task)                       (* value = task() *)
| Publishing (task : Task) (value : str)      (* before lock.lock() *)
| Updating                                    (* if (updated_) updated_(); *)
| Returned.

(** Where the owner of the worker stands in the destructor. *)
Inductive owner_pc :=
| Idle
| Notifying                                   (* stopping_ set, before notify_all *)
| Joining                                     (* before thread_.join() *)
| Destroyed.

Record machine := mkMachine {
  shared : TaskWorker;
  worker : worker_pc;
  notified : bool;                            (* the sleeping worker was notified *)
  owner : owner_pc;
}.
(** After the constructor. *)
Definition constructed : machine := mkMachine new_worker Locking false Idle.

(** Why [wait] wakes up; it has no time-out. *)
Inductive reason := Notification | Spurious.

Inductive label :=
(* the event loop *)
| Submit (task : Task) | Clear | Result_
| StopFlag | StopNotify | StopJoin
(* the worker *)
| EnterWait
| WakeUp (why : reason)
| TaskReturns (value : str)
| TaskThrows (what : option str)              (* what() of a std::exception *)
| Publish
| UpdatedReturns.

(** What a step shows of the tasks. *)
Inductive observed :=
| Accepted (task : Task) | Dropped (task : Task)
| Started (task : Task) | Answered (task : Task) (value : str)
| Cleared.

Definition unknown_failure : str := $"Unknown background task failure".

Definition set_worker (pc : worker_pc) (m : machine) : machine :=
  mkMachine (shared m) pc false (owner m).

(** [submit], with its [notify_one] under the lock. *)
Definition submit_ (task : Task) (m : machine) : machine * list observed :=
  let '(taken, shared') := submit task (shared m) in
  if taken then
    (mkMachine shared' (worker m)
       (match worker m with Asleep => true | _ => notified m end) (owner m), [Accepted task])
  else (m, [Dropped task]).

(** With the lock: the predicate of the wait, and what follows when it holds. *)
Definition test (m : machine) : machine * list observed :=
  match wake (shared m) with
  | None => (set_worker Asleep m, [])
  | Some (None, _) => (set_worker Returned m, [])
  | Some (Some task, shared') => (mkMachine shared' (Working task) false (owner m), [Started task])
  end.

Definition step (m : machine) (l : label) : option (machine * list observed) :=
  match l with
  | Submit task => match owner m with Idle => Some (submit_ task m) | _ => None end
  | Clear =>
      match owner m with
      | Idle => Some (mkMachine (clear (shared m)) (worker m) (notified m) Idle, [Cleared])
      | _ => None
      end
  | Result_ => match owner m with Idle => Some (m, []) | _ => None end
  | StopFlag =>
      match owner m with
      | Idle => Some (mkMachine (stop_worker (shared m)) (worker m) (notified m) Notifying, [])
      | _ => None
      end
  | StopNotify =>
      match owner m with
      | Notifying =>
          Some (mkMachine (shared m) (worker m)
                  (match worker m with Asleep => true | _ => notified m end) Joining, [])
      | _ => None
      end
  | StopJoin =>
      match owner m, worker m with
      | Joining, Returned => Some (mkMachine (shared m) Returned (notified m) Destroyed, [])
      | _, _ => None
      end
  | EnterWait => match worker m with Locking => Some (test m) | _ => None end
  | WakeUp why =>
      match worker m, why with
      | Asleep, Spurious => Some (test m)
      | Asleep, Notification => if notified m then Some (test m) else None
      | _, _ => None
      end
  | TaskReturns value =>
      match worker m with Working task => Some (set_worker (Publishing task value) m, []) | _ => None end
  | TaskThrows what =>
      match worker m with
      | Working task => Some (set_worker (Publishing task (default unknown_failure what)) m, [])
      | _ => None
      end
  | Publish =>
      match worker m with
      | Publishing task value =>
          Some (mkMachine (publish value (shared m)) Updating false (owner m), [Answered task value])
      | _ => None
      end
  | UpdatedReturns => match worker m with Updating => Some (set_worker Locking m, []) | _ => None end
  end.

Fixpoint run (m : machine) (ls : list label) : option (machine * list observed) :=
  match ls with
  | [] => Some (m, [])
  | l :: ls' =>
      match step m l with
      | Some (m1, o1) => match run m1 ls' with Some (m2, o2) => Some (m2, o1 ++ o2) | None => None end
      | None => None
      end
  end.

Lemma run_snoc m ls l m1 o1 m2 o2 :
  run m ls = Some (m1, o1) -> step m1 l = Some (m2, o2) -> run m (ls ++ [l]) = Some (m2, o1 ++ o2).
Proof.
  revert m o1. induction ls as [|x ls IH]; intros m o1; cbn.
  - intros [= -> <-] ->. by rewrite app_nil_r.
  - destruct (step m x) as [[ma oa]|]; [|done]. destruct (run ma ls) as [[mb ob]|] eqn:E; [|done].
    intros [= -> <-] H. by rewrite (IH ma ob E H), <- app_assoc.
Qed.

Lemma run_app_inv m ls1 ls2 m2 o :
  run m (ls1 ++ ls2) = Some (m2, o) ->
  exists m1 o1 o2, run m ls1 = Some (m1, o1) /\ run m1 ls2 = Some (m2, o2) /\ o = o1 ++ o2.
Proof.
  revert m o. induction ls1 as [|x ls1 IH]; intros m o; cbn; [by exists m, [], o|].
  destruct (step m x) as [[ma oa]|]; [|done]. destruct (run ma (ls1 ++ ls2)) as [[mb ob]|] eqn:E; [|done].
  intros [= -> <-]. destruct (IH _ _ E) as (m1 & o1 & o2 & -> & H & ->). exists m1, (oa ++ o1), o2.
  by rewrite app_assoc.
Qed.

(** Case analysis of one step. *)
Ltac step_cases m l H :=
  destruct m as [[pend res bus stp] wk note ow], l; cbn in H;
  unfold submit_, submit, test, wake, clear, stop_worker, publish, set_worker in H; cbn in H;
  repeat (case_match; simplify_eq/=); try done.

(** ** Invariant *)

Definition at_work (m : machine) : list Task :=
  match worker m with Working task | Publishing task _ => [task] | _ => [] end.

(** The destructor has begun. *)
Definition ending (m : machine) : bool := match owner m with Idle => false | _ => true end.

Record invariant (m : machine) : Prop := {
  inv_busy : busy_ (shared m) = match at_work m with [] => false | _ => true end;
  inv_pending : at_work m <> [] -> pending_ (shared m) = None;
  inv_ending : stopping_ (shared m) = ending m;
  inv_returned : worker m = Returned -> ending m = true;
  inv_destroyed : owner m = Destroyed -> worker m = Returned;
  inv_notified : worker m = Asleep ->
    pending_ (shared m) <> None /\ owner m = Idle \/ owner m = Joining -> notified m = true;
}.

Lemma invariant_constructed : invariant constructed.
Proof. by split; try (intros; naive_solver). Qed.

Lemma invariant_step m l m' o : invariant m -> step m l = Some (m', o) -> invariant m'.
Proof.
  intros [H1 H2 H3 H4 H5 H6] H. unfold at_work, ending in *.
  step_cases m l H; (split; unfold at_work, ending; cbn in *; intros;
    repeat (case_match; simplify_eq/=); try done; try naive_solver).
Qed.

Lemma invariant_run m ls m' o : invariant m -> run m ls = Some (m', o) -> invariant m'.
Proof.
  revert m o. induction ls as [|l ls IH]; intros m o Hi; cbn; [by intros [= -> _]|].
  destruct (step m l) as [[m1 o1]|] eqn:E; [|done]. destruct (run m1 ls) as [[m2 o2]|] eqn:Er; [|done].
  intros [= -> _]. eapply IH; [|exact Er]. by eapply invariant_step.
Qed.
Lemma run_invariant ls m o : run constructed ls = Some (m, o) -> invariant m.
Proof.
  apply invariant_run, invariant_constructed.
Qed.

(** ** The worker of a session

What the mutex protects changes by the critical sections of [Tui] only, a task is taken
only while none is at work, and the other steps are not seen. *)
Lemma step_seen m l m' o :
  invariant m -> step m l = Some (m', o) ->
  match o with
  | [Accepted task] => submit task (shared m) = (true, shared m')
  | [Dropped task] => submit task (shared m) = (false, shared m')
  | [Cleared] => shared m' = clear (shared m)
  | [Started task] => busy_ (shared m) = false /\ wake (shared m) = Some (Some task, shared m') /\
      at_work m = [] /\ at_work m' = [task]
  | [Answered task value] => shared m' = publish value (shared m) /\ at_work m = [task] /\ at_work m' = []
  | _ => (shared m' = shared m \/ shared m' = stop_worker (shared m)) /\ at_work m' = at_work m
  end.
Proof.
  intros [H1 _ _ _ _ _] H. unfold at_work in *.
  step_cases m l H; unfold wake, submit; cbn in *; repeat (case_match; simplify_eq/=); auto.
Qed.

(** ** Each task once, in order *)

Definition accepted (obs : list observed) : list Task :=
  omap (fun o => match o with Accepted task => Some task | _ => None end) obs.
Definition started (obs : list observed) : list Task :=
  omap (fun o => match o with Started task => Some task | _ => None end) obs.
Definition answered (obs : list observed) : list (Task * str) :=
  omap (fun o => match o with Answered task value => Some (task, value) | _ => None end) obs.

(** The text on the screen. *)
Definition shown (obs : list observed) : str :=
  foldl (fun text o =>
    match o with
    | Accepted _ => $"Loading..."
    | Answered _ value => value
    | Cleared => []
    | Started _ | Dropped _ => text
    end) [] obs.

Definition accounts (m : machine) (obs : list observed) : Prop :=
  accepted obs = started obs ++ option_list (pending_ (shared m)) /\
  started obs = map fst (answered obs) ++ at_work m /\
  result_ (shared m) = shown obs.

Lemma accounts_step m l m' o obs :
  invariant m -> accounts m obs -> step m l = Some (m', o) -> accounts m' (obs ++ o).
Proof.
  intros [H1 H2 _ _ _ _] (Ha & Hs & Ht) H. unfold accounts, accepted, started, answered, shown, at_work in *.
  rewrite !omap_app, foldl_app, Ha, Hs, <- Ht.
  step_cases m l H; rewrite ?map_app; cbn in *; try (rewrite (H2 ltac:(done)) in * );
    try (destruct pend; [cbn in *; done|]); cbn; rewrite <- ?app_assoc, ?app_nil_r; done.
Qed.

Lemma run_accounts ls m obs : run constructed ls = Some (m, obs) -> accounts m obs.
Proof.
  revert m obs. induction ls as [|l ls IH] using rev_ind; intros m obs H.
  - by injection H as <- <-.
  - apply run_app_inv in H as (m1 & o1 & o2 & H1 & H2 & ->). cbn in H2.
    destruct (step m1 l) as [[m2 o3]|] eqn:E; [|done]. injection H2 as -> <-. rewrite app_nil_r.
    eapply accounts_step; [by eapply run_invariant|by apply IH|done].
Qed.

(** ** Progress *)

(** Something is owed: an answer to the event loop, or the end to the destructor. *)
Definition unsettled (m : machine) : bool :=
  match owner m with
  | Idle => negb (bool_decide (pending_ (shared m) = None)) ||
            match at_work m with [] => false | _ => true end
  | Notifying | Joining => true
  | Destroyed => false
  end.

(** What the event loop does while it waits: nothing new is asked for. *)
Definition asks (l : label) : bool := match l with Submit _ | StopFlag => true | _ => false end.
(** A look at the result or its removal. *)
Definition looks (l : label) : bool := match l with Clear | Result_ => true | _ => false end.
(** Steps that do not depend on luck. *)
Definition prompt (l : label) : bool := match l with WakeUp Spurious => false | _ => negb (asks l || looks l) end.

(** Steps left until it is settled. *)
Definition round (m : machine) : nat :=
  if bool_decide (pending_ (shared m) = None) || ending m then 1 else 5.
Definition worker_left (m : machine) : nat :=
  match worker m with
  | Locking | Asleep => round m
  | Working _ => 4
  | Publishing _ _ => 3
  | Updating => 1 + round m
  | Returned => 0
  end.
Definition left (m : machine) : nat :=
  worker_left m + match owner m with Notifying => 2 | Joining => 1 | _ => 0 end.

Lemma left_bound m : (left m <= 6)%nat.
Proof.
  unfold left, worker_left, round, ending. destruct (worker m), (owner m); cbn;
    try (case_bool_decide; cbn); lia.
Qed.

Lemma unsettled_step m l m' o :
  invariant m -> unsettled m = true -> step m l = Some (m', o) -> asks l = false ->
  if looks l then left m' = left m else (S (left m') <= left m)%nat.
Proof.
  intros [H1 H2 H3 H4 H5 H6] Hu H Hl. unfold left, worker_left, round, unsettled, ending, at_work in *.
  step_cases m l H; unfold ending; cbn in *; try lia;
    try (destruct pend; cbn in *; try lia; naive_solver).
Qed.

Lemma unsettled_left m : invariant m -> unsettled m = true -> (0 < left m)%nat.
Proof.
  intros [H1 H2 H3 H4 H5 H6] Hu. unfold left, worker_left, round, unsettled, ending, at_work in *.
  destruct (worker m), (owner m); cbn in *; try case_match; try lia; try done.
  all: by specialize (H4 eq_refl).
Qed.

Lemma settled_step m l m' o :
  invariant m -> unsettled m = false -> step m l = Some (m', o) -> asks l = false -> unsettled m' = false.
Proof.
  intros [H1 H2 H3 H4 H5 H6] Hu H Hl. unfold unsettled, at_work in *.
  step_cases m l H; try (destruct pend; cbn in *; done).
Qed.

Lemma progress_run m ls m' o :
  invariant m -> run m ls = Some (m', o) -> forallb (fun l => negb (asks l)) ls = true ->
  unsettled m' = true ->
  unsettled m = true /\ (length (List.filter (fun l => negb (looks l)) ls) + left m' <= left m)%nat.
Proof.
  revert m o. induction ls as [|l ls IH]; intros m o Hi; cbn.
  - intros [= -> _] _ Hu. split; [done|lia].
  - destruct (step m l) as [[m1 o1]|] eqn:E; [|done]. destruct (run m1 ls) as [[m2 o2]|] eqn:Er; [|done].
    intros [= -> _] [Hl%negb_true_iff Hls]%andb_true_iff Hu.
    destruct (IH m1 o2 (invariant_step _ _ _ _ Hi E) Er Hls Hu) as [Hu1 Hleft].
    assert (Hum : unsettled m = true).
    { destruct (unsettled m) eqn:Em; [done|]. by rewrite (settled_step m l m1 o1 Hi Em E Hl) in Hu1. }
    split; [done|]. pose proof (unsettled_step m l m1 o1 Hi Hum E Hl) as Hs.
    destruct (looks l); cbn; lia.
Qed.

(** No wake-up is lost. *)
Lemma unsettled_enabled m :
  invariant m -> unsettled m = true -> exists l m' o, prompt l = true /\ step m l = Some (m', o).
Proof.
  intros [H1 H2 H3 H4 H5 H6] Hu.
  assert (Hw : match worker m with Returned => False | Asleep => notified m = true | _ => True end \/
    owner m = Notifying \/ owner m = Joining /\ worker m = Returned).
  { unfold unsettled, at_work, ending in *. destruct (worker m), (owner m); try done; eauto.
    - left. apply H6; [done|]. left. split; [|done]. intros E. by rewrite E in Hu.
    - by specialize (H4 eq_refl). }
  destruct Hw as [Hw|[Hw|[Hw Hr]]].
  - destruct (worker m) eqn:E; try done.
    + exists EnterWait. cbn. rewrite E. destruct (test m) as [m' o]. eauto.
    + exists (WakeUp Notification). cbn. rewrite E, Hw. destruct (test m) as [m' o]. eauto.
    + exists (TaskReturns []). cbn. rewrite E. eauto.
    + exists Publish. cbn. rewrite E. eauto.
    + exists UpdatedReturns. cbn. rewrite E. eauto.
  - exists StopNotify. cbn. rewrite Hw. eauto.
  - exists StopJoin. cbn. rewrite Hw, Hr. eauto.
Qed.

(** A destructor under way starts no task. *)
Lemma ending_starts_none m ls m' o :
  invariant m -> ending m = true -> run m ls = Some (m', o) -> started o = [].
Proof.
  revert m o. induction ls as [|l ls IH]; intros m o Hi He; cbn; [by intros [= _ <-]|].
  destruct (step m l) as [[m1 o1]|] eqn:E; [|done]. destruct (run m1 ls) as [[m2 o2]|] eqn:Er; [|done].
  intros [= -> <-]. assert (He1 : ending m1 = true /\ started o1 = []).
  { pose proof (inv_ending _ Hi) as Hs. rewrite He in Hs. clear Hi IH Er.
    unfold ending, started in *. step_cases m l E. }
  destruct He1 as [He1 Ho1]. unfold started in *. rewrite omap_app, Ho1.
  exact (IH m1 o2 (invariant_step _ _ _ _ Hi E) He1 Er).
Qed.

Lemma dropped_busy m l m' o task :
  invariant m -> step m l = Some (m', o) -> Dropped task ∈ o ->
  pending_ (shared m) <> None \/ at_work m <> [].
Proof.
  intros [H1 _ _ _ _ _] H Ho. unfold at_work in *.
  step_cases m l H; try (by apply list_elem_of_singleton in Ho); try (by apply elem_of_nil in Ho).
  all: destruct pend; [by left|]; by right.
Qed.


