(* ===== verification/TuiRun.v ===== *)
(** * A session of the terminal interface ([src/tui/FtxuiTuiRunner.cpp], [run])

Three threads work at once: the event loop with its handler ([Tui]), the worker that
runs the submitted tasks, and the worker that refreshes the dashboard.  A session is a
sequence of steps of the three, interleaved call by call, with the task worker without
its waiting (see [TaskWorker.step_seen]); the keys, the answers of the
system and the moments at which tasks fail by an exception are arbitrary. *)

From S2P Require Import Prelude CppStd CppString Prog Domain Contracts.
From S2P Require Import ProcessService PortService PortServiceProofs CliApp CliAppTheorems Tui.
From S2P Require Import LinuxAdapters.
From S2P Require ServiceService FindService InspectService LogService DashboardService Sim OsCalls NetlinkSocketProvider LinuxSignalProvider.
From Stdlib Require Import Ascii.

Section Session.
Context {HO : HashOrder} (S : PortService.PortService) (P : ProcessService.ProcessService).
(** The text input of the library. *)
Variable edit : Event -> str -> str.

Record world := mkWorld {
  keys : list key;                          (* the keys so far, with their snapshots *)
  ui : Ui;
  tasks : TaskWorker;
  running : option (prog provE str);        (* what is left of the task of the worker *)
  snapshot : option DashboardSnapshot;      (* of the dashboard worker *)
  dashboard : DashboardService.state;
  refreshing : option (prog provE (DashboardSnapshot * DashboardService.state));
  calls : trace provE;                      (* of all threads, in order *)
}.

Definition start : world :=
  mkWorld [] initial new_worker None None DashboardService.initial None [].

Definition set_running (worker : TaskWorker) (t : option (prog provE str)) (tr : trace provE) (w : world) : world :=
  mkWorld (keys w) (ui w) worker t (snapshot w) (dashboard w) (refreshing w) (calls w ++ tr).
Definition set_refreshing (s : option DashboardSnapshot) (d : DashboardService.state)
    (t : option (prog provE (DashboardSnapshot * DashboardService.state))) (tr : trace provE) (w : world) : world :=
  mkWorld (keys w) (ui w) (tasks w) (running w) s d t (calls w ++ tr).

Inductive step (w : world) : world -> Prop :=
(* the event loop *)
| step_key event r :
  handle (snapshot w) event (ui w) (tasks w) = Some r ->
  step w (mkWorld (keys w ++ [(snapshot w, event)]) (after_input edit event r) (r_tasks r) (running w)
            (snapshot w) (dashboard w) (refreshing w) (calls w))
| step_exit : step w (set_running (stop_worker (tasks w)) (running w) [] w)
(* TaskWorker::work *)
| step_wake task worker :
  running w = None -> busy_ (tasks w) = false -> wake (tasks w) = Some (Some task, worker) ->
  step w (set_running worker (Some (run_task S P task)) [] w)
| step_task_call X (e : provE X) k x :
  running w = Some (Vis e k) -> step w (set_running (tasks w) (Some (k x)) [Ev e x] w)
| step_task_returns value :
  running w = Some (Ret value) -> step w (set_running (publish value (tasks w)) None [] w)
| step_task_throws t what :
  running w = Some t -> step w (set_running (publish what (tasks w)) None [] w)
(* DashboardWorker::work *)
| step_refresh :
  refreshing w = None ->
  step w (set_refreshing (snapshot w) (dashboard w) (Some (DashboardService.refresh S (dashboard w))) [] w)
| step_refresh_call X (e : provE X) k x :
  refreshing w = Some (Vis e k) -> step w (set_refreshing (snapshot w) (dashboard w) (Some (k x)) [Ev e x] w)
| step_refresh_returns s d :
  refreshing w = Some (Ret (s, d)) -> step w (set_refreshing (Some s) d None [] w).

Inductive session : world -> Prop :=
| session_start : session start
| session_step w w' : session w -> step w w' -> session w'.

(** ** Effects *)

Inductive effect := Signalled (pid : Z) (s : ProcessSignal) | Submitted (job : service_job).
Definition effect_of (ev : event provE) : option effect :=
  match signal_of ev with
  | Some (pid, s) => Some (Signalled pid s)
  | None => Submitted <$> job_of ev
  end.
(** The signals and service jobs of a session, in order. *)
Definition effects (tr : trace provE) : list effect := omap effect_of tr.

Lemma effects_app tr1 tr2 : effects (tr1 ++ tr2) = effects tr1 ++ effects tr2.
Proof. apply omap_app. Qed.

(** What an action may do. *)
Definition effect_of_action (action : PendingAction) (target : str) (pid : Z) : option effect :=
  match action with
  | StopService =>
      match ServiceService.normalizeUnit target with Success v => Some (Submitted (StopJob v)) | Failure _ => None end
  | RestartService =>
      match ServiceService.normalizeUnit target with Success v => Some (Submitted (RestartJob v)) | Failure _ => None end
  | TerminateProcess => Some (Signalled pid Terminate)
  | KillProcess => Some (Signalled pid Kill)
  end.
Definition effect_of_task (task : Task) : option effect :=
  match task with ActionTask action target pid => effect_of_action action target pid | _ => None end.

(** The rest of a task has at most the effect [b], once. *)
Fixpoint within (b : option effect) {A} (t : prog provE A) : Prop :=
  match t with
  | Ret _ => True
  | Vis e k => forall x,
      match effect_of (Ev e x) with
      | Some f => b = Some f /\ within None (k x)
      | None => within b (k x)
      end
  end.

Lemma within_quiet b {A} (t : prog provE A) : calls_ok quiet t -> within b t.
Proof.
  induction t as [a|X e k IH]; [done|]. intros [He Hk] x. cbn [within].
  destruct e; try discriminate He; cbn; by apply IH.
Qed.

Lemma quiet_no_effect X (e : provE X) x : quiet X e -> effect_of (Ev e x) = None.
Proof. by destruct e. Qed.

Lemma task_within task : within (effect_of_task task) (run_task S P task).
Proof.
  destruct task as [query|action unit pid|resource|query|].
  - apply within_quiet, calls_ok_bind; [apply read_only_calls_quiet, FindService.find_read_only|done].
  - destruct action; cbn [run_task effect_of_task effect_of_action].
    + unfold ServiceService.stop. by destruct (ServiceService.normalizeUnit unit).
    + unfold ServiceService.restart. by destruct (ServiceService.normalizeUnit unit).
    + unfold ProcessService.stop, signal. by destruct (validateSignalTarget P pid).
    + unfold ProcessService.kill, signal. by destruct (validateSignalTarget P pid).
  - apply within_quiet, calls_ok_bind; [apply read_only_calls_quiet, InspectService.inspect_read_only|done].
  - apply within_quiet, calls_ok_bind; [apply read_only_calls_quiet, LogService.read_read_only|done].
  - done.
Qed.

(** ** Confirmations *)

(** A final [y] with the keys before it and the action it confirms. *)
Record confirmation := mkConfirmation {
  c_keys : list key; c_action : PendingAction; c_target : str; c_pid : Z }.
Definition c_effect (c : confirmation) : option effect := effect_of_action (c_action c) (c_target c) (c_pid c).

(** The keys [ks] contain the confirmation: its action was chosen by its key, and
confirmed, for SIGKILL a second time, with nothing that cancels it in between. *)
Definition confirmed_by (ks : list key) (c : confirmation) : Prop :=
  exists s rest later,
    ks = c_keys c ++ (s, Character $"y") :: rest /\
    chosen edit (c_action c) (c_target c) (c_pid c) (c_keys c) later /\
    if bool_decide (c_action c = KillProcess) then
      exists k1 s' k2, later = k1 ++ (s', Character $"y") :: k2 /\ forallb ignored k1 = true /\ forallb ignored k2 = true
    else forallb ignored later = true.

Definition earlier (c d : confirmation) : Prop := (length (c_keys c) < length (c_keys d))%nat.

Lemma confirmed_later ks c k : confirmed_by ks c -> confirmed_by (ks ++ [k]) c.
Proof.
  intros (s & rest & later & -> & H). exists s, (rest ++ [k]), later. by rewrite <- app_assoc.
Qed.
Lemma confirmed_shorter ks c : confirmed_by ks c -> (length (c_keys c) < length ks)%nat.
Proof. intros (s & rest & later & -> & _). rewrite length_app. cbn. lia. Qed.

(** What the task at work, or the one that waits, may still do. *)
Definition remaining (w : world) (b : option effect) : Prop :=
  match running w with
  | Some t => within b t /\ busy_ (tasks w) = true /\ pending_ (tasks w) = None
  | None => busy_ (tasks w) = false /\ b = pending_ (tasks w) ≫= effect_of_task
  end.

Definition accounted_for (ks : list key) (es : list effect) : Prop :=
  exists cs, Forall (confirmed_by ks) cs /\ StronglySorted earlier cs /\ sublist es (omap c_effect cs).

Record invariant (w : world) : Prop := {
  inv_ui : reach edit (keys w) (ui w);
  inv_refreshing : match refreshing w with Some t => calls_ok quiet t | None => True end;
  inv_tasks : exists b, remaining w b /\ accounted_for (keys w) (effects (calls w) ++ option_list b);
}.

Lemma accounted_less ks es b : accounted_for ks (es ++ option_list b) -> accounted_for ks (es ++ []).
Proof.
  intros (cs & Hc & Hs & Hl). exists cs. split_and!; [done..|]. etransitivity; [|exact Hl].
  apply sublist_app; [done|apply sublist_nil_l].
Qed.
Lemma accounted_later ks k es : accounted_for ks es -> accounted_for (ks ++ [k]) es.
Proof.
  intros (cs & Hc & Hs & Hl). exists cs. split_and!; [|done..].
  eapply Forall_impl; [exact Hc|]. intros c. apply confirmed_later.
Qed.

Lemma strongly_sorted_snoc cs c :
  StronglySorted earlier cs -> Forall (fun d => earlier d c) cs -> StronglySorted earlier (cs ++ [c]).
Proof.
  induction 1 as [|d cs Hs IH Hd]; intros Hc; cbn; [repeat constructor|].
  inversion_clear Hc. constructor; [by apply IH|]. apply Forall_app. by split; [|repeat constructor].
Qed.

(** A new confirmation accounts for the effect of its action. *)
Lemma accounted_confirmed ks s action target pid later es :
  accounted_for ks (es ++ []) ->
  chosen edit action target pid ks later ->
  (if bool_decide (action = KillProcess) then
     exists k1 s' k2, later = k1 ++ (s', Character $"y") :: k2 /\ forallb ignored k1 = true /\ forallb ignored k2 = true
   else forallb ignored later = true) ->
  accounted_for (ks ++ [(s, Character $"y")]) (es ++ option_list (effect_of_action action target pid)).
Proof.
  rewrite app_nil_r. intros (cs & Hc & Hs & Hl) Hch Hp.
  exists (cs ++ [mkConfirmation ks action target pid]). split_and!.
  - apply Forall_app. split; [eapply Forall_impl; [exact Hc|]; intros c; apply confirmed_later|].
    constructor; [|constructor]. by exists s, [], later.
  - apply strongly_sorted_snoc; [done|]. eapply Forall_impl; [exact Hc|]. intros c. apply confirmed_shorter.
  - rewrite omap_app. apply sublist_app; [done|]. unfold c_effect. cbn. by destruct (effect_of_action _ _ _).
Qed.

Lemma invariant_key w event r :
  invariant w -> handle (snapshot w) event (ui w) (tasks w) = Some r ->
  invariant (mkWorld (keys w ++ [(snapshot w, event)]) (after_input edit event r) (r_tasks r) (running w)
               (snapshot w) (dashboard w) (refreshing w) (calls w)).
Proof.
  intros [Hu Hf (b & Hr & Ha)] H. pose proof (handle_tasks _ _ _ _ _ H) as (Hbusy & _ & Hpend).
  split; cbn [keys ui refreshing]; [by eapply reach_key|done|].
  destruct Hpend as [Hp|[Hp Hb]].
  - exists b. split; [|by apply accounted_later]. unfold remaining in *. cbn [running tasks].
    by rewrite Hbusy, Hp.
  - unfold remaining in Hr. destruct (running w) as [t|] eqn:Er; [by destruct Hr as (_ & Hr & _); congruence|].
    destruct Hr as [_ ->]. rewrite Hp in Ha. cbn [mbind option_bind option_list] in Ha.
    exists (pending_ (r_tasks r) ≫= effect_of_task). split; [unfold remaining; cbn [running tasks]; by rewrite Hbusy|].
    destruct (pending_ (r_tasks r)) as [task|] eqn:Et; [|by apply accounted_later].
    destruct task as [query|action target pid|resource|query|]; try by apply accounted_later.
    destruct (actions_confirmed _ _ _ _ _ _ _ _ _ _ Hu H Hp Et) as (-> & _ & later & Hc & Hpat).
    by eapply accounted_confirmed.
Qed.

Lemma invariant_tasks w worker t tr b' :
  invariant w ->
  (forall b, remaining w b -> accounted_for (keys w) (effects (calls w) ++ option_list b) ->
   remaining (set_running worker t tr w) b' /\ accounted_for (keys w) (effects (calls w ++ tr) ++ option_list b')) ->
  invariant (set_running worker t tr w).
Proof.
  intros [Hu Hf (b & Hr & Ha)] H. split; cbn; [done|done|]. exists b'. by apply (H b).
Qed.

Lemma invariant_refreshing w s d t tr :
  invariant w -> effects tr = [] -> match t with Some t => calls_ok quiet t | None => True end ->
  invariant (set_refreshing s d t tr w).
Proof.
  intros [Hu Hf (b & Hr & Ha)] He Ht. split; cbn; [done|done|].
  exists b. split; [exact Hr|]. by rewrite effects_app, He, app_nil_r.
Qed.

Lemma invariant_start : invariant start.
Proof. split; [constructor|done|]. exists None. split; [done|]. exists []. by repeat constructor. Qed.

Lemma invariant_wake w task worker :
  invariant w -> running w = None -> wake (tasks w) = Some (Some task, worker) ->
  invariant (set_running worker (Some (run_task S P task)) [] w).
Proof.
  intros Hi Hr Hw. apply (invariant_tasks _ _ _ _ (effect_of_task task)); [done|].
  intros b Hb Ha. unfold remaining in *. rewrite Hr in Hb. destruct Hb as [_ ->]. rewrite app_nil_r.
  unfold wake in Hw. destruct (stopping_ (tasks w)); [done|].
  destruct (pending_ (tasks w)) as [t|]; [|done]. injection Hw as -> <-.
  split; [|exact Ha]. split_and!; [apply task_within|done..].
Qed.

Lemma invariant_call w X (e : provE X) k x :
  invariant w -> running w = Some (Vis e k) -> invariant (set_running (tasks w) (Some (k x)) [Ev e x] w).
Proof.
  intros Hi Hr.
  destruct (effect_of (Ev e x)) as [f|] eqn:E.
  - apply (invariant_tasks _ _ _ _ None); [done|]. intros b Hb Ha. unfold remaining in *. rewrite Hr in Hb.
    destruct Hb as (Hw & Hb & Hp). specialize (Hw x). rewrite E in Hw. destruct Hw as [-> Hw].
    split; [by split_and!|]. rewrite effects_app. unfold effects at 2. cbn [omap list_omap]. rewrite E.
    by rewrite app_nil_r.
  - destruct Hi as [Hu Hf (b & Hb & Ha)]. split; cbn; [done|done|]. exists b. unfold remaining in *. rewrite Hr in Hb.
    destruct Hb as (Hw & Hb & Hp). specialize (Hw x). rewrite E in Hw.
    split; [by split_and!|]. rewrite effects_app. unfold effects at 2. cbn [omap list_omap]. rewrite E.
    by rewrite app_nil_r.
Qed.

Lemma invariant_publish w t value :
  invariant w -> running w = Some t -> invariant (set_running (publish value (tasks w)) None [] w).
Proof.
  intros Hi Hr. apply (invariant_tasks _ _ _ _ None); [done|]. intros b Hb Ha. unfold remaining in *. rewrite Hr in Hb.
  destruct Hb as (_ & _ & Hp). split; [split; [done|]; cbn; by rewrite Hp|]. rewrite (app_nil_r (calls w)).
  by eapply accounted_less.
Qed.

Lemma step_invariant w w' : invariant w -> step w w' -> invariant w'.
Proof.
  intros Hi Hs. destruct Hs as [event r H| |task worker Hr Hb Hw|X e k x Hr|value Hr|t what Hr|Hf|X e k x Hf|s d Hf].
  - by apply invariant_key.
  - destruct Hi as [Hu Hf (b & Hr & Ha)]. split; cbn; [done|done|]. exists b. by rewrite app_nil_r.
  - by apply invariant_wake.
  - by apply invariant_call.
  - by eapply invariant_publish.
  - by eapply invariant_publish.
  - apply invariant_refreshing; [done..|]. apply calls_ok_bind; [done|]. intros now.
    apply read_only_calls_quiet, DashboardService.refreshAt_read_only.
  - pose proof (inv_refreshing _ Hi) as Hq. rewrite Hf in Hq. destruct Hq as [He Hk].
    apply invariant_refreshing; [done| |apply Hk]. unfold effects. cbn [omap list_omap].
    by rewrite quiet_no_effect.
  - by apply invariant_refreshing.
Qed.

Lemma session_invariant w : session w -> invariant w.
Proof. induction 1 as [|w w' _ IH Hs]; [apply invariant_start|by eapply step_invariant]. Qed.

(** ** Down to the kernel *)

(** An effect as the kernel and systemd see it. *)
Definition native_signal (f : effect) : option (Z * Z) :=
  match f with Signalled pid s => Some (native (pid, s)) | Submitted _ => None end.
Definition native_job (f : effect) : option (str * str) :=
  match f with Signalled _ _ => None | Submitted job => Some (manager_job job) end.

Lemma native_signals tr : map native (signals tr) = omap native_signal (effects tr).
Proof.
  induction tr as [|ev tr IH]; [done|]. rewrite signals_cons, map_app, IH.
  change (ev :: tr) with ([ev] ++ tr). rewrite effects_app, omap_app. f_equal.
  destruct ev as [X e x]. by destruct e.
Qed.
Lemma native_jobs tr : map manager_job (jobs tr) = omap native_job (effects tr).
Proof.
  induction tr as [|ev tr IH]; [done|]. rewrite jobs_cons, map_app, IH.
  change (ev :: tr) with ([ev] ++ tr). rewrite effects_app, omap_app. f_equal.
  destruct ev as [X e x]. by destruct e.
Qed.

Section Linux.
Context {messages : OsCalls.Messages} {socket_sort : NetlinkSocketProvider.SocketSort}.

(** C15. A session does what was confirmed, and no more.  However the three threads
interleave, whatever the keys are and the system answers, and also while a task is at
work: the signals and service jobs of a session, in their order, are effects of
confirmations by the user, each counted once and in the order of their keys; a
confirmation is a [y] on an action chosen by its own key on what was selected then, a
second one for SIGKILL, with no cancelling key in between.  When the Linux adapters
answer the calls, the signals the kernel accepts and the jobs systemd is asked for are
those of the same confirmations. *)
Theorem session_effects_confirmed w :
  session w ->
  exists cs, Forall (confirmed_by (keys w)) cs /\ StronglySorted earlier cs /\
    sublist (effects (calls w)) (omap c_effect cs) /\
    forall cfg trF, realizes (linux cfg) (calls w) trF ->
      sublist (kernel_signals trF) (omap native_signal (omap c_effect cs)) /\
      sublist (manager_jobs trF) (omap native_job (omap c_effect cs)).
Proof.
  intros Hs. destruct (inv_tasks _ (session_invariant _ Hs)) as (b & _ & Ha).
  apply accounted_less in Ha. rewrite app_nil_r in Ha. destruct Ha as (cs & Hc & Hsorted & Hl).
  exists cs. split_and!; [done..|]. intros cfg trF Hre. split.
  - rewrite (kernel_signals_accepted _ _ _ Hre). etransitivity; [apply accepted_sublist|].
    rewrite native_signals. by apply sublist_omap.
  - etransitivity; [by eapply manager_jobs_submitted|]. rewrite native_jobs. by apply sublist_omap.
Qed.
End Linux.

(** ** Whole operations of a thread as steps *)

Lemma session_refreshes w t tr s d :
  session w -> refreshing w = Some t -> runs t tr (s, d) -> session (set_refreshing (Some s) d None tr w).
Proof.
  revert tr w. induction t as [a|X e k IH]; intros tr w Hs Hf.
  - intros [-> <-]. eapply session_step; [exact Hs|]. by apply step_refresh_returns.
  - intros (x & tr' & -> & Hr).
    assert (Hs1 : session (set_refreshing (snapshot w) (dashboard w) (Some (k x)) [Ev e x] w))
      by (eapply session_step; [exact Hs|]; by apply step_refresh_call).
    specialize (IH x tr' _ Hs1 eq_refl Hr). unfold set_refreshing in *. cbn in IH. by rewrite <- app_assoc in IH.
Qed.
Lemma session_refresh w tr s d :
  session w -> refreshing w = None -> runs (DashboardService.refresh S (dashboard w)) tr (s, d) ->
  session (set_refreshing (Some s) d None tr w).
Proof.
  intros Hs Hf Hr.
  assert (Hs1 : session (set_refreshing (snapshot w) (dashboard w) (Some (DashboardService.refresh S (dashboard w))) [] w))
    by (eapply session_step; [exact Hs|]; by apply step_refresh).
  pose proof (session_refreshes _ _ _ _ _ Hs1 eq_refl Hr) as H. unfold set_refreshing in *. cbn in H.
  by rewrite app_nil_r in H.
Qed.

Lemma session_performs w t tr value :
  session w -> running w = Some t -> runs t tr value ->
  session (set_running (publish value (tasks w)) None tr w).
Proof.
  revert tr w. induction t as [a|X e k IH]; intros tr w Hs Hf.
  - intros [-> ->]. eapply session_step; [exact Hs|]. by apply step_task_returns.
  - intros (x & tr' & -> & Hr).
    assert (Hs1 : session (set_running (tasks w) (Some (k x)) [Ev e x] w))
      by (eapply session_step; [exact Hs|]; by apply step_task_call).
    specialize (IH x tr' _ Hs1 eq_refl Hr). unfold set_running in *. cbn in IH. by rewrite <- app_assoc in IH.
Qed.
Lemma session_task w task worker tr value :
  session w -> running w = None -> busy_ (tasks w) = false -> wake (tasks w) = Some (Some task, worker) ->
  runs (run_task S P task) tr value ->
  session (set_running (publish value worker) None tr w).
Proof.
  intros Hs Hr Hb Hw Ht.
  assert (Hs1 : session (set_running worker (Some (run_task S P task)) [] w))
    by (eapply session_step; [exact Hs|]; by apply step_wake).
  pose proof (session_performs _ _ _ _ Hs1 eq_refl Ht) as H. unfold set_running in *. cbn in H.
  by rewrite app_nil_r in H.
Qed.

(** Keys pressed while the workers rest. *)
Fixpoint press_keys (events : list Event) (w : world) : option world :=
  match events with
  | [] => Some w
  | event :: rest =>
      r ← handle (snapshot w) event (ui w) (tasks w);
      press_keys rest (mkWorld (keys w ++ [(snapshot w, event)]) (after_input edit event r) (r_tasks r) (running w)
                         (snapshot w) (dashboard w) (refreshing w) (calls w))
  end.
Lemma session_keys events w w' : session w -> press_keys events w = Some w' -> session w'.
Proof.
  revert w. induction events as [|event events IH]; intros w Hs; cbn [press_keys]; [by intros [= <-]|].
  destruct (handle _ _ _ _) as [r|] eqn:E; [|done]. cbn [mbind option_bind]. apply IH.
  eapply session_step; [exact Hs|]. by apply step_key.
Qed.
End Session.

(** ** An example: the dashboard shows the processes, the second one is killed *)

Section Example.
#[local] Existing Instance elements_order.
Abbreviation sim_ports := (app_ports sim_app).
Abbreviation sim_processes := (app_processes sim_app).

Definition keep (_ : Event) (query : str) : str := query.
Abbreviation sim_session := (session sim_ports sim_processes keep).

Definition refreshed_world : world :=
  let r := run Sim.sim (DashboardService.refresh sim_ports DashboardService.initial) Sim.sim_machine in
  set_refreshing (Some r.1.1.1) r.1.1.2 None r.1.2 start.
Definition killing : list Event :=
  [ArrowLeft; ArrowDown; Character $"K"; Character $"y"; Character $"y"].
(** The task of the worker, to its end. *)
Definition perform (w : world) : option world :=
  match running w, busy_ (tasks w), wake (tasks w) with
  | None, false, Some (Some task, worker) =>
      let r := run Sim.sim (run_task sim_ports sim_processes task) Sim.sim_machine in
      Some (set_running (publish r.1.1 worker) None r.1.2 w)
  | _, _, _ => None
  end.
Definition killed_world : option world := press_keys keep killing refreshed_world ≫= perform.

Lemma refreshed_session : sim_session refreshed_world.
Proof.
  apply (session_refresh sim_ports sim_processes keep start); [constructor|done|].
  rewrite <- surjective_pairing. apply run_runs.
Qed.
Lemma perform_session w w' : sim_session w -> perform w = Some w' -> sim_session w'.
Proof.
  intros Hs. unfold perform. destruct (running w) eqn:Er; [done|]. destruct (busy_ (tasks w)) eqn:Eb; [done|].
  destruct (wake (tasks w)) as [[[task|] worker]|] eqn:Ew; [|done..]. intros [= <-].
  eapply session_task; [done..|]. apply run_runs.
Qed.

(** The kill of the session was confirmed twice. *)
Lemma session_effects_confirmed_witness :
  exists w c, sim_session w /\ effects (calls w) = [Signalled 301 Kill] /\
    confirmed_by keep (keys w) c /\ c_effect c = Some (Signalled 301 Kill).
Proof.
  assert (He : (fun w => effects (calls w)) <$> killed_world = Some [Signalled 301 Kill]) by (vm_compute; reflexivity).
  unfold killed_world in He. destruct (press_keys keep killing refreshed_world) as [w1|] eqn:E1; [|discriminate].
  apply session_keys with (S := sim_ports) (P := sim_processes) in E1; [|exact refreshed_session].
  cbn [mbind option_bind] in He. destruct (perform w1) as [w|] eqn:E2; [|discriminate].
  apply perform_session in E2; [|exact E1]. injection He as He.
  destruct (session_effects_confirmed (messages := OsCalls.plain_messages)
    (socket_sort := NetlinkSocketProvider.stable_sockets) sim_ports sim_processes keep w E2) as (cs & Hc & _ & Hl & _).
  rewrite He in Hl. apply sublist_submseteq in Hl.
  assert (Hin : Signalled 301 Kill ∈ omap c_effect cs) by (eapply elem_of_submseteq; [apply elem_of_cons; by left|exact Hl]).
  apply list_elem_of_omap in Hin as (c & Hcs & Hf). exists w, c. split_and!; [exact E2|exact He| |exact Hf].
  rewrite Forall_forall in Hc. by apply Hc.
Defined.
End Example.
