(* ===== verification/TuiFrame.v ===== *)
(** * The frame of a session ([src/tui/FtxuiTuiRunner.cpp], [FtxuiTuiRunner::run])

What [run] builds around the event loop and what becomes of it when something throws:
the screen, the dashboard worker and the task worker are local variables, destroyed
against the order of their construction on every way out of the block, and the workers
post events to the screen from their own threads until they are joined.  The session
inside the loop is [TuiRun]. *)

From S2P Require Import Prelude CppStd CppString Prog Domain.
From Stdlib Require Import Ascii.

(** What [run] asks for; [Some what] is a [std::exception]. *)
Variant frameE : Type -> Type :=
| Fullscreen : frameE (option str)       (* ScreenInteractive::Fullscreen() *)
| StartTasks : frameE (option str)       (* TaskWorker tasks: its thread starts *)
| StartDashboard : frameE (option str)   (* worker.start *)
| Loop : frameE (option str)             (* screen.Loop(root) *)
| StopDashboard : frameE unit            (* worker.stop(), and ~DashboardWorker *)
| JoinTasks : frameE unit                (* ~TaskWorker *)
| CloseScreen : frameE unit.             (* ~ScreenInteractive *)

(** ** Blocks with exceptions and destructors *)

Definition block : Type := prog frameE (option str).

(** A statement that may throw, and the rest of its block. *)
Definition statement (e : frameE (option str)) (rest : block) : block :=
  thrown <- trigger e ;;
  match thrown with Some what => Ret (Some what) | None => rest end.
(** The rest of a block in which a variable lives, which is then destroyed. *)
Definition living (destroy : frameE unit) (rest : block) : block :=
  thrown <- rest ;;
  _ <- trigger destroy ;;
  Ret thrown.
Definition call (e : frameE unit) (rest : block) : block := _ <- trigger e ;; rest.

(** The block of [try]; the constructor of the dashboard worker only stores its
reference. *)
Definition body : block :=
  statement Fullscreen (living CloseScreen
    (living StopDashboard
      (statement StartTasks (living JoinTasks
        (statement StartDashboard
          (statement Loop
            (call StopDashboard (Ret None)))))))).

Definition terminal_error (what : str) : Error :=
  mkError OperationFailed ($"Unable to run terminal UI: " ++ what) 0 $"tui" $"run".

Definition run : prog frameE (Result unit) :=
  thrown <- body ;;
  match thrown with Some what => Ret (Failure (terminal_error what)) | None => Ret (Success tt) end.

(** ** Lifetimes *)

(** The screen, and the threads that hold a reference to it. *)
Record alive := mkAlive { screen : bool; tasks : bool; dashboard : bool }.
#[export] Instance alive_eq_dec : EqDecision alive.
Proof. solve_decision. Defined.
Definition nothing : alive := mkAlive false false false.

(** Whether a call may be made: nothing is built twice, a thread has a screen to post to
from its first step to its last, and the loop has both workers. *)
Definition may {X} (e : frameE X) (a : alive) : bool :=
  match e with
  | Fullscreen => bool_decide (a = nothing)
  | StartTasks => screen a && negb (tasks a)
  | StartDashboard => screen a && negb (dashboard a)
  | Loop => screen a && tasks a && dashboard a
  | StopDashboard => screen a
  | JoinTasks => screen a && tasks a
  | CloseScreen => screen a && negb (tasks a) && negb (dashboard a)
  end.

(** What a call leaves alive; one that throws has built nothing. *)
Definition after {X} (e : frameE X) : X -> alive -> alive :=
  match e in frameE X return X -> alive -> alive with
  | Fullscreen => fun thrown a => mkAlive (bool_decide (thrown = None)) (tasks a) (dashboard a)
  | StartTasks => fun thrown a => mkAlive (screen a) (bool_decide (thrown = None)) (dashboard a)
  | StartDashboard => fun thrown a => mkAlive (screen a) (tasks a) (bool_decide (thrown = None))
  | Loop => fun _ a => a
  | StopDashboard => fun _ a => mkAlive (screen a) (tasks a) false
  | JoinTasks => fun _ a => mkAlive (screen a) false (dashboard a)
  | CloseScreen => fun _ a => mkAlive false (tasks a) (dashboard a)
  end.

(** The lifetimes along a trace, if every call may be made. *)
Fixpoint lifetimes (a : alive) (tr : trace frameE) : option alive :=
  match tr with
  | [] => Some a
  | Ev e x :: tr' => if may e a then lifetimes (after e x a) tr' else None
  end.

(** The exception of a call. *)
Definition thrown_by (ev : event frameE) : option str :=
  match ev with
  | Ev e x =>
      match e in frameE X return X -> option str with
      | Fullscreen | StartTasks | StartDashboard | Loop => fun thrown => thrown
      | StopDashboard | JoinTasks | CloseScreen => fun _ => None
      end x
  end.

(** The loop was run. *)
Definition looped (tr : trace frameE) : Prop := Ev Loop None ∈ tr.

Lemma runs_body tr thrown :
  runs body tr thrown ->
  lifetimes nothing tr = Some nothing /\ omap thrown_by tr = option_list thrown /\
  (thrown = None -> looped tr).
Proof.
  assert (Hin : forall x before (after : trace frameE), x ∈ before ++ x :: after)
    by (intros; apply elem_of_app; right; by left).
  unfold body, statement, living, call. cbn. intros ([what|] & tr1 & -> & H).
  - cbn in H. by destruct H as [-> ->].
  - cbn in H. destruct H as ([what|] & tr2 & -> & H).
    + cbn in H. destruct H as (? & ? & -> & ? & ? & -> & -> & ->). done.
    + cbn in H. destruct H as ([what|] & tr3 & -> & H).
      * cbn in H. destruct H as (? & ? & -> & ? & ? & -> & ? & ? & -> & -> & ->). done.
      * cbn in H. destruct H as ([what|] & tr4 & -> & H).
        -- cbn in H. destruct H as (? & ? & -> & ? & ? & -> & ? & ? & -> & -> & ->). done.
        -- cbn in H. destruct H as (? & ? & -> & ? & ? & -> & ? & ? & -> & ? & ? & -> & -> & ->).
           split_and!; [done..|]. intros _. apply (Hin _ [_; _; _]).
Qed.

(** The terminal interface cleans up.  Whatever throws: the workers live within the
lifetime of the screen they post to, both are joined before it is closed, and nothing
is left when [run] returns.  The run succeeds exactly when nothing was thrown, and then
the loop ran with both workers; otherwise the first exception is the error. *)
Theorem run_cleans_up tr result :
  runs run tr result ->
  lifetimes nothing tr = Some nothing /\
  match result with
  | Success _ => omap thrown_by tr = [] /\ looped tr
  | Failure e => exists what, omap thrown_by tr = [what] /\ e = terminal_error what
  end.
Proof.
  unfold run. intros (tr1 & thrown & tr2 & -> & (Hl & Ht & Hloop)%runs_body & H)%runs_bind.
  destruct thrown as [what|]; destruct H as [-> ->]; rewrite app_nil_r; split; eauto.
Qed.

(** The loop throws: the workers are joined, the screen is closed. *)
Lemma run_cleans_up_witness :
  exists tr, runs run tr (Failure (terminal_error $"lost")) /\ lifetimes nothing tr = Some nothing.
Proof.
  assert (H : runs run [Ev Fullscreen None; Ev StartTasks None; Ev StartDashboard None; Ev Loop (Some $"lost");
    Ev JoinTasks tt; Ev StopDashboard tt; Ev CloseScreen tt] (Failure (terminal_error $"lost"))).
  { repeat (eexists; eexists; split; [reflexivity|cbn]). by split. }
  eexists. split; [exact H|]. exact (proj1 (run_cleans_up _ _ H)).
Defined.

(** ** The constructor of the task worker

Members are initialised in the order of their declaration, and the thread starts when
its member is. *)

Inductive member := M_updated | M_mutex | M_wake | M_pending | M_result | M_thread | M_busy | M_stopping.
#[export] Instance member_eq_dec : EqDecision member.
Proof. solve_decision. Defined.

Definition members : list member :=
  [M_updated; M_mutex; M_wake; M_pending; M_result; M_thread; M_busy; M_stopping].
(** What [work] uses up to its first test of the wait. *)
Definition first_reads : list member := [M_mutex; M_wake; M_stopping; M_pending].
(** The members that the thread may use before they are initialised, when [n] of them are. *)
Definition unready (n : nat) : list member :=
  if bool_decide (M_thread ∈ take n members) then
    List.filter (fun m => bool_decide (m ∉ take n members)) first_reads
  else [].

(** Only [stopping_] is read too early, and only until the constructor is done. *)
Lemma stopping_read_early n : unready n = if (5 <? n)%nat && (n <? 8)%nat then [M_stopping] else [].
Proof.
  do 8 (destruct n as [|n]; [reflexivity|]). reflexivity.
Qed.
