(* ===== verification/Handles.v ===== *)
(** * Owning handles ([src/linux/process/PidFd.cpp], [src/linux/systemd/SdBus.cpp], [SdJournal.cpp])

The five classes that own a resource of the system: [PidFd], [SdBusConnection],
[SdBusMessage], [SdJournal] and [JournalCursor].  An object holds a value, a
descriptor or a pointer; it can be moved from, assigned by a move, destroyed, and
two of the classes give a library function the address of their value with [put].
Releasing what is not open, a double close, is an undefined step here. *)

From S2P Require Import Prelude.

(** A statement of a member function: what it does to the value of the object. *)
Inductive statement :=
| Release                       (* sd_bus_unref(bus_), ..., free(cursor_) *)
| ReleaseIf (guard : Z -> bool) (* if (fd_ >= 0) close(fd_) *)
| Exchange                      (* fd_ = std::exchange(other.fd_, -1) *)
| Reset.                        (* message_ = nullptr *)

(** A class by the bodies of its member functions. *)
Record handle_class := mkHandleClass {
  null : Z;                             (* the value of an object that owns nothing *)
  owned : Z -> bool;                    (* releasing the value has an effect *)
  default_constructor : bool;
  destructor : list statement;
  move_constructor : list statement;
  move_assignment : list statement;     (* when the objects are different *)
  put_member : option (list statement);
}.

(** A descriptor. *)
Definition is_fd (fd : Z) : bool := 0 <=? fd.
Definition PidFd : handle_class :=
  mkHandleClass (-1) is_fd false [ReleaseIf is_fd] [Exchange] [ReleaseIf is_fd; Exchange] None.
(** [sd_bus_unref], [sd_bus_message_unref], [sd_journal_close] and [free] do nothing on a
null pointer. *)
Definition not_null (pointer : Z) : bool := negb (pointer =? 0).
Definition SdBusConnection : handle_class :=
  mkHandleClass 0 not_null true [Release] [Exchange] [Release; Exchange] None.
Definition SdBusMessage : handle_class :=
  mkHandleClass 0 not_null true [Release] [Exchange] [Release; Exchange] (Some [Release; Reset]).
Definition SdJournal : handle_class :=
  mkHandleClass 0 not_null true [Release] [Exchange] [Release; Exchange] None.
Definition JournalCursor : handle_class :=
  mkHandleClass 0 not_null true [Release] [Exchange] [Release; Exchange] (Some [Release; Reset]).

(** The live objects of a class with their values, and the resources that are open. *)
Record heap := mkHeap { objects : gmap nat Z; opened : gset Z }.
Definition empty_heap : heap := mkHeap ∅ ∅.

Section Class.
Variable c : handle_class.

(** [None]: a resource that is not open would be released. *)
Definition release (v : Z) (h : heap) : option heap :=
  if owned c v then
    if bool_decide (v ∈ opened h) then Some (mkHeap (objects h) (opened h ∖ {[v]})) else None
  else Some h.

Definition store (o : nat) (v : Z) (h : heap) : heap := mkHeap (<[o := v]> (objects h)) (opened h).
(** The system opens a resource for a value that owns one. *)
Definition opening (v : Z) (h : heap) : heap :=
  if owned c v then mkHeap (objects h) ({[v]} ∪ opened h) else h.

Definition exec (this other : nat) (s : statement) (h : heap) : option heap :=
  match s with
  | Release => v ← objects h !! this; release v h
  | ReleaseIf guard => v ← objects h !! this; if guard v then release v h else Some h
  | Exchange => v ← objects h !! other; Some (store this v (store other (null c) h))
  | Reset => Some (store this (null c) h)
  end.
Fixpoint body (this other : nat) (ss : list statement) (h : heap) : option heap :=
  match ss with
  | [] => Some h
  | s :: rest => h ← exec this other s h; body this other rest h
  end.

(** The constructor from a value the system returned. *)
Definition construct (this : nat) (v : Z) (h : heap) : option heap := Some (store this v (opening v h)).
Definition default_construct (this : nat) (h : heap) : option heap := Some (store this (null c) h).
Definition move_construct (this other : nat) (h : heap) : option heap := body this other (move_constructor c) h.
(** [if (this == &other) return *this; ...] *)
Definition move_assign (this other : nat) (h : heap) : option heap :=
  if (this =? other)%nat then Some h else body this other (move_assignment c) h.
Definition destroy (this : nat) (h : heap) : option heap :=
  h ← body this this (destructor c) h;
  Some (mkHeap (delete this (objects h)) (opened h)).
(** [f(..., x.put(), ...)]: the function stores [v] where [put] points. *)
Definition put (this : nat) (v : Z) (h : heap) : option heap :=
  member ← put_member c;
  h ← body this this member h;
  Some (store this v (opening v h)).

Definition get (this : nat) (h : heap) : option Z := objects h !! this.

(** ** Programs that use the objects *)

Inductive operation :=
| Construct (this : nat) (v : Z)
| DefaultConstruct (this : nat)
| MoveConstruct (this other : nat)
| MoveAssign (this other : nat)
| Destroy (this : nat)
| Put (this : nat) (v : Z).

Definition step (op : operation) (h : heap) : option heap :=
  match op with
  | Construct this v => construct this v h
  | DefaultConstruct this => default_construct this h
  | MoveConstruct this other => move_construct this other h
  | MoveAssign this other => move_assign this other h
  | Destroy this => destroy this h
  | Put this v => put this v h
  end.

(** What the language and the system guarantee: an object is constructed once and used
while it lives; a resource that is opened was not open; the members exist. *)
Definition live (o : nat) (h : heap) : Prop := is_Some (objects h !! o).
Definition fresh (v : Z) (h : heap) : Prop := if owned c v then v ∉ opened h else v = null c.
Definition valid (op : operation) (h : heap) : Prop :=
  match op with
  | Construct this v => ~ live this h /\ fresh v h
  | DefaultConstruct this => ~ live this h /\ default_constructor c = true
  | MoveConstruct this other => ~ live this h /\ live other h
  | MoveAssign this other => live this h /\ live other h
  | Destroy this => live this h
  | Put this v => live this h /\ (fresh v h \/ objects h !! this = Some v) /\ is_Some (put_member c)
  end.

Inductive reachable : heap -> Prop :=
| reachable_empty : reachable empty_heap
| reachable_step h op h' : reachable h -> valid op h -> step op h = Some h' -> reachable h'.

(** ** Ownership *)

(** Every open resource has exactly one owner, and an object's value is open or null. *)
Record owners (h : heap) : Prop := {
  owner_open : forall o v, objects h !! o = Some v -> if owned c v then v ∈ opened h else v = null c;
  open_owner : forall v, v ∈ opened h -> owned c v = true /\ exists o, objects h !! o = Some v;
  one_owner : forall o1 o2 v, objects h !! o1 = Some v -> objects h !! o2 = Some v -> owned c v = true -> o1 = o2;
}.

(** The members are those of an owning handle: one statement releases, a move leaves the
other object with nothing. *)
Class HandleLaw : Prop := {
  null_not_owned : owned c (null c) = false;
  members : exists r,
    (forall this other h, exec this other r h = (v ← objects h !! this; release v h)) /\
    destructor c = [r] /\ move_constructor c = [Exchange] /\ move_assignment c = [r; Exchange] /\
    (put_member c = None \/ put_member c = Some [r; Reset]);
}.
Context {law : HandleLaw}.

(** The object owns nothing, or does not exist. *)
Definition vacant (o : nat) (h : heap) : Prop := forall v, objects h !! o = Some v -> owned c v = false.

Lemma owners_empty : owners empty_heap.
Proof. split; cbn; [set_solver|set_solver|set_solver]. Qed.

Lemma release_owned h this mine :
  owners h -> objects h !! this = Some mine ->
  exists h', release mine h = Some h' /\ objects h' = objects h /\ owners (store this (null c) h').
Proof.
  intros [H1 H2 H3] Hm. pose proof (H1 _ _ Hm) as Ho. unfold release. destruct (owned c mine) eqn:E.
  - rewrite bool_decide_eq_true_2 by done. eexists. split; [done|]. split; [done|]. split; cbn.
    + intros o v. rewrite lookup_insert_Some. intros [[<- <-]|[Hne Hv]]; [by rewrite null_not_owned|].
      pose proof (H1 _ _ Hv) as Hv1. destruct (owned c v) eqn:Ev; [|done].
      apply elem_of_difference. split; [done|]. intros ->%elem_of_singleton. by destruct Hne; eapply H3.
    + intros v [Hv Hne]%elem_of_difference. destruct (H2 _ Hv) as [Hov [o Hl]]. split; [done|].
      exists o. rewrite lookup_insert_ne; [done|]. intros <-. rewrite Hm in Hl. injection Hl as ->. set_solver.
    + intros o1 o2 v. rewrite !lookup_insert_Some.
      intros [[<- <-]|[N1 L1]] [[<- E2]|[N2 L2]] Hov; try done; try by rewrite null_not_owned in Hov.
      * by rewrite <- E2, null_not_owned in Hov.
      * by eapply H3.
  - exists h. split; [done|]. split; [done|]. split; cbn.
    + intros o v. rewrite lookup_insert_Some. intros [[<- <-]|[Hne Hv]]; [by rewrite null_not_owned|]. by eapply H1.
    + intros v Hv. destruct (H2 _ Hv) as [Hov [o Hl]]. split; [done|].
      exists o. rewrite lookup_insert_ne; [done|]. intros <-. congruence.
    + intros o1 o2 v. rewrite !lookup_insert_Some.
      intros [[<- <-]|[N1 L1]] [[<- E2]|[N2 L2]] Hov; try done; try by rewrite null_not_owned in Hov.
      * by rewrite <- E2, null_not_owned in Hov.
      * by eapply H3.
Qed.

Lemma owners_opened h this v : owners h -> vacant this h -> fresh v h -> owners (store this v (opening v h)).
Proof.
  intros [H1 H2 H3] Hv Hf. unfold fresh in Hf. unfold opening. destruct (owned c v) eqn:E; split; cbn.
  - intros o w. rewrite lookup_insert_Some. intros [[<- <-]|[Hne Hw]]; [rewrite E; set_solver|].
    pose proof (H1 _ _ Hw) as Hw1. destruct (owned c w); [set_solver|done].
  - intros w [->%elem_of_singleton|Hw]%elem_of_union; [split; [done|]; exists this; by rewrite lookup_insert_eq|].
    destruct (H2 _ Hw) as [Hov [o Hl]]. split; [done|]. exists o. rewrite lookup_insert_ne; [done|].
    intros <-. by rewrite (Hv _ Hl) in Hov.
  - intros o1 o2 w. rewrite !lookup_insert_Some. intros [[<- <-]|[N1 L1]] [[<- E2]|[N2 L2]] Hov; try done.
    + pose proof (H1 _ _ L2) as Hw. rewrite E in Hw. done.
    + subst w. pose proof (H1 _ _ L1) as Hw. rewrite E in Hw. done.
    + by eapply H3.
  - intros o w. rewrite lookup_insert_Some. intros [[<- <-]|[Hne Hw]]; [by rewrite E|]. by eapply H1.
  - intros w Hw. destruct (H2 _ Hw) as [Hov [o Hl]]. split; [done|]. exists o. rewrite lookup_insert_ne; [done|].
    intros <-. by rewrite (Hv _ Hl) in Hov.
  - intros o1 o2 w. rewrite !lookup_insert_Some. intros [[<- <-]|[N1 L1]] [[<- E2]|[N2 L2]] Hov; try done; try congruence.
    by eapply H3.
Qed.

Lemma owners_moved h this other v :
  owners h -> vacant this h -> this <> other -> objects h !! other = Some v ->
  owners (store this v (store other (null c) h)).
Proof.
  intros [H1 H2 H3] Hv Hne Ho. split; cbn.
  - intros o w. rewrite !lookup_insert_Some.
    intros [[<- <-]|[N1 [[<- <-]|[N2 Hw]]]]; [by apply (H1 other)|by rewrite null_not_owned|by eapply H1].
  - intros w Hw. destruct (H2 _ Hw) as [Hov [o Hl]]. split; [done|]. destruct (decide (o = other)) as [->|No].
    + rewrite Ho in Hl. injection Hl as ->. exists this. by rewrite lookup_insert_eq.
    + exists o. rewrite lookup_insert_ne by (intros <-; by rewrite (Hv _ Hl) in Hov).
      by rewrite lookup_insert_ne by done.
  - intros o1 o2 w. rewrite !lookup_insert_Some.
    intros [[<- <-]|[N1 [[<- <-]|[M1 L1]]]] [[<- E2]|[N2 [[<- E2]|[M2 L2]]]] Hov; try done.
    all: try (by rewrite null_not_owned in Hov); try (by rewrite <- E2, null_not_owned in Hov).
    + by destruct M2; eapply H3.
    + subst w. by destruct M1; eapply H3.
    + by eapply H3.
Qed.

Lemma owners_deleted h this :
  owners h -> vacant this h -> owners (mkHeap (delete this (objects h)) (opened h)).
Proof.
  intros [H1 H2 H3] Hv. split; cbn.
  - intros o v [_ Hl]%lookup_delete_Some. by eapply H1.
  - intros v Hw. destruct (H2 _ Hw) as [Hov [o Hl]]. split; [done|]. exists o.
    apply lookup_delete_Some. split; [|done]. intros <-. by rewrite (Hv _ Hl) in Hov.
  - intros o1 o2 v [_ L1]%lookup_delete_Some [_ L2]%lookup_delete_Some. by apply H3.
Qed.
Lemma vacant_none h this : ~ live this h -> vacant this h.
Proof. intros Hn v Hv. destruct Hn. by exists v. Qed.
Lemma vacant_null h this : vacant this (store this (null c) h).
Proof. intros v. cbn. rewrite lookup_insert_eq. intros [= <-]. apply null_not_owned. Qed.

(** The system may give back the resource that [put] has just released. *)
Lemma fresh_after_release h h' this mine v :
  owners h -> objects h !! this = Some mine -> release mine h = Some h' ->
  fresh v h \/ objects h !! this = Some v -> fresh v (store this (null c) h').
Proof.
  intros Ho Hm Hr Hf. pose proof (owner_open _ Ho _ _ Hm) as Hopen.
  unfold release in Hr. unfold fresh in *. cbn. destruct (owned c mine) eqn:Em.
  - rewrite bool_decide_eq_true_2 in Hr by done. injection Hr as <-. cbn. destruct Hf as [Hf|Hf].
    + destruct (owned c v); [set_solver|done].
    + assert (v = mine) as -> by congruence. rewrite Em. set_solver.
  - injection Hr as <-. destruct Hf as [Hf|Hf]; [done|]. assert (v = mine) as -> by congruence. by rewrite Em.
Qed.

Lemma step_owners h op : owners h -> valid op h -> exists h', step op h = Some h' /\ owners h'.
Proof.
  intros Ho. destruct members as (r & Hrel & Hd & Hmc & Hma & Hput).
  destruct op as [this v|this|this other|this other|this|this v]; cbn [valid step].
  - intros [Hn Hf]. eexists. split; [reflexivity|]. by apply owners_opened, Hf; [|apply vacant_none].
  - intros [Hn _]. eexists. split; [reflexivity|].
    replace h with (opening (null c) h) at 1 by (unfold opening; by rewrite null_not_owned).
    apply owners_opened; [done|by apply vacant_none|]. unfold fresh. by rewrite null_not_owned.
  - intros [Hn [v Hv]]. unfold move_construct. rewrite Hmc. cbn [body exec]. rewrite Hv.
    eexists. split; [reflexivity|].
    apply owners_moved; [done|by apply vacant_none| |done]. intros ->. by destruct Hn; exists v.
  - intros [[mine Hm] [v Hv]]. unfold move_assign. destruct (Nat.eqb_spec this other) as [->|Hne]; [eauto|].
    rewrite Hma. cbn [body]. rewrite Hrel, Hm. cbn [mbind option_bind].
    destruct (release_owned h this mine Ho Hm) as (h' & -> & Eo & Ho'). cbn [mbind option_bind exec]. rewrite Eo, Hv.
    eexists. split; [reflexivity|].
    pose proof (owners_moved _ this other v Ho' (vacant_null _ _) Hne) as Hw.
    assert (Es : store this v (store other (null c) (store this (null c) h')) = store this v (store other (null c) h')).
    { unfold store. cbn. f_equal. rewrite (insert_insert_ne (objects h')) by done. by rewrite insert_insert_eq. }
    rewrite Es in Hw. apply Hw. cbn. rewrite lookup_insert_ne by done. by rewrite Eo.
  - intros [mine Hm]. unfold destroy. rewrite Hd. cbn [body]. rewrite Hrel, Hm. cbn [mbind option_bind].
    destruct (release_owned h this mine Ho Hm) as (h' & -> & Eo & Ho'). eexists. split; [reflexivity|].
    pose proof (owners_deleted _ this Ho' (vacant_null _ _)) as Hw. cbn in Hw. by rewrite delete_insert_eq in Hw.
  - intros ([mine Hm] & Hf & Hp). unfold put. destruct Hput as [Hput|Hput]; rewrite Hput in *;
      [by destruct Hp|]. cbn [body mbind option_bind]. rewrite Hrel, Hm. cbn [mbind option_bind].
    destruct (release_owned h this mine Ho Hm) as (h' & Hr & Eo & Ho'). rewrite Hr. eexists. split; [reflexivity|].
    apply owners_opened; [done|apply vacant_null|]. exact (fresh_after_release _ _ _ _ _ Ho Hm Hr Hf).
Qed.

Lemma reachable_owners h : reachable h -> owners h.
Proof.
  induction 1 as [|h op h' _ IH Hv Hs]; [apply owners_empty|].
  destruct (step_owners h op IH Hv) as (h2 & Hs' & Ho). congruence.
Qed.

End Class.

(** ** The classes *)

Lemma members_of c r :
  (forall this other h, exec c this other r h = (v ← objects h !! this; release c v h)) ->
  owned c (null c) = false ->
  destructor c = [r] -> move_constructor c = [Exchange] -> move_assignment c = [r; Exchange] ->
  put_member c = None \/ put_member c = Some [r; Reset] -> HandleLaw c.
Proof. intros. split; [done|]. by exists r. Qed.

#[export] Instance PidFd_law : HandleLaw PidFd.
Proof.
  apply (members_of _ (ReleaseIf is_fd)); auto. intros this other h. cbn.
  destruct (objects h !! this) as [v|]; [|done]. cbn. unfold release. cbn. by destruct (is_fd v).
Qed.
#[export] Instance SdBusConnection_law : HandleLaw SdBusConnection.
Proof. apply (members_of _ Release); auto. Qed.
#[export] Instance SdBusMessage_law : HandleLaw SdBusMessage.
Proof. apply (members_of _ Release); auto. Qed.
#[export] Instance SdJournal_law : HandleLaw SdJournal.
Proof. apply (members_of _ Release); auto. Qed.
#[export] Instance JournalCursor_law : HandleLaw JournalCursor.
Proof. apply (members_of _ Release); auto. Qed.

(** ** An example *)

