(* ===== verification/Main.v ===== *)
(** * The program ([src/main.cpp])

[main] puts the parts together: the services on the Linux adapters, the command
line on the services, the terminal interface when the program is started without
arguments on a terminal.  The commands of [CliApp] run on the calls of the kernel,
of libsystemd and of the terminal, and what they guarantee holds there. *)

From S2P Require Import Prelude CppStd CppString Prog Domain Contracts OsCalls Sim.
From S2P Require Import ProcessService PortService PortServiceProofs NetlinkSocketProvider.
From S2P Require Import LinuxSignalProvider LinuxAdapters.
From S2P Require Import CliText CliApp CliOptions CliAppTheorems CliFollow.
From S2P Require JsonSerializer LogService ServiceService SystemdServiceProvider.
From Stdlib Require Import Ascii.

Section Main.
Context {formats : Formats} {messages : Messages} {HO : HashOrder} {socket_sort : SocketSort}.
Context (cfg : config).
(** [LX_HAS_TUI] *)
Variable tui : bool.

(** The journal provider the command line follows with. *)
Definition main_follow : JournalFollow := {|
  followE := Journal.journalE;
  provider_follow query :=
    if cfg_systemd cfg then
      interp split_callbacks (Journal.follow (cfg_rounds cfg) true true query)
    else Ret (SystemdServiceProvider.unavailable_journal systemd_reason SystemdServiceProvider.OpFollow);
|}.
#[local] Existing Instance main_follow.

(** The calls of the program: those of the system, and those of the command line that
are not calls of a provider (its streams, its prompts, the interrupt, the terminal
interface). *)
Variant appE : Type -> Type :=
| Sys {X} (e : sysE X) : appE X
| Console {X} (e : cliE X) : appE X
| IsATty (fd : Z) : appE bool.

Definition host (X : Type) (e : cliE X) : prog appE X :=
  match e in cliE X return prog appE X with
  | Svc e => lift (@Sys) (linux cfg _ e)
  | Fl e => trigger (Sys (Jn e))
  | e => trigger (Console e)
  end.

(** The grace period of [PortService] in milliseconds, its default. *)
Definition defaultGracePeriod : Z := 3000.

(** The services [main] builds, for the process that runs it. *)
Definition main_app (pid : Z) (turns : nat) : App :=
  let processService := mkProcessService pid true in
  mkApp processService (mkPortService processService true defaultGracePeriod) true tui turns.

Variable turns : nat.
Variable dump : JsonSerializer.json -> option str.
Variable get_time : str -> option (LogService.tm * str).
Variable mktime : LogService.tm -> Z.
Variable localtime_r : Z -> option LogService.tm.
Variable parse : bool -> list str -> ParseFailure + Options.

Definition STDIN_FILENO : Z := 0.
Definition STDOUT_FILENO : Z := 1.

(** [argc == 1 && ::isatty(STDIN_FILENO) && ::isatty(STDOUT_FILENO)] *)
Definition interactive (arguments : list str) : prog appE bool :=
  if bool_decide (arguments = []) then
    input <- trigger (IsATty STDIN_FILENO) ;;
    if input : bool then trigger (IsATty STDOUT_FILENO) else Ret false
  else Ret false.

Definition run_dashboard : prog appE Z :=
  result <- trigger (Console RunTui) ;;
  match result with
  | Failure error => _ <- trigger (Console (Io (Diagnostic (err_message error ++ [nl])))) ;; Ret 5
  | Success _ => Ret 0
  end.

(** [arguments] without the name of the program. *)
Definition main (arguments : list str) : prog appE Z :=
  pid <- trigger (Sys (Pv GetPid)) ;;
  started <- (if tui then interactive arguments else Ret false) ;;
  if started : bool then run_dashboard
  else interp host (run_ (main_app pid turns) dump get_time mktime localtime_r parse arguments).

(** ** What a run shows of its calls *)

Definition sys_event (ev : event appE) : option (event sysE) :=
  match ev with
  | Ev e x => match e in appE X return X -> option (event sysE) with
              | Sys e => fun x => Some (Ev e x)
              | _ => fun _ => None
              end x
  end.
Definition console_event (ev : event appE) : option (event cliE) :=
  match ev with
  | Ev e x => match e in appE X return X -> option (event cliE) with
              | Console e => fun x => Some (Ev e x)
              | _ => fun _ => None
              end x
  end.
Definition sys_part (tr : trace appE) : trace sysE := omap sys_event tr.
(** What was written and read, in order. *)
Definition console (tr : trace appE) : trace cliE := omap console_event tr.

Lemma sys_part_app tr1 tr2 : sys_part (tr1 ++ tr2) = sys_part tr1 ++ sys_part tr2.
Proof. apply omap_app. Qed.
Lemma console_app tr1 tr2 : console (tr1 ++ tr2) = console tr1 ++ console tr2.
Proof. apply omap_app. Qed.
Lemma sys_part_sys tr : sys_part (map (lift_event (@Sys)) tr) = tr.
Proof. induction tr as [|[X e x] tr IH]; [done|]. unfold sys_part in *. simpl. by f_equal. Qed.
Lemma console_sys tr : console (map (lift_event (@Sys)) tr) = [].
Proof. induction tr as [|[X e x] tr IH]; [done|]. exact IH. Qed.

(** The part of a trace of [CliApp] that is not calls of providers. *)
Definition at_console (ev : event cliE) : bool :=
  match ev with Ev e _ => match e with Svc _ | Fl _ => false | _ => true end end.

Lemma console_host X (e : cliE X) tr x :
  runs (host X e) tr x -> console tr = List.filter at_console [Ev e x].
Proof.
  intros H. destruct e; cbn [host] in H;
    try (apply runs_lift in H as (tr0 & _ & ->); apply console_sys);
    apply runs_trigger in H as ->; done.
Qed.

Lemma console_realizes trE trF : realizes host trE trF -> console trF = List.filter at_console trE.
Proof.
  induction 1 as [|X e x trE t1 t2 H _ IH]; [done|].
  rewrite console_app, IH, (console_host _ _ _ _ H). cbn [List.filter]. by destruct (at_console (Ev e x)).
Qed.

(** Consent given in a run of [CliApp] is visible on the console. *)
Lemma accepted_console p d (h : trace cliE) : accepted p d h -> accepted p d (List.filter at_console h).
Proof.
  intros (before & text & answer & later & -> & Hp & Hc & Hl).
  exists (List.filter at_console before), text, answer, (List.filter at_console later).
  rewrite !List.filter_app. split_and!; [done..|].
  apply forallb_forall. intros ev [Hev _]%filter_In. by eapply forallb_forall in Hl.
Qed.

Lemma granted_console A o h X (e : cliE X) : granted A o h X e -> granted A o (List.filter at_console h) X e.
Proof.
  destruct e as [Y e|Y e|Y e| | | | | | | |]; try done.
  destruct e; try done; cbn [granted].
  - destruct signal.
    + intros [Hj [?|(? & ? & [?|?])]]; auto 10 using accepted_console.
    + intros [Hj [(? & ? & ? & [?|?])|(? & ? & [?|?])]]; auto 10 using accepted_console.
  - intros (Hj & u & Hu & H). split; [done|]. exists u. split; [done|].
    destruct H as [(? & ? & ? & [?|?])|(? & [?|?])]; [left|left|right|right]; auto 10 using accepted_console.
  - intros (Hj & u & Hu & ? & ? & ? & [?|?]); (split; [done|]); exists u; auto 10 using accepted_console.
Qed.

(** ** The calls behind signals and jobs *)

Lemma lift_sys_adds X (e : provE X) tr x :
  runs (lift (@Sys) (linux cfg X e)) tr x -> adds (signal_part (sys_part tr)) (option_list (accepted_of (Ev e x))).
Proof. intros (tr0 & H & ->)%runs_lift. rewrite sys_part_sys. by eapply linux_adds. Qed.

Lemma adds_kernel_signals tr l : adds (signal_part tr) l -> kernel_signals tr = l.
Proof. intros H. destruct (H None) as [h E]. specialize (E []). by rewrite !app_nil_r in E. Qed.

(** A call of the command line lets the kernel accept at most the signal it sends. *)
Lemma host_adds X (e : cliE X) tr x :
  runs (host X e) tr x ->
  exists sent, adds (signal_part (sys_part tr)) sent /\
    (forall signal, signal ∈ sent -> exists pid s, signal = (pid, nativeSignal s) /\
       forall A o h, granted A o h X e -> granted A o h _ (Svc (SignalProvider_send pid s))).
Proof.
  intros H. destruct e as [Y e|Y e|Y e| | | | | | | |]; cbn [host] in H.
  2: { apply lift_sys_adds in H. exists (option_list (accepted_of (Ev e x))). split; [done|].
       destruct e; cbn [accepted_of option_list]; try (intros ? []%elem_of_nil).
       destruct x; cbn [option_list]; [|intros ? []%elem_of_nil].
       intros s' ->%list_elem_of_singleton. eauto. }
  all: apply runs_trigger in H as ->; exists []; split; [|intros ? []%elem_of_nil].
  all: apply adds_nil.
Qed.

Lemma realizes_adds trE trF : realizes host trE trF -> exists sent, adds (signal_part (sys_part trF)) sent.
Proof.
  induction 1 as [|X e x trE t1 t2 H _ [l2 IH]]; [exists []; apply adds_nil|].
  apply host_adds in H as (l1 & H & _). exists (l1 ++ l2). rewrite sys_part_app, signal_part_app. by apply adds_app.
Qed.

Lemma kernel_signals_step X (e : cliE X) x t trE trF signal :
  runs (host X e) t x -> realizes host trE trF -> signal ∈ kernel_signals (sys_part (t ++ trF)) ->
  signal ∈ kernel_signals (sys_part t) \/ signal ∈ kernel_signals (sys_part trF).
Proof.
  intros (l1 & H1 & _)%host_adds (l2 & H2)%realizes_adds. rewrite sys_part_app.
  rewrite (adds_kernel_signals _ _ H1), (adds_kernel_signals _ _ H2), (adds_kernel_signals _ (l1 ++ l2)).
  - apply elem_of_app.
  - rewrite signal_part_app. by apply adds_app.
Qed.

(** The call that submits a job. *)
Definition job_call (j : service_job) : provE (Result unit) :=
  match j with
  | StartJob u => ServiceProvider_start u
  | StopJob u => ServiceProvider_stop u
  | RestartJob u => ServiceProvider_restart u
  end.

Lemma host_jobs X (e : cliE X) tr x job :
  runs (host X e) tr x -> job ∈ manager_jobs (sys_part tr) ->
  exists j, job = manager_job j /\ forall A o h, granted A o h X e -> granted A o h _ (Svc (job_call j)).
Proof.
  intros H Hj. destruct e as [Y e|Y e|Y e| | | | | | | |]; cbn [host] in H.
  2: { apply runs_lift in H as (tr0 & H & ->). rewrite sys_part_sys in Hj. apply linux_jobs in H.
       apply sublist_submseteq in H. eapply elem_of_submseteq in H; [|done].
       destruct e; cbn [job_of option_list map] in H; try (by apply elem_of_nil in H).
       all: apply list_elem_of_singleton in H as ->.
       - by exists (StartJob unit).
       - by exists (StopJob unit).
       - by exists (RestartJob unit). }
  all: apply runs_trigger in H as ->; by apply elem_of_nil in Hj.
Qed.

(** ** The guarantee of the program *)

Definition signal_granted (A : App) (o : Options) (h : trace cliE) (signal : Z * Z) : Prop :=
  exists pid s, signal = (pid, nativeSignal s) /\ granted A o h _ (Svc (SignalProvider_send pid s)).
Definition job_granted (A : App) (o : Options) (h : trace cliE) (job : str * str) : Prop :=
  exists j, job = manager_job j /\ granted A o h _ (Svc (job_call j)).

Context {parser : OptionParser parse}.

Lemma run_granted pid arguments :
  exists o, ((exists json, parse json arguments = inr o) \/ o = no_options) /\
    calls_after (granted (main_app pid turns) o) []
      (run_ (main_app pid turns) dump get_time mktime localtime_r parse arguments).
Proof.
  unfold run_. destruct (parse _ arguments) as [failure|o] eqn:E.
  - exists no_options. split; [by right|]. apply harmless_after.
    destruct (_ && _); (apply calls_ok_bind; [|done]); [apply print_json_harmless|apply io_harmless].
  - exists o. split; [eauto|]. by eapply dispatch_after, parsed_action.
Qed.

(** Before the command line starts, nothing is done. *)
Lemma main_runs arguments tr code :
  runs (main arguments) tr code ->
  exists pid prelude rest, tr = Ev (Sys (Pv GetPid)) pid :: prelude ++ rest /\ sys_part prelude = [] /\
    (sys_part rest = [] \/ console prelude = [] /\
     runs (interp host (run_ (main_app pid turns) dump get_time mktime localtime_r parse arguments)) rest code).
Proof.
  intros (t1 & pid & t2 & -> & ->%runs_trigger & H)%runs_bind.
  apply runs_bind in H as (t3 & started & t4 & -> & H & H').
  assert (Ht : sys_part t3 = [] /\ console t3 = []).
  { destruct tui; [|by destruct H as [-> ->]]. unfold interactive in H.
    case_bool_decide; [|by destruct H as [-> ->]].
    apply runs_bind in H as (t5 & input & t6 & -> & ->%runs_trigger & H).
    destruct input; [by apply runs_trigger in H as ->|by destruct H as [-> ->]]. }
  destruct Ht as [Hs Hc]. exists pid, t3, t4. split_and!; [done|done|]. destruct started; [left|by right].
  apply runs_bind in H' as (t5 & result & t6 & -> & ->%runs_trigger & H').
  destruct result as [|error]; [by destruct H' as [-> ->]|].
  by apply runs_bind in H' as (t7 & u & t8 & -> & ->%runs_trigger & -> & ->).
Qed.

(** In a run, something seen of the system was done by calls [now] that the options allow
after what was on the console before them. *)
Definition consented (arguments : list str) (tr : trace appE) (seen : trace appE -> Prop)
    (allowed : App -> Options -> trace cliE -> Prop) : Prop :=
  exists self json o before now after,
    parse json arguments = inr o /\ tr = Ev (Sys (Pv GetPid)) self :: before ++ now ++ after /\
    seen now /\ allowed (main_app self turns) o (console before).

(** What can be observed of the system, piece by piece. *)
Record observation {T} (obs : trace appE -> list T) (allowed : App -> Options -> trace cliE -> T -> Prop) : Prop := {
  obs_calls : forall tr, sys_part tr = [] -> obs tr = [];
  obs_skips : forall pid prelude rest, sys_part prelude = [] ->
    obs (Ev (Sys (Pv GetPid)) pid :: prelude ++ rest) = obs rest;
  obs_step : forall X (e : cliE X) x t trE trF y, runs (host X e) t x -> realizes host trE trF ->
    y ∈ obs (t ++ trF) -> y ∈ obs t \/ y ∈ obs trF;
  obs_granted : forall X (e : cliE X) x t y A o h,
    runs (host X e) t x -> y ∈ obs t -> granted A o h X e -> allowed A o h y;
  obs_none : forall A h y, ~ allowed A no_options h y;
}.

Lemma main_seen {T} (obs : trace appE -> list T) allowed arguments tr code y :
  observation obs allowed -> runs (main arguments) tr code -> y ∈ obs tr ->
  consented arguments tr (fun now => y ∈ obs now) (fun A o h => allowed A o h y).
Proof.
  intros [Hcalls Hskip Hstep Hgranted Hnone] (pid & prelude & rest & -> & Hs & Hrest)%main_runs Hy.
  rewrite Hskip in Hy by done.
  destruct Hrest as [Hr|[Hc (trE & Hr & Hre)%runs_interp]]; [by rewrite Hcalls in Hy; [apply elem_of_nil in Hy|]|].
  destruct (run_granted pid arguments) as (o & Ho & Hg).
  assert (Hnil : forall z, z ∈ obs [] -> False) by (intros z; by rewrite Hcalls; [intros ?%elem_of_nil|]).
  destruct (realizes_locate host obs Hnil Hstep trE rest y Hre Hy)
    as (before & X & e & x & after & F1 & F & F2 & Heq & -> & H1 & H2 & H3).
  assert (Ha : allowed (main_app pid turns) o (console F1) y).
  { eapply Hgranted; [done..|]. rewrite (console_realizes _ _ H1). apply granted_console.
    exact (calls_after_runs _ _ _ _ _ _ _ _ Hg Hr Heq). }
  destruct Ho as [[json Ho]| ->]; [|by apply Hnone in Ha].
  exists pid, json, o, (prelude ++ F1), F, F2. rewrite console_app, Hc, <- app_assoc. done.
Qed.

Lemma observe_signals : observation (fun tr => kernel_signals (sys_part tr)) signal_granted.
Proof.
  split.
  - by intros tr ->.
  - intros pid prelude rest Hs. change (Ev (Sys (Pv GetPid)) pid :: prelude ++ rest)
      with ([Ev (Sys (Pv GetPid)) pid] ++ prelude ++ rest). by rewrite !sys_part_app, Hs.
  - intros X e x t trE trF z. apply kernel_signals_step.
  - intros X e x t z A o h Hx Hz Hg. apply host_adds in Hx as (sent & Hadd & Hsent).
    rewrite (adds_kernel_signals _ _ Hadd) in Hz. destruct (Hsent z Hz) as (p & s & -> & Hgr).
    exists p, s. auto.
  - intros A h z (p & s & _ & Hg). destruct s; cbn in Hg; naive_solver.
Qed.

Lemma observe_jobs : observation (fun tr => manager_jobs (sys_part tr)) job_granted.
Proof.
  split.
  - by intros tr ->.
  - intros pid prelude rest Hs. change (Ev (Sys (Pv GetPid)) pid :: prelude ++ rest)
      with ([Ev (Sys (Pv GetPid)) pid] ++ prelude ++ rest). by rewrite !sys_part_app, Hs.
  - intros X e x t trE trF z _ _. rewrite sys_part_app, manager_jobs_app. apply elem_of_app.
  - intros X e x t z A o h Hx Hz Hg. destruct (host_jobs _ _ _ _ _ Hx Hz) as (j & -> & Hgr). exists j. auto.
  - intros A h z (j & _ & Hg). destruct j; cbn in Hg; naive_solver.
Qed.

End Main.

(** ** An example: [lx process kill 300], answered with yes *)

Definition app_sim (X : Type) (e : @appE plain_messages sys_config X) (s : sys_machine * list str) :
    option (X * (sys_machine * list str)) :=
  match e in appE _ X return option (X * (sys_machine * list str)) with
  | Sys _ e => match sys_sim _ e s.1 with Some (x, m) => Some (x, (m, s.2)) | None => None end
  | Console _ e =>
      match e in cliE X return option (X * (sys_machine * list str)) with
      | Io e => match e in streamE X return option (X * (sys_machine * list str)) with
                | Output _ | Diagnostic _ => Some (tt, s) end
      | ReadLine => Some (head s.2, (s.1, tail s.2))
      | _ => None
      end
  | IsATty _ _ => Some (true, s)
  end.

Definition kill_300 : Options :=
  mkOptions false false false false false false true false true false false false false false false
    None false None None None (-1) 300 false None 0 false None [] false None None 50 None false [] [].

Definition sim_main :=
  main (formats := plain_formats) (messages := plain_messages) (HO := elements_order) (socket_sort := stable_sockets)
    sys_config true 121 (fun _ => Some $"{}") (fun _ => None) (fun _ => 0) (fun _ => None)
    (parse_one [$"process"; $"kill"; $"300"] kill_300) [$"process"; $"kill"; $"300"].

